(* ===== verification/_CoqProject ===== *)
-Q . S2P
Prelude.v
Acts.v
ByteOrder.v
Asn1Int.v
Asn1Stream.v
Asn1Encoder.v
Asn1Decoder.v
Serialise.v
Errors.v
PacketDeserialiser.v
Crypto.v
SerialiseTypes.v
CertChain.v
Gcm.v
Envelope.v
KeyProtocol.v
TextUtil.v
Stores.v
Caches.v
KeyService.v
KeyServiceSafety.v
KeyDirectory.v
Framing.v
Handshake.v
Connection.v
ConnectionSafety.v
TlsStream.v
TlsStreamSafety.v
PacketStorage.v
PacketStorageSafety.v
PacketTransport.v
PacketTransportSafety.v
LineEditor.v
Wav.v
Futures.v
EventLoop.v
