(* ===== verification/Prelude.v ===== *)
(** * Verification of the securepath base libraries

    The program is a set of C++ libraries ([src/securepath]) for peer-to-peer
    programs: a DER serialisation library, keys and certificates, a TLS 1.3
    transport with an authentication of its own, stores of keys and settings in
    a database, and two services on top, a packet relay and a key server.
    This library translates them function by function and proves what makes
    each part correct, and what the parts promise to each other.

    ** Conventions

    - An octet is a [Z] between 0 and 255, a string or a vector the list of its
      octets.  Integers are [Z]; where the code has a machine width the
      wrap-around is written out ([wrap], [swrap], [cast]).
    - A C++ call that may throw is a [result], a method that changes its object
      and may throw an [sexn]: the state a throw leaves behind is kept.
      Exceptions are the constructors of one type per library ([ser_exn],
      [crypto_exn], [store_exn]).
    - An object with asynchronous operations is a state with [act]s
      ([Acts.v]): a completion handler is an event, what the code starts or
      tells its owner is an action.  What callbacks of the owner do is an
      argument of the event, so the theorems hold for every owner.
    - Threads that share an object under a mutex are interleaved steps, each one
      critical section long; a run is any list of steps.
    - Code of others is an interface: Botan's signatures and hash ([Primitives]
      with [SignatureLaw]), its ciphers ([Aes] with [AesGcm]), key agreement and
      ML-KEM ([Kem] with [KemLaw]), HMAC ([Mac]), its TLS channel ([botan_call]:
      any sequence of callbacks), SQLite ([SqlTable], [PacketTable]: a statement is
      carried out or fails without effect).

    ** The parts, bottom up

    - [Prelude] results, monads, widths, digits, lists; [Acts] handlers and
      triples.
    - [ByteOrder] ([util/byte_order.hpp]); [TextUtil] ([util/conversions.cpp],
      [util/string_util.cpp]).
    - [Asn1Int], [Asn1Stream], [Asn1Encoder], [Asn1Decoder], [Serialise]
      ([serialisation/]): the DER codec on octet streams.  [buffered_stream]
      refines a cursor; the encoder's output is the grammar's; the decoder
      inverts it within its limits.  A type's [serialise] is a value of [codec]
      and the class [Element] is what an element promises the enclosing one.
    - [SerialiseTypes]: the types that can be serialised as a universe, with the
      codec the overloads give each, a reference encoder and the limits of the
      format, which do not mention codecs; the instances of [Element] are
      assembled by recursion on the type.
    - [PacketDeserialiser] ([serialisation/util.hpp]): packets out of a stream
      cut anywhere.
    - [Crypto], [CertChain] ([crypto/]): keys, signatures, certificates,
      revocations; [is_authentic] is compared with the inductive relation
      [linked].  They ask stores through [KeyStore] and [CertStore].
    - [Stores] ([crypto/*_database.cpp], [common/key_value_database.cpp], values
      of [database/sqlite/connection.cpp]) and [Caches] ([crypto/*_cache.cpp],
      [common/key_value_cache.cpp]): the interface [Access] with its laws is what
      a store promises; the databases implement it over [SqlTable], a cache over
      any stores, so caches over databases follow.
    - [Framing], [Handshake], [Connection], [ConnectionSafety], [TlsStream],
      [TlsStreamSafety] ([network/encryption/]): the connection runs the
      handshake over frames over the stream.
    - [PacketStorage], [PacketStorageSafety], [PacketTransport],
      [PacketTransportSafety] ([infrastructure/packet_transport]): the relay's
      store with its database thread, and clients, server and links together.
    - [Errors] ([util/error.*], the categories, [network/net_error.hpp]): error
      codes and what is left of them after the wire.
    - [KeyProtocol], [KeyService], [KeyServiceSafety], [KeyDirectory]
      ([infrastructure/key_server], [infrastructure/key_client]): the messages and
      their format, the server with its store and connections and its clients
      with their promises as one transition system, and what it promises.  The
      store is the interface [Access] with what [KeyHolding] and [KeyKeeping] ask
      of it.
    - [EventLoop] ([event_system/event_loop.cpp], [event_handler.cpp]): the loop's
      members and its thread, a critical section a step.
    - [Futures] ([util/future.hpp]): a promise, its future and the coroutine that
      awaits it.  [LineEditor] ([console/input_handler.cpp], [input_line.cpp]): the
      line editor, which refines a text with a cursor.  [Wav]
      ([audio/util/detail/wav.cpp], [riff_format.hpp]): files of sound over a
      model of [std::istream].
    - [Gcm] ([crypto/aes_gcm.cpp], [aes.cpp]): the ciphers over the class [Aes]
      with [AesGcm].  [Envelope] ([crypto/detail/hybrid_kem.cpp],
      [private_key.cpp], [public_key.cpp], [encrypted_content.cpp],
      [encrypted_key.cpp], [enveloped_content.cpp], [key_generation.cpp]):
      encryption to keys and of contents, over the class [Kem] with [KemLaw].

    ** What the theorems show

    - Authentication: a handshake succeeds only with the credentials of the key
      it reports, bound to this TLS session; a connection is up only after such
      a handshake; two honest ends succeed.  Chains are accepted exactly by the
      rules, and chains the library builds are accepted.
    - Contracts: the owner of a connection and the user of a TLS stream hear
      their callbacks in an order given by an automaton, whatever the network
      and they themselves do; octets arrive in order, calls complete once.
    - Delivery: a packet given to the relay is not lost and reaches nobody but
      its receiver; its store tells a sender only what is durable.
    - Data: round trips of every codec, exact error behaviour of limits, and the
      stores behave like maps.
    - The key service: a key found is authentic and was registered, a key
      registered is found, an answer belongs to its call, a call that was sent is
      answered or fails with its connection.
    - The event loop: a removed receiver is not called any more, events are handled
      in order, the thread does not sleep over one, and a queue is worked off.
    - Small parts: an awaited future resumes its coroutine once, the line editor
      never leaves its string, a file of sound is read back as written, and what
      loads has a supported format.
    - Encryption: a message in pieces is the one-shot AEAD's, what is encrypted to
      keys is decrypted by their holders and by nobody without a key, and what
      decrypts was sealed.
    - Where the code does something else than it means to, a theorem states
      what it does ([string_limit_bypassed], [uint64_overlong_truncated],
      [optional_explicit_leaves_element_open], [unseen_revocation_lost],
      [close_abandons_calls],
      [in_place_tag]).

    ** Fuel and bounds

    [check_loop] runs with the length of its input plus one, and every round
    that goes on eats an octet, so the fuel is never what ends it.
    [build_list] runs with 65537 rounds: certificate levels are 16-bit numbers
    that grow strictly ([create_certificate_chain_sound] proves that it does not
    run dry).  [convert_loop], [split_loop] and [tokenise_loop] run with the
    size of their input, of which a round eats at least one unit
    ([text_always_valid] and [split_view_pieces] hold for every input).  The
    depth of nested elements is at most [max_structure_depth], as in the code.
    [Wav.load] runs with the length of the file plus one rounds: a chunk that
    leaves the stream good eats the eight octets of its header
    ([loaded_files_decode] holds for every file).

    ** Not modelled

    - The code that calls out: Botan's bindings, sockets and resolvers,
      [audio/audio_lib] for ALSA and DirectSound, [console]'s curses calls, the
      [main] functions, logging, file input and output.
    - Floating point ([double] in the codec, the resampler) and calendar time
      ([time_point]).
    - Printing ([operator<<] and formatters), move and copy members, and
      assertions of the code that the theorems show to hold. *)

From stdpp Require Import base list numbers strings gmap.
From Stdlib Require Import ZArith Lia.

Open Scope Z_scope.

(** ** Results and the state-and-exception monad *)

(** A C++ call either returns or throws. *)
Inductive result (E A : Type) : Type :=
| Ok (a : A)
| Throw (e : E).
Arguments Ok {E A} a.
Arguments Throw {E A} e.

Definition is_ok {E A} (r : result E A) : bool :=
  match r with Ok _ => true | Throw _ => false end.

#[export] Instance result_ret E : MRet (result E) := fun A a => Ok a.
#[export] Instance result_bind E : MBind (result E) :=
  fun A B f r => match r with Ok a => f a | Throw e => Throw e end.

(** State that survives a throw: an object mutated before an exception keeps
    the mutation, which is what the destructors and catch blocks see. *)
Definition sexn (S E A : Type) : Type := S -> result E A * S.

#[export] Instance sexn_ret S E : MRet (sexn S E) := fun A a s => (Ok a, s).
#[export] Instance sexn_bind S E : MBind (sexn S E) :=
  fun A B f m s =>
    match m s with
    | (Ok a, s') => f a s'
    | (Throw e, s') => (Throw e, s')
    end.

Definition throw {S E A} (e : E) : sexn S E A := fun s => (Throw e, s).
Definition get_st {S E} : sexn S E S := fun s => (Ok s, s).
Definition put_st {S E} (s : S) : sexn S E unit := fun _ => (Ok tt, s).
Definition lift_res {S E A} (r : result E A) : sexn S E A := fun s => (r, s).

(** [try_catch m h]: the handler sees the state the throw left behind. *)
Definition try_catch {S E A} (m : sexn S E A) (h : E -> sexn S E A) : sexn S E A :=
  fun s => match m s with
           | (Ok a, s') => (Ok a, s')
           | (Throw e, s') => h e s'
           end.

(** [with_dtor m d]: run [m], then the destructor [d] on both exits; [d] is
    told whether an exception is in flight and cannot throw. *)
Definition with_dtor {S E A} (m : sexn S E A) (d : bool -> S -> S) : sexn S E A :=
  fun s => match m s with
           | (Ok a, s') => (Ok a, d false s')
           | (Throw e, s') => (Throw e, d true s')
           end.

Lemma bind_ok {S E A B} (m : sexn S E A) (f : A -> sexn S E B) s a s' :
  m s = (Ok a, s') -> (m ≫= f) s = f a s'.
Proof. intros H. unfold mbind, sexn_bind. by rewrite H. Qed.

Lemma bind_throw {S E A B} (m : sexn S E A) (f : A -> sexn S E B) s e s' :
  m s = (Throw e, s') -> (m ≫= f) s = (Throw e, s').
Proof. intros H. unfold mbind, sexn_bind. by rewrite H. Qed.

(** ** Octets and machine integers *)

Abbreviation octets := (list Z).

Definition is_octet (b : Z) : Prop := 0 <= b < 256.

(** Conversion to an unsigned w-bit type, and to a signed one. *)
Definition wrap (w z : Z) : Z := z mod 2 ^ w.
Definition swrap (w z : Z) : Z := (z + 2 ^ (w - 1)) mod 2 ^ w - 2 ^ (w - 1).

Lemma wrap_small w z : 0 <= z < 2 ^ w -> wrap w z = z.
Proof. intros. by apply Z.mod_small. Qed.

Lemma swrap_small w z : 0 < w -> - 2 ^ (w - 1) <= z < 2 ^ (w - 1) -> swrap w z = z.
Proof.
  intros Hw Hz. unfold swrap.
  assert (2 ^ w = 2 * 2 ^ (w - 1)) as E
    by (replace w with (Z.succ (w - 1)) at 1 by lia; rewrite Z.pow_succ_r; lia).
  rewrite Z.mod_small; lia.
Qed.

Lemma wrap_range w z : 0 <= w -> 0 <= wrap w z < 2 ^ w.
Proof. intros. apply Z.mod_pos_bound. lia. Qed.

(** An integral C++ type: its size in octets and its signedness. *)
Record int_type : Type := IntType { it_size : nat; it_signed : bool }.

Definition it_bits (t : int_type) : Z := 8 * Z.of_nat (it_size t).

(** [static_cast<T>(z)] (modular since C++20). *)
Definition cast (t : int_type) (z : Z) : Z :=
  if it_signed t then swrap (it_bits t) z else wrap (it_bits t) z.

Definition in_range (t : int_type) (z : Z) : Prop :=
  if it_signed t then - 2 ^ (it_bits t - 1) <= z < 2 ^ (it_bits t - 1)
  else 0 <= z < 2 ^ it_bits t.

Definition i8 := IntType 1 true.
Definition u8 := IntType 1 false.
Definition i16 := IntType 2 true.
Definition u16 := IntType 2 false.
Definition i32 := IntType 4 true.
Definition u32 := IntType 4 false.
Definition i64 := IntType 8 true.
Definition u64 := IntType 8 false.

Lemma cast_in_range t z : (0 < it_size t)%nat -> in_range t z -> cast t z = z.
Proof.
  unfold in_range, cast. intros Hs H. destruct (it_signed t).
  - apply swrap_small; [unfold it_bits; lia|done].
  - by apply wrap_small.
Qed.

Lemma pow2_half w : 0 < w -> 2 ^ w = 2 * 2 ^ (w - 1).
Proof. intros. replace w with (Z.succ (w - 1)) at 1 by lia. rewrite Z.pow_succ_r; lia. Qed.

(** Casting to a signed type undoes the conversion to the unsigned one. *)
Lemma cast_wrap t z : (0 < it_size t)%nat -> in_range t z -> cast t (wrap (it_bits t) z) = z.
Proof.
  intros Hs H. unfold cast, in_range, wrap in *.
  assert (0 < it_bits t) as Hb by (unfold it_bits; lia).
  pose proof (pow2_half _ Hb) as E. pose proof (Z.pow_pos_nonneg 2 (it_bits t - 1)).
  destruct (it_signed t).
  - unfold swrap. rewrite Zplus_mod_idemp_l. rewrite Z.mod_small; lia.
  - unfold wrap. rewrite Z.mod_mod by lia. by rewrite Z.mod_small.
Qed.

(** Size of a container as the code computes with it. *)
Definition zlen {A} (l : list A) : Z := Z.of_nat (length l).

Definition ztake {A} (n : Z) (l : list A) : list A := take (Z.to_nat n) l.
Definition zdrop {A} (n : Z) (l : list A) : list A := drop (Z.to_nat n) l.

Lemma zlen_nil {A} : zlen (@nil A) = 0.
Proof. done. Qed.
Lemma zlen_cons {A} (x : A) l : zlen (x :: l) = zlen l + 1.
Proof. unfold zlen. simpl. lia. Qed.
Lemma zlen_app {A} (l k : list A) : zlen (l ++ k) = zlen l + zlen k.
Proof. unfold zlen. rewrite length_app. lia. Qed.
Lemma zlen_nonneg {A} (l : list A) : 0 <= zlen l.
Proof. unfold zlen. lia. Qed.
Lemma zlen_ztake {A} n (l : list A) : 0 <= n <= zlen l -> zlen (ztake n l) = n.
Proof. unfold zlen, ztake. intros. rewrite length_take. lia. Qed.
Lemma zlen_zdrop {A} n (l : list A) : 0 <= n <= zlen l -> zlen (zdrop n l) = zlen l - n.
Proof. unfold zlen, zdrop. intros. rewrite length_drop. lia. Qed.
Lemma ztake_zdrop {A} n (l : list A) : ztake n l ++ zdrop n l = l.
Proof. apply take_drop. Qed.
Lemma zdrop_zdrop {A} n m (l : list A) :
  0 <= n -> 0 <= m -> zdrop n (zdrop m l) = zdrop (m + n) l.
Proof. intros. unfold zdrop. rewrite drop_drop. f_equal. lia. Qed.
Lemma zdrop_0 {A} (l : list A) : zdrop 0 l = l.
Proof. done. Qed.
Lemma ztake_app {A} (l k : list A) : ztake (zlen l) (l ++ k) = l.
Proof. unfold ztake, zlen. rewrite Nat2Z.id. apply take_app_length. Qed.
Lemma zdrop_app {A} (l k : list A) : zdrop (zlen l) (l ++ k) = k.
Proof. unfold zdrop, zlen. rewrite Nat2Z.id. apply drop_app_length. Qed.
Lemma ztake_all {A} (l : list A) : ztake (zlen l) l = l.
Proof. unfold ztake, zlen. rewrite Nat2Z.id. by apply take_ge. Qed.
Lemma ztake_ge {A} n (l : list A) : zlen l <= n -> ztake n l = l.
Proof. unfold zlen, ztake. intros. apply take_ge. lia. Qed.
Lemma zdrop_all {A} n (l : list A) : zlen l <= n -> zdrop n l = [].
Proof. unfold zlen, zdrop. intros. apply drop_ge. lia. Qed.
Lemma zlen_zero {A} (l : list A) : zlen l = 0 -> l = [].
Proof. destruct l; [done|]. rewrite zlen_cons. pose proof (zlen_nonneg l). lia. Qed.

(** [vector::resize]: cut or extend with zeros. *)
Definition resize (n : Z) (v : octets) : octets := ztake n v ++ repeat 0 (Z.to_nat (n - zlen v)).

Lemma zlen_repeat {A} (x : A) n : zlen (repeat x n) = Z.of_nat n.
Proof. unfold zlen. by rewrite repeat_length. Qed.

Create Rewrite HintDb zlen.
#[export] Hint Rewrite @zlen_nil @zlen_cons @zlen_app @zlen_repeat : zlen.

(** Linear arithmetic up to container sizes. *)
Ltac zlen_lia :=
  autorewrite with zlen in *;
  repeat match goal with
         | |- context [zlen ?l] => lazymatch goal with
            | _ : 0 <= zlen l |- _ => fail
            | _ => pose proof (zlen_nonneg l) end
         | _ : context [zlen ?l] |- _ => lazymatch goal with
            | _ : 0 <= zlen l |- _ => fail
            | _ => pose proof (zlen_nonneg l) end
         end; lia.

(** Closes a ground fact by evaluation (used on concrete inputs). *)
Ltac ground :=
  match goal with
  | |- Forall _ _ => repeat constructor; ground
  | |- _ => solve [vm_compute; repeat split; first [reflexivity | discriminate | lia]]
  end.

Lemma zlen_resize n v : 0 <= n -> zlen (resize n v) = n.
Proof.
  intros Hn. unfold resize, ztake, zlen. rewrite length_app, length_take, repeat_length. lia.
Qed.

(** ** Big-endian numbers: the reference the codecs are compared with *)

Definition be_val (bs : octets) : Z := fold_left (fun acc b => acc * 256 + b) bs 0.

Fixpoint be_digits (n : nat) (z : Z) : octets :=
  match n with
  | O => []
  | S k => be_digits k (z / 256) ++ [z mod 256]
  end.

Lemma be_val_snoc bs b : be_val (bs ++ [b]) = be_val bs * 256 + b.
Proof. unfold be_val. by rewrite fold_left_app. Qed.

Lemma be_digits_length n z : length (be_digits n z) = n.
Proof. revert z; induction n; intros z; simpl; [done|]. rewrite length_app, IHn. simpl. lia. Qed.

Lemma zlen_be_digits n z : zlen (be_digits n z) = Z.of_nat n.
Proof. unfold zlen. by rewrite be_digits_length. Qed.
#[export] Hint Rewrite zlen_be_digits : zlen.

Lemma pow256_succ n : 2 ^ (8 * Z.of_nat (S n)) = 2 ^ (8 * Z.of_nat n) * 256.
Proof.
  replace (8 * Z.of_nat (S n)) with (8 * Z.of_nat n + 8) by lia.
  rewrite Z.pow_add_r by lia. done.
Qed.

Lemma be_val_digits n z : be_val (be_digits n z) = z mod 2 ^ (8 * Z.of_nat n).
Proof.
  revert z; induction n; intros z; [simpl; by rewrite Z.mod_1_r|].
  cbn [be_digits]. rewrite be_val_snoc, IHn, pow256_succ.
  rewrite (Z.mul_comm (2 ^ _) 256), Z.rem_mul_r by lia. lia.
Qed.

Lemma be_digits_octets n z : Forall is_octet (be_digits n z).
Proof.
  revert z; induction n; intros z; simpl; [constructor|].
  apply Forall_app; split; [apply IHn|]. constructor; [|constructor].
  apply Z.mod_pos_bound. lia.
Qed.
#[export] Hint Resolve be_digits_octets : core.

Lemma be_val_bound bs : Forall is_octet bs -> 0 <= be_val bs < 2 ^ (8 * zlen bs).
Proof.
  induction bs as [|b bs IH] using rev_ind; [done|].
  intros [H1 H2]%Forall_app. inversion H2 as [|? ? Hb _]; subst. specialize (IH H1).
  rewrite be_val_snoc. unfold zlen in *. rewrite length_app. simpl.
  replace (length bs + 1)%nat with (S (length bs)) by lia. rewrite pow256_succ.
  unfold is_octet in Hb. lia.
Qed.

Lemma be_digits_val bs : Forall is_octet bs -> be_digits (length bs) (be_val bs) = bs.
Proof.
  induction bs as [|b bs IH] using rev_ind; [done|].
  intros [H1 H2]%Forall_app. inversion H2 as [|? ? Hb _]; subst.
  rewrite length_app. simpl. replace (length bs + 1)%nat with (S (length bs)) by lia.
  cbn [be_digits]. rewrite be_val_snoc. unfold is_octet in Hb.
  replace ((be_val bs * 256 + b) / 256) with (be_val bs)
    by (rewrite Z.div_add_l, Z.div_small; lia).
  replace ((be_val bs * 256 + b) mod 256) with b
    by (rewrite Z.add_comm, Z.mod_add, Z.mod_small; lia).
  by rewrite IH.
Qed.

Lemma be_val_inj bs bs' :
  Forall is_octet bs -> Forall is_octet bs' -> length bs = length bs' ->
  be_val bs = be_val bs' -> bs = bs'.
Proof.
  intros H H' HL HV. rewrite <- (be_digits_val bs), <- (be_digits_val bs') by done.
  by rewrite HL, HV.
Qed.
