(* ===== verification/Acts.v ===== *)
(** Event handlers as state-passing acts, and Hoare-style triples for them.

    An [act] changes the state of a component and produces the actions it
    takes, oldest first.  A monitor is an automaton over the actions; a triple
    says that the monitor accepts what an act does and relates the states
    before and after, of the component and of the monitor. *)

From stdpp Require Import base list numbers.
From Stdlib Require Import ZArith Lia.

Section acts.
Context {S A : Type}.

Definition act : Type := S -> S * list A.

Definition skip_act : act := fun s => (s, []).
Definition emit (a : A) : act := fun s => (s, [a]).
Definition update (f : S -> S) : act := fun s => (f s, []).
Definition andthen (f g : act) : act := fun s =>
  let '(s1, a1) := f s in let '(s2, a2) := g s1 in (s2, a1 ++ a2).
Definition when (p : S -> bool) (f : act) : act := fun s => if p s then f s else (s, []).
End acts.
Arguments act S A : clear implicits.

Declare Scope act_scope.
Delimit Scope act_scope with act.
Infix ";>" := andthen (at level 60, right associativity) : act_scope.
Open Scope act_scope.

Lemma andthen_assoc {S A} (f g h : act S A) s : ((f ;> g) ;> h) s = (f ;> g ;> h) s.
Proof.
  unfold andthen. destruct (f s) as [s1 a1]. destruct (g s1) as [s2 a2]. destruct (h s2) as [s3 a3].
  by rewrite app_assoc.
Qed.

Lemma andthen_assoc4 {S A} (f g h r : act S A) s : ((f ;> g ;> h) ;> r) s = (f ;> g ;> h ;> r) s.
Proof.
  unfold andthen. destruct (f s) as [s1 a1]. destruct (g s1) as [s2 a2]. destruct (h s2) as [s3 a3]. destruct (r s3) as [s4 a4].
  by rewrite !app_assoc.
Qed.

Lemma andthen_fst {S A} (f g : act S A) s : fst ((f ;> g) s) = fst (g (fst (f s))).
Proof. unfold andthen. destruct (f s) as [s1 a1]. cbn. by destruct (g s1). Qed.

Lemma andthen_snd {S A} (f g : act S A) s : snd ((f ;> g) s) = snd (f s) ++ snd (g (fst (f s))).
Proof. unfold andthen. destruct (f s) as [s1 a1]. cbn. by destruct (g s1). Qed.

(** ** Monitors and triples *)
Section triples.
Context {S A M : Type} (step : M -> A -> option M).

Fixpoint accepts (k : M) (log : list A) : option M :=
  match log with
  | [] => Some k
  | a :: log => match step k a with Some k' => accepts k' log | None => None end
  end.

Lemma accepts_app k log1 log2 k' : accepts k log1 = Some k' -> accepts k (log1 ++ log2) = accepts k' log2.
Proof.
  revert k; induction log1 as [|a log1 IH]; intros k; cbn; [by intros [= ->]|].
  destruct (step k a); [apply IH|done].
Qed.

Definition assertion : Type := S -> M -> Prop.

Definition triple (P : assertion) (f : act S A) (Q : assertion) : Prop :=
  forall s k, P s k -> exists k', accepts k (snd (f s)) = Some k' /\ Q (fst (f s)) k'.

Lemma triple_skip P : triple P skip_act P.
Proof. intros s k HP. by exists k. Qed.

Lemma triple_emit (P Q : assertion) a :
  (forall s k, P s k -> exists k', step k a = Some k' /\ Q s k') -> triple P (emit a) Q.
Proof. intros Ha s k HP. destruct (Ha s k HP) as (k' & E & HQ). exists k'. cbn. by rewrite E. Qed.

(** An action the monitor does not look at. *)
Lemma triple_quiet (P : assertion) a : (forall k, step k a = Some k) -> triple P (emit a) P.
Proof. intros Ha. apply triple_emit. intros s k HP. by exists k. Qed.

Lemma triple_update (P Q : assertion) f : (forall s k, P s k -> Q (f s) k) -> triple P (update f) Q.
Proof. intros Hf s k HP. exists k. split; [done|]. by apply Hf. Qed.

Lemma triple_update_wp (Q : assertion) f : triple (fun s k => Q (f s) k) (update f) Q.
Proof. by apply triple_update. Qed.

Lemma triple_seq P Q R f g : triple P f Q -> triple Q g R -> triple P (f ;> g) R.
Proof.
  intros Hf Hg s k HP. destruct (Hf s k HP) as (k1 & E1 & HQ). destruct (Hg _ _ HQ) as (k2 & E2 & HR).
  exists k2. by rewrite andthen_fst, andthen_snd, (accepts_app _ _ _ _ E1).
Qed.

Lemma triple_when P Q p f :
  triple (fun s k => P s k /\ p s = true) f Q -> (forall s k, P s k -> p s = false -> Q s k) -> triple P (when p f) Q.
Proof.
  intros Hf Hn s k HP. unfold when. destruct (p s) eqn:E; [by apply Hf|]. exists k. split; [done|]. by apply Hn.
Qed.

Lemma triple_pre (P P' Q : assertion) f : (forall s k, P s k -> P' s k) -> triple P' f Q -> triple P f Q.
Proof. intros HP Hf s k HPs. apply Hf. by apply HP. Qed.

Lemma triple_post (P Q Q' : assertion) f : (forall s k, Q' s k -> Q s k) -> triple P f Q' -> triple P f Q.
Proof. intros HQ Hf s k HP. destruct (Hf s k HP) as (k' & E & Hq). exists k'. split; [done|]. by apply HQ. Qed.

(** An act that looks at the state first. *)
Lemma triple_fun (P Q : assertion) (f : act S A) :
  (forall s k, P s k -> exists g : act S A, f s = g s /\ triple (fun s' k' => s' = s /\ k' = k) g Q) -> triple P f Q.
Proof. intros Hf s k HP. destruct (Hf s k HP) as (g & E & Hg). rewrite E. by apply Hg. Qed.
End triples.
