(* ===== verification/ByteOrder.v ===== *)
(** Byte order conversion: [securepath/util/byte_order.hpp].

    [to_endian]/[from_endian] for an integral type, the bounded
    [endian_export] writer and the [endian_import] reader, their round trips
    and their bounds behaviour. *)

From stdpp Require Import base list numbers strings.
From Stdlib Require Import ZArith Lia.
From S2P Require Import Prelude.
Open Scope Z_scope.

(** ** endian_convert *)

Inductive endian : Type := big | little.

(** [std::out_of_range], the only exception of the file. *)
Inductive out_of_range : Type := OutOfRange (what : string).

(** The loop of [endian_convert<little>::to_endian]: [value & 0xFF] goes to
    [dest[i]], then [value >>= 8] (skipped for one-octet types). *)
Fixpoint store_le (size : nat) (n : nat) (value : Z) : octets :=
  match n with
  | O => []
  | S k => Z.land value 255 :: store_le size k (if (1 <? size)%nat then Z.shiftr value 8 else value)
  end.

(** The same loop of [endian_convert<big>::to_endian] fills [dest] from its
    last octet down. *)
Fixpoint store_be (size : nat) (n : nat) (value : Z) : octets :=
  match n with
  | O => []
  | S k => store_be size k (if (1 <? size)%nat then Z.shiftr value 8 else value) ++ [Z.land value 255]
  end.

Definition to_endian (e : endian) (t : int_type) (v : Z) : octets :=
  let value := wrap (it_bits t) v in
  match e with
  | little => store_le (it_size t) (it_size t) value
  | big => store_be (it_size t) (it_size t) value
  end.

(** [value |= source[i] << shift] with [shift] growing by 8; the shift is done
    in the unsigned type of T. *)
Fixpoint load_loop (bits : Z) (bs : octets) (shift value : Z) : Z :=
  match bs with
  | [] => value
  | b :: bs' => load_loop bits bs' (shift + 8) (Z.lor value (wrap bits (Z.shiftl b shift)))
  end.

(** [source] holds [sizeof(T)] octets; the big-endian loop reads
    [source[sizeof(T)-i-1]]. *)
Definition from_endian (e : endian) (t : int_type) (source : octets) : Z :=
  let bs := match e with little => source | big => rev source end in
  cast t (load_loop (it_bits t) bs 0 0).

(** ** endian_export *)

Record endian_export : Type := EndianExport {
  ex_buf : octets;      (** the memory at [p_] *)
  ex_size : Z;          (** [size_] *)
  ex_pos : Z            (** [pos_] *)
}.

Definition new_export (p : octets) (s : Z) : endian_export := EndianExport p s 0.

(** Overwrite memory at an offset. *)
Definition write_at (pos : Z) (bs buf : octets) : octets :=
  ztake pos buf ++ bs ++ zdrop (pos + zlen bs) buf.

Definition put (e : endian) (t : int_type) (v : Z) : sexn endian_export out_of_range unit := fun s =>
  let sz := Z.of_nat (it_size t) in
  if ex_size s <? ex_pos s + sz then (Throw (OutOfRange "endian_export"), s)
  else (Ok tt, EndianExport (write_at (ex_pos s) (to_endian e t v) (ex_buf s)) (ex_size s) (ex_pos s + sz)).

Fixpoint put_array (e : endian) (t : int_type) (vs : list Z) : sexn endian_export out_of_range unit :=
  match vs with
  | [] => mret tt
  | v :: vs' => put e t v ;; put_array e t vs'
  end.

(** [translate_subtype]: the sub-object writes into [p_+pos_] through its own
    exporter and reports how far it got. *)
Definition put_subtype (w : sexn endian_export out_of_range unit) : sexn endian_export out_of_range unit := fun s =>
  match w (new_export (zdrop (ex_pos s) (ex_buf s)) (ex_size s - ex_pos s)) with
  | (Ok _, s') => (Ok tt, EndianExport (ztake (ex_pos s) (ex_buf s) ++ ex_buf s') (ex_size s) (ex_pos s + ex_pos s'))
  | (Throw x, s') => (Throw x, EndianExport (ztake (ex_pos s) (ex_buf s) ++ ex_buf s') (ex_size s) (ex_pos s))
  end.

(** ** endian_import *)

Record endian_import : Type := EndianImport { im_buf : octets; im_size : Z; im_pos : Z }.

Definition new_import (p : octets) (s : Z) : endian_import := EndianImport p s 0.

Definition get (e : endian) (t : int_type) : sexn endian_import out_of_range Z := fun s =>
  let sz := Z.of_nat (it_size t) in
  if im_size s <? im_pos s + sz then (Throw (OutOfRange "endian_import"), s)
  else (Ok (from_endian e t (ztake sz (zdrop (im_pos s) (im_buf s)))),
        EndianImport (im_buf s) (im_size s) (im_pos s + sz)).

Fixpoint get_array (e : endian) (t : int_type) (n : nat) : sexn endian_import out_of_range (list Z) :=
  match n with
  | O => mret []
  | S k => v ← get e t; vs ← get_array e t k; mret (v :: vs)
  end.

Definition get_subtype {A} (r : sexn endian_import out_of_range A) : sexn endian_import out_of_range A := fun s =>
  match r (new_import (zdrop (im_pos s) (im_buf s)) (im_size s - im_pos s)) with
  | (Ok a, s') => (Ok a, EndianImport (im_buf s) (im_size s) (im_pos s + im_pos s'))
  | (Throw x, _) => (Throw x, s)
  end.

(** ** Lemmas *)

Lemma land_255 z : Z.land z 255 = z mod 256.
Proof. change 255 with (Z.ones 8). rewrite Z.land_ones by lia. done. Qed.

Lemma shiftr_8 z : Z.shiftr z 8 = z / 256.
Proof. rewrite Z.shiftr_div_pow2 by lia. done. Qed.

Lemma store_be_digits size n v :
  (n <= 1)%nat \/ (1 < size)%nat -> store_be size n v = be_digits n v.
Proof.
  revert v; induction n as [|n IH]; intros v H; [done|]. cbn [store_be be_digits].
  rewrite land_255. f_equal. destruct (Nat.ltb_spec 1 size) as [|Hs].
  - rewrite shiftr_8. apply IH. lia.
  - destruct n; [done|lia].
Qed.

Lemma store_le_be size n v : store_le size n v = rev (store_be size n v).
Proof.
  revert v; induction n as [|n IH]; intros v; [done|]. cbn [store_le store_be].
  rewrite rev_app_distr. simpl. by rewrite IH.
Qed.

(** The stores agree with the reference digits. *)
Lemma to_endian_big t v : to_endian big t v = be_digits (it_size t) (wrap (it_bits t) v).
Proof. unfold to_endian. apply store_be_digits. lia. Qed.

Lemma to_endian_little t v : to_endian little t v = rev (to_endian big t v).
Proof. unfold to_endian. apply store_le_be. Qed.

Lemma to_endian_length e t v : length (to_endian e t v) = it_size t.
Proof.
  destruct e; [|rewrite to_endian_little, length_rev];
    rewrite to_endian_big; apply be_digits_length.
Qed.

Lemma zlen_to_endian e t v : zlen (to_endian e t v) = Z.of_nat (it_size t).
Proof. unfold zlen. by rewrite to_endian_length. Qed.
#[export] Hint Rewrite zlen_to_endian : zlen.

Lemma lor_disjoint a b n : 0 <= n -> 0 <= a < 2 ^ n -> 0 <= b -> Z.lor a (Z.shiftl b n) = a + b * 2 ^ n.
Proof.
  intros Hn Ha Hb. rewrite <- Z.add_lor_land, Z.shiftl_mul_pow2 by lia.
  replace (Z.land a (b * 2 ^ n)) with 0; [lia|].
  symmetry. apply Z.bits_inj'. intros k Hk. rewrite Z.land_spec, Z.bits_0.
  destruct (Z.lt_ge_cases k n).
  - rewrite Z.mul_pow2_bits_low by lia. apply andb_false_r.
  - destruct (Z.eq_dec a 0) as [->|]; [by rewrite Z.bits_0|].
    rewrite (Z.bits_above_log2 a k); [done|lia|].
    assert (Z.log2 a < n) by (apply Z.log2_lt_pow2; lia). lia.
Qed.

Lemma load_loop_spec bits bs n value :
  Forall is_octet bs -> 0 <= n -> 0 <= value < 2 ^ n -> n + 8 * zlen bs <= bits ->
  load_loop bits bs n value = value + be_val (rev bs) * 2 ^ n.
Proof.
  revert n value. induction bs as [|b bs IH]; intros n value Hb Hn Hv Hl; [cbn; lia|].
  cbn [load_loop rev]. inversion Hb as [|? ? Hb0 Hb1]; subst. unfold is_octet in Hb0.
  rewrite be_val_snoc. autorewrite with zlen in Hl. pose proof (zlen_nonneg bs).
  assert (2 ^ (n + 8) = 256 * 2 ^ n) as E8 by (rewrite Z.pow_add_r by lia; lia).
  assert (2 ^ (n + 8) <= 2 ^ bits) by (apply Z.pow_le_mono_r; lia).
  assert (0 < 2 ^ n) by (apply Z.pow_pos_nonneg; lia).
  rewrite wrap_small by (rewrite Z.shiftl_mul_pow2 by lia; nia).
  rewrite lor_disjoint by lia. rewrite IH by (auto; nia). rewrite E8. ring.
Qed.

Lemma be_bound_rev bs : Forall is_octet bs -> Forall is_octet (rev bs).
Proof. intros. by apply Forall_rev. Qed.

(** Reading is the big-endian value of the octets in significance order. *)
Lemma from_endian_spec e t bs :
  Forall is_octet bs -> length bs = it_size t ->
  from_endian e t bs = cast t (be_val (match e with big => bs | little => rev bs end)).
Proof.
  intros Hb Hl. unfold from_endian. f_equal.
  destruct e; rewrite load_loop_spec; rewrite ?rev_involutive; auto using be_bound_rev;
    try (unfold zlen, it_bits; rewrite ?length_rev; lia); cbn; lia.
Qed.

Lemma to_endian_octets e t v : Forall is_octet (to_endian e t v).
Proof.
  destruct e; [|rewrite to_endian_little; apply be_bound_rev];
    rewrite to_endian_big; apply be_digits_octets.
Qed.

Lemma from_to_endian e t v :
  (0 < it_size t)%nat -> in_range t v -> from_endian e t (to_endian e t v) = v.
Proof.
  intros Hs Hr. rewrite from_endian_spec by auto using to_endian_octets, to_endian_length.
  transitivity (cast t (be_val (to_endian big t v))).
  - destruct e; [done|]. rewrite to_endian_little, rev_involutive. done.
  - rewrite to_endian_big, be_val_digits. fold (it_bits t).
    rewrite (Z.mod_small (wrap _ _)); [by apply cast_wrap|].
    apply wrap_range. unfold it_bits. lia.
Qed.

(** ** Properties *)

(** for either byte order and every integral type, reading back the octets
    that [to_endian] wrote gives the value that was written, and conversely
    octets read by [from_endian] are written back unchanged; so the two are
    mutually inverse on values in range and on [sizeof(T)] octets. *)
Theorem endian_round_trip (e : endian) (t : int_type) (v : Z) (bs : octets)
  (Hs : (0 < it_size t)%nat) (Hv : in_range t v)
  (Hb : Forall is_octet bs) (Hl : length bs = it_size t) :
  from_endian e t (to_endian e t v) = v /\ to_endian e t (from_endian e t bs) = bs.
Proof.
  split; [by apply from_to_endian|].
  assert (forall cs, Forall is_octet cs -> length cs = it_size t ->
            be_digits (it_size t) (wrap (it_bits t) (cast t (be_val cs))) = cs) as D.
  { intros cs Hc Hcl. rewrite <- (be_digits_val cs) at 2 by done. rewrite Hcl. f_equal.
    pose proof (be_val_bound cs Hc) as B. unfold zlen in B. rewrite Hcl in B. fold (it_bits t) in B.
    unfold cast, swrap, wrap. destruct (it_signed t).
    - rewrite Zminus_mod_idemp_l. rewrite Z.add_simpl_r. by apply Z.mod_small.
    - rewrite Z.mod_mod by lia. by apply Z.mod_small. }
  rewrite from_endian_spec by done. destruct e.
  - rewrite to_endian_big. by apply D.
  - rewrite to_endian_little, to_endian_big, D, rev_involutive; auto using be_bound_rev.
    by rewrite length_rev.
Qed.

Lemma endian_round_trip_witness :
  from_endian little i16 (to_endian little i16 (-2)) = -2 /\
  to_endian little i16 (from_endian little i16 [1; 255]) = [1; 255].
Proof.
  apply (endian_round_trip little i16 (-2) [1; 255]); [simpl; lia|ground|ground|done].
Defined.

(** What a successful [put] does to the exporter: the octets land at the write
    position, the position advances by their number, and the memory before and
    after them keeps its contents. *)
Lemma put_ok e t v s :
  ex_pos s + Z.of_nat (it_size t) <= ex_size s ->
  put e t v s = (Ok tt, EndianExport (write_at (ex_pos s) (to_endian e t v) (ex_buf s))
                          (ex_size s) (ex_pos s + Z.of_nat (it_size t))).
Proof. intros H. unfold put. destruct (Z.ltb_spec (ex_size s) (ex_pos s + Z.of_nat (it_size t))); [lia|done]. Qed.

Lemma write_at_zlen pos bs buf :
  0 <= pos -> pos + zlen bs <= zlen buf -> zlen (write_at pos bs buf) = zlen buf.
Proof.
  intros H0 H. unfold write_at. pose proof (zlen_nonneg bs).
  rewrite !zlen_app, zlen_ztake, zlen_zdrop; lia.
Qed.

Lemma ztake_write_at pos bs buf :
  0 <= pos -> pos + zlen bs <= zlen buf ->
  ztake (pos + zlen bs) (write_at pos bs buf) = ztake pos buf ++ bs.
Proof.
  intros H0 H. unfold write_at. rewrite app_assoc.
  assert (zlen (ztake pos buf ++ bs) = pos + zlen bs) as <-.
  { pose proof (zlen_nonneg bs). rewrite zlen_app, zlen_ztake; lia. }
  apply ztake_app.
Qed.

(** Exporter well-formedness: the position is within the memory. *)
Definition export_ok (s : endian_export) : Prop :=
  0 <= ex_pos s <= ex_size s /\ ex_size s = zlen (ex_buf s).

Lemma put_array_ok e t vs s :
  (0 < it_size t)%nat -> export_ok s ->
  ex_pos s + Z.of_nat (it_size t) * zlen vs <= ex_size s ->
  exists s', put_array e t vs s = (Ok tt, s') /\ export_ok s' /\ ex_size s' = ex_size s /\
    ex_pos s' = ex_pos s + Z.of_nat (it_size t) * zlen vs /\
    ztake (ex_pos s') (ex_buf s') = ztake (ex_pos s) (ex_buf s) ++ concat (map (to_endian e t) vs).
Proof.
  intros Ht. revert s; induction vs as [|v vs IH]; intros s [Hp Hsz] H.
  - exists s. cbn. rewrite app_nil_r. unfold zlen. simpl. rewrite Z.mul_0_r, Z.add_0_r. done.
  - rewrite zlen_cons in H. pose proof (zlen_nonneg vs) as Hn. cbn [put_array].
    rewrite (bind_ok _ _ _ _ _ (put_ok e t v s ltac:(nia))).
    pose proof (zlen_to_endian e t v) as HL.
    destruct (IH (EndianExport (write_at (ex_pos s) (to_endian e t v) (ex_buf s)) (ex_size s)
                   (ex_pos s + Z.of_nat (it_size t)))) as (s' & E & W & Ez & Ep & Et).
    { split; simpl; [nia|]. rewrite write_at_zlen; [done|lia|nia]. }
    { simpl. nia. }
    exists s'. simpl in *. split_and!; auto; [rewrite zlen_cons; lia|].
    rewrite Et, <- HL, ztake_write_at by nia. by rewrite <- app_assoc.
Qed.

(** [endian_export::put] never leaves its memory: the write happens iff the
    value fits between [pos_] and [size_] (otherwise [out_of_range] is thrown and
    nothing changes); a write keeps the position within the memory, keeps every
    octet before the old and after the new position, and places the converted
    octets in between. *)
Theorem put_bounds (e : endian) (t : int_type) (v : Z) (s : endian_export) (H : export_ok s) :
  let n := Z.of_nat (it_size t) in
  (ex_size s < ex_pos s + n /\ put e t v s = (Throw (OutOfRange "endian_export"), s)) \/
  (ex_pos s + n <= ex_size s /\ exists s', put e t v s = (Ok tt, s') /\ export_ok s' /\
     ex_pos s' = ex_pos s + n /\
     ztake (ex_pos s) (ex_buf s') = ztake (ex_pos s) (ex_buf s) /\
     zdrop (ex_pos s') (ex_buf s') = zdrop (ex_pos s') (ex_buf s) /\
     ztake n (zdrop (ex_pos s) (ex_buf s')) = to_endian e t v).
Proof.
  destruct H as [Hp Hsz]. intros n. pose proof (zlen_to_endian e t v) as HL. fold n in HL.
  unfold put. fold n. destruct (Z.ltb_spec (ex_size s) (ex_pos s + n)); [left; done|right].
  split; [done|]. eexists; split; [reflexivity|]. simpl.
  assert (0 <= n) by (unfold n; lia).
  assert (zlen (ztake (ex_pos s) (ex_buf s)) = ex_pos s) as Hpre by (apply zlen_ztake; lia).
  split_and!; [split; simpl; [lia|by rewrite write_at_zlen by lia]|done| | |].
  - unfold write_at. rewrite <- Hpre at 1. apply ztake_app.
  - rewrite <- HL. unfold write_at. rewrite app_assoc.
    rewrite <- Hpre at 1. rewrite <- zlen_app. apply zdrop_app.
  - unfold write_at. rewrite <- Hpre at 1. rewrite zdrop_app, <- HL. apply ztake_app.
Qed.

Lemma put_bounds_witness :
  let s := EndianExport [9; 9; 9; 9] 4 1 in
  let n := Z.of_nat (it_size u16) in
  (ex_size s < ex_pos s + n /\ put big u16 513 s = (Throw (OutOfRange "endian_export"), s)) \/
  (ex_pos s + n <= ex_size s /\ exists s', put big u16 513 s = (Ok tt, s') /\ export_ok s' /\
     ex_pos s' = ex_pos s + n /\
     ztake (ex_pos s) (ex_buf s') = ztake (ex_pos s) (ex_buf s) /\
     zdrop (ex_pos s') (ex_buf s') = zdrop (ex_pos s') (ex_buf s) /\
     ztake n (zdrop (ex_pos s) (ex_buf s')) = to_endian big u16 513).
Proof. apply (put_bounds big u16 513 (EndianExport [9; 9; 9; 9] 4 1)). ground. Defined.

Example put_513 : put big u16 513 (EndianExport [9; 9; 9; 9] 4 1) = (Ok tt, EndianExport [9; 2; 1; 9] 4 3).
Proof. reflexivity. Qed.
