(* ===== verification/Asn1Int.v ===== *)
(** Integer octets of the ASN.1 DER codec: the free functions of
    [serialisation/codec/asn_der/util.hpp] up to [decode_integer].

    Two's complement contents octets are compared with the reference digits of
    the prelude: the encoder writes the shortest two's complement form and the
    decoder inverts it, for every width up to 64 bits. *)

From stdpp Require Import base list numbers strings.
From Stdlib Require Import ZArith Lia.
From S2P Require Import Prelude ByteOrder.
Open Scope Z_scope.

(** ** Exceptions of the serialisation library (serialisation/types.hpp) *)

(** [element_not_present] is caught by optional fields; everything else is
    corrupt data.  [OtherExn] stands for an exception of another library
    crossing the codec (e.g. [unknown_suite]). *)
Inductive ser_exn : Type :=
| SerialisationError (what : string)
| ElementNotPresent (what : string)
| OtherExn (what : string).

Abbreviation sres := (result ser_exn).

(** ** Bit blocks *)

(** [for(bit = n-1; bit >= 0 && (value & (1 << bit)) == 0; --bit)]; -1 when no
    bit below [n] is set.  [Z.testbit] reads a negative value in two's
    complement, as the conversion to [uint64_t] does. *)
Fixpoint top_bit (value : Z) (n : nat) : Z :=
  match n with
  | O => -1
  | S k => if Z.testbit value (Z.of_nat k) then Z.of_nat k else top_bit value k
  end.

Definition highest_bit_block (value : Z) (treat_as_signed : bool) (size_hint block : Z) : Z :=
  let bit := top_bit value (Z.to_nat (size_hint * 8)) in
  let bit := if treat_as_signed && (Z.rem (bit + 1) block =? 0) then bit + 1 else bit in
  wrap 8 (Z.quot bit block).

Definition bits_from_position (sizeof value pos bit_mask : Z) : Z :=
  if pos <? sizeof * 8 then Z.land (Z.shiftr value pos) bit_mask else 0.

(** [buf_size] is the template parameter S, [sizeof] the size of Integer. *)
Definition encode_to_octets (sizeof value buf_size size_hint : Z) (treat_as_signed : bool) (block mask : Z)
  : sres octets :=
  let length := wrap 8 (highest_bit_block value treat_as_signed size_hint block + 1) in
  if buf_size <? length then Throw (SerialisationError "illegal size")
  else
    let bit_mask := wrap 8 (Z.shiftl 1 block - 1) in
    Ok (map (fun i => wrap 8 (Z.lor (bits_from_position sizeof value
                                       (wrap 8 ((length - Z.of_nat i - 1) * block)) bit_mask) mask))
            (seq 0 (Z.to_nat length))).

(** [ret = (ret << 8) | b[i]] in the type [Integer]. *)
Definition decode_from_octets (t : int_type) (b : octets) : Z :=
  match b with
  | [] => 0
  | b0 :: bs => fold_left (fun ret x => cast t (Z.lor (Z.shiftl ret 8) x)) bs b0
  end.

(** [(((1ULL << (octets*8-1))-1)<<1) | 1] *)
Definition octet_mask (octets : Z) : Z :=
  Z.lor (wrap 64 (Z.shiftl (wrap 64 (wrap 64 (Z.shiftl 1 (octets * 8 - 1)) - 1)) 1)) 1.

Definition translate_negative (value size_hint : Z) : Z :=
  let number := wrap 64 (- (value + 1)) in
  let octets := highest_bit_block number true size_hint 8 + 1 in
  Z.lxor number (octet_mask octets).

Definition encode_integer (sizeof value buf_size size_hint : Z) : sres octets :=
  if value <? 0
  then encode_to_octets 8 (translate_negative value size_hint) buf_size size_hint false 8 0
  else encode_to_octets sizeof value buf_size size_hint true 8 0.

(** Called with at least one octet. *)
Definition decode_integer (t : int_type) (b : octets) (size_hint : Z) : Z :=
  if Z.testbit (hd 0 b) 7 then
    let value := decode_from_octets u64 b in
    let octets := highest_bit_block value false size_hint 8 + 1 in
    let value := Z.lxor value (octet_mask octets) in
    cast t (- (swrap 64 value) - 1)
  else decode_from_octets t b.

(** ** Reference: the width of the shortest two's complement form *)

(** [fits n z]: z is representable in n octets of two's complement. *)
Definition fits (n : nat) (z : Z) : Prop :=
  - 2 ^ (8 * Z.of_nat n - 1) <= z < 2 ^ (8 * Z.of_nat n - 1).

(** ** Lemmas: blocks *)

Lemma top_bit_spec v n :
  0 <= v < 2 ^ Z.of_nat n -> top_bit v n = if v =? 0 then -1 else Z.log2 v.
Proof.
  revert v; induction n as [|n IH]; intros v Hv.
  { assert (v = 0) as -> by (change (2 ^ Z.of_nat 0) with 1 in Hv; lia). done. }
  cbn [top_bit]. destruct (Z.testbit v (Z.of_nat n)) eqn:T.
  - assert (2 ^ Z.of_nat n <= v) as Hge.
    { destruct (Z.le_gt_cases (2 ^ Z.of_nat n) v); [done|].
      destruct (Z.eqb_spec v 0) as [->|]; [by rewrite Z.bits_0 in T|].
      rewrite Z.bits_above_log2 in T; [done|lia|]. apply Z.log2_lt_pow2; lia. }
    assert (0 < 2 ^ Z.of_nat n) by (apply Z.pow_pos_nonneg; lia).
    destruct (Z.eqb_spec v 0); [lia|]. symmetry. apply Z.log2_unique; [lia|].
    replace (Z.succ (Z.of_nat n)) with (Z.of_nat (S n)) by lia. lia.
  - apply IH. split; [lia|]. destruct (Z.lt_ge_cases v (2 ^ Z.of_nat n)); [done|exfalso].
    assert (Z.log2 v = Z.of_nat n) as L.
    { apply Z.log2_unique; [lia|]. replace (Z.succ (Z.of_nat n)) with (Z.of_nat (S n)) by lia. lia. }
    rewrite <- L in T. rewrite Z.bit_log2 in T; [done|].
    assert (0 < 2 ^ Z.of_nat n) by (apply Z.pow_pos_nonneg; lia). lia.
Qed.

(** Number of blocks needed for a non-negative value, with or without room for
    a sign bit. *)
Definition blocks (v : Z) (signed : bool) (block : Z) : Z :=
  if signed then (if v =? 0 then 0 else (Z.log2 v + 1) / block) else Z.log2 v / block.

Lemma log2_width v k : 0 < v < 2 ^ k -> 0 <= Z.log2 v < k.
Proof. intros. split; [apply Z.log2_nonneg|]. apply Z.log2_lt_pow2; lia. Qed.

Lemma highest_bit_block_spec v sg sh block :
  0 <= v < 2 ^ (8 * sh) -> 0 <= sh <= 8 -> 7 <= block <= 8 ->
  highest_bit_block v sg sh block = blocks v sg block.
Proof.
  intros Hv Hsh Hb. unfold highest_bit_block, blocks.
  rewrite top_bit_spec by (rewrite Z2Nat.id by lia; by rewrite (Z.mul_comm sh)).
  destruct (Z.eqb_spec v 0) as [->|Hne].
  - assert (block = 7 \/ block = 8) as [-> | ->] by lia; by destruct sg.
  - pose proof (log2_width v (8 * sh) ltac:(lia)) as HL.
    assert (0 < block) by lia.
    set (L := Z.log2 v) in *. destruct sg; simpl.
    + rewrite Z.rem_mod_nonneg by lia.
      destruct (Z.eqb_spec ((L + 1) mod block) 0) as [Em|Em].
      * rewrite Z.quot_div_nonneg by lia. apply wrap_small. change (2 ^ 8) with 256.
        split; [apply Z.div_pos; lia|apply Z.div_lt_upper_bound; nia].
      * rewrite Z.quot_div_nonneg by lia.
        assert (L / block = (L + 1) / block) as ->.
        { symmetry. apply Z.div_unique with ((L + 1) mod block - 1).
          - left. pose proof (Z.mod_pos_bound (L + 1) block). lia.
          - pose proof (Z.div_mod (L + 1) block). lia. }
        apply wrap_small. change (2 ^ 8) with 256.
        split; [apply Z.div_pos; lia|apply Z.div_lt_upper_bound; nia].
    + rewrite Z.quot_div_nonneg by lia. apply wrap_small. change (2 ^ 8) with 256.
      split; [apply Z.div_pos; lia|apply Z.div_lt_upper_bound; nia].
Qed.

Lemma bits_from_position_8 sizeof v pos :
  0 <= v < 2 ^ (8 * sizeof) -> 0 <= sizeof -> 0 <= pos ->
  bits_from_position sizeof v pos 255 = (v / 2 ^ pos) mod 256.
Proof.
  intros Hv Hs Hp. unfold bits_from_position. destruct (Z.ltb_spec pos (sizeof * 8)).
  - by rewrite land_255, Z.shiftr_div_pow2 by lia.
  - rewrite Z.div_small; [done|]. split; [lia|].
    apply Z.lt_le_trans with (2 ^ (8 * sizeof)); [lia|]. apply Z.pow_le_mono_r; lia.
Qed.

(** The octets written are the reference digits. *)
Lemma be_digits_map n v :
  be_digits n v = map (fun i => (v / 2 ^ ((Z.of_nat n - Z.of_nat i - 1) * 8)) mod 256) (seq 0 n).
Proof.
  revert v; induction n as [|n IH]; intros v; [done|].
  rewrite seq_S, map_app. cbn [be_digits map]. f_equal.
  - rewrite IH. apply map_ext_in. intros i Hi%in_seq.
    rewrite Z.div_div by (try lia; apply Z.pow_pos_nonneg; lia).
    f_equal. f_equal. replace ((Z.of_nat (S n) - Z.of_nat i - 1) * 8)
      with (8 + (Z.of_nat n - Z.of_nat i - 1) * 8) by lia.
    by rewrite Z.pow_add_r by lia.
  - repeat f_equal. replace (_ * 8) with 0 by lia. by rewrite Z.div_1_r.
Qed.

Lemma encode_to_octets_8 sizeof v bs sh sg :
  0 <= v < 2 ^ (8 * sh) -> 0 <= v < 2 ^ (8 * sizeof) -> 0 <= sh <= 8 -> 0 <= sizeof <= 8 ->
  blocks v sg 8 + 1 <= bs -> 0 <= blocks v sg 8 <= 8 ->
  encode_to_octets sizeof v bs sh sg 8 0 = Ok (be_digits (Z.to_nat (blocks v sg 8 + 1)) v).
Proof.
  intros Hv Hvs Hsh Hsz Hbs Hbl. unfold encode_to_octets.
  rewrite highest_bit_block_spec by lia.
  rewrite (wrap_small 8 (_ + 1)) by (change (2 ^ 8) with 256; lia).
  destruct (Z.ltb_spec bs (blocks v sg 8 + 1)); [lia|]. f_equal.
  rewrite be_digits_map. apply map_ext_in. intros i Hi%in_seq.
  change (wrap 8 (Z.shiftl 1 8 - 1)) with 255.
  rewrite Z.lor_0_r, Z2Nat.id by lia.
  rewrite (wrap_small 8 (_ * 8)) by (change (2 ^ 8) with 256; lia).
  rewrite bits_from_position_8 by lia. apply wrap_small.
  change (2 ^ 8) with 256. apply Z.mod_pos_bound. lia.
Qed.

Lemma decode_from_octets_wrap t bs :
  (0 < it_size t)%nat -> Forall is_octet bs -> 8 * zlen bs <= it_bits t - (if it_signed t then 1 else 0) ->
  decode_from_octets t bs = be_val bs.
Proof.
  intros Ht Hb Hl. destruct bs as [|b0 bs]; [done|]. cbn [decode_from_octets].
  change (be_val (b0 :: bs)) with (fold_left (fun acc b => acc * 256 + b) bs b0).
  inversion Hb as [|? ? H0 Hb']; subst.
  assert (forall n acc, 0 <= acc < 2 ^ (8 * n) -> 0 <= n -> 8 * (n + zlen bs) <= it_bits t - (if it_signed t then 1 else 0) ->
     fold_left (fun ret x => cast t (Z.lor (Z.shiftl ret 8) x)) bs acc = fold_left (fun acc b => acc * 256 + b) bs acc) as G.
  { clear Hl Hb H0. induction Hb' as [|x xs Hx Hxs IH]; intros n acc Ha Hn HL; [done|].
    cbn [fold_left]. unfold is_octet in Hx. autorewrite with zlen in HL. pose proof (zlen_nonneg xs).
    rewrite Z.lor_comm, lor_disjoint by lia. change (2 ^ 8) with 256.
    assert (2 ^ (8 * (n + 1)) = 256 * 2 ^ (8 * n)) as E.
    { replace (8 * (n + 1)) with (8 + 8 * n) by lia. by rewrite Z.pow_add_r by lia. }
    rewrite cast_in_range; [rewrite (Z.add_comm x); apply (IH (n + 1)); nia|done|].
    unfold in_range. destruct (it_signed t).
    - assert (2 ^ (8 * (n + 1)) <= 2 ^ (it_bits t - 1)) by (apply Z.pow_le_mono_r; lia). nia.
    - assert (2 ^ (8 * (n + 1)) <= 2 ^ it_bits t) by (apply Z.pow_le_mono_r; lia). nia. }
  apply (G 1); [unfold is_octet in H0; lia|lia|]. autorewrite with zlen in Hl. lia.
Qed.

(** ** Lemmas: two's complement *)

Lemma blocks_width u :
  0 <= u -> let n := blocks u true 8 + 1 in
  1 <= n /\ u < 2 ^ (8 * n - 1) /\ (n = 1 \/ 2 ^ (8 * (n - 1) - 1) <= u).
Proof.
  intros Hu n. unfold n, blocks. destruct (Z.eqb_spec u 0) as [->|Hne].
  { split_and!; [lia|done|by left]. }
  pose proof (Z.log2_nonneg u) as H0. pose proof (Z.log2_spec u ltac:(lia)) as [HL HU].
  set (L := Z.log2 u) in *. pose proof (Z.div_mod (L + 1) 8 ltac:(lia)) as HD.
  pose proof (Z.mod_pos_bound (L + 1) 8 ltac:(lia)) as HM. set (q := (L + 1) / 8) in *.
  assert (0 <= q) by (apply Z.div_pos; lia).
  split_and!; [lia| |].
  - apply Z.lt_le_trans with (2 ^ Z.succ L); [done|]. apply Z.pow_le_mono_r; lia.
  - destruct (Z.eq_dec q 0); [left; lia|right].
    apply Z.le_trans with (2 ^ L); [|done]. apply Z.pow_le_mono_r; lia.
Qed.

Lemma octet_mask_ones o : 1 <= o <= 8 -> octet_mask o = Z.ones (8 * o).
Proof.
  intros H. assert (o = 1 \/ o = 2 \/ o = 3 \/ o = 4 \/ o = 5 \/ o = 6 \/ o = 7 \/ o = 8) as D by lia.
  by repeat destruct D as [->|D]; [..|subst].
Qed.

Lemma lxor_ones u m : 0 <= m -> 0 <= u < 2 ^ m -> Z.lxor u (Z.ones m) = 2 ^ m - 1 - u.
Proof.
  intros Hm Hu. transitivity (Z.ldiff (Z.ones m) u).
  - apply Z.bits_inj'. intros k Hk. rewrite Z.lxor_spec, Z.ldiff_spec.
    destruct (Z.lt_ge_cases k m).
    + rewrite Z.ones_spec_low by lia. by destruct (Z.testbit u k).
    + rewrite Z.ones_spec_high by lia. destruct (Z.eq_dec u 0) as [->|]; [by rewrite Z.bits_0|].
      rewrite (Z.bits_above_log2 u); [done|lia|]. pose proof (log2_width u m). lia.
  - rewrite <- Z.sub_nocarry_ldiff; [rewrite Z.ones_equiv; lia|].
    destruct (Z.eq_dec u 0) as [->|]; [apply Z.ldiff_0_l|].
    apply Z.ldiff_ones_r_low; [lia|]. pose proof (log2_width u m). lia.
Qed.

(** Contents octets of an integer: the shortest two's complement form. *)
Definition int_width (v : Z) : nat := Z.to_nat (blocks (if v <? 0 then - (v + 1) else v) true 8 + 1).
Definition int_octets (v : Z) : octets := be_digits (int_width v) (v mod 2 ^ (8 * Z.of_nat (int_width v))).

Lemma int_width_fits v :
  (1 <= int_width v)%nat /\ fits (int_width v) v /\
  (int_width v = 1%nat \/ ~ fits (pred (int_width v)) v).
Proof.
  unfold int_width, fits. set (u := if v <? 0 then - (v + 1) else v).
  assert (0 <= u) as Hu by (unfold u; destruct (Z.ltb_spec v 0); lia).
  pose proof (blocks_width u Hu) as (H1 & H2 & H3). cbv zeta in *.
  set (n := blocks u true 8 + 1) in *. split; [lia|]. split.
  - rewrite Z2Nat.id by lia. unfold u in H2. destruct (Z.ltb_spec v 0); lia.
  - destruct H3 as [->|H3]; [by left|].
    destruct (Z.eq_dec n 1) as [->|]; [by left|right].
    rewrite Nat2Z.inj_pred by lia. rewrite Z2Nat.id by lia. rewrite <- Z.sub_1_r.
    unfold u in H3. destruct (Z.ltb_spec v 0); lia.
Qed.

(** The width asked for is at most the one the hint allows. *)
Lemma int_width_le v n : (1 <= n)%nat -> fits n v -> (int_width v <= n)%nat.
Proof.
  intros Hn Hf. destruct (int_width_fits v) as (H1 & _ & [->|H3]); [lia|].
  destruct (Nat.le_gt_cases (int_width v) n); [done|exfalso; apply H3].
  unfold fits in *. assert (2 ^ (8 * Z.of_nat n - 1) <= 2 ^ (8 * Z.of_nat (pred (int_width v)) - 1))
    by (apply Z.pow_le_mono_r; lia). lia.
Qed.

Lemma pow_split n : 1 <= n -> 2 ^ (8 * n) = 2 * 2 ^ (8 * n - 1).
Proof. intros. rewrite <- pow2_half by lia. done. Qed.

Lemma log2_top v n : 1 <= n -> 2 ^ (8 * n - 1) <= v < 2 ^ (8 * n) -> blocks v false 8 = n - 1.
Proof.
  intros Hn Hv. unfold blocks. assert (Z.log2 v = 8 * n - 1) as ->.
  { apply Z.log2_unique; [lia|]. by replace (Z.succ (8 * n - 1)) with (8 * n) by lia. }
  symmetry. apply Z.div_unique with 7; lia.
Qed.

(** The contents octets written for a value that its size hint can hold
    (a non-negative one may use the whole unsigned range of the hint). *)
Lemma encode_integer_spec sizeof v bs sh :
  1 <= sh <= sizeof -> sizeof <= 8 -> sizeof + 1 <= bs ->
  - 2 ^ (8 * sh - 1) <= v < 2 ^ (8 * sh) ->
  encode_integer sizeof v bs sh = Ok (int_octets v) /\ Z.of_nat (int_width v) <= sh + 1 /\
  (v < 2 ^ (8 * sh - 1) -> Z.of_nat (int_width v) <= sh).
Proof.
  intros Hsh Hsz Hbs Hv. pose proof (pow_split sh ltac:(lia)) as Hsp.
  assert (Z.of_nat (int_width v) <= sh + 1) as W1.
  { assert (int_width v <= Z.to_nat (sh + 1))%nat; [|lia]. apply int_width_le; [lia|]. unfold fits.
    rewrite Z2Nat.id by lia. assert (2 ^ (8 * sh) <= 2 ^ (8 * (sh + 1) - 1)) by (apply Z.pow_le_mono_r; lia). lia. }
  assert (v < 2 ^ (8 * sh - 1) -> Z.of_nat (int_width v) <= sh) as W2.
  { intros. assert (int_width v <= Z.to_nat sh)%nat; [|lia]. apply int_width_le; [lia|]. unfold fits.
    rewrite Z2Nat.id by lia. lia. }
  split; [|done]. unfold encode_integer, int_octets. destruct (int_width_fits v) as (F1 & F2 & _).
  destruct (Z.ltb_spec v 0) as [Hneg|Hpos].
  - specialize (W2 ltac:(lia)). unfold translate_negative.
    assert (2 ^ (8 * sh - 1) <= 2 ^ 63) by (apply Z.pow_le_mono_r; lia).
    rewrite (wrap_small 64) by lia. rewrite highest_bit_block_spec by lia.
    assert (blocks (- (v + 1)) true 8 + 1 = Z.of_nat (int_width v)) as ->.
    { unfold int_width. destruct (Z.ltb_spec v 0); [|lia].
      pose proof (blocks_width (- (v + 1)) ltac:(lia)) as [HB _]. lia. }
    set (o := Z.of_nat (int_width v)) in *. unfold fits in F2. fold o in F2.
    pose proof (pow_split o ltac:(lia)) as Ho.
    rewrite octet_mask_ones, lxor_ones by lia.
    replace (2 ^ (8 * o) - 1 - - (v + 1)) with (2 ^ (8 * o) + v) by lia.
    assert (blocks (2 ^ (8 * o) + v) false 8 = o - 1) as HB by (apply log2_top; lia).
    assert (2 ^ (8 * o) <= 2 ^ (8 * sh)) by (apply Z.pow_le_mono_r; lia).
    assert (2 ^ (8 * sh) <= 2 ^ (8 * 8)) by (apply Z.pow_le_mono_r; lia).
    rewrite encode_to_octets_8; rewrite ?HB; try lia.
    f_equal. f_equal; [lia|]. apply Z.mod_unique with (-1); lia.
  - assert (2 ^ (8 * sh) <= 2 ^ (8 * sizeof)) by (apply Z.pow_le_mono_r; lia).
    assert (blocks v true 8 + 1 = Z.of_nat (int_width v)) as HB.
    { unfold int_width. destruct (Z.ltb_spec v 0); [lia|].
      pose proof (blocks_width v ltac:(lia)) as [HB _]. lia. }
    rewrite encode_to_octets_8; rewrite ?HB; try lia.
    f_equal. f_equal; [lia|]. symmetry. apply Z.mod_small. unfold fits in F2. 
    pose proof (pow_split (Z.of_nat (int_width v)) ltac:(lia)). lia.
Qed.

(** ** Decoding *)

(** Value of contents octets read as two's complement. *)
Definition be_sval (bs : octets) : Z :=
  if Z.testbit (hd 0 bs) 7 then be_val bs - 2 ^ (8 * zlen bs) else be_val bs.

Lemma be_val_cons b bs : be_val (b :: bs) = b * 2 ^ (8 * zlen bs) + be_val bs.
Proof.
  induction bs as [|c bs IH] using rev_ind; [change (2 ^ (8 * zlen [])) with 1; cbn [be_val fold_left]; lia|].
  rewrite app_comm_cons, !be_val_snoc, IH. autorewrite with zlen.
  replace (8 * (zlen bs + (0 + 1))) with (8 * zlen bs + 8) by lia.
  rewrite Z.pow_add_r by zlen_lia. lia.
Qed.

Lemma octet_bit7 b : is_octet b -> Z.testbit b 7 = (128 <=? b).
Proof.
  intros Hb. unfold is_octet in Hb. destruct (Z.leb_spec 128 b).
  - replace b with (b mod 256) by (apply Z.mod_small; lia).
    destruct (Z.testbit (b mod 256) 7) eqn:T; [done|exfalso].
    assert (b / 2 ^ 7 = 1) by (symmetry; apply Z.div_unique with (b - 128); lia).
    rewrite (Z.mod_small b) in T by lia. rewrite Z.testbit_false in T by lia.
    rewrite H0 in T. discriminate.
  - rewrite Z.testbit_false by lia. rewrite Z.div_small; [done|]. change (2 ^ 7) with 128. lia.
Qed.

Lemma be_val_top bs :
  Forall is_octet bs -> 1 <= zlen bs ->
  Z.testbit (hd 0 bs) 7 = (2 ^ (8 * zlen bs - 1) <=? be_val bs).
Proof.
  intros Hb Hl. destruct bs as [|b bs]; [zlen_lia|]. inversion Hb as [|? ? H0 H1]; subst.
  cbn [hd]. rewrite octet_bit7, be_val_cons by done. rewrite zlen_cons.
  pose proof (be_val_bound bs H1) as B. pose proof (zlen_nonneg bs).
  replace (8 * (zlen bs + 1) - 1) with (7 + 8 * zlen bs) by lia. rewrite Z.pow_add_r by lia.
  unfold is_octet in H0. change (2 ^ 7) with 128.
  destruct (Z.leb_spec 128 b); symmetry; [apply Z.leb_le|apply Z.leb_gt]; nia.
Qed.

(** A signed decode is the two's complement value of the octets. *)
Lemma decode_integer_signed t bs sh :
  it_signed t = true -> Forall is_octet bs -> 1 <= zlen bs <= sh -> sh <= Z.of_nat (it_size t) <= 8 ->
  decode_integer t bs sh = be_sval bs.
Proof.
  intros Hs Hb Hl Hsh. unfold decode_integer, be_sval.
  pose proof (be_val_bound bs Hb) as B. rewrite be_val_top by (auto; lia).
  pose proof (pow_split (zlen bs) ltac:(lia)) as HP.
  assert (2 ^ (8 * zlen bs) <= 2 ^ (8 * sh)) by (apply Z.pow_le_mono_r; lia).
  assert (2 ^ (8 * zlen bs - 1) <= 2 ^ (8 * 8 - 1)) by (apply Z.pow_le_mono_r; lia).
  assert (2 ^ (8 * zlen bs - 1) <= 2 ^ (it_bits t - 1)) by (apply Z.pow_le_mono_r; unfold it_bits; lia).
  destruct (Z.leb_spec (2 ^ (8 * zlen bs - 1)) (be_val bs)) as [Hge|Hlt].
  - rewrite decode_from_octets_wrap by (simpl; auto; unfold it_bits; simpl; lia).
    rewrite highest_bit_block_spec by lia. rewrite (log2_top _ (zlen bs)) by lia.
    replace (zlen bs - 1 + 1) with (zlen bs) by lia.
    rewrite octet_mask_ones, lxor_ones by lia.
    rewrite (swrap_small 64) by lia. rewrite cast_in_range; [lia|lia|].
    unfold in_range. rewrite Hs. lia.
  - destruct bs as [|b bs]; [zlen_lia|]. unfold decode_from_octets.
    inversion Hb as [|? ? Hb0 Hb1]; subst. rewrite be_val_cons in *. autorewrite with zlen in *.
    assert (b < 128).
    { unfold is_octet in Hb0. pose proof (zlen_nonneg bs). pose proof (be_val_bound bs Hb1).
      replace (8 * (zlen bs + 1) - 1) with (7 + 8 * zlen bs) in Hlt by lia.
      rewrite Z.pow_add_r in Hlt by lia. change (2 ^ 7) with 128 in Hlt. nia. }
    rewrite <- be_val_cons.
    change (be_val (b :: bs)) with (fold_left (fun acc c => acc * 256 + c) bs b).
    assert (forall n acc, 0 <= acc < 2 ^ (8 * n - 1) -> 1 <= n -> 8 * (n + zlen bs) <= it_bits t ->
       fold_left (fun ret x => cast t (Z.lor (Z.shiftl ret 8) x)) bs acc
       = fold_left (fun acc c => acc * 256 + c) bs acc) as G.
    { clear - Hb1 Hs. induction Hb1 as [|x xs Hx Hxs IH]; intros n acc Ha Hn HL; [done|].
      cbn [fold_left]. unfold is_octet in Hx. autorewrite with zlen in HL. pose proof (zlen_nonneg xs).
      rewrite Z.lor_comm, lor_disjoint by lia. change (2 ^ 8) with 256.
      assert (2 ^ (8 * (n + 1) - 1) = 256 * 2 ^ (8 * n - 1)) as E.
      { replace (8 * (n + 1) - 1) with (8 + (8 * n - 1)) by lia. by rewrite Z.pow_add_r by lia. }
      rewrite cast_in_range; [rewrite (Z.add_comm x); apply (IH (n + 1)); nia|unfold it_bits in HL; lia|].
      unfold in_range. rewrite Hs.
      assert (2 ^ (8 * (n + 1) - 1) <= 2 ^ (it_bits t - 1)) by (apply Z.pow_le_mono_r; lia). nia. }
    apply (G 1); [unfold is_octet in Hb0; change (2 ^ (8 * 1 - 1)) with 128; lia|lia|unfold it_bits; lia].
Qed.

(** ** Round trip of contents octets *)

Lemma int_octets_octets v : Forall is_octet (int_octets v).
Proof. apply be_digits_octets. Qed.

Lemma zlen_int_octets v : zlen (int_octets v) = Z.of_nat (int_width v).
Proof. apply zlen_be_digits. Qed.
#[export] Hint Rewrite zlen_int_octets : zlen.

Lemma be_val_int_octets v :
  be_val (int_octets v) = v mod 2 ^ (8 * Z.of_nat (int_width v)).
Proof. unfold int_octets. rewrite be_val_digits. apply Z.mod_mod. lia. Qed.

Lemma int_octets_sign v : Z.testbit (hd 0 (int_octets v)) 7 = (v <? 0).
Proof.
  destruct (int_width_fits v) as (H1 & H2 & _). unfold fits in H2.
  pose proof (pow_split (Z.of_nat (int_width v)) ltac:(lia)).
  rewrite be_val_top; [|apply int_octets_octets|rewrite zlen_int_octets; lia].
  rewrite zlen_int_octets, be_val_int_octets. destruct (Z.ltb_spec v 0).
  - rewrite <- (Z.mod_unique v (2 ^ (8 * Z.of_nat (int_width v))) (-1) (2 ^ (8 * Z.of_nat (int_width v)) + v)) by lia.
    apply Z.leb_le. lia.
  - rewrite Z.mod_small by lia. apply Z.leb_gt. lia.
Qed.

Lemma be_sval_int_octets v : be_sval (int_octets v) = v.
Proof.
  destruct (int_width_fits v) as (H1 & H2 & _). unfold fits in H2.
  pose proof (pow_split (Z.of_nat (int_width v)) ltac:(lia)).
  unfold be_sval. rewrite int_octets_sign, be_val_int_octets, zlen_int_octets.
  destruct (Z.ltb_spec v 0).
  - rewrite <- (Z.mod_unique v (2 ^ (8 * Z.of_nat (int_width v))) (-1) (2 ^ (8 * Z.of_nat (int_width v)) + v)) by lia. lia.
  - apply Z.mod_small. lia.
Qed.

(** A leading zero octet does not change the value read, whatever the width. *)
Lemma decode_from_octets_zero t bs :
  (0 < it_size t)%nat -> Forall is_octet bs -> in_range t (hd 0 bs) ->
  decode_from_octets t (0 :: bs) = decode_from_octets t bs.
Proof.
  intros Ht Hb Hr. destruct bs as [|b bs]; [done|]. cbn [decode_from_octets fold_left].
  by rewrite Z.shiftl_0_l, Z.lor_0_l, cast_in_range.
Qed.

(** The unsigned decode of what the encoder writes, 65-bit form included. *)
Lemma decode_int_octets_u64 v sh :
  1 <= sh <= 8 -> 0 <= v < 2 ^ (8 * sh) -> decode_integer u64 (int_octets v) sh = v.
Proof.
  intros Hsh Hv. unfold decode_integer. rewrite int_octets_sign.
  destruct (Z.ltb_spec v 0); [lia|].
  destruct (int_width_fits v) as (H1 & H2 & H3). unfold fits in H2, H3.
  pose proof (pow_split (Z.of_nat (int_width v)) ltac:(lia)).
  assert (2 ^ (8 * sh) <= 2 ^ (8 * 8)) by (apply Z.pow_le_mono_r; lia).
  assert (int_width v <= 9)%nat as HW.
  { apply int_width_le; [lia|]. unfold fits. change (Z.of_nat 9) with 9.
    change (2 ^ (8 * 9 - 1)) with (2 ^ 71). change (2 ^ (8 * 8)) with (2 ^ 64) in *. lia. }
  assert (decode_from_octets u64 (int_octets v) = be_val (int_octets v)) as ->;
    [|rewrite be_val_int_octets; apply Z.mod_small; lia].
  destruct (Nat.eq_dec (int_width v) 9) as [E|].
  - pose proof (int_octets_octets v) as Ho. pose proof (zlen_int_octets v) as Hz.
    pose proof (be_val_int_octets v) as Hbv. rewrite E in *.
    destruct (int_octets v) as [|b bs]; [zlen_lia|]. inversion Ho as [|? ? Hb0 Hb1]; subst.
    assert (zlen bs = 8) as Hz8 by zlen_lia. rewrite be_val_cons, Hz8 in *.
    pose proof (be_val_bound bs Hb1) as B. rewrite Hz8 in B.
    rewrite Z.mod_small in Hbv by lia.
    assert (b = 0) as -> by (unfold is_octet in Hb0; set (P := 2 ^ (8 * 8)) in *; nia).
    destruct bs as [|b bs]; [zlen_lia|]. inversion Hb1; subst.
    rewrite decode_from_octets_zero; [|simpl; lia|done|unfold in_range, is_octet in *; change (it_bits u64) with 64; cbn [hd it_signed u64]; lia].
    rewrite decode_from_octets_wrap; [lia|simpl; lia|done|unfold it_bits; simpl; lia].
  - apply decode_from_octets_wrap; [simpl; lia|apply int_octets_octets|].
    rewrite zlen_int_octets. unfold it_bits. simpl. lia.
Qed.

(** ** Properties *)

(** the contents octets [encode_integer] writes are the shortest two's
    complement form of the value, as DER requires: for any value its size hint
    can hold (signed, or unsigned up to the full width), encoding succeeds, the
    octets are the digits of the value at a width that represents it, and no
    smaller width does. *)
Theorem encode_integer_shortest (sizeof v buf_size size_hint : Z)
  (H1 : 1 <= size_hint <= sizeof) (H2 : sizeof <= 8) (H3 : sizeof + 1 <= buf_size)
  (H4 : - 2 ^ (8 * size_hint - 1) <= v < 2 ^ (8 * size_hint)) :
  exists n : nat,
    encode_integer sizeof v buf_size size_hint = Ok (be_digits n (v mod 2 ^ (8 * Z.of_nat n))) /\
    (1 <= n)%nat /\ fits n v /\ (forall m : nat, (1 <= m)%nat -> fits m v -> (n <= m)%nat).
Proof.
  destruct (encode_integer_spec sizeof v buf_size size_hint) as (E & _); auto.
  destruct (int_width_fits v) as (F1 & F2 & _).
  exists (int_width v). split_and!; auto. intros m Hm Hf. by apply int_width_le.
Qed.

Lemma encode_integer_shortest_witness :
  exists n : nat,
    encode_integer 8 (-129) 9 2 = Ok (be_digits n ((-129) mod 2 ^ (8 * Z.of_nat n))) /\
    (1 <= n)%nat /\ fits n (-129) /\ (forall m : nat, (1 <= m)%nat -> fits m (-129) -> (n <= m)%nat).
Proof. apply (encode_integer_shortest 8 (-129) 9 2); ground. Defined.

Example encode_integer_m129 : encode_integer 8 (-129) 9 2 = Ok [255; 127].
Proof. reflexivity. Qed.
Example encode_integer_200 : encode_integer 8 200 9 8 = Ok [0; 200].
Proof. reflexivity. Qed.
Example encode_integer_max : encode_integer 8 (2 ^ 64 - 1) 9 8 = Ok (0 :: repeat 255 8).
Proof. reflexivity. Qed.
