(* ===== verification/Asn1Stream.v ===== *)
(** Octet streams of the serialisation library:
    [serialisation/octet_vector_stream.cpp] and the look-ahead stream
    [serialisation/codec/asn_der/buffered_stream.hpp].

    [buffered_stream] is related to a plain cursor over the octets of the
    underlying span: the decoder's proofs use only that relation ([view]). *)

From stdpp Require Import base list numbers strings.
From Stdlib Require Import ZArith Lia.
From S2P Require Import Prelude ByteOrder Asn1Int.
Open Scope Z_scope.

(** ** octet_span_istream *)

Record octet_span_istream : Type := SpanStream { is_data : octets; is_read_pos : Z; is_size : Z }.

Definition span_istream (data : octets) : octet_span_istream := SpanStream data 0 (zlen data).

(** [read]: the octets copied out, or [None] for [false]; a short stream moves
    the read position to the end. *)
Definition is_read (size : Z) (s : octet_span_istream) : option octets * octet_span_istream :=
  if is_read_pos s + size <=? is_size s
  then (Some (ztake size (zdrop (is_read_pos s) (is_data s))),
        SpanStream (is_data s) (is_read_pos s + size) (is_size s))
  else (None, SpanStream (is_data s) (is_size s) (is_size s)).

(** ** octet_vector_ostream *)

Record octet_vector_ostream : Type := VectorStream { os_vec : octets; os_write_pos : Z }.

Definition vector_ostream (v : octets) : octet_vector_ostream := VectorStream v (zlen v).

Definition os_write (buf : octets) (s : octet_vector_ostream) : bool * octet_vector_ostream :=
  if zlen buf =? 0 then (true, s)
  else
    let vec := if zlen (os_vec s) <? os_write_pos s then resize (os_write_pos s) (os_vec s) else os_vec s in
    let size_left := zlen vec - os_write_pos s in
    let vec := if size_left <? zlen buf then resize (zlen vec + zlen buf - size_left) vec else vec in
    (true, VectorStream (write_at (os_write_pos s) buf vec) (os_write_pos s + zlen buf)).

(** ** octet_vector_stream: reads what was written, over one vector *)

Record octet_vector_stream : Type := DuplexStream { vs_in : octet_span_istream; vs_out : octet_vector_ostream }.

Definition vector_stream (v : octets) (write_pos : Z) : octet_vector_stream :=
  DuplexStream (SpanStream v 0 write_pos) (VectorStream v write_pos).

Definition vs_read (size : Z) (s : octet_vector_stream) : option octets * octet_vector_stream :=
  let '(r, i) := is_read size (vs_in s) in (r, DuplexStream i (vs_out s)).

Definition vs_write (buf : octets) (s : octet_vector_stream) : bool * octet_vector_stream :=
  let '(r, o) := os_write buf (vs_out s) in
  (r, DuplexStream (SpanStream (os_vec o) (is_read_pos (vs_in s)) (os_write_pos o)) o).

(** ** buffered_stream *)

Record buffered_stream : Type := BufferedStream {
  bs_stream : octet_span_istream;
  bs_buffer : octets;
  bs_look : Z;      (** [look_ahead_pos_] *)
  bs_real : Z;      (** [real_pos_] *)
  bs_peek : Z       (** [peek_count_] *)
}.

Definition new_buffered (s : octet_span_istream) : buffered_stream := BufferedStream s [] 0 0 0.

Definition bs_pos (b : buffered_stream) : Z := bs_real b + bs_look b.

Definition read_from_buffer (s : Z) (b : buffered_stream) : octets * buffered_stream :=
  if bs_look b <? zlen (bs_buffer b) then
    let rs := Z.min s (zlen (bs_buffer b) - bs_look b) in
    let out := ztake rs (zdrop (bs_look b) (bs_buffer b)) in
    let look := bs_look b + rs in
    if (bs_peek b =? 0) && (look =? zlen (bs_buffer b))
    then (out, BufferedStream (bs_stream b) [] 0 (bs_real b + look) (bs_peek b))
    else (out, BufferedStream (bs_stream b) (bs_buffer b) look (bs_real b) (bs_peek b))
  else ([], b).

Definition read_from_stream (s : Z) : sexn buffered_stream ser_exn octets := fun b =>
  match is_read s (bs_stream b) with
  | (None, st) => (Throw (SerialisationError "end of stream"),
                   BufferedStream st (bs_buffer b) (bs_look b) (bs_real b) (bs_peek b))
  | (Some out, st) =>
      if 0 <? bs_peek b
      then (Ok out, BufferedStream st (bs_buffer b ++ out) (bs_look b + s) (bs_real b) (bs_peek b))
      else (Ok out, BufferedStream st (bs_buffer b) (bs_look b) (bs_real b + s) (bs_peek b))
  end.

Definition bs_read (s : Z) : sexn buffered_stream ser_exn octets := fun b =>
  let '(first, b1) := read_from_buffer s b in
  if zlen first =? s then (Ok first, b1)
  else match read_from_stream (s - zlen first) b1 with
       | (Ok rest, b2) => (Ok (first ++ rest), b2)
       | (Throw e, b2) => (Throw e, b2)
       end.

Definition readable_bytes (s : Z) (b : buffered_stream) : bool * buffered_stream :=
  let buffered := if bs_look b <? zlen (bs_buffer b) then zlen (bs_buffer b) - bs_look b else 0 in
  if s <=? buffered then (true, b)
  else match is_read (s - buffered) (bs_stream b) with
       | (Some more, st) => (true, BufferedStream st (bs_buffer b ++ more) (bs_look b) (bs_real b) (bs_peek b))
       | (None, st) => (false, BufferedStream st (bs_buffer b) (bs_look b) (bs_real b) (bs_peek b))
       end.

Definition is_peeking (b : buffered_stream) : bool := 0 <? bs_peek b.

Definition start_peek (b : buffered_stream) : Z * buffered_stream :=
  (bs_look b, BufferedStream (bs_stream b) (bs_buffer b) (bs_look b) (bs_real b) (bs_peek b + 1)).

Definition end_peek (pos : Z) (commit : bool) (b : buffered_stream) : buffered_stream :=
  BufferedStream (bs_stream b) (bs_buffer b) (if commit then bs_look b else pos) (bs_real b) (bs_peek b - 1).

(** ** The cursor view *)

(** The next [n] octets at offset [p]. *)
Definition slice (p n : Z) (all : octets) : octets := ztake n (zdrop p all).

Definition is_ok (s : octet_span_istream) : Prop := 0 <= is_read_pos s <= is_size s /\ is_size s = zlen (is_data s).
Definition is_rest (s : octet_span_istream) : octets := zdrop (is_read_pos s) (is_data s).

(** The buffered octets from index [lo] on, followed by the unread ones, are
    the octets of [all] from position [real + lo] on. *)
Definition core (all : octets) (lo : Z) (b : buffered_stream) : Prop :=
  is_ok (bs_stream b) /\ 0 <= lo <= bs_look b /\ bs_look b <= zlen (bs_buffer b) /\
  0 <= bs_real b /\ bs_real b + lo <= zlen all /\
  zdrop lo (bs_buffer b) ++ is_rest (bs_stream b) = zdrop (bs_real b + lo) all.

(** [mark = None]: not peeking.  [mark = Some (lo, rp)]: peeking; positions
    from [rp + lo] on can still be returned to. *)
Definition view (all : octets) (mark : option (Z * Z)) (k p : Z) (b : buffered_stream) : Prop :=
  bs_peek b = k /\ p = bs_pos b /\
  match mark with
  | None => k = 0 /\ core all (bs_look b) b
  | Some (lo, rp) => 0 < k /\ bs_real b = rp /\ core all lo b
  end.

Lemma view_none all b k p :
  bs_peek b = k -> k = 0 -> p = bs_pos b -> core all (bs_look b) b -> view all None k p b.
Proof. done. Qed.

Lemma view_some all b lo rp k p :
  bs_peek b = k -> 0 < k -> p = bs_pos b -> bs_real b = rp -> core all lo b -> view all (Some (lo, rp)) k p b.
Proof. done. Qed.

Lemma zdrop_app_le {A} n (l k : list A) : 0 <= n <= zlen l -> zdrop n (l ++ k) = zdrop n l ++ k.
Proof. unfold zdrop, zlen. intros. rewrite drop_app_le; [done|lia]. Qed.

Lemma ztake_app_le {A} n (l k : list A) : 0 <= n <= zlen l -> ztake n (l ++ k) = ztake n l.
Proof. unfold ztake, zlen. intros. rewrite take_app_le; [done|lia]. Qed.

Lemma ztake_app_ge {A} n (l k : list A) : zlen l <= n -> ztake n (l ++ k) = l ++ ztake (n - zlen l) k.
Proof. unfold ztake, zlen. intros. rewrite take_app_ge by lia. repeat f_equal. lia. Qed.

Lemma zdrop_app_ge {A} n (l k : list A) : zlen l <= n -> zdrop n (l ++ k) = zdrop (n - zlen l) k.
Proof. unfold zdrop, zlen. intros. rewrite drop_app_ge by lia. f_equal. lia. Qed.

Lemma zlen_slice p n all : 0 <= p -> 0 <= n -> p + n <= zlen all -> zlen (slice p n all) = n.
Proof. intros. unfold slice. rewrite zlen_ztake; [done|]. rewrite zlen_zdrop; lia. Qed.

Lemma core_intro all lo b :
  is_ok (bs_stream b) -> 0 <= lo <= bs_look b -> bs_look b <= zlen (bs_buffer b) ->
  0 <= bs_real b -> bs_real b + lo <= zlen all ->
  zdrop lo (bs_buffer b) ++ is_rest (bs_stream b) = zdrop (bs_real b + lo) all -> core all lo b.
Proof. done. Qed.

Lemma core_mono all lo lo' b : core all lo b -> lo <= lo' <= bs_look b -> core all lo' b.
Proof.
  intros (H1 & H2 & H3 & H4 & H5 & H6) Hlo.
  assert (zdrop lo' (bs_buffer b) ++ is_rest (bs_stream b) = zdrop (bs_real b + lo') all) as E.
  { replace (bs_real b + lo') with ((bs_real b + lo) + (lo' - lo)) by lia.
    rewrite <- (zdrop_zdrop (lo' - lo)), <- H6 by lia.
    rewrite zdrop_app_le by (rewrite zlen_zdrop; lia). rewrite zdrop_zdrop by lia. do 2 f_equal. lia. }
  apply core_intro; auto; [lia|].
  apply (f_equal zlen) in H6. rewrite zlen_app, !zlen_zdrop in H6 by lia. zlen_lia.
Qed.

(** In a view the unread octets are those of [all] at the cursor. *)
Lemma view_core all mark k p b : view all mark k p b -> core all (bs_look b) b /\ p = bs_real b + bs_look b.
Proof.
  intros (Hk & Hp & Hm). split; [|done]. destruct mark as [[lo rp]|]; [|by destruct Hm].
  destruct Hm as (_ & _ & Hc). apply (core_mono _ lo); [done|].
  destruct Hc as (_ & H2 & _). lia.
Qed.

Lemma core_rest all b :
  core all (bs_look b) b ->
  zdrop (bs_look b) (bs_buffer b) ++ is_rest (bs_stream b) = zdrop (bs_pos b) all /\
  0 <= bs_pos b <= zlen all /\
  zlen (is_rest (bs_stream b)) = zlen all - bs_pos b - (zlen (bs_buffer b) - bs_look b).
Proof.
  intros (H1 & H2 & H3 & H4 & H5 & H6). unfold bs_pos. split_and!; auto; [lia|].
  apply (f_equal zlen) in H6. rewrite zlen_app, !zlen_zdrop in H6 by lia. lia.
Qed.

Lemma is_read_ok n s :
  is_ok s -> 0 <= n <= zlen (is_rest s) ->
  exists s', is_read n s = (Some (ztake n (is_rest s)), s') /\ is_ok s' /\ is_rest s' = zdrop n (is_rest s).
Proof.
  intros [H1 H2] Hn. unfold is_rest in *. rewrite zlen_zdrop in Hn by lia. unfold is_read.
  destruct (Z.leb_spec (is_read_pos s + n) (is_size s)); [|lia].
  eexists; split; [reflexivity|]. split; [split; simpl; lia|]. simpl. by rewrite zdrop_zdrop by lia.
Qed.

Lemma is_read_short n s :
  is_ok s -> zlen (is_rest s) < n ->
  is_read n s = (None, SpanStream (is_data s) (is_size s) (is_size s)).
Proof.
  intros [H1 H2] Hn. unfold is_rest in *. rewrite zlen_zdrop in Hn by lia. unfold is_read.
  destruct (Z.leb_spec (is_read_pos s + n) (is_size s)); [lia|done].
Qed.

Lemma view_new data : view data None 0 0 (new_buffered (span_istream data)).
Proof.
  pose proof (zlen_nonneg data). by split_and!.
Qed.

Lemma slice_app a b all p n :
  zdrop p all = a ++ b -> zlen a <= n -> slice p n all = a ++ ztake (n - zlen a) b.
Proof. intros E H. unfold slice. rewrite E. by apply ztake_app_ge. Qed.

(** A read longer than what is buffered drains the buffer first. *)
Lemma read_from_buffer_all n b :
  0 <= bs_real b -> 0 <= bs_look b <= zlen (bs_buffer b) -> zlen (bs_buffer b) - bs_look b < n ->
  exists b1, read_from_buffer n b = (zdrop (bs_look b) (bs_buffer b), b1) /\
    bs_stream b1 = bs_stream b /\ bs_peek b1 = bs_peek b /\ bs_look b1 = zlen (bs_buffer b1) /\
    bs_real b1 + bs_look b1 = bs_real b + bs_look b + (zlen (bs_buffer b) - bs_look b) /\ 0 <= bs_real b1 /\
    (bs_peek b <> 0 -> bs_buffer b1 = bs_buffer b /\ bs_real b1 = bs_real b).
Proof.
  intros Hr Hl Hn. unfold read_from_buffer. set (m := zlen (bs_buffer b) - bs_look b) in *.
  assert (zlen (zdrop (bs_look b) (bs_buffer b)) = m) as Hm by (apply zlen_zdrop; lia).
  destruct (Z.ltb_spec (bs_look b) (zlen (bs_buffer b))) as [Hb|Hb].
  - rewrite Z.min_r by lia.
    assert (ztake m (zdrop (bs_look b) (bs_buffer b)) = zdrop (bs_look b) (bs_buffer b)) as ->
      by (apply ztake_ge; lia).
    destruct (Z.eqb_spec (bs_peek b) 0) as [Hpk|Hpk]; simpl.
    + destruct (Z.eqb_spec (bs_look b + m) (zlen (bs_buffer b))); [|lia].
      eexists; split; [reflexivity|]. simpl. split_and!; try done; lia.
    + eexists; split; [reflexivity|]. simpl. split_and!; auto; lia.
  - exists b. assert (m = 0) by lia. rewrite zdrop_all by lia. split_and!; auto; lia.
Qed.

(** Reading within the stream: the next [n] octets, whatever is buffered and
    however deep the peeking. *)
Lemma read_view all mark k p n b :
  view all mark k p b -> 0 <= n -> p + n <= zlen all ->
  exists b', bs_read n b = (Ok (slice p n all), b') /\ view all mark k (p + n) b'.
Proof.
  intros V Hn Hend. destruct (view_core _ _ _ _ _ V) as [Hc Hp].
  destruct (core_rest _ _ Hc) as (E & Hpos & Hrest).
  destruct V as (Hk & _ & Hm). unfold bs_pos in *. rewrite <- Hp in *.
  pose proof Hc as (Hs & Hlo & Hbuf & Hreal & _).
  unfold bs_read. set (m := zlen (bs_buffer b) - bs_look b) in *.
  assert (zlen (zdrop (bs_look b) (bs_buffer b)) = m) as Hm' by (apply zlen_zdrop; lia).
  destruct (Z.leb_spec n m) as [Hin|Hout].
  - (* served from the buffer *)
    assert (slice p n all = ztake n (zdrop (bs_look b) (bs_buffer b))) as Hsl
      by (unfold slice; rewrite <- E; apply ztake_app_le; lia).
    unfold read_from_buffer. fold m.
    destruct (Z.ltb_spec (bs_look b) (zlen (bs_buffer b))) as [Hb|Hb].
    + rewrite Z.min_l by lia. rewrite <- Hsl.
      destruct (Z.eqb_spec (bs_peek b) 0) as [Hpk|Hpk]; simpl;
        [destruct (Z.eqb_spec (bs_look b + n) (zlen (bs_buffer b))) as [Hall|Hall]|];
        rewrite zlen_slice, Z.eqb_refl by lia; eexists; split; try reflexivity.
      * destruct mark as [[lo rp]|]; [lia|]. destruct Hm as [-> Hm].
        apply view_none; [done|done|unfold bs_pos; simpl; lia|].
        apply core_intro; simpl; try (autorewrite with zlen; lia); [done|]. rewrite Z.add_0_r.
        replace (bs_real b + (bs_look b + n)) with (p + n) by lia. rewrite <- (zdrop_zdrop n p), <- E by lia.
        rewrite zdrop_app_ge by lia. rewrite Hm'. replace (n - m) with 0 by lia. by rewrite zdrop_0.
      * destruct mark as [[lo rp]|]; [lia|]. destruct Hm as [-> Hm].
        apply view_none; [done|done|unfold bs_pos; simpl; lia|].
        apply core_intro; simpl; try lia; [done|].
        replace (bs_real b + (bs_look b + n)) with (p + n) by lia. rewrite <- (zdrop_zdrop n p), <- E by lia.
        rewrite zdrop_app_le by lia. by rewrite zdrop_zdrop by lia.
      * destruct mark as [[lo rp]|]; [|lia]. destruct Hm as (Hk0 & Hr & Hm).
        apply view_some; [done|done|unfold bs_pos; simpl; lia|done|].
        destruct Hm as (G1 & G2 & G3 & G4 & G5 & G6). by apply core_intro; simpl; try lia.
    + assert (n = 0) as -> by lia. rewrite zlen_nil, Z.eqb_refl. eexists; split; [|].
      { repeat f_equal. }
      rewrite Z.add_0_r. split_and!; done.
  - (* the buffer, then the stream *)
    destruct (read_from_buffer_all n b) as (b1 & -> & E1 & E2 & E3 & E4 & E5 & E6); [lia..|].
    fold m in E4. rewrite <- Hp in E4.
    rewrite Hm'. destruct (Z.eqb_spec m n); [lia|]. unfold read_from_stream. rewrite E1.
    destruct (is_read_ok (n - m) (bs_stream b) Hs ltac:(lia)) as (s' & -> & Hs' & Hr').
    assert (slice p n all = zdrop (bs_look b) (bs_buffer b) ++ ztake (n - m) (is_rest (bs_stream b))) as ->.
    { rewrite <- Hm'. apply slice_app; [done|lia]. }
    assert (zlen (ztake (n - m) (is_rest (bs_stream b))) = n - m) as Hz by (apply zlen_ztake; lia).
    assert (is_rest s' = zdrop (p + n) all) as Hr2.
    { rewrite Hr'. rewrite <- (zdrop_zdrop n p), <- E by lia. rewrite zdrop_app_ge by lia. by rewrite Hm'. }
    rewrite E2, Hk. destruct (Z.ltb_spec 0 k) as [Hk0|Hk0]; eexists; (split; [reflexivity|]);
      (destruct mark as [[lo rp]|]; [destruct Hm as (Hm1 & Hm2 & Hm3)|destruct Hm as [Hm1 Hm2]]; try lia).
    + destruct (E6 ltac:(lia)) as [E7 E8]. apply view_some; [done|done|unfold bs_pos; simpl; lia|simpl; lia|].
      destruct Hm3 as (G1 & G2 & G3 & G4 & G5 & G6).
      apply core_intro; simpl; rewrite ?zlen_app, ?Hz; try lia; [done|].
      rewrite E7, E8, zdrop_app_le, <- app_assoc by lia. rewrite <- G6. f_equal.
      rewrite Hr'. apply ztake_zdrop.
    + apply view_none; [done|done|unfold bs_pos; simpl; lia|].
      pose proof (zlen_nonneg (bs_buffer b1)). apply core_intro; simpl; try lia; [done|].
      rewrite zdrop_all by lia. rewrite Hr2. simpl. f_equal. lia.
Qed.

(** Reading one octet. *)
Lemma slice_cons all p b l : zdrop p all = b :: l -> slice p 1 all = [b].
Proof. unfold slice. by intros ->. Qed.

(** Past the end: the throw; the cursor can only be used again after a peek is
    undone. *)
Lemma read_short all mark k p n b :
  view all mark k p b -> 0 <= n -> zlen all < p + n ->
  exists b', bs_read n b = (Throw (SerialisationError "end of stream"), b').
Proof.
  intros V Hn Hend. destruct (view_core _ _ _ _ _ V) as [Hc Hp].
  destruct (core_rest _ _ Hc) as (E & Hpos & Hrest). unfold bs_pos in *. rewrite <- Hp in *.
  pose proof Hc as (Hs & Hlo & Hbuf & Hreal & _). unfold bs_read.
  pose proof (zlen_nonneg (is_rest (bs_stream b))).
  destruct (read_from_buffer_all n b) as (b1 & -> & E1 & _); [lia..|].
  rewrite zlen_zdrop by lia.
  destruct (Z.eqb_spec (zlen (bs_buffer b) - bs_look b) n); [lia|].
  unfold read_from_stream. rewrite E1, is_read_short by (auto; lia). eauto.
Qed.

(** A positive answer of [readable_bytes] leaves the cursor alone. *)
Lemma readable_view all mark k p n b :
  view all mark k p b -> 0 <= n -> p + n <= zlen all ->
  exists b', readable_bytes n b = (true, b') /\ view all mark k p b'.
Proof.
  intros V Hn Hend. destruct (view_core _ _ _ _ _ V) as [Hc Hp].
  destruct (core_rest _ _ Hc) as (E & Hpos & Hrest).
  destruct V as (Hk & _ & Hm). unfold bs_pos in *. rewrite <- Hp in *.
  pose proof Hc as (Hs & Hlo & Hbuf & Hreal & _). unfold readable_bytes.
  set (m := zlen (bs_buffer b) - bs_look b) in *.
  assert ((if bs_look b <? zlen (bs_buffer b) then m else 0) = m) as ->
    by (destruct (Z.ltb_spec (bs_look b) (zlen (bs_buffer b))); lia).
  destruct (Z.leb_spec n m) as [Hin|Hout]; [exists b; split; [done|by split_and!]|].
  destruct (is_read_ok (n - m) (bs_stream b) Hs ltac:(lia)) as (s' & -> & Hs' & Hr').
  eexists; split; [reflexivity|].
  assert (zlen (ztake (n - m) (is_rest (bs_stream b))) = n - m) as Hz by (apply zlen_ztake; lia).
  assert (forall lo, core all lo b -> core all lo (BufferedStream s' (bs_buffer b ++ ztake (n - m) (is_rest (bs_stream b)))
            (bs_look b) (bs_real b) (bs_peek b))) as HC.
  { intros lo (G1 & G2 & G3 & G4 & G5 & G6).
    apply core_intro; simpl; rewrite ?zlen_app, ?Hz; try lia; [done|].
    rewrite zdrop_app_le, <- app_assoc by lia. rewrite <- G6. f_equal. rewrite Hr'. apply ztake_zdrop. }
  destruct mark as [[lo rp]|].
  - destruct Hm as (Hm1 & Hm2 & Hm3). apply view_some; [done|done|unfold bs_pos; simpl; lia|done|by apply HC].
  - destruct Hm as [Hm1 Hm2]. apply view_none; [done|done|unfold bs_pos; simpl; lia|by apply HC].
Qed.

(** At the end of the octets nothing is readable, and asking does no harm. *)
Lemma readable_end all mark k n b :
  view all mark k (zlen all) b -> 0 < n ->
  exists b', readable_bytes n b = (false, b') /\ view all mark k (zlen all) b'.
Proof.
  intros V Hn. destruct (view_core _ _ _ _ _ V) as [Hc Hp].
  destruct (core_rest _ _ Hc) as (E & Hpos & Hrest).
  destruct V as (Hk & _ & Hm). unfold bs_pos in *. rewrite <- Hp in *.
  pose proof Hc as (Hs & Hlo & Hbuf & Hreal & _). unfold readable_bytes.
  pose proof (zlen_nonneg (is_rest (bs_stream b))).
  set (m := zlen (bs_buffer b) - bs_look b) in *. assert (m = 0) by lia.
  assert ((if bs_look b <? zlen (bs_buffer b) then m else 0) = 0) as ->
    by (destruct (Z.ltb_spec (bs_look b) (zlen (bs_buffer b))); lia).
  destruct (Z.leb_spec n 0); [lia|]. rewrite is_read_short by (auto; lia).
  eexists; split; [reflexivity|].
  assert (forall lo, core all lo b -> core all lo (BufferedStream (SpanStream (is_data (bs_stream b)) (is_size (bs_stream b)) (is_size (bs_stream b)))
             (bs_buffer b) (bs_look b) (bs_real b) (bs_peek b))) as HC.
  { intros lo (G1 & G2 & G3 & G4 & G5 & G6). pose proof G1 as [G1a G1b].
    assert (is_rest (bs_stream b) = []) as Hnil by (apply zlen_zero; lia).
    apply core_intro; simpl; try lia; [split; simpl; [lia|done]|].
    rewrite Hnil in G6. rewrite <- G6. f_equal. unfold is_rest. simpl. apply zdrop_all. lia. }
  destruct mark as [[lo rp]|].
  - destruct Hm as (Hm1 & Hm2 & Hm3). apply view_some; [done|done|unfold bs_pos; simpl; lia|done|by apply HC].
  - destruct Hm as [Hm1 Hm2]. apply view_none; [done|done|unfold bs_pos; simpl; lia|by apply HC].
Qed.

Lemma is_peeking_view all mark k p b : view all mark k p b -> is_peeking b = (0 <? k).
Proof. intros (Hk & _). unfold is_peeking. by rewrite Hk. Qed.

(** Starting to peek: the saved index is the cursor, which stays reachable. *)
Lemma start_peek_view all mark k p b :
  view all mark k p b -> 0 <= k ->
  exists lo rp b', start_peek b = (p - rp, b') /\ view all (Some (lo, rp)) (k + 1) p b' /\ lo <= p - rp /\
    match mark with None => lo = p - rp | Some m => m = (lo, rp) end.
Proof.
  intros V Hk0. destruct (view_core _ _ _ _ _ V) as [Hc Hp].
  destruct V as (Hk & _ & Hm). unfold start_peek.
  set (b' := BufferedStream _ _ _ _ _).
  destruct mark as [[lo rp]|].
  - destruct Hm as (Hm1 & Hm2 & Hm3). exists lo, rp, b'. pose proof Hm3 as (_ & G2 & _).
    split_and!; [f_equal; lia| |lia|done].
    apply view_some; simpl; [lia|lia|unfold bs_pos; simpl; lia|done|done].
  - destruct Hm as [Hm1 Hm2]. exists (bs_look b), (bs_real b), b'.
    split_and!; [f_equal; lia| |lia|lia].
    apply view_some; simpl; [lia|lia|unfold bs_pos; simpl; lia|done|done].
Qed.

(** Undoing a peek returns the cursor to where it was started. *)
Lemma end_peek_view all lo rp k p p0 b (commit : bool) :
  view all (Some (lo, rp)) k p b -> lo <= p0 - rp -> p0 <= p ->
  view all (if k =? 1 then None else Some (lo, rp)) (k - 1) (if commit then p else p0)
       (end_peek (p0 - rp) commit b).
Proof.
  intros V Hlo Hp0. destruct (view_core _ _ _ _ _ V) as [Hc Hp].
  destruct V as (Hk & _ & Hm1 & Hm2 & Hm3). unfold end_peek.
  set (look := if commit then bs_look b else p0 - rp).
  assert (lo <= look <= bs_look b) as Hl by (pose proof Hm3 as (_ & G2 & _); unfold look; destruct commit; lia).
  assert (core all lo (BufferedStream (bs_stream b) (bs_buffer b) look (bs_real b) (bs_peek b - 1))) as HC.
  { destruct Hm3 as (G1 & G2 & G3 & G4 & G5 & G6). apply core_intro; simpl; try lia; done. }
  assert ((if commit then p else p0) = bs_real b + look) as -> by (unfold look; destruct commit; lia).
  destruct (Z.eqb_spec k 1) as [->|Hne].
  - apply view_none; simpl; [lia|lia|done|]. apply (core_mono _ lo); [done|simpl; lia].
  - apply view_some; simpl; [lia|lia|done|lia|done].
Qed.

(** ** What a short stream loses *)

(** How far the octets have been taken from the stream. *)
Definition fetched (b : buffered_stream) : Z := bs_real b + zlen (bs_buffer b).

Lemma fetched_range all mark k p b : view all mark k p b -> p <= fetched b <= zlen all.
Proof.
  intros V. destruct (view_core _ _ _ _ _ V) as [Hc Hp]. destruct (core_rest _ _ Hc) as (_ & _ & Hrest).
  destruct Hc as (_ & H2 & H3 & _). pose proof (zlen_nonneg (is_rest (bs_stream b))). unfold fetched, bs_pos in *. lia.
Qed.

Lemma read_from_buffer_fetched n b : 0 <= n -> 0 <= bs_look b <= zlen (bs_buffer b) ->
  fetched (snd (read_from_buffer n b)) = fetched b.
Proof.
  intros Hn Hl. unfold read_from_buffer, fetched.
  destruct (Z.ltb_spec (bs_look b) (zlen (bs_buffer b))); [|done].
  destruct (Z.eqb_spec (bs_peek b) 0); [|done]. destruct (Z.eqb_spec (bs_look b + Z.min n (zlen (bs_buffer b) - bs_look b)) (zlen (bs_buffer b)));
    cbn; [zlen_lia|done].
Qed.

(** A read takes from the stream what is not buffered. *)
Lemma read_fetched all mark k p n b : view all mark k p b -> 0 <= n -> p + n <= zlen all ->
  fetched (snd (bs_read n b)) = Z.max (fetched b) (p + n).
Proof.
  intros V Hn Hend. destruct (view_core _ _ _ _ _ V) as [Hc Hp]. destruct (core_rest _ _ Hc) as (_ & _ & Hrest).
  pose proof Hc as (Hs & Hlo & Hbuf & Hreal & _). unfold bs_pos in Hrest. rewrite <- Hp in Hrest.
  pose proof (read_from_buffer_fetched n b Hn ltac:(lia)) as Hf. unfold bs_read.
  destruct (Z.leb_spec n (zlen (bs_buffer b) - bs_look b)) as [Hin|Hout].
  - assert (zlen (fst (read_from_buffer n b)) = n) as Hz.
    { unfold read_from_buffer. destruct (Z.ltb_spec (bs_look b) (zlen (bs_buffer b))); [|cbn; rewrite (zlen_nil (A:=Z)); lia].
      rewrite Z.min_l by lia. destruct (_ && _); cbn [fst]; rewrite zlen_ztake; try done; rewrite zlen_zdrop; lia. }
    destruct (read_from_buffer n b) as [o b1]; cbn [fst snd] in *. rewrite Hz, Z.eqb_refl. cbn. unfold fetched in *. lia.
  - destruct (read_from_buffer_all n b) as (b1 & E1 & Es & Ep & El & Ep' & _); [lia..|].
    rewrite E1 in *. cbn [snd] in Hf. rewrite zlen_zdrop by lia.
    destruct (Z.eqb_spec (zlen (bs_buffer b) - bs_look b) n); [lia|]. unfold read_from_stream. rewrite Es.
    set (m := zlen (bs_buffer b) - bs_look b) in *.
    destruct (is_read_ok (n - m) (bs_stream b) Hs ltac:(lia)) as (s' & -> & _).
    assert (zlen (ztake (n - m) (is_rest (bs_stream b))) = n - m) as Hz by (apply zlen_ztake; lia).
    unfold fetched in *. destruct (0 <? bs_peek b1); cbn; rewrite ?zlen_app, ?Hz; lia.
Qed.

Lemma readable_fetched all mark k p n b : view all mark k p b -> 0 <= n -> p + n <= zlen all ->
  fetched (snd (readable_bytes n b)) = Z.max (fetched b) (p + n).
Proof.
  intros V Hn Hend. destruct (view_core _ _ _ _ _ V) as [Hc Hp]. destruct (core_rest _ _ Hc) as (_ & _ & Hrest).
  pose proof Hc as (Hs & Hlo & Hbuf & Hreal & _). unfold bs_pos in Hrest. rewrite <- Hp in Hrest. unfold readable_bytes.
  set (m := zlen (bs_buffer b) - bs_look b) in *.
  assert ((if bs_look b <? zlen (bs_buffer b) then m else 0) = m) as ->
    by (destruct (Z.ltb_spec (bs_look b) (zlen (bs_buffer b))); lia).
  destruct (Z.leb_spec n m) as [Hin|Hout]; [cbn; unfold fetched; lia|].
  destruct (is_read_ok (n - m) (bs_stream b) Hs ltac:(lia)) as (s' & -> & _).
  assert (zlen (ztake (n - m) (is_rest (bs_stream b))) = n - m) as Hz by (apply zlen_ztake; lia).
  unfold fetched. cbn. rewrite zlen_app, Hz. lia.
Qed.

(** The stream run dry: the octets already fetched are what is left. *)
Definition run_dry (b : buffered_stream) : buffered_stream :=
  BufferedStream (SpanStream (is_data (bs_stream b)) (is_size (bs_stream b)) (is_size (bs_stream b)))
    (bs_buffer b) (bs_look b) (bs_real b) (bs_peek b).

Lemma zdrop_ztake {A} p n (l : list A) : 0 <= p -> 0 <= n -> zdrop p (ztake (p + n) l) = ztake n (zdrop p l).
Proof. intros. unfold zdrop, ztake. rewrite skipn_firstn_comm. f_equal. lia. Qed.

Lemma run_dry_core all lo b : core all lo b -> core (ztake (fetched b) all) lo (run_dry b).
Proof.
  intros (G1 & G2 & G3 & G4 & G5 & G6). pose proof G1 as [G1a G1b].
  pose proof (f_equal zlen G6) as HL. rewrite zlen_app, !zlen_zdrop in HL by lia.
  pose proof (zlen_nonneg (is_rest (bs_stream b))).
  assert (zlen (ztake (fetched b) all) = fetched b) as Hz by (apply zlen_ztake; unfold fetched; lia).
  apply core_intro; cbn; rewrite ?Hz; unfold fetched; try lia; [split; cbn; [lia|done]|].
  replace (bs_real b + zlen (bs_buffer b)) with (bs_real b + lo + (zlen (bs_buffer b) - lo)) by lia.
  rewrite zdrop_ztake, <- G6 by lia. unfold is_rest at 1. cbn. rewrite (zdrop_all (is_size _)), app_nil_r by lia.
  assert (zlen (zdrop lo (bs_buffer b)) = zlen (bs_buffer b) - lo) as <- by (apply zlen_zdrop; lia).
  by rewrite ztake_app.
Qed.

Lemma run_dry_view all mark k p b : view all mark k p b -> view (ztake (fetched b) all) mark k p (run_dry b).
Proof.
  intros (Hk & Hp & Hm). destruct mark as [[lo rp]|].
  - destruct Hm as (Hm1 & Hm2 & Hm3). apply view_some; [done..|by apply run_dry_core].
  - destruct Hm as [Hm1 Hm2]. apply view_none; [done..|by apply run_dry_core].
Qed.

(** A query for more octets than there are. *)
Lemma readable_dry all mark k p n b : view all mark k p b -> 0 <= n -> zlen all < p + n ->
  readable_bytes n b = (false, run_dry b).
Proof.
  intros V Hn Hend. destruct (view_core _ _ _ _ _ V) as [Hc Hp]. destruct (core_rest _ _ Hc) as (_ & _ & Hrest).
  pose proof Hc as (Hs & Hlo & Hbuf & Hreal & _). unfold bs_pos in Hrest. rewrite <- Hp in Hrest. unfold readable_bytes.
  pose proof (zlen_nonneg (is_rest (bs_stream b))).
  set (m := zlen (bs_buffer b) - bs_look b) in *.
  assert ((if bs_look b <? zlen (bs_buffer b) then m else 0) = m) as ->
    by (destruct (Z.ltb_spec (bs_look b) (zlen (bs_buffer b))); lia).
  destruct (Z.leb_spec n m); [lia|]. by rewrite is_read_short by (auto; lia).
Qed.

(** Reading what is buffered and no more, as a short read does first. *)
Lemma drain_view all mark k p n b : view all mark k p b -> zlen (bs_buffer b) - bs_look b < n ->
  exists b1, read_from_buffer n b = (zdrop (bs_look b) (bs_buffer b), b1) /\ bs_stream b1 = bs_stream b /\
    view all mark k (fetched b) b1 /\ fetched b1 = fetched b.
Proof.
  intros V Hn. pose proof (fetched_range _ _ _ _ _ V) as HF. destruct (view_core _ _ _ _ _ V) as [Hc Hp].
  pose proof Hc as (Hs & Hlo & Hbuf & Hreal & _). set (m := zlen (bs_buffer b) - bs_look b) in *.
  destruct (read_from_buffer_all n b) as (b1 & E & Es & Epk & El & Epos & Er & _); [lia..|]. fold m in Epos.
  assert (fetched b1 = fetched b) as HE by (unfold fetched; lia).
  destruct (read_view all mark k p m b V ltac:(lia) ltac:(unfold fetched in HF; lia)) as (b2 & E2 & V2).
  destruct (Z.eqb_spec m 0) as [Hm|Hm].
  - exists b1. split_and!; try done. replace (fetched b) with p by (unfold fetched; lia).
    assert (b1 = b) as ->; [|done]. unfold read_from_buffer in E.
    destruct (Z.ltb_spec (bs_look b) (zlen (bs_buffer b))); [lia|]. by injection E.
  - assert (read_from_buffer m b = (zdrop (bs_look b) (bs_buffer b), b1)) as E3.
    { unfold read_from_buffer in *. destruct (Z.ltb_spec (bs_look b) (zlen (bs_buffer b))); [|lia].
      by rewrite !Z.min_r in * by lia. }
    exists b1. split_and!; try done. unfold bs_read in E2. rewrite E3 in E2. rewrite zlen_zdrop, Z.eqb_refl in E2 by lia.
    injection E2 as _ <-. by replace (fetched b) with (p + m) by (unfold fetched; lia).
Qed.

(** A read of more octets than there are: the throw, after the buffered octets
    were consumed. *)
Lemma read_dry all mark k p n b : view all mark k p b -> 0 <= n -> zlen all < p + n ->
  exists b', bs_read n b = (Throw (SerialisationError "end of stream"), b') /\
    view (ztake (fetched b) all) mark k (fetched b) b' /\ fetched b' = fetched b.
Proof.
  intros V Hn Hend. destruct (view_core _ _ _ _ _ V) as [Hc Hp]. destruct (core_rest _ _ Hc) as (_ & _ & Hrest).
  pose proof Hc as (Hs & Hlo & Hbuf & Hreal & _). unfold bs_pos in Hrest. rewrite <- Hp in Hrest.
  pose proof (zlen_nonneg (is_rest (bs_stream b))).
  destruct (drain_view _ _ _ _ n _ V) as (b1 & E & Es & V1 & Hf); [lia|].
  exists (run_dry b1). unfold bs_read. rewrite E, zlen_zdrop by lia.
  destruct (Z.eqb_spec (zlen (bs_buffer b) - bs_look b) n); [lia|]. unfold read_from_stream. rewrite Es, is_read_short by (auto; lia).
  split_and!; [by unfold run_dry; rewrite Es| |done]. rewrite <- Hf at 1. by apply run_dry_view.
Qed.

(** ** Abstract specification: a cursor with nested look-ahead *)

(** The operations a decoder performs on its stream. *)
Inductive stream_op : Type :=
| OpRead (n : Z)
| OpReadable (n : Z)
| OpStartPeek
| OpEndPeek (commit : bool).

(** What can be read, a position in it, the positions of the open peeks,
    innermost first, and how far the octets were looked at. *)
Record cursor : Type := Cursor {
  cu_octets : octets;
  cu_pos : Z;
  cu_saved : list Z;
  cu_seen : Z
}.

Definition new_cursor (data : octets) : cursor := Cursor data 0 [] 0.

(** The promised behaviour: the octets read and whether the operation went
    well.  A request for more octets than there are fails, and from then on
    there are only the octets looked at before; a failed read has consumed
    these.  [None]: closing a peek that is not open. *)
Definition cursor_step (op : stream_op) (c : cursor) : option (octets * bool * cursor) :=
  let '(Cursor all p saved seen) := c in
  match op with
  | OpRead n =>
      if p + n <=? zlen all then Some (slice p n all, true, Cursor all (p + n) saved (Z.max seen (p + n)))
      else Some ([], false, Cursor (ztake seen all) seen saved seen)
  | OpReadable n =>
      if p + n <=? zlen all then Some ([], true, Cursor all p saved (Z.max seen (p + n)))
      else Some ([], false, Cursor (ztake seen all) p saved seen)
  | OpStartPeek => Some ([], true, Cursor all p (p :: saved) seen)
  | OpEndPeek commit =>
      match saved with
      | [] => None
      | q :: saved' => Some ([], true, Cursor all (if commit then p else q) saved' seen)
      end
  end.

(** The same operation on [buffered_stream], the saved indices being what the
    guards hold. *)
Definition buffered_step (op : stream_op) (s : buffered_stream * list Z) : option (octets * bool * (buffered_stream * list Z)) :=
  let '(b, saved) := s in
  match op with
  | OpRead n => match bs_read n b with
                | (Ok o, b') => Some (o, true, (b', saved))
                | (Throw _, b') => Some ([], false, (b', saved))
                end
  | OpReadable n => let '(r, b') := readable_bytes n b in Some ([], r, (b', saved))
  | OpStartPeek => let '(i, b') := start_peek b in Some ([], true, (b', i :: saved))
  | OpEndPeek commit => match saved with
                        | [] => None
                        | i :: saved' => Some ([], true, (end_peek i commit b, saved'))
                        end
  end.

Fixpoint run_steps {S} (step : stream_op -> S -> option (octets * bool * S)) (ops : list stream_op) (s : S)
  : option (list (octets * bool) * S) :=
  match ops with
  | [] => Some ([], s)
  | op :: ops' => '(o, r, s1) ← step op s; '(os, s2) ← run_steps step ops' s1; Some ((o, r) :: os, s2)
  end.

(** Sizes are not negative, and only open peeks are closed, [k] being open. *)
Fixpoint ops_ok (k : nat) (ops : list stream_op) : bool :=
  match ops with
  | [] => true
  | (OpRead n | OpReadable n) :: ops' => (0 <=? n) && ops_ok k ops'
  | OpStartPeek :: ops' => ops_ok (S k) ops'
  | OpEndPeek _ :: ops' => match k with O => false | S k' => ops_ok k' ops' end
  end.

(** Open peeks: the saved positions decrease from the cursor down to the
    oldest one, whose index is the mark. *)
Fixpoint saved_ok (lo rp p : Z) (qs ixs : list Z) : Prop :=
  match qs, ixs with
  | [], [] => True
  | q :: qs', i :: ixs' => i = q - rp /\ lo <= i /\ q <= p /\ saved_ok lo rp q qs' ixs'
  | _, _ => False
  end.

Definition peeks_at (all : octets) (p : Z) (qs : list Z) (b : buffered_stream) (ixs : list Z) : Prop :=
  match qs with
  | [] => ixs = [] /\ view all None 0 p b
  | _ => exists lo rp, view all (Some (lo, rp)) (zlen qs) p b /\ saved_ok lo rp p qs ixs
  end.

Definition refines (c : cursor) (s : buffered_stream * list Z) : Prop :=
  cu_seen c = fetched (fst s) /\ peeks_at (cu_octets c) (cu_pos c) (cu_saved c) (fst s) (snd s).

Lemma saved_ok_mono lo rp p p' qs ixs : saved_ok lo rp p qs ixs -> p <= p' -> saved_ok lo rp p' qs ixs.
Proof. destruct qs, ixs; simpl; intuition lia. Qed.

Lemma saved_ok_length lo rp p qs ixs : saved_ok lo rp p qs ixs -> length ixs = length qs.
Proof.
  revert ixs p. induction qs as [|x l IH]; intros [|i ixs] p; simpl; try done.
  intros (_ & _ & _ & S). f_equal. by eapply IH.
Qed.

Lemma peeks_move all all' p p' qs ixs b b' :
  (forall mark k, view all mark k p b -> view all' mark k p' b') -> p <= p' ->
  peeks_at all p qs b ixs -> peeks_at all' p' qs b' ixs.
Proof.
  intros HV Hp. destruct qs as [|q qs]; [intros [-> V]; split; [done|by apply HV]|].
  intros (lo & rp & V & S). exists lo, rp. split; [by apply HV|]. by apply (saved_ok_mono _ _ p).
Qed.

Lemma peeks_view all p qs b ixs : peeks_at all p qs b ixs -> exists mark k, view all mark k p b.
Proof. destruct qs; [intros [_ V]; eauto|intros (lo & rp & V & _); eauto]. Qed.

Lemma peeks_length all p qs b ixs : peeks_at all p qs b ixs -> length ixs = length qs.
Proof. destruct qs; [by intros [-> _]|]. intros (lo & rp & _ & S). by eapply saved_ok_length. Qed.

Lemma view_all {A} (f : buffered_stream -> A * buffered_stream) all all' p p' r b :
  (forall mark k, view all mark k p b -> exists b', f b = (r, b') /\ view all' mark k p' b') ->
  (exists mark k, view all mark k p b) ->
  exists b', f b = (r, b') /\ (forall mark k, view all mark k p b -> view all' mark k p' b').
Proof.
  intros H (m0 & k0 & V0). destruct (H _ _ V0) as (b' & E & _). exists b'. split; [done|]. intros mark k V.
  destruct (H _ _ V) as (b2 & E2 & V2). congruence.
Qed.

(** One step of the simulation, an operation at a time. *)
Lemma read_refines n c b ixs : 0 <= n -> refines c (b, ixs) ->
  match cursor_step (OpRead n) c with
  | Some (o, r, c') => exists s', buffered_step (OpRead n) (b, ixs) = Some (o, r, s') /\ refines c' s'
  | None => False
  end.
Proof.
  destruct c as [all p qs seen]. intros Hn [HF HP]. cbn in HF, HP. pose proof (peeks_view _ _ _ _ _ HP) as HV. subst seen.
  pose proof HV as (m0 & k0 & V0). pose proof (fetched_range _ _ _ _ _ V0). cbn [cursor_step buffered_step].
  destruct (Z.leb_spec (p + n) (zlen all)) as [Hend|Hend].
  - destruct (view_all (bs_read n) all all p (p + n) (Ok (slice p n all)) b) as (b' & E & HM);
      [intros mark k V; by apply read_view|done|].
    pose proof (read_fetched _ _ _ _ _ _ V0 Hn Hend) as Hf. rewrite E in *. eexists; split; [done|].
    split; [done|]. apply (peeks_move all all p (p + n) _ _ b); [done|lia|done].
  - destruct (view_all (bs_read n) all (ztake (fetched b) all) p (fetched b) (Throw (SerialisationError "end of stream")) b)
      as (b' & E & HM); [intros mark k V; destruct (read_dry _ _ _ _ _ _ V Hn Hend) as (b' & ? & ? & _); by exists b'|done|].
    destruct (read_dry _ _ _ _ _ _ V0 Hn Hend) as (b2 & E2 & _ & Hf). rewrite E in *. injection E2 as <-.
    eexists; split; [done|]. split; [done|]. apply (peeks_move all _ p (fetched b) _ _ b); [done|lia|done].
Qed.

Lemma readable_refines n c b ixs : 0 <= n -> refines c (b, ixs) ->
  match cursor_step (OpReadable n) c with
  | Some (o, r, c') => exists s', buffered_step (OpReadable n) (b, ixs) = Some (o, r, s') /\ refines c' s'
  | None => False
  end.
Proof.
  destruct c as [all p qs seen]. intros Hn [HF HP]. cbn in HF, HP. pose proof (peeks_view _ _ _ _ _ HP) as HV. subst seen.
  pose proof HV as (m0 & k0 & V0). cbn [cursor_step buffered_step].
  destruct (Z.leb_spec (p + n) (zlen all)) as [Hend|Hend].
  - destruct (view_all (readable_bytes n) all all p p true b) as (b' & E & HM); [intros mark k V; by apply readable_view|done|].
    pose proof (readable_fetched _ _ _ _ _ _ V0 Hn Hend) as Hf. rewrite E in *. eexists; split; [done|].
    split; [done|]. apply (peeks_move all all p p _ _ b); [done|lia|done].
  - rewrite (readable_dry _ _ _ _ _ _ V0 Hn Hend). eexists; split; [done|]. split; [done|].
    apply (peeks_move all _ p p _ _ b); [intros mark k; apply run_dry_view|lia|done].
Qed.

Lemma start_refines c b ixs : refines c (b, ixs) ->
  match cursor_step OpStartPeek c with
  | Some (o, r, c') => exists s', buffered_step OpStartPeek (b, ixs) = Some (o, r, s') /\ refines c' s'
  | None => False
  end.
Proof.
  destruct c as [all p qs seen]. intros [HF R]. cbn in HF, R. cbn [cursor_step buffered_step].
  assert (exists mark, view all mark (zlen qs) p b /\
      match mark with None => qs = [] /\ ixs = [] | Some (lo, rp) => saved_ok lo rp p qs ixs end) as (mark & V & S).
  { destruct qs as [|q qs]; [destruct R as [-> V]; by exists None|].
    destruct R as (lo & rp & V & S). by exists (Some (lo, rp)). }
  destruct (start_peek_view _ _ _ _ _ V (zlen_nonneg _)) as (lo & rp & b' & E & V' & Hlo & Hm).
  injection E as E1 <-. eexists; split; [reflexivity|]. split; [done|]. exists lo, rp.
  cbn [cu_octets cu_pos cu_saved fst snd]. rewrite zlen_cons. split; [done|].
  split_and!; [lia|lia|lia|]. destruct mark as [[lo' rp']|]; [by simplify_eq|]. by destruct S as [-> ->].
Qed.

Lemma end_refines commit c b ixs : refines c (b, ixs) ->
  match cursor_step (OpEndPeek commit) c with
  | Some (o, r, c') => exists s', buffered_step (OpEndPeek commit) (b, ixs) = Some (o, r, s') /\ refines c' s'
  | None => cu_saved c = []
  end.
Proof.
  destruct c as [all p [|q qs] seen]; [done|]. intros [HF (lo & rp & V & S)]. cbn in HF, V, S.
  cbn [cursor_step buffered_step]. destruct ixs as [|i ixs]; [done|]. destruct S as (-> & S1 & S2 & S3).
  eexists; split; [done|]. split; [done|]. cbn [cu_octets cu_pos cu_saved fst snd].
  pose proof (end_peek_view all lo rp (zlen (q :: qs)) p q b commit V S1 S2) as V'.
  rewrite zlen_cons in V'. replace (zlen qs + 1 - 1) with (zlen qs) in V' by lia.
  destruct qs as [|q' qs].
  - destruct ixs; [|done]. by split.
  - assert ((zlen (q' :: qs) + 1 =? 1) = false) as HE by (apply Z.eqb_neq; zlen_lia).
    rewrite HE in V'. exists lo, rp. split; [done|].
    apply (saved_ok_mono _ _ q); [done|]. destruct commit; lia.
Qed.

Lemma step_refines op ops c s : refines c s -> ops_ok (length (cu_saved c)) (op :: ops) = true ->
  exists o r c' s', cursor_step op c = Some (o, r, c') /\ buffered_step op s = Some (o, r, s') /\ refines c' s' /\
    ops_ok (length (cu_saved c')) ops = true.
Proof.
  destruct s as [b ixs]. intros R Hops. destruct op as [n|n| |commit]; cbn [ops_ok] in Hops.
  - apply andb_true_iff in Hops as [Hn%Z.leb_le Hops]. pose proof (read_refines n c b ixs Hn R) as G.
    destruct c as [all p qs seen]. cbn [cursor_step] in *. destruct (p + n <=? zlen all);
      destruct G as (s' & E & R'); by eexists _, _, _, s'.
  - apply andb_true_iff in Hops as [Hn%Z.leb_le Hops]. pose proof (readable_refines n c b ixs Hn R) as G.
    destruct c as [all p qs seen]. cbn [cursor_step] in *. destruct (p + n <=? zlen all);
      destruct G as (s' & E & R'); by eexists _, _, _, s'.
  - pose proof (start_refines c b ixs R) as G. destruct c as [all p qs seen].
    destruct G as (s' & E & R'). by eexists _, _, _, s'.
  - pose proof (end_refines commit c b ixs R) as G. destruct c as [all p [|q qs] seen]; [done|].
    destruct G as (s' & E & R'). by eexists _, _, _, s'.
Qed.

(** C22: the look-ahead stream implements a plain cursor over the octets of its
    source.  Every sequence of reads, availability queries and properly nested
    peeks, committed or rolled back, gives the same octets and answers on
    [buffered_stream] as on the cursor, wherever its octets currently are (in the
    buffer or the stream), also after requests for more octets than there are:
    a query answers false and a read throws, after which only the octets looked
    at before remain.  [pos()] is the cursor's position throughout. *)
Theorem buffered_stream_refines_cursor (all : octets) (ops : list stream_op) (H : ops_ok 0 ops = true) :
  exists outs c b ixs,
    run_steps cursor_step ops (new_cursor all) = Some (outs, c) /\
    run_steps buffered_step ops (new_buffered (span_istream all), []) = Some (outs, (b, ixs)) /\
    bs_pos b = cu_pos c /\ length ixs = length (cu_saved c).
Proof.
  assert (forall ops c s, refines c s -> ops_ok (length (cu_saved c)) ops = true ->
     exists outs c' s', run_steps cursor_step ops c = Some (outs, c') /\ run_steps buffered_step ops s = Some (outs, s') /\
       refines c' s') as G.
  { clear. induction ops as [|op ops IH]; intros c s R Hops; [by exists [], c, s|].
    destruct (step_refines _ _ _ _ R Hops) as (o & r & c1 & s1 & E1 & E2 & R1 & Hops1).
    destruct (IH _ _ R1 Hops1) as (os & c2 & s2 & E3 & E4 & R2).
    exists ((o, r) :: os), c2, s2. cbn. rewrite E1, E2. cbn. by rewrite E3, E4. }
  destruct (G ops (new_cursor all) (new_buffered (span_istream all), [])) as (outs & c & [b ixs] & E1 & E2 & [_ R]);
    [split; [done|]; by split; [|apply view_new]|done|].
  exists outs, c, b, ixs. split_and!; [done|done| |by eapply peeks_length].
  destruct (peeks_view _ _ _ _ _ R) as (mark & k & _ & -> & _). done.
Qed.

(** Among the operations: a query for more than is left, after which the two
    octets looked at before remain, and a read of more than that. *)
Definition sample_ops : list stream_op :=
  [OpRead 1; OpStartPeek; OpReadable 2; OpRead 2; OpEndPeek false; OpReadable 5; OpStartPeek; OpRead 1; OpEndPeek true;
   OpReadable 2; OpReadable 1; OpRead 2; OpReadable 1].

Example sample_outs : fst <$> run_steps cursor_step sample_ops (new_cursor [1; 2; 3; 4]) =
  Some [([1], true); ([], true); ([], true); ([2; 3], true); ([], true); ([], false); ([], true); ([2], true); ([], true);
        ([], false); ([], true); ([], false); ([], false)].
Proof. reflexivity. Qed.

Lemma buffered_stream_refines_cursor_witness : exists outs c b ixs,
  run_steps cursor_step sample_ops (new_cursor [1; 2; 3; 4]) = Some (outs, c) /\
  run_steps buffered_step sample_ops (new_buffered (span_istream [1; 2; 3; 4]), []) = Some (outs, (b, ixs)) /\
  bs_pos b = cu_pos c /\ length ixs = length (cu_saved c).
Proof. apply (buffered_stream_refines_cursor [1; 2; 3; 4] sample_ops). reflexivity. Defined.

(** ** Writing at the end of a vector appends *)

Lemma os_write_append buf s :
  os_write_pos s = zlen (os_vec s) ->
  os_write buf s = (true, VectorStream (os_vec s ++ buf) (zlen (os_vec s ++ buf))).
Proof.
  intros Hp. destruct s as [vec wp]. simpl in Hp. subst wp. unfold os_write. simpl.
  destruct (Z.eqb_spec (zlen buf) 0) as [H0|H0].
  { apply zlen_zero in H0 as ->. by rewrite app_nil_r. }
  rewrite Z.ltb_irrefl, Z.sub_diag. pose proof (zlen_nonneg buf). pose proof (zlen_nonneg vec).
  destruct (Z.ltb_spec 0 (zlen buf)); [|lia]. do 2 f_equal; [|by rewrite zlen_app].
  unfold write_at, resize. rewrite Z.sub_0_r.
  rewrite (ztake_ge (zlen vec + zlen buf)) by lia.
  replace (zlen vec + zlen buf - zlen vec) with (zlen buf) by lia.
  rewrite ztake_app. f_equal. rewrite zdrop_all; [by rewrite app_nil_r|].
  rewrite zlen_app. unfold zlen at 2. rewrite repeat_length. lia.
Qed.
