(* ===== verification/Asn1Encoder.v ===== *)
(** The DER encoder: [serialisation/codec/asn_der/asn_der_encoder.hpp] over
    [octet_vector_ostream], with the header types of
    [serialisation/codec/asn_der/types.hpp].

    Not modelled: [encode(double)] and [encode(time_point)]. *)

From stdpp Require Import base list numbers strings.
From Stdlib Require Import ZArith Lia.
From S2P Require Import Prelude ByteOrder Asn1Int Asn1Stream.
Open Scope Z_scope.

(** ** Headers *)

Definition universal_c : Z := 0.
Definition application_c : Z := 1.
Definition context_specific_c : Z := 2.
Definition private_c : Z := 3.

Definition tag_boolean : Z := 1.
Definition tag_integer : Z := 2.
Definition tag_octet_string : Z := 4.
Definition tag_real : Z := 9.
Definition tag_sequence : Z := 16.
Definition tag_t61string : Z := 20.
Definition tag_generalised_time : Z := 24.

Record asn_header : Type := AsnHeader {
  h_class : Z; h_tag : Z; h_length : Z; h_constructed : bool }.

Definition max_structure_size : Z := 1024 * 1024 * 2.
Definition max_constructed_size : Z := 1024 * 1024 * 512.

Record tag_info : Type := TagInfo { ti_type : option Z; ti_tag : Z }.

#[export] Instance tag_info_eq_dec : EqDecision tag_info.
Proof. solve_decision. Defined.

Definition get_asn_class (t : option tag_info) : Z :=
  match t with Some t => default context_specific_c (ti_type t) | None => universal_c end.

Definition get_tag (t : option tag_info) (default_tag : Z) : Z :=
  match t with Some t => ti_tag t | None => default_tag end.

(** ** State *)

Record seq_struct : Type := SeqStruct { ss_header : asn_header; ss_data : octets }.

Record encoder : Type := Encoder {
  e_stream : octet_vector_ostream;
  e_layers : list seq_struct      (** front first *)
}.

Definition new_encoder (s : octet_vector_ostream) : encoder := Encoder s [].

Abbreviation enc := (sexn encoder ser_exn).

Definition enc_write (b : octets) : enc unit := fun s =>
  match e_layers s with
  | [] => let '(ok, st) := os_write b (e_stream s) in
          if ok then (Ok tt, Encoder st [])
          else (Throw (SerialisationError "failed to write to stream"), Encoder st [])
  | l :: ls => (Ok tt, Encoder (e_stream s) (SeqStruct (ss_header l) (ss_data l ++ b) :: ls))
  end.

Definition enc_push (h : asn_header) : enc unit := fun s =>
  (Ok tt, Encoder (e_stream s) (SeqStruct h [] :: e_layers s)).

(** [assert(!layers_.empty())]: the empty case is outside the contract. *)
Definition enc_pop : enc seq_struct := fun s =>
  match e_layers s with
  | [] => (Throw (OtherExn "assert"), s)
  | l :: ls => (Ok l, Encoder (e_stream s) ls)
  end.

(** ** Header octets *)

Definition encode_tag_first_byte (asn_c tag : Z) (is_constructed : bool) : enc unit :=
  let v := wrap 8 (Z.lor (Z.shiftl asn_c 6) tag) in
  enc_write [if is_constructed then Z.lor v 32 else v].

(** [buffer[length-1] &= ~0x80] *)
Definition clear_last (b : octets) : octets :=
  match rev b with [] => [] | x :: r => rev (Z.land x 127 :: r) end.

Definition encode_long_tag (h : asn_header) : enc unit :=
  encode_tag_first_byte (h_class h) 31 (h_constructed h) ;;
  b ← lift_res (encode_to_octets 8 (h_tag h) (8 * 8 / 7 + 1) 8 false 7 128);
  enc_write (clear_last b).

Definition encode_tag (h : asn_header) : enc unit :=
  if 30 <? h_tag h then encode_long_tag h
  else encode_tag_first_byte (h_class h) (Z.land (h_tag h) 31) (h_constructed h).

Definition encode_long_length (h : asn_header) : enc unit :=
  b ← lift_res (encode_to_octets 8 (h_length h) 8 8 false 8 0);
  enc_write [Z.lor 128 (zlen b)] ;; enc_write b.

Definition encode_length (h : asn_header) : enc unit :=
  if 127 <? h_length h then encode_long_length h
  else enc_write [Z.land (h_length h) 127].

Definition encode_header (h : asn_header) : enc unit := encode_tag h ;; encode_length h.

(** ** Primitives *)

(** [encode_integer<Type>] with [sizeof(Type)] octets. *)
Definition enc_integer (sizeof v : Z) (tag : option tag_info) (size_hint default_tag : Z) : enc unit :=
  b ← lift_res (Asn1Int.encode_integer sizeof v (sizeof + 1) size_hint);
  encode_header (AsnHeader (get_asn_class tag) (get_tag tag default_tag) (zlen b) false) ;;
  enc_write b.

Definition encode_bool (v : bool) (tag : option tag_info) : enc unit :=
  enc_integer 4 (if v then 1 else 0) tag 1 tag_boolean.

Definition encode_int64 (v : Z) (tag : option tag_info) (size_hint : Z) : enc unit :=
  enc_integer 8 v tag size_hint tag_integer.

Definition encode_uint64 (v : Z) (tag : option tag_info) (size_hint : Z) : enc unit :=
  enc_integer 8 v tag size_hint tag_integer.

(** [encode(integer)]: arbitrary size, no limit checked. *)
Definition encode_big (v : octets) (tag : option tag_info) : enc unit :=
  encode_header (AsnHeader (get_asn_class tag) (get_tag tag tag_integer) (zlen v) false) ;;
  enc_write v.

Definition enc_string (s : octets) (tag : option tag_info) (default_tag : Z) : enc unit :=
  if max_structure_size <? zlen s then throw (SerialisationError "string too large to be decodable")
  else
    encode_header (AsnHeader (get_asn_class tag) (get_tag tag default_tag) (zlen s) false) ;;
    if zlen s =? 0 then mret tt else enc_write s.

Definition encode_string (s : octets) (tag : option tag_info) : enc unit := enc_string s tag tag_t61string.
Definition encode_octets (s : octets) (tag : option tag_info) : enc unit := enc_string s tag tag_octet_string.

Definition encode_trailing (d : octets) : enc unit := enc_write d.

(** ** Constructed elements *)

Definition enc_start_sequence (tag : option tag_info) : enc unit :=
  enc_push (AsnHeader (get_asn_class tag) (get_tag tag tag_sequence) 0 true).

Definition enc_end_sequence : enc unit :=
  l ← enc_pop;
  let h := ss_header l in
  encode_header (AsnHeader (h_class h) (h_tag h) (zlen (ss_data l)) (h_constructed h)) ;;
  if zlen (ss_data l) =? 0 then mret tt else enc_write (ss_data l).

Definition enc_start_explicit_tag (tag : tag_info) : enc unit :=
  enc_push (AsnHeader (default context_specific_c (ti_type tag)) (ti_tag tag) 0 true).

Definition enc_end_explicit_tag : enc unit := enc_end_sequence.

(** ** What an encoder operation appends *)

Definition append_out (bs : octets) (s : encoder) : encoder :=
  match e_layers s with
  | [] => Encoder (VectorStream (os_vec (e_stream s) ++ bs) (zlen (os_vec (e_stream s) ++ bs))) []
  | l :: ls => Encoder (e_stream s) (SeqStruct (ss_header l) (ss_data l ++ bs) :: ls)
  end.

(** The stream writes at its end (how every encoder of the library is built). *)
Definition enc_ok (s : encoder) : Prop := os_write_pos (e_stream s) = zlen (os_vec (e_stream s)).

(** [emits m bs]: [m] succeeds and appends exactly [bs]. *)
Definition emits {A} (m : enc A) (bs : octets) : Prop :=
  forall s, enc_ok s -> exists a, m s = (Ok a, append_out bs s).

Lemma append_out_ok bs s : enc_ok s -> enc_ok (append_out bs s).
Proof. unfold enc_ok, append_out. by destruct (e_layers s). Qed.

Lemma append_out_app a b s : append_out b (append_out a s) = append_out (a ++ b) s.
Proof. unfold append_out. destruct (e_layers s) eqn:E; simpl; by rewrite ?app_assoc. Qed.

Lemma append_out_nil s : enc_ok s -> append_out [] s = s.
Proof.
  unfold append_out, enc_ok. destruct s as [[vec wp] ls]; simpl; intros ->.
  destruct ls as [|[h d] ls]; by rewrite app_nil_r.
Qed.

Lemma emits_write b : emits (enc_write b) b.
Proof.
  intros s Hs. exists tt. unfold enc_write, append_out. destruct (e_layers s); [|done].
  by rewrite os_write_append.
Qed.

Lemma emits_ret {A} (a : A) : emits (mret a) [].
Proof. intros s Hs. exists a. by rewrite append_out_nil. Qed.

Lemma emits_bind {A B} (m : enc A) (f : A -> enc B) a b :
  emits m a -> (forall x, emits (f x) b) -> emits (m ≫= f) (a ++ b).
Proof.
  intros Hm Hf s Hs. destruct (Hm s Hs) as [x E]. rewrite (bind_ok _ _ _ _ _ E).
  destruct (Hf x _ (append_out_ok a s Hs)) as [y E2]. exists y. by rewrite E2, append_out_app.
Qed.

Lemma emits_lift {A B} (r : sres A) (f : A -> enc B) a b :
  r = Ok a -> emits (f a) b -> emits (lift_res r ≫= f) b.
Proof. intros -> Hf s Hs. apply (Hf s Hs). Qed.

Lemma emits_eq {A} (m : enc A) a b : emits m a -> a = b -> emits m b.
Proof. by intros ? <-. Qed.
Create HintDb emits.
#[export] Hint Resolve emits_write emits_ret : emits.

(** ** The octets of a header *)

Definition first_octet (c t : Z) (constr : bool) : Z := c * 64 + (if constr then 32 else 0) + t.

(** Base-128 digits, most significant first. *)
Fixpoint digits128 (n : nat) (t : Z) : octets :=
  match n with
  | O => []
  | S k => digits128 k (t / 128) ++ [t mod 128]
  end.

(** All but the last carry the continuation bit. *)
Definition tag_digits (n : nat) (t : Z) : octets :=
  map (fun x => x + 128) (digits128 (pred n) (t / 128)) ++ [t mod 128].

Definition tag_octets (h : asn_header) : octets :=
  if 30 <? h_tag h
  then first_octet (h_class h) 31 (h_constructed h)
       :: tag_digits (Z.to_nat (blocks (h_tag h) false 7 + 1)) (h_tag h)
  else [first_octet (h_class h) (h_tag h) (h_constructed h)].

Definition length_octets (n : Z) : octets :=
  if 127 <? n
  then let k := blocks n false 8 + 1 in (128 + k) :: be_digits (Z.to_nat k) n
  else [n].

Definition header_octets (h : asn_header) : octets := tag_octets h ++ length_octets (h_length h).

(** A header as the code builds it. *)
Definition header_ok (h : asn_header) : Prop :=
  0 <= h_class h < 4 /\ 0 <= h_tag h < 2 ^ 64 /\ 0 <= h_length h < 2 ^ 64.

(** Tag, length, contents. *)
Definition tlv (c t : Z) (constr : bool) (content : octets) : octets :=
  header_octets (AsnHeader c t (zlen content) constr) ++ content.

Lemma first_octet_spec c t (constr : bool) :
  0 <= c < 4 -> 0 <= t < 32 ->
  (if constr then Z.lor (wrap 8 (Z.lor (Z.shiftl c 6) t)) 32 else wrap 8 (Z.lor (Z.shiftl c 6) t)) = first_octet c t constr.
Proof.
  intros Hc Ht. unfold first_octet. rewrite (Z.lor_comm (Z.shiftl c 6)), lor_disjoint by lia. change (2 ^ 6) with 64.
  rewrite wrap_small by (change (2 ^ 8) with 256; lia). destruct constr; [|lia].
  replace (t + c * 64) with (Z.lor t (Z.shiftl c 6)) by (rewrite lor_disjoint by lia; lia).
  rewrite <- Z.lor_assoc.
  assert (Z.lor (Z.shiftl c 6) 32 = Z.shiftl (2 * c + 1) 5) as ->.
  { assert (c = 0 \/ c = 1 \/ c = 2 \/ c = 3) as D by lia. by repeat destruct D as [->|D]; [..|subst]. }
  rewrite lor_disjoint by lia. change (2 ^ 5) with 32. lia.
Qed.

Lemma emits_first_byte c t constr :
  0 <= c < 4 -> 0 <= t < 32 -> emits (encode_tag_first_byte c t constr) [first_octet c t constr].
Proof.
  intros Hc Ht. unfold encode_tag_first_byte. eapply emits_eq; [apply emits_write|].
  by rewrite first_octet_spec.
Qed.

Lemma digits128_map n v :
  digits128 n v = map (fun i => (v / 2 ^ ((Z.of_nat n - Z.of_nat i - 1) * 7)) mod 128) (seq 0 n).
Proof.
  revert v; induction n as [|n IH]; intros v; [done|].
  rewrite seq_S, map_app. cbn [digits128 map]. f_equal.
  - rewrite IH. apply map_ext_in. intros i Hi%in_seq.
    rewrite Z.div_div by (try lia; apply Z.pow_pos_nonneg; lia).
    f_equal. f_equal. replace ((Z.of_nat (S n) - Z.of_nat i - 1) * 7)
      with (7 + (Z.of_nat n - Z.of_nat i - 1) * 7) by lia.
    by rewrite Z.pow_add_r by lia.
  - repeat f_equal. replace (_ * 7) with 0 by lia. by rewrite Z.div_1_r.
Qed.

Lemma digits128_range n v : Forall (fun x => 0 <= x < 128) (digits128 n v).
Proof.
  revert v; induction n as [|n IH]; intros v; simpl; [constructor|].
  apply Forall_app; split; [apply IH|]. constructor; [|constructor]. apply Z.mod_pos_bound. lia.
Qed.

Lemma lor_128 x : 0 <= x < 128 -> Z.lor x 128 = x + 128.
Proof. intros. change 128 with (Z.shiftl 1 7) at 1. rewrite lor_disjoint by lia. change (2 ^ 7) with 128. lia. Qed.

Lemma land_127 x : Z.land x 127 = x mod 128.
Proof. change 127 with (Z.ones 7). by rewrite Z.land_ones by lia. Qed.

Lemma clear_last_snoc l x : clear_last (l ++ [x]) = l ++ [Z.land x 127].
Proof. unfold clear_last. rewrite rev_app_distr. simpl. by rewrite rev_involutive. Qed.

Lemma blocks7_range t : 0 <= t < 2 ^ 64 -> 0 <= blocks t false 7 <= 9.
Proof.
  intros Ht. unfold blocks. destruct (Z.eq_dec t 0) as [->|]; [ground|].
  pose proof (log2_width t 64 ltac:(lia)).
  split; [apply Z.div_pos; lia|]. assert (Z.log2 t / 7 < 10); [|lia]. apply Z.div_lt_upper_bound; lia.
Qed.

Lemma blocks8_range t : 0 <= t < 2 ^ 64 -> 0 <= blocks t false 8 <= 7.
Proof.
  intros Ht. unfold blocks. destruct (Z.eq_dec t 0) as [->|]; [ground|].
  pose proof (log2_width t 64 ltac:(lia)).
  split; [apply Z.div_pos; lia|]. assert (Z.log2 t / 8 < 8); [|lia]. apply Z.div_lt_upper_bound; lia.
Qed.

(** The long tag form is the base-128 digits with continuation bits. *)
Lemma encode_to_octets_7 t :
  0 <= t < 2 ^ 64 ->
  encode_to_octets 8 t (8 * 8 / 7 + 1) 8 false 7 128 =
  Ok (map (fun x => x + 128) (digits128 (Z.to_nat (blocks t false 7 + 1)) t)).
Proof.
  intros Ht. pose proof (blocks7_range t Ht) as HB. unfold encode_to_octets.
  rewrite highest_bit_block_spec by (change (2 ^ (8 * 8)) with (2 ^ 64); lia).
  rewrite (wrap_small 8 (_ + 1)) by (change (2 ^ 8) with 256; lia).
  change (8 * 8 / 7 + 1) with 10.
  destruct (Z.ltb_spec 10 (blocks t false 7 + 1)); [lia|]. f_equal.
  rewrite digits128_map, map_map. apply map_ext_in. intros i Hi%in_seq.
  change (wrap 8 (Z.shiftl 1 7 - 1)) with 127. rewrite Z2Nat.id by lia.
  rewrite (wrap_small 8 (_ * 7)) by (change (2 ^ 8) with 256; lia).
  unfold bits_from_position. set (pos := (_ - _ - 1) * 7).
  assert (0 <= (t / 2 ^ pos) mod 128 < 128) as Hm by (apply Z.mod_pos_bound; lia).
  destruct (Z.ltb_spec pos (8 * 8)); [|unfold pos in *; lia].
  rewrite land_127, Z.shiftr_div_pow2 by (unfold pos; lia). rewrite lor_128 by lia.
  apply wrap_small. change (2 ^ 8) with 256. lia.
Qed.

Lemma emits_encode_tag h : header_ok h -> emits (encode_tag h) (tag_octets h).
Proof.
  intros (Hc & Ht & Hl). unfold encode_tag, tag_octets. destruct (Z.ltb_spec 30 (h_tag h)).
  - unfold encode_long_tag. change (?a :: ?b) with ([a] ++ b) at 1.
    eapply emits_bind; [by apply emits_first_byte; lia|]. intros _.
    eapply emits_lift; [by apply encode_to_octets_7|].
    eapply emits_eq; [apply emits_write|]. pose proof (blocks7_range _ Ht).
    set (n := Z.to_nat (blocks (h_tag h) false 7 + 1)). assert (n = S (pred n)) as -> by (unfold n; lia).
    cbn [digits128 pred]. rewrite map_app. cbn [map]. rewrite clear_last_snoc. unfold tag_digits. cbn [pred].
    do 2 f_equal. rewrite land_127. rewrite <- (Z.mul_1_l 128) at 2. rewrite Z.mod_add by lia. by rewrite Z.mod_mod.
  - eapply emits_eq; [apply emits_first_byte; [done|]|].
    + change 31 with (Z.ones 5). rewrite Z.land_ones by lia. apply Z.mod_pos_bound. lia.
    + change 31 with (Z.ones 5). rewrite Z.land_ones by lia. rewrite Z.mod_small; [done|]. change (2 ^ 5) with 32. lia.
Qed.

Lemma emits_encode_length h : header_ok h -> emits (encode_length h) (length_octets (h_length h)).
Proof.
  intros (Hc & Ht & Hl). unfold encode_length, length_octets. destruct (Z.ltb_spec 127 (h_length h)).
  - unfold encode_long_length. pose proof (blocks8_range _ Hl) as HB. cbv zeta.
    set (k := blocks (h_length h) false 8 + 1) in *.
    eapply emits_lift; [apply encode_to_octets_8; change (2 ^ (8 * 8)) with (2 ^ 64); lia|]. fold k.
    apply (emits_bind _ _ [128 + k]); [|intros _; apply emits_write].
    eapply emits_eq; [apply emits_write|]. f_equal. rewrite zlen_be_digits, Z2Nat.id by lia.
    rewrite Z.lor_comm, lor_128 by lia. lia.
  - eapply emits_eq; [apply emits_write|]. f_equal. rewrite land_127. apply Z.mod_small. lia.
Qed.

Lemma emits_header h : header_ok h -> emits (encode_header h) (header_octets h).
Proof.
  intros. unfold encode_header, header_octets.
  eapply emits_bind; [by apply emits_encode_tag|]. intros _. by apply emits_encode_length.
Qed.

(** ** What the encoder operations emit *)

Lemma wf_header c t n constr : 0 <= c < 4 -> 0 <= t < 2 ^ 64 -> 0 <= n < 2 ^ 64 -> header_ok (AsnHeader c t n constr).
Proof. done. Qed.

Definition tag_ok (t : option tag_info) : Prop :=
  match t with
  | None => True
  | Some t => 0 <= default 0 (ti_type t) < 4 /\ 0 <= ti_tag t < 2 ^ 64
  end.

Lemma tag_ok_class t : tag_ok t -> 0 <= get_asn_class t < 4.
Proof. destruct t as [[[c|] n]|]; cbn; unfold universal_c, context_specific_c; intuition lia. Qed.

Lemma tag_ok_tag t d : tag_ok t -> 0 <= d < 2 ^ 64 -> 0 <= get_tag t d < 2 ^ 64.
Proof. destruct t as [[c n]|]; cbn; intuition. Qed.

Lemma emits_tlv c t content :
  header_ok (AsnHeader c t (zlen content) false) ->
  emits (encode_header (AsnHeader c t (zlen content) false) ;; enc_write content) (tlv c t false content).
Proof. intros H. unfold tlv. eapply emits_bind; [by apply emits_header|]. intros _. apply emits_write. Qed.

Lemma emits_integer sizeof v tag sh d :
  tag_ok tag -> 0 <= d < 2 ^ 64 -> 1 <= sh <= sizeof -> sizeof <= 8 ->
  - 2 ^ (8 * sh - 1) <= v < 2 ^ (8 * sh) ->
  emits (enc_integer sizeof v tag sh d) (tlv (get_asn_class tag) (get_tag tag d) false (int_octets v)).
Proof.
  intros Ht Hd Hsh Hsz Hv. unfold enc_integer.
  destruct (encode_integer_spec sizeof v (sizeof + 1) sh) as (E & Hw & _); [lia..|].
  eapply emits_lift; [done|]. apply emits_tlv. apply wf_header;
    [by apply tag_ok_class|by apply tag_ok_tag|].
  rewrite zlen_int_octets. assert (2 ^ 4 < 2 ^ 64) by reflexivity. lia.
Qed.

Lemma emits_string s tag d :
  tag_ok tag -> 0 <= d < 2 ^ 64 -> zlen s <= max_structure_size ->
  emits (enc_string s tag d) (tlv (get_asn_class tag) (get_tag tag d) false s).
Proof.
  intros Ht Hd Hs. unfold enc_string. destruct (Z.ltb_spec max_structure_size (zlen s)); [lia|].
  unfold tlv. eapply emits_bind.
  - apply emits_header. apply wf_header; [by apply tag_ok_class|by apply tag_ok_tag|].
    pose proof (zlen_nonneg s). assert (max_structure_size < 2 ^ 64) by reflexivity. lia.
  - intros _. destruct (Z.eqb_spec (zlen s) 0) as [Hz|Hz]; [|apply emits_write].
    apply zlen_zero in Hz as ->. apply emits_ret.
Qed.

(** A sequence: whatever the fields append becomes the contents. *)
Lemma emits_sequence {A} h (m : enc A) bs :
  emits m bs -> header_ok (AsnHeader (h_class h) (h_tag h) (zlen bs) (h_constructed h)) ->
  emits (enc_push h ;; m ;; enc_end_sequence)
        (header_octets (AsnHeader (h_class h) (h_tag h) (zlen bs) (h_constructed h)) ++ bs).
Proof.
  intros Hm Hh s Hs.
  rewrite (bind_ok _ _ s tt (Encoder (e_stream s) (SeqStruct h [] :: e_layers s)) eq_refl).
  destruct (Hm (Encoder (e_stream s) (SeqStruct h [] :: e_layers s)) Hs) as [a Ea].
  rewrite (bind_ok _ _ _ _ _ Ea). unfold append_out at 1. cbn [e_layers e_stream ss_header ss_data].
  unfold enc_end_sequence. erewrite bind_ok by reflexivity. cbn [e_stream ss_header ss_data]. rewrite app_nil_l.
  assert (emits (encode_header (AsnHeader (h_class h) (h_tag h) (zlen bs) (h_constructed h)) ;;
                 if zlen bs =? 0 then mret tt else enc_write bs)
            (header_octets (AsnHeader (h_class h) (h_tag h) (zlen bs) (h_constructed h)) ++ bs)) as HE.
  { eapply emits_bind; [by apply emits_header|]. intros _.
    destruct (Z.eqb_spec (zlen bs) 0) as [Hz|Hz]; [|apply emits_write].
    apply zlen_zero in Hz as ->. apply emits_ret. }
  destruct s as [st ls]. apply (HE (Encoder st ls) Hs).
Qed.
