(* ===== verification/Asn1Decoder.v ===== *)
(** The DER decoder: [serialisation/codec/asn_der/asn_der_decoder.hpp] over
    [octet_span_istream], and its round trip with the encoder.

    Not modelled: [decode(double)] and [decode(time_point)]. *)

From stdpp Require Import base list numbers strings.
From Stdlib Require Import ZArith Lia.
From S2P Require Import Prelude ByteOrder Asn1Int Asn1Stream Asn1Encoder.
Open Scope Z_scope.

Definition max_structure_depth : Z := 64.

Record decoder : Type := Decoder {
  d_s : buffered_stream;
  d_seq : list Z          (** [seq_pos_], front first: ends of the open elements *)
}.

Definition new_decoder (data : octets) : decoder := Decoder (new_buffered (span_istream data)) [].

Abbreviation dec := (sexn decoder ser_exn).

(** ** Access to the stream *)

Definition rd (n : Z) : dec octets := fun s =>
  let '(r, b) := bs_read n (d_s s) in (r, Decoder b (d_seq s)).

Definition rd1 : dec Z := b ← rd 1; mret (hd 0 b).

Definition position (s : decoder) : Z := bs_pos (d_s s).

Definition dec_readable (n : Z) : dec bool := fun s =>
  let '(r, b) := readable_bytes n (d_s s) in (Ok r, Decoder b (d_seq s)).

Definition dec_start_peek (s : decoder) : Z * decoder :=
  let '(i, b) := start_peek (d_s s) in (i, Decoder b (d_seq s)).

Definition dec_end_peek (i : Z) (commit : bool) (s : decoder) : decoder :=
  Decoder (end_peek i commit (d_s s)) (d_seq s).

(** [stream_peek_guard]: always rewinds. *)
Definition stream_peek {A} (m : dec A) : dec A := fun s =>
  let '(i, s1) := dec_start_peek s in
  with_dtor m (fun _ => dec_end_peek i false) s1.

(** [peek_guard] of codec/decoder.hpp: commits unless an exception is leaving. *)
Definition peek_guard {A} (m : dec A) : dec A := fun s =>
  let '(i, s1) := dec_start_peek s in
  with_dtor m (fun ex => dec_end_peek i (negb ex)) s1.

Definition is_end_of_sequence (s : decoder) : bool :=
  match d_seq s with [] => false | e :: _ => e <=? position s end.

(** ** Headers *)

(** The loop of [decode_long_tag]; [n] continuation octets are still allowed. *)
Fixpoint long_tag_loop (n : nat) (ret b : Z) : dec Z :=
  if Z.testbit b 7 then
    match n with
    | O => throw (SerialisationError "too long tag in asn header")
    | S k => b' ← rd1; long_tag_loop k (wrap 64 (Z.lor (Z.shiftl ret 7) (Z.land b 127))) b'
    end
  else mret (wrap 64 (Z.lor (Z.shiftl ret 7) b)).

Definition decode_long_tag : dec Z := b ← rd1; long_tag_loop 9 0 b.

Definition decode_tag_number (b : Z) : dec Z :=
  if Z.land b 31 =? 31 then decode_long_tag else mret (Z.land b 31).

Definition decode_long_length (b : Z) : dec Z :=
  let size := Z.land b 127 in
  if (8 <? size) || (size =? 0) then throw (SerialisationError "illegal length in asn header")
  else buf ← rd size; mret (decode_from_octets u64 buf).

Definition decode_length : dec Z :=
  b ← rd1;
  if Z.testbit b 7 then decode_long_length b else mret (Z.land b 127).

Definition decode_tag : dec asn_header :=
  b ← rd1;
  t ← decode_tag_number b;
  mret (AsnHeader (Z.shiftr b 6) t 0 (Z.testbit b 5)).

Definition decode_header : dec asn_header :=
  h ← decode_tag;
  len ← decode_length;
  let max_size := if h_constructed h then max_constructed_size else max_structure_size in
  if max_size <? len then throw (SerialisationError "asn structure too big")
  else mret (AsnHeader (h_class h) (h_tag h) len (h_constructed h)).

(** [is_end_of_sequence() || (seq_pos_.empty() && !s_.readable_bytes(1))] *)
Definition nothing_left : dec bool := fun s =>
  if is_end_of_sequence s then (Ok true, s)
  else match d_seq s with
       | [] => (r ← dec_readable 1; mret (negb r)) s
       | _ => (Ok false, s)
       end.

(** [decode_header(asn_class, tag)]: the expected element, or
    [element_not_present]. *)
Definition expect_header (asn_class tag : Z) : dec asn_header :=
  at_end ← nothing_left;
  if at_end : bool then throw (ElementNotPresent "end of sequence when trying to decode header")
  else
    header ← decode_header;
    if negb (h_class header =? asn_class) || negb (h_tag header =? tag)
    then throw (ElementNotPresent "asn class or tag does not match")
    else mret header.

(** ** Primitives *)

Definition dec_string (tag : option tag_info) (default_tag : Z) : dec octets :=
  h ← expect_header (get_asn_class tag) (get_tag tag default_tag);
  rd (h_length h).

Definition decode_string (tag : option tag_info) : dec octets := dec_string tag tag_t61string.
Definition decode_octets (tag : option tag_info) : dec octets := dec_string tag tag_octet_string.

(** [decode_integer<Type>]. *)
Definition dec_integer (t : int_type) (tag : option tag_info) (size_hint default_tag : Z) : dec Z :=
  h ← expect_header (get_asn_class tag) (get_tag tag default_tag);
  if size_hint + (if it_signed t then 0 else 1) <? h_length h
  then throw (SerialisationError "integer does not fit to given type")
  else if h_length h =? 0 then throw (SerialisationError "integer must be at least one octet")
  else
    buf ← rd (h_length h);
    if Z.testbit (hd 0 buf) 7 && negb (it_signed t)
    then throw (SerialisationError "unsigned/signed mismatch")
    else mret (Asn1Int.decode_integer t buf size_hint).

Definition decode_bool (tag : option tag_info) : dec bool :=
  v ← dec_integer i32 tag 1 tag_boolean; mret (negb (v =? 0)).

Definition decode_int64 (tag : option tag_info) (size_hint : Z) : dec Z := dec_integer i64 tag size_hint tag_integer.
Definition decode_uint64 (tag : option tag_info) (size_hint : Z) : dec Z := dec_integer u64 tag size_hint tag_integer.

Definition decode_big (tag : option tag_info) : dec octets :=
  h ← expect_header (get_asn_class tag) (get_tag tag tag_integer);
  if h_length h =? 0 then throw (SerialisationError "integer must be at least one octet")
  else rd (h_length h).

(** [d] keeps its value (empty) when the sequence is already at its end. *)
Definition decode_trailing : dec octets := fun s =>
  match d_seq s with
  | [] => (Throw (SerialisationError "trailing data decoded outside a sequence"), s)
  | e :: _ => if position s <? e then rd (e - position s) s else (Ok [], s)
  end.

(** ** Constructed elements *)

Definition dec_push (length : Z) : dec unit := fun s =>
  if max_structure_depth <=? zlen (d_seq s) then (Throw (SerialisationError "structure nesting too deep"), s)
  else (Ok tt, Decoder (d_s s) (position s + length :: d_seq s)).

(** [for(; s_.pos() < pos; s_.read()) {}] *)
Fixpoint skip (n : nat) : dec unit :=
  match n with
  | O => mret tt
  | S k => rd1 ;; skip k
  end.

Definition dec_pop : dec unit := fun s =>
  match d_seq s with
  | [] => (Throw (OtherExn "assert"), s)
  | e :: es => skip (Z.to_nat (e - position s)) (Decoder (d_s s) es)
  end.

Definition dec_start_sequence (tag : option tag_info) : dec unit :=
  h ← expect_header (get_asn_class tag) (get_tag tag tag_sequence);
  if negb (h_constructed h) then throw (SerialisationError "invalid sequence") else dec_push (h_length h).

Definition dec_end_sequence : dec unit := dec_pop.

Definition dec_start_explicit_tag (tag : tag_info) : dec unit :=
  h ← expect_header (default context_specific_c (ti_type tag)) (ti_tag tag);
  if negb (h_constructed h) then throw (SerialisationError "invalid explicit tag") else dec_push (h_length h).

Definition dec_end_explicit_tag : dec unit := dec_pop.

(** ** Look-ahead queries *)

Definition next_header : dec asn_header := stream_peek decode_header.

Definition next_tag : dec tag_info := h ← next_header; mret (TagInfo (Some (h_class h)) (h_tag h)).

(** [catch(...)]: any exception becomes 0. *)
Definition catch_zero (m : dec Z) : dec Z := try_catch m (fun _ => mret 0).

Definition next_length : dec Z := fun s =>
  let pos := position s in
  catch_zero (stream_peek (fun s1 =>
    match decode_header s1 with
    | (Ok h, s2) => (Ok (position s2 - pos + h_length h), s2)
    | (Throw e, s2) => (Throw e, s2)
    end)) s.

Definition has_next : dec Z :=
  catch_zero (
    len ← next_length;
    if len =? 0 then mret 0
    else r ← dec_readable len; mret (if r : bool then len else 0)).

(** ** The decoder on a cursor *)

(** [all] holds the octets [bs] at position [p]. *)
Definition octets_at (all : octets) (p : Z) (bs : octets) : Prop :=
  0 <= p /\ p + zlen bs <= zlen all /\ slice p (zlen bs) all = bs.

Lemma octets_at_app all p a b :
  octets_at all p (a ++ b) <-> octets_at all p a /\ octets_at all (p + zlen a) b.
Proof.
  unfold octets_at, slice. rewrite zlen_app.
  pose proof (zlen_nonneg a) as Ha. pose proof (zlen_nonneg b) as Hb.
  assert (0 <= p -> zdrop (p + zlen a) all = zdrop (zlen a) (zdrop p all)) as ED
    by (intros; by rewrite zdrop_zdrop by lia).
  assert (forall l : octets, ztake (zlen a + zlen b) l = ztake (zlen a) l ++ ztake (zlen b) (zdrop (zlen a) l)) as ET.
  { intros l. unfold ztake, zdrop. rewrite Z2Nat.inj_add by lia. by rewrite take_take_drop. }
  rewrite ET. split.
  - intros (H1 & H2 & H3). rewrite ED by lia.
    apply app_inj_1 in H3 as [H3 H4].
    + repeat split; try lia; done.
    + apply Nat2Z.inj. fold (zlen (ztake (zlen a) (zdrop p all))). rewrite zlen_ztake; [done|]. rewrite zlen_zdrop; lia.
  - intros ((H1 & H2 & H3) & (H4 & H5 & H6)). rewrite ED in H6 by lia. rewrite H3, H6. repeat split; lia.
Qed.

Lemma octets_at_all all : octets_at all 0 all.
Proof. unfold octets_at, slice. rewrite zdrop_0, ztake_all. split_and!; done. Qed.

Definition dview (all : octets) (mark : option (Z * Z)) (k p : Z) (seqs : list Z) (s : decoder) : Prop :=
  view all mark k p (d_s s) /\ d_seq s = seqs.

(** [reads pre m all p a p']: from position [p], whatever the peeking state and
    for open elements satisfying [pre], [m] returns [a] and leaves the cursor
    at [p'] and the open elements as they were. *)
Definition reads {A} (pre : list Z -> Prop) (m : dec A) (all : octets) (p : Z) (a : A) (p' : Z) : Prop :=
  forall mark k seqs s, pre seqs -> dview all mark k p seqs s ->
    exists s', m s = (Ok a, s') /\ dview all mark k p' seqs s'.

Definition anywhere (seqs : list Z) : Prop := True.

(** The innermost open element extends past [p]. *)
Definition before_end (p : Z) (seqs : list Z) : Prop :=
  match seqs with [] => True | e :: _ => p < e end.

Lemma reads_ret {A} pre all p (a : A) : reads pre (mret a) all p a p.
Proof. intros mark k seqs s _ V. by exists s. Qed.

Lemma reads_bind {A B} pre pre' (m : dec A) (f : A -> dec B) all p a p1 b p2 :
  reads pre m all p a p1 -> reads pre' (f a) all p1 b p2 -> (forall l, pre l -> pre' l) ->
  reads pre (m ≫= f) all p b p2.
Proof.
  intros Hm Hf Hp mark k seqs s H V. destruct (Hm _ _ _ _ H V) as (s1 & E & V1).
  rewrite (bind_ok _ _ _ _ _ E). apply (Hf _ _ _ _ (Hp _ H) V1).
Qed.

Lemma reads_weaken {A} (pre pre' : list Z -> Prop) (m : dec A) all p a p' :
  reads pre m all p a p' -> (forall l, pre' l -> pre l) -> reads pre' m all p a p'.
Proof. intros Hm Hp mark k seqs s H V. apply Hm; auto. Qed.

Lemma reads_rd all p bs : octets_at all p bs -> reads anywhere (rd (zlen bs)) all p bs (p + zlen bs).
Proof.
  intros (H1 & H2 & H3) mark k seqs s _ [V <-]. unfold rd.
  destruct (read_view _ _ _ _ (zlen bs) _ V (zlen_nonneg _) H2) as (b' & -> & V').
  rewrite H3. eexists; split; [done|]. by split.
Qed.

Lemma reads_rd1 all p b : octets_at all p [b] -> reads anywhere rd1 all p b (p + 1).
Proof.
  intros H. unfold rd1. eapply reads_bind; [apply (reads_rd _ _ _ H)|apply reads_ret|done].
Qed.

(** ** Reading headers *)

Definition val128 (acc : Z) (ds : octets) : Z := fold_left (fun a d => a * 128 + d) ds acc.

Lemma val128_mono ds acc : Forall (fun d => 0 <= d < 128) ds -> 0 <= acc -> acc <= val128 acc ds.
Proof.
  intros H; revert acc; induction H as [|d ds Hd _ IH]; intros acc Ha; [done|].
  unfold val128 in *; cbn [fold_left]. specialize (IH (acc * 128 + d)). lia.
Qed.

Lemma val128_digits n t : val128 0 (digits128 n t) = t mod 2 ^ (7 * Z.of_nat n).
Proof.
  revert t; induction n as [|n IH]; intros t; [simpl; by rewrite Z.mod_1_r|].
  cbn [digits128]. unfold val128 in *. rewrite fold_left_app. cbn [fold_left]. rewrite IH.
  replace (7 * Z.of_nat (S n)) with (7 * Z.of_nat n + 7) by lia. rewrite Z.pow_add_r by lia.
  change (2 ^ 7) with 128. rewrite (Z.mul_comm (2 ^ _) 128), Z.rem_mul_r by lia. lia.
Qed.

Lemma land_127_high d : 0 <= d < 128 -> Z.land (d + 128) 127 = d.
Proof. intros. rewrite land_127. rewrite <- (Z.mul_1_l 128) at 1. rewrite Z.mod_add, Z.mod_small; lia. Qed.

Lemma shift7 acc d : 0 <= acc -> 0 <= d < 128 -> Z.lor (Z.shiftl acc 7) d = acc * 128 + d.
Proof. intros. rewrite Z.lor_comm, lor_disjoint by lia. change (2 ^ 7) with 128. lia. Qed.

Lemma reads_long_tag_loop all last ds n acc p :
  Forall (fun d => 0 <= d < 128) ds -> 0 <= last < 128 -> (length ds <= n)%nat -> 0 <= acc ->
  val128 acc (ds ++ [last]) < 2 ^ 64 ->
  let os := map (fun x => x + 128) ds ++ [last] in
  octets_at all p (tl os) ->
  reads anywhere (long_tag_loop n acc (hd 0 os)) all p (val128 acc (ds ++ [last])) (p + zlen os - 1).
Proof.
  intros Hds Hl; revert n acc p; induction Hds as [|d ds Hd Hds IH]; intros n acc p Hn Ha Hv os Hp; subst os.
  - cbn [map app hd tl] in *. rewrite zlen_cons, zlen_nil. replace (p + (0 + 1) - 1) with p by lia.
    destruct n; cbn [long_tag_loop]; rewrite octet_bit7 by (unfold is_octet; lia);
      destruct (Z.leb_spec 128 last); try lia; rewrite shift7 by lia;
      unfold val128 in *; cbn [fold_left app] in *; rewrite wrap_small by lia; apply reads_ret.
  - simpl in Hn. destruct n as [|n]; [lia|]. cbn [map app hd tl] in *.
    cbn [long_tag_loop]. rewrite octet_bit7 by (unfold is_octet; lia).
    destruct (Z.leb_spec 128 (d + 128)); [|lia]. rewrite land_127_high, shift7 by lia.
    change (val128 acc (d :: ds ++ [last])) with (val128 (acc * 128 + d) (ds ++ [last])) in *.
    assert (acc * 128 + d <= val128 (acc * 128 + d) (ds ++ [last])) as Hm.
    { apply val128_mono; [|lia]. apply Forall_app; auto. }
    rewrite wrap_small by lia.
    assert (exists o os, map (fun x => x + 128) ds ++ [last] = o :: os) as (o & os & Eo).
    { destruct ds; simpl; eauto. }
    rewrite Eo in *. change (o :: os) with ([o] ++ os) in Hp. apply octets_at_app in Hp as [Hp1 Hp2].
    eapply reads_bind; [by apply reads_rd1| |done].
    specialize (IH n (acc * 128 + d) (p + 1) ltac:(lia) ltac:(lia) Hv). cbv zeta in IH.
    cbn [hd tl] in IH. specialize (IH Hp2).
    replace (p + zlen (d + 128 :: o :: os) - 1) with (p + 1 + zlen (o :: os) - 1) by (rewrite !zlen_cons; lia).
    done.
Qed.

Lemma digits128_snoc n t : digits128 (S n) t = digits128 n (t / 128) ++ [t mod 128].
Proof. done. Qed.

Lemma reads_long_tag all t p n :
  (1 <= n <= 10)%nat -> 0 <= t < 2 ^ 64 -> t < 2 ^ (7 * Z.of_nat n) -> octets_at all p (tag_digits n t) ->
  reads anywhere decode_long_tag all p t (p + zlen (tag_digits n t)).
Proof.
  intros Hn Ht Hw Hp. unfold decode_long_tag, tag_digits in *. set (ds := digits128 (pred n) (t / 128)) in *.
  assert (Forall (fun d => 0 <= d < 128) ds) as Hds by apply digits128_range.
  assert (0 <= t mod 128 < 128) as Hm by (apply Z.mod_pos_bound; lia).
  assert (val128 0 (ds ++ [t mod 128]) = t) as Hval.
  { unfold ds. rewrite <- digits128_snoc. rewrite val128_digits. replace (S (pred n)) with n by lia.
    apply Z.mod_small. lia. }
  assert (length ds <= 9)%nat as HL.
  { unfold ds. rewrite digits128_map, length_map, length_seq. lia. }
  pose proof (reads_long_tag_loop all (t mod 128) ds 9 0 (p + 1) Hds Hm HL ltac:(lia) ltac:(lia)) as HR.
  cbv zeta in HR. rewrite Hval in HR.
  assert (exists o os, map (fun x => x + 128) ds ++ [t mod 128] = o :: os) as (o & os & Eo) by (destruct ds; simpl; eauto).
  rewrite Eo in *. change (o :: os) with ([o] ++ os) in Hp. apply octets_at_app in Hp as [Hp1 Hp2].
  eapply reads_bind; [by apply reads_rd1| |done]. cbn [hd tl] in HR.
  replace (p + zlen (o :: os)) with (p + 1 + zlen (o :: os) - 1) by lia. by apply HR.
Qed.

Lemma first_octet_fields c t (constr : bool) :
  0 <= c < 4 -> 0 <= t < 32 ->
  let b := first_octet c t constr in
  Z.shiftr b 6 = c /\ Z.testbit b 5 = constr /\ Z.land b 31 = t.
Proof.
  intros Hc Ht. cbv zeta. unfold first_octet. change 31 with (Z.ones 5).
  rewrite Z.shiftr_div_pow2, Z.land_ones by lia.
  split_and!.
  - symmetry. apply Z.div_unique with ((if constr then 32 else 0) + t); [destruct constr; lia|]. change (2 ^ 6) with 64. lia.
  - destruct constr.
    + apply Z.testbit_true; [lia|]. change (2 ^ 5) with 32.
      replace (c * 64 + 32 + t) with (t + (2 * c + 1) * 32) by lia. rewrite Z.div_add, Z.div_small by lia.
      rewrite Z.add_0_l, Z.add_comm, Z.mul_comm, Z.mod_add by lia. done.
    + apply Z.testbit_false; [lia|]. change (2 ^ 5) with 32.
      replace (c * 64 + 0 + t) with (t + (2 * c) * 32) by lia. rewrite Z.div_add, Z.div_small by lia.
      rewrite Z.add_0_l, Z.mul_comm, Z.mod_mul by lia. done.
  - symmetry. apply Z.mod_unique with (2 * c + (if constr then 1 else 0)); change (2 ^ 5) with 32; destruct constr; lia.
Qed.

Definition header_readable (h : asn_header) : Prop :=
  header_ok h /\ h_length h <= (if h_constructed h then max_constructed_size else max_structure_size).

Lemma reads_tag all h p :
  header_ok h -> octets_at all p (tag_octets h) ->
  reads anywhere decode_tag all p (AsnHeader (h_class h) (h_tag h) 0 (h_constructed h)) (p + zlen (tag_octets h)).
Proof.
  intros (Hc & Ht & Hl) Hp. unfold decode_tag, tag_octets in *.
  pose proof (blocks7_range _ Ht) as HB.
  destruct (Z.ltb_spec 30 (h_tag h)) as [Hlong|Hshort].
  - set (n := Z.to_nat (blocks (h_tag h) false 7 + 1)) in *.
    set (c := first_octet (h_class h) 31 (h_constructed h)) in *.
    change (c :: tag_digits n (h_tag h)) with ([c] ++ tag_digits n (h_tag h)) in *.
    apply octets_at_app in Hp as [Hp1 Hp2]. rewrite zlen_app.
    destruct (first_octet_fields (h_class h) 31 (h_constructed h)) as (F1 & F2 & F3); [lia..|]. fold c in F1, F2, F3.
    eapply reads_bind; [by apply reads_rd1| |done].
    eapply reads_bind; [| |done].
    + unfold decode_tag_number. rewrite F3. cbn [Z.eqb Pos.eqb]. rewrite zlen_cons, zlen_nil in Hp2.
      apply (reads_long_tag _ (h_tag h) _ n); [lia|done| |done].
      unfold n. rewrite Z2Nat.id by lia. unfold blocks.
      pose proof (Z.log2_spec (h_tag h) ltac:(lia)) as [_ HL].
      assert (2 ^ Z.succ (Z.log2 (h_tag h)) <= 2 ^ (7 * (Z.log2 (h_tag h) / 7 + 1))); [|lia].
      apply Z.pow_le_mono_r; [lia|]. pose proof (Z.mul_succ_div_gt (Z.log2 (h_tag h)) 7). lia.
    + rewrite F1, F2. replace (p + (zlen [c] + zlen (tag_digits n (h_tag h)))) with (p + 1 + zlen (tag_digits n (h_tag h))) by (rewrite zlen_cons, zlen_nil; lia).
      apply reads_ret.
  - destruct (first_octet_fields (h_class h) (h_tag h) (h_constructed h)) as (F1 & F2 & F3); [lia..|].
    eapply reads_bind; [by apply reads_rd1| |done].
    unfold decode_tag_number. rewrite F1, F2, F3. destruct (Z.eqb_spec (h_tag h) 31); [lia|].
    eapply reads_bind; [apply reads_ret|apply reads_ret|done].
Qed.

Lemma reads_length all n p :
  0 <= n < 2 ^ 64 -> octets_at all p (length_octets n) ->
  reads anywhere decode_length all p n (p + zlen (length_octets n)).
Proof.
  intros Hn Hp. unfold decode_length, length_octets in *.
  pose proof (blocks8_range _ Hn) as HB. cbv zeta in *.
  destruct (Z.ltb_spec 127 n) as [Hlong|Hshort].
  - set (k := blocks n false 8 + 1) in *.
    pose proof (zlen_be_digits (Z.to_nat k) n) as Hz. rewrite Z2Nat.id in Hz by lia.
    change (128 + k :: be_digits (Z.to_nat k) n) with ([128 + k] ++ be_digits (Z.to_nat k) n) in *.
    apply octets_at_app in Hp as [Hp1 Hp2]. rewrite zlen_app.
    eapply reads_bind; [by apply reads_rd1| |done].
    rewrite octet_bit7 by (unfold is_octet; lia). destruct (Z.leb_spec 128 (128 + k)); [|lia].
    unfold decode_long_length. rewrite (Z.add_comm 128 k), land_127_high by lia.
    destruct (Z.ltb_spec 8 k); [lia|]. destruct (Z.eqb_spec k 0); [lia|]. cbn [orb].
    rewrite <- Hz at 1. replace (p + (zlen [k + 128] + zlen (be_digits (Z.to_nat k) n))) with
      (p + 1 + zlen (be_digits (Z.to_nat k) n)) by (rewrite zlen_cons, zlen_nil; lia).
    rewrite zlen_cons, zlen_nil in Hp2.
    eapply reads_bind; [by apply reads_rd| |done].
    rewrite decode_from_octets_wrap by (simpl; auto; try (rewrite Hz; unfold it_bits; simpl; lia); lia).
    rewrite be_val_digits, Z2Nat.id by lia.
    rewrite Z.mod_small; [apply reads_ret|].
    pose proof (Z.log2_spec n ltac:(lia)) as [_ HL].
    assert (2 ^ Z.succ (Z.log2 n) <= 2 ^ (8 * k)); [|lia].
    apply Z.pow_le_mono_r; [lia|]. unfold k, blocks. pose proof (Z.mul_succ_div_gt (Z.log2 n) 8). lia.
  - eapply reads_bind; [by apply reads_rd1| |done].
    rewrite octet_bit7 by (unfold is_octet; lia). destruct (Z.leb_spec 128 n); [lia|].
    rewrite land_127, Z.mod_small by lia. apply reads_ret.
Qed.

Lemma reads_header all h p :
  header_readable h -> octets_at all p (header_octets h) ->
  reads anywhere decode_header all p h (p + zlen (header_octets h)).
Proof.
  intros [Hh Hm] Hp. unfold header_octets in *. apply octets_at_app in Hp as [Hp1 Hp2].
  unfold decode_header. rewrite zlen_app, Z.add_assoc.
  eapply reads_bind; [by apply reads_tag| |done]. cbn [h_constructed h_class h_tag].
  eapply reads_bind; [apply reads_length; [apply Hh|done]| |done].
  destruct (Z.ltb_spec (if h_constructed h then max_constructed_size else max_structure_size) (h_length h)); [lia|].
  destruct h. apply reads_ret.
Qed.

Lemma zlen_header_pos h : header_ok h -> 2 <= zlen (header_octets h).
Proof.
  intros (_ & Ht & Hl). unfold header_octets, tag_octets, length_octets.
  rewrite zlen_app. cbv zeta. pose proof (blocks8_range _ Hl).
  repeat match goal with |- context [if ?b then _ else _] => destruct b end; rewrite ?zlen_cons, ?zlen_nil;
    pose proof (zlen_nonneg (tag_digits (Z.to_nat (blocks (h_tag h) false 7 + 1)) (h_tag h)));
    pose proof (zlen_nonneg (be_digits (Z.to_nat (blocks (h_length h) false 8 + 1)) (h_length h))); lia.
Qed.

(** ** Expected elements *)

Lemma nothing_left_no all mark k p seqs s :
  before_end p seqs -> dview all mark k p seqs s -> p + 1 <= zlen all ->
  exists s', nothing_left s = (Ok false, s') /\ dview all mark k p seqs s'.
Proof.
  intros Hpre V Hp. pose proof V as [V0 Hs]. destruct (view_core _ _ _ _ _ V0) as [_ Hpos].
  unfold nothing_left, is_end_of_sequence, position, bs_pos. rewrite Hs, <- Hpos.
  destruct seqs as [|e es].
  - destruct (readable_view _ _ _ _ 1 _ V0 ltac:(lia) ltac:(lia)) as (b' & E & V').
    eexists. erewrite bind_ok; [|unfold dec_readable; rewrite E; reflexivity]. split; [reflexivity|]. by split.
  - cbn [before_end] in Hpre. destruct (Z.leb_spec e p); [lia|]. by exists s.
Qed.

Lemma reads_expect_header all h p :
  header_readable h -> octets_at all p (header_octets h) ->
  reads (before_end p) (expect_header (h_class h) (h_tag h)) all p h (p + zlen (header_octets h)).
Proof.
  intros Hh Hp mark k seqs s Hpre V. unfold expect_header.
  pose proof (zlen_header_pos h (proj1 Hh)) as HL. pose proof Hp as (P1 & P2 & _).
  destruct (nothing_left_no all mark k p seqs s Hpre V ltac:(lia)) as (s1 & E1 & V1).
  rewrite (bind_ok _ _ _ _ _ E1).
  destruct (reads_header all h p Hh Hp mark k seqs s1 I V1) as (s2 & E2 & V2).
  rewrite (bind_ok _ _ _ _ _ E2), !Z.eqb_refl. by exists s2.
Qed.

(** Elements with one header: [f] reads the contents. *)
Lemma reads_element {A} all c t (constr : bool) content p (f : asn_header -> dec A) a :
  header_readable (AsnHeader c t (zlen content) constr) ->
  octets_at all p (tlv c t constr content) ->
  (forall q, octets_at all q content ->
     reads anywhere (f (AsnHeader c t (zlen content) constr)) all q a (q + zlen content)) ->
  reads (before_end p) (h ← expect_header c t; f h) all p a (p + zlen (tlv c t constr content)).
Proof.
  intros Hh Hp Hf. unfold tlv in *. apply octets_at_app in Hp as [Hp1 Hp2]. rewrite zlen_app, Z.add_assoc.
  eapply reads_bind; [apply (reads_expect_header _ _ _ Hh Hp1)|by apply Hf|done].
Qed.

(** ** Primitives read back *)

Lemma zlen_int_octets_range v sh :
  1 <= sh <= 8 -> - 2 ^ (8 * sh - 1) <= v < 2 ^ (8 * sh) ->
  1 <= zlen (int_octets v) <= sh + 1 /\ (v < 2 ^ (8 * sh - 1) -> zlen (int_octets v) <= sh).
Proof.
  intros Hsh Hv. rewrite zlen_int_octets.
  destruct (encode_integer_spec 8 v 9 sh) as (_ & H1 & H2); [lia..|].
  destruct (int_width_fits v) as (H3 & _). lia.
Qed.

Lemma element_readable t d n :
  tag_ok t -> 0 <= d < 2 ^ 64 -> 0 <= n <= max_structure_size ->
  header_readable (AsnHeader (get_asn_class t) (get_tag t d) n false).
Proof.
  intros Ht Hd Hn. split; [|simpl; lia]. apply wf_header; [by apply tag_ok_class|by apply tag_ok_tag|].
  assert (max_structure_size < 2 ^ 64) by reflexivity. lia.
Qed.

Lemma reads_integer all t tag sh d v p :
  t = i64 \/ t = u64 \/ (t = i32 /\ sh <= 4) ->
  tag_ok tag -> 0 <= d < 2 ^ 64 -> 1 <= sh <= 8 ->
  (if it_signed t then - 2 ^ (8 * sh - 1) <= v < 2 ^ (8 * sh - 1) else 0 <= v < 2 ^ (8 * sh)) ->
  let bs := tlv (get_asn_class tag) (get_tag tag d) false (int_octets v) in
  octets_at all p bs -> reads (before_end p) (dec_integer t tag sh d) all p v (p + zlen bs).
Proof.
  intros Ht Htag Hd Hsh Hv bs Hp. subst bs.
  assert (2 ^ (8 * sh - 1) < 2 ^ (8 * sh)) as Hpow by (apply Z.pow_lt_mono_r; lia).
  assert (0 <= 2 ^ (8 * sh - 1)) by lia.
  assert (- 2 ^ (8 * sh - 1) <= v < 2 ^ (8 * sh)) as Hv' by (destruct (it_signed t); lia).
  destruct (zlen_int_octets_range v sh Hsh Hv') as [HL1 HL2].
  assert (max_structure_size = 2097152) as Hmax by reflexivity.
  unfold dec_integer. apply reads_element; [apply element_readable; auto; lia|done|].
  intros q Hq. cbn [h_length].
  destruct (Z.ltb_spec (sh + (if it_signed t then 0 else 1)) (zlen (int_octets v))); [destruct (it_signed t); lia|].
  destruct (Z.eqb_spec (zlen (int_octets v)) 0); [lia|].
  rewrite <- (Z.add_0_r (q + _)) || idtac.
  eapply reads_bind; [by apply reads_rd| |done].
  rewrite int_octets_sign.
  destruct Ht as [->|[->|[-> Hsh4]]]; cbn [it_signed i64 i32 u64] in *.
  - rewrite andb_false_r. rewrite decode_integer_signed by (auto using int_octets_octets; simpl; lia).
    rewrite be_sval_int_octets. rewrite ?Z.add_0_r. apply reads_ret.
  - destruct (Z.ltb_spec v 0); [lia|]. cbn [andb].
    rewrite decode_int_octets_u64 by lia. rewrite ?Z.add_0_r. apply reads_ret.
  - rewrite andb_false_r. rewrite decode_integer_signed by (auto using int_octets_octets; simpl; lia).
    rewrite be_sval_int_octets. rewrite ?Z.add_0_r. apply reads_ret.
Qed.

Lemma bool_fits (b : bool) : - 2 ^ (8 * 1 - 1) <= (if b then 1 else 0) < 2 ^ (8 * 1 - 1).
Proof. destruct b; by vm_compute. Qed.

Lemma reads_bool all tag (b : bool) p :
  tag_ok tag ->
  let bs := tlv (get_asn_class tag) (get_tag tag tag_boolean) false (int_octets (if b then 1 else 0)) in
  octets_at all p bs -> reads (before_end p) (decode_bool tag) all p b (p + zlen bs).
Proof.
  intros Ht bs Hp. unfold decode_bool. rewrite <- (Z.add_0_r (p + zlen bs)) || idtac.
  eapply reads_bind; [apply reads_integer; [by right; right|done|ground|lia|apply bool_fits|exact Hp]| |done].
  replace (negb ((if b then 1 else 0) =? 0)) with b by (by destruct b). rewrite ?Z.add_0_r. apply reads_ret.
Qed.

Lemma reads_string all tag d s p :
  tag_ok tag -> 0 <= d < 2 ^ 64 -> zlen s <= max_structure_size ->
  let bs := tlv (get_asn_class tag) (get_tag tag d) false s in
  octets_at all p bs -> reads (before_end p) (dec_string tag d) all p s (p + zlen bs).
Proof.
  intros Ht Hd Hs bs Hp. unfold dec_string.
  apply reads_element; [apply element_readable; auto; pose proof (zlen_nonneg s); lia|done|].
  intros q Hq. by apply reads_rd.
Qed.

(** ** Constructed elements *)

(** Room for [n] more nested elements, at a position before the end of the
    innermost one. *)
Definition ctx (p n : Z) (seqs : list Z) : Prop := before_end p seqs /\ zlen seqs + n <= max_structure_depth.

Lemma skip_view all mark k p seqs n s :
  dview all mark k p seqs s -> p + Z.of_nat n <= zlen all ->
  exists s', skip n s = (Ok tt, s') /\ dview all mark k (p + Z.of_nat n) seqs s'.
Proof.
  revert p s; induction n as [|n IH]; intros p s V Hn.
  - exists s. rewrite Z.add_0_r. by split.
  - cbn [skip]. destruct V as [V <-]. destruct (read_view _ _ _ _ 1 _ V ltac:(lia) ltac:(lia)) as (b' & E & V').
    erewrite bind_ok; [|unfold rd1; erewrite bind_ok; [reflexivity|unfold rd; rewrite E; reflexivity]].
    destruct (IH (p + 1) (Decoder b' (d_seq s))) as (s' & E' & V2); [by split|lia|].
    exists s'. split; [done|]. replace (p + Z.of_nat (S n)) with (p + 1 + Z.of_nat n) by lia. done.
Qed.

(** Closing an element skips what was not read of it. *)
Lemma pop_view all mark k p e es s :
  dview all mark k p (e :: es) s -> p <= e <= zlen all ->
  exists s', dec_pop s = (Ok tt, s') /\ dview all mark k e es s'.
Proof.
  intros [V Hs] He. destruct (view_core _ _ _ _ _ V) as [_ Hpos].
  unfold dec_pop. rewrite Hs. unfold position, bs_pos. rewrite <- Hpos.
  destruct (skip_view all mark k p es (Z.to_nat (e - p)) (Decoder (d_s s) es)) as (s' & E & V');
    [by split|lia|]. exists s'. split; [done|]. replace e with (p + Z.of_nat (Z.to_nat (e - p))) by lia. done.
Qed.

(** Opening one records where it ends. *)
Lemma reads_open all mark k c t content p (f : asn_header -> dec unit) seqs s :
  header_readable (AsnHeader c t (zlen content) true) ->
  octets_at all p (tlv c t true content) -> ctx p 1 seqs -> dview all mark k p seqs s ->
  exists q s', (h ← expect_header c t;
     if negb (h_constructed h) then throw (SerialisationError "invalid sequence") else dec_push (h_length h)) s = (Ok tt, s') /\
    (h ← expect_header c t;
     if negb (h_constructed h) then throw (SerialisationError "invalid explicit tag") else dec_push (h_length h)) s = (Ok tt, s') /\
    q + zlen content = p + zlen (tlv c t true content) /\ octets_at all q content /\
    dview all mark k q (q + zlen content :: seqs) s'.
Proof.
  intros Hh Hp [Hb Hd] V. unfold tlv in *. apply octets_at_app in Hp as [Hp1 Hp2].
  destruct (reads_expect_header all _ p Hh Hp1 _ _ _ _ Hb V) as (s1 & E & V1 & Hs1).
  cbn [h_class h_tag] in E. destruct (view_core _ _ _ _ _ V1) as [_ Hpos].
  exists (p + zlen (header_octets (AsnHeader c t (zlen content) true))).
  eexists. rewrite !(bind_ok _ _ _ _ _ E). cbn [h_constructed negb h_length].
  unfold dec_push. rewrite Hs1. destruct (Z.leb_spec max_structure_depth (zlen seqs)); [lia|].
  unfold position, bs_pos. rewrite <- Hpos. split_and!; try done. rewrite zlen_app. lia.
Qed.

(** ** What no input can make the decoder do *)

(** Open elements are untouched. *)
Definition keeps_seq {A} (m : dec A) : Prop := forall s, d_seq (snd (m s)) = d_seq s.

Lemma keeps_bind {A B} (m : dec A) (f : A -> dec B) :
  keeps_seq m -> (forall a, keeps_seq (f a)) -> keeps_seq (m ≫= f).
Proof.
  intros Hm Hf s. specialize (Hm s). unfold mbind, sexn_bind.
  destruct (m s) as [[a|e] s']; cbn [snd] in *; [by rewrite Hf|done].
Qed.

Lemma keeps_ret {A} (a : A) : keeps_seq (mret a).
Proof. by intros s. Qed.
Lemma keeps_throw {A} e : keeps_seq (@throw _ _ A e).
Proof. by intros s. Qed.
Lemma keeps_rd n : keeps_seq (rd n).
Proof. intros s. unfold rd. by destruct (bs_read n (d_s s)). Qed.
Lemma keeps_readable n : keeps_seq (dec_readable n).
Proof. intros s. unfold dec_readable. by destruct (readable_bytes n (d_s s)). Qed.
Lemma keeps_if {A} (b : bool) (m1 m2 : dec A) : keeps_seq m1 -> keeps_seq m2 -> keeps_seq (if b then m1 else m2).
Proof. by destruct b. Qed.
Create HintDb keeps.
#[export] Hint Resolve keeps_bind keeps_ret keeps_throw keeps_rd keeps_readable keeps_if : keeps.

Lemma keeps_rd1 : keeps_seq rd1.
Proof. unfold rd1. auto with keeps. Qed.
#[export] Hint Resolve keeps_rd1 : keeps.

Lemma keeps_long_tag_loop n ret b : keeps_seq (long_tag_loop n ret b).
Proof. revert ret b; induction n; intros; cbn [long_tag_loop]; auto 6 with keeps. Qed.
#[export] Hint Resolve keeps_long_tag_loop : keeps.

Lemma keeps_decode_header : keeps_seq decode_header.
Proof.
  unfold decode_header, decode_tag, decode_tag_number, decode_long_tag, decode_length, decode_long_length.
  cbv zeta. auto 12 with keeps.
Qed.
#[export] Hint Resolve keeps_decode_header : keeps.

Lemma keeps_expect_header c t : keeps_seq (expect_header c t).
Proof.
  unfold expect_header. apply keeps_bind; [|intros [|]; auto with keeps].
  intros s. unfold nothing_left. destruct (is_end_of_sequence s); [done|].
  destruct (d_seq s) eqn:E; [|done]. rewrite <- E.
  apply (keeps_bind (dec_readable 1)); auto with keeps.
Qed.
#[export] Hint Resolve keeps_expect_header : keeps.

Lemma keeps_skip n : keeps_seq (skip n).
Proof. induction n; cbn [skip]; auto with keeps. Qed.
#[export] Hint Resolve keeps_skip : keeps.

Lemma keeps_dec_integer t tag sh d : keeps_seq (dec_integer t tag sh d).
Proof. unfold dec_integer. auto 10 with keeps. Qed.
Lemma keeps_dec_string tag d : keeps_seq (dec_string tag d).
Proof. unfold dec_string. auto with keeps. Qed.
Lemma keeps_decode_big tag : keeps_seq (decode_big tag).
Proof. unfold decode_big. auto with keeps. Qed.
Lemma keeps_decode_bool tag : keeps_seq (decode_bool tag).
Proof. unfold decode_bool. auto using keeps_dec_integer with keeps. Qed.
Lemma keeps_trailing : keeps_seq decode_trailing.
Proof.
  intros s. unfold decode_trailing. destruct (d_seq s) eqn:E; [done|].
  destruct (position s <? z); [|done]. by rewrite keeps_rd.
Qed.

Lemma keeps_peek {A} (m : dec A) : keeps_seq m -> keeps_seq (stream_peek m).
Proof.
  intros Hm s. unfold stream_peek, with_dtor, dec_start_peek, start_peek. cbn [fst snd].
  match goal with |- context [m ?x] => pose proof (Hm x) as H; destruct (m x) as [[a|e] s'] end; by cbn in *.
Qed.

Lemma keeps_catch m : keeps_seq m -> keeps_seq (catch_zero m).
Proof.
  intros Hm s. unfold catch_zero, try_catch. specialize (Hm s). by destruct (m s) as [[a|e] s'].
Qed.

Lemma keeps_next_length : keeps_seq next_length.
Proof.
  intros s. unfold next_length. apply keeps_catch, keeps_peek. intros s1.
  pose proof (keeps_decode_header s1). by destruct (decode_header s1) as [[a|e] s'].
Qed.

Lemma keeps_has_next : keeps_seq has_next.
Proof. unfold has_next. apply keeps_catch. auto 8 using keeps_next_length with keeps. Qed.
#[export] Hint Resolve keeps_dec_integer keeps_dec_string keeps_decode_big keeps_decode_bool keeps_trailing
  keeps_next_length keeps_has_next : keeps.

(** The calls a deserialiser can make, and a run of them in which a failed
    call is followed by further ones (as the optional fields do). *)
Inductive decoder_call : Type :=
| CallBool (tag : option tag_info)
| CallInt64 (tag : option tag_info) (size_hint : Z)
| CallUint64 (tag : option tag_info) (size_hint : Z)
| CallBig (tag : option tag_info)
| CallString (tag : option tag_info)
| CallOctets (tag : option tag_info)
| CallTrailing
| CallStartSequence (tag : option tag_info)
| CallEndSequence
| CallStartExplicit (tag : tag_info)
| CallEndExplicit
| CallNextTag
| CallHasNext
| CallStartPeek
| CallEndPeek (i : Z) (commit : bool).

Definition run_call (c : decoder_call) (s : decoder) : decoder :=
  match c with
  | CallBool t => snd (decode_bool t s)
  | CallInt64 t h => snd (decode_int64 t h s)
  | CallUint64 t h => snd (decode_uint64 t h s)
  | CallBig t => snd (decode_big t s)
  | CallString t => snd (decode_string t s)
  | CallOctets t => snd (decode_octets t s)
  | CallTrailing => snd (decode_trailing s)
  | CallStartSequence t => snd (dec_start_sequence t s)
  | CallEndSequence => snd (dec_end_sequence s)
  | CallStartExplicit t => snd (dec_start_explicit_tag t s)
  | CallEndExplicit => snd (dec_end_explicit_tag s)
  | CallNextTag => snd (next_tag s)
  | CallHasNext => snd (has_next s)
  | CallStartPeek => snd (dec_start_peek s)
  | CallEndPeek i c => dec_end_peek i c s
  end.

Definition shallow (s : decoder) : Prop := zlen (d_seq s) <= max_structure_depth.

Lemma keeps_shallow {A} (m : dec A) s : keeps_seq m -> shallow s -> shallow (snd (m s)).
Proof. intros Hm Hs. unfold shallow. by rewrite Hm. Qed.

Lemma push_shallow {A} (m : dec A) (f : A -> dec unit) s :
  keeps_seq m -> (forall a, (exists e, f a = throw e) \/ exists n, f a = dec_push n) ->
  shallow s -> shallow (snd ((m ≫= f) s)).
Proof.
  intros Hm Hf Hs. specialize (Hm s). unfold mbind, sexn_bind, shallow in *.
  destruct (m s) as [[a|e] s']; cbn [snd] in *; [|by rewrite Hm].
  destruct (Hf a) as [[e ->]|[n ->]]; cbn; [by rewrite Hm|].
  unfold dec_push. destruct (Z.leb_spec max_structure_depth (zlen (d_seq s'))); cbn [snd d_seq]; rewrite ?Hm in *; zlen_lia.
Qed.

Lemma pop_shallow s : shallow s -> shallow (snd (dec_pop s)).
Proof.
  unfold shallow, dec_pop. destruct (d_seq s) eqn:E; [by cbn; rewrite E|].
  rewrite keeps_skip. cbn [d_seq]. zlen_lia.
Qed.

Lemma run_call_shallow c s : shallow s -> shallow (run_call c s).
Proof.
  intros Hs.
  destruct c; cbn [run_call]; unfold decode_int64, decode_uint64, decode_string, decode_octets, dec_end_sequence, dec_end_explicit_tag;
    try (apply keeps_shallow; auto with keeps; fail); try (apply pop_shallow; done); try done.
  - apply push_shallow; auto with keeps. intros a. destruct (negb _); eauto.
  - apply push_shallow; auto with keeps. intros a. destruct (negb _); eauto.
  - apply keeps_shallow; [|done]. unfold next_tag, next_header.
    apply keeps_bind; [apply keeps_peek|]; auto with keeps.
Qed.

(** Whatever the header octets are, an accepted length is within the limit of
    its kind. *)
Lemma decode_header_limit s h s' :
  decode_header s = (Ok h, s') ->
  h_length h <= (if h_constructed h then max_constructed_size else max_structure_size).
Proof.
  unfold decode_header, mbind, sexn_bind. destruct (decode_tag s) as [[h0|e] s1]; [|done].
  destruct (decode_length s1) as [[n|e] s2]; [|done].
  destruct (Z.ltb_spec (if h_constructed h0 then max_constructed_size else max_structure_size) n); [done|].
  unfold mret, sexn_ret. intros; simplify_eq/=. done.
Qed.

(** ** Running an encoder and a decoder of their own *)

Definition written (s : encoder) : octets := os_vec (e_stream s).
Definition fresh_encoder : encoder := new_encoder (vector_ostream []).

Lemma emits_fresh {A} (m : enc A) bs :
  emits m bs -> exists a s, m fresh_encoder = (Ok a, s) /\ written s = bs.
Proof. intros H. destruct (H fresh_encoder eq_refl) as [a E]. by eexists _, _. Qed.

Lemma emits_fresh_unit (m : enc unit) bs :
  emits m bs -> exists s, m fresh_encoder = (Ok tt, s) /\ written s = bs.
Proof. intros H. destruct (emits_fresh m bs H) as ([] & s & ?). by exists s. Qed.

Lemma octets_at_prefix bs rest : octets_at (bs ++ rest) 0 bs.
Proof. apply (octets_at_app _ 0 bs rest), octets_at_all. Qed.

Lemma reads_fresh {A} (pre : list Z -> Prop) (m : dec A) all a p' :
  reads pre m all 0 a p' -> pre [] ->
  exists d, m (new_decoder all) = (Ok a, d) /\ position d = p' /\ d_seq d = [].
Proof.
  intros H Hp. destruct (H None 0 [] (new_decoder all) Hp) as (d & E & V & Hs); [split; [apply view_new|done]|].
  exists d. split; [done|]. destruct (view_core _ _ _ _ _ V) as [_ ->]. done.
Qed.

(** From position [p], whatever the peeking state, [m] throws. *)
Definition throws {A} (pre : list Z -> Prop) (m : dec A) (all : octets) (p : Z) : Prop :=
  forall mark k seqs s, pre seqs -> dview all mark k p seqs s -> exists e s', m s = (Throw e, s').

Lemma throws_bind {A B} pre (m : dec A) (f : A -> dec B) all p : throws pre m all p -> throws pre (m ≫= f) all p.
Proof.
  intros H mark k seqs s Hp V. destruct (H _ _ _ _ Hp V) as (e & s' & E). exists e, s'. by apply bind_throw.
Qed.

Lemma throws_after {A B} pre (m : dec A) (f : A -> dec B) all p a p1 :
  reads pre m all p a p1 -> throws pre (f a) all p1 -> throws pre (m ≫= f) all p.
Proof.
  intros Hm Hf mark k seqs s Hp V. destruct (Hm _ _ _ _ Hp V) as (s1 & E & V1).
  rewrite (bind_ok _ _ _ _ _ E). by apply (Hf mark k seqs).
Qed.

Lemma throws_throw {A} pre e all p : throws pre (@throw _ _ A e) all p.
Proof. intros mark k seqs s _ _. by exists e, s. Qed.

(** [expect_header] outside a sequence throws when the header does. *)
Lemma throws_expect_header c t all p :
  throws anywhere decode_header all p -> 0 <= p < zlen all -> throws (fun l => l = []) (expect_header c t) all p.
Proof.
  intros H Hp mark k seqs s -> V. unfold expect_header. pose proof V as [V0 Hs].
  destruct (readable_view _ _ _ _ 1 _ V0 ltac:(lia) ltac:(lia)) as (b' & E & V').
  destruct (H mark k [] (Decoder b' []) I) as (e & s' & E'); [by split|]. exists e, s'.
  erewrite bind_ok; [|unfold nothing_left, is_end_of_sequence; rewrite Hs; erewrite bind_ok;
    [reflexivity|unfold dec_readable; rewrite E; reflexivity]].
  cbn [negb]. rewrite Hs. by apply bind_throw.
Qed.

Lemma throws_header_too_big all h p :
  header_ok h -> (if h_constructed h then max_constructed_size else max_structure_size) < h_length h ->
  octets_at all p (header_octets h) -> throws (fun l => l = []) (expect_header (h_class h) (h_tag h)) all p.
Proof.
  intros Hh Hm Hp. pose proof (zlen_header_pos h Hh). pose proof Hp as (P1 & P2 & _).
  apply throws_expect_header; [|lia].
  unfold header_octets in Hp. apply octets_at_app in Hp as [Hp1 Hp2]. unfold decode_header.
  eapply throws_after; [by apply reads_tag|]. eapply throws_after; [apply reads_length; [apply Hh|done]|].
  cbn [h_constructed]. destruct (Z.ltb_spec (if h_constructed h then max_constructed_size else max_structure_size) (h_length h)); [|lia].
  apply throws_throw.
Qed.

(** ** Properties *)

(** the header codec round trips.  Every header whose length is within the
    limit of its kind is written and read back unchanged, in short or long tag
    and length form, whatever follows it, and the decoder stops exactly after
    it. *)
Theorem header_round_trip (h : asn_header) (rest : octets) (H : header_readable h) :
  exists s d,
    encode_header h fresh_encoder = (Ok tt, s) /\
    decode_header (new_decoder (written s ++ rest)) = (Ok h, d) /\
    position d = zlen (written s).
Proof.
  destruct (emits_fresh_unit _ _ (emits_header h (proj1 H))) as (s & E & W).
  destruct (reads_fresh anywhere decode_header (written s ++ rest) h (zlen (written s))) as (d & D & P & _); [|done|].
  - rewrite <- (Z.add_0_l (zlen (written s))), W. apply (reads_header _ h 0 H), octets_at_prefix.
  - by exists s, d.
Qed.

Lemma header_round_trip_witness :
  exists s d,
    encode_header (AsnHeader 2 1000 300 true) fresh_encoder = (Ok tt, s) /\
    decode_header (new_decoder (written s ++ [7])) = (Ok (AsnHeader 2 1000 300 true), d) /\
    position d = zlen (written s).
Proof. apply (header_round_trip (AsnHeader 2 1000 300 true) [7]). ground. Defined.

(** integers round trip at every width.  A signed value that a size hint
    can hold, and an unsigned one up to the full width of its hint, is encoded
    and decoded back with the same hint under any tag, whatever follows. *)
Theorem integer_round_trip (tag : option tag_info) (sh v : Z) (rest : octets)
  (Ht : tag_ok tag) (Hsh : 1 <= sh <= 8) :
  (- 2 ^ (8 * sh - 1) <= v < 2 ^ (8 * sh - 1) -> exists s d,
     encode_int64 v tag sh fresh_encoder = (Ok tt, s) /\
     decode_int64 tag sh (new_decoder (written s ++ rest)) = (Ok v, d) /\ position d = zlen (written s)) /\
  (0 <= v < 2 ^ (8 * sh) -> exists s d,
     encode_uint64 v tag sh fresh_encoder = (Ok tt, s) /\
     decode_uint64 tag sh (new_decoder (written s ++ rest)) = (Ok v, d) /\ position d = zlen (written s)).
Proof.
  assert (0 < 2 ^ (8 * sh - 1)) by (apply Z.pow_pos_nonneg; lia).
  assert (2 ^ (8 * sh - 1) < 2 ^ (8 * sh)) by (apply Z.pow_lt_mono_r; lia).
  assert (0 <= tag_integer < 2 ^ 64) as Hd by ground.
  assert (forall t, (t = i64 \/ t = u64) ->
    (if it_signed t then - 2 ^ (8 * sh - 1) <= v < 2 ^ (8 * sh - 1) else 0 <= v < 2 ^ (8 * sh)) -> exists s d,
     enc_integer 8 v tag sh tag_integer fresh_encoder = (Ok tt, s) /\
     dec_integer t tag sh tag_integer (new_decoder (written s ++ rest)) = (Ok v, d) /\ position d = zlen (written s)) as G.
  { intros t Htt Hv. destruct (emits_fresh_unit _ _ (emits_integer 8 v tag sh tag_integer Ht Hd Hsh ltac:(lia)
      ltac:(destruct (it_signed t); lia))) as (s & E & W).
    destruct (reads_fresh (before_end 0) (dec_integer t tag sh tag_integer) (written s ++ rest) v (zlen (written s)))
      as (d & D & P & _); [|done|by exists s, d].
    rewrite <- (Z.add_0_l (zlen (written s))), W. apply reads_integer; auto; [intuition|apply octets_at_prefix]. }
  split; intros Hv; [apply (G i64)|apply (G u64)]; auto.
Qed.

Lemma integer_round_trip_witness :
  (- 2 ^ (8 * 2 - 1) <= -300 < 2 ^ (8 * 2 - 1) -> exists s d,
     encode_int64 (-300) None 2 fresh_encoder = (Ok tt, s) /\
     decode_int64 None 2 (new_decoder (written s ++ [1])) = (Ok (-300), d) /\ position d = zlen (written s)) /\
  (0 <= -300 < 2 ^ (8 * 2) -> exists s d,
     encode_uint64 (-300) None 2 fresh_encoder = (Ok tt, s) /\
     decode_uint64 None 2 (new_decoder (written s ++ [1])) = (Ok (-300), d) /\ position d = zlen (written s)).
Proof. apply (integer_round_trip None 2 (-300) [1]); ground. Defined.

(** strings and octet vectors are written exactly when they can be read
    back: up to [max_structure_size] they round trip under any tag, above it
    the encoder throws and leaves its stream untouched. *)
Theorem string_round_trip (tag : option tag_info) (str rest : octets) (Ht : tag_ok tag) :
  if zlen str <=? max_structure_size
  then exists s d,
     encode_string str tag fresh_encoder = (Ok tt, s) /\
     decode_string tag (new_decoder (written s ++ rest)) = (Ok str, d) /\ position d = zlen (written s)
  else exists e, encode_string str tag fresh_encoder = (Throw e, fresh_encoder).
Proof.
  assert (0 <= tag_t61string < 2 ^ 64) as Hd by ground.
  destruct (Z.leb_spec (zlen str) max_structure_size) as [Hs|Hs].
  - destruct (emits_fresh_unit _ _ (emits_string str tag _ Ht Hd Hs)) as (s & E & W).
    destruct (reads_fresh (before_end 0) (decode_string tag) (written s ++ rest) str (zlen (written s)))
      as (d & D & P & _); [|done|by exists s, d].
    rewrite <- (Z.add_0_l (zlen (written s))), W. apply reads_string; auto. apply octets_at_prefix.
  - unfold encode_string, enc_string. destruct (Z.ltb_spec max_structure_size (zlen str)); [|lia].
    by eexists.
Qed.

Lemma string_round_trip_witness :
  if zlen [104; 105] <=? max_structure_size
  then exists s d,
     encode_string [104; 105] None fresh_encoder = (Ok tt, s) /\
     decode_string None (new_decoder (written s ++ [])) = (Ok [104; 105], d) /\ position d = zlen (written s)
  else exists e, encode_string [104; 105] None fresh_encoder = (Throw e, fresh_encoder).
Proof. apply (string_round_trip None [104; 105] []). done. Defined.

(** C40: no input and no sequence of calls nests the decoder more than
    [max_structure_depth] elements deep. *)
Theorem decoder_depth_bounded (data : octets) (calls : list decoder_call) :
  zlen (d_seq (fold_left (fun s c => run_call c s) calls (new_decoder data))) <= max_structure_depth.
Proof.
  assert (forall s, shallow s -> shallow (fold_left (fun s c => run_call c s) calls s)) as G.
  { induction calls as [|c cs IH]; intros s Hs; [done|]. apply IH. by apply run_call_shallow. }
  by apply G.
Qed.

(** the limit on primitive elements does not bind when the constructed bit
    of the identifier octet is set: a string whose header claims to be
    constructed is accepted up to [max_constructed_size], 256 times the limit
    the encoder respects and the limit the decoder applies to the same string
    without the bit. *)
Theorem string_limit_bypassed (str rest : octets)
  (H : max_structure_size < zlen str <= max_constructed_size) :
  (exists d, decode_string None (new_decoder (tlv universal_c tag_t61string true str ++ rest)) = (Ok str, d)) /\
  (exists e d, decode_string None (new_decoder (tlv universal_c tag_t61string false str ++ rest)) = (Throw e, d)).
Proof.
  assert (max_structure_size = 2097152 /\ max_constructed_size = 536870912) as [Hm1 Hm2] by done.
  assert (forall constr, header_ok (AsnHeader universal_c tag_t61string (zlen str) constr)) as Hok.
  { intros constr. apply wf_header; [by vm_compute|by vm_compute|lia]. }
  split.
  - destruct (reads_fresh (before_end 0) (decode_string None) (tlv universal_c tag_t61string true str ++ rest) str
      (0 + zlen (tlv universal_c tag_t61string true str))) as (d & D & _); [|done|by exists d].
    apply reads_element; [split; [apply Hok|cbn; lia]|apply octets_at_prefix|].
    intros q Hq. by apply reads_rd.
  - destruct (throws_header_too_big (tlv universal_c tag_t61string false str ++ rest)
      (AsnHeader universal_c tag_t61string (zlen str) false) 0) with (seqs := @nil Z) (mark := @None (Z * Z)) (k := 0)
      (s := new_decoder (tlv universal_c tag_t61string false str ++ rest)) as (e & d & E);
      [apply Hok|cbn; lia| |done|split; [apply view_new|done]|].
    { pose proof (octets_at_prefix (tlv universal_c tag_t61string false str) rest) as Hat.
      unfold tlv in Hat at 2. by apply octets_at_app in Hat as [Hat _]. }
    exists e, d. unfold decode_string, dec_string. apply bind_throw. exact E.
Qed.

Lemma string_limit_bypassed_witness :
  (exists d, decode_string None (new_decoder (tlv universal_c tag_t61string true (repeat 65 (Z.to_nat 2097153)) ++ [])) = (Ok (repeat 65 (Z.to_nat 2097153)), d)) /\
  (exists e d, decode_string None (new_decoder (tlv universal_c tag_t61string false (repeat 65 (Z.to_nat 2097153)) ++ [])) = (Throw e, d)).
Proof.
  apply (string_limit_bypassed (repeat 65 (Z.to_nat 2097153)) []). unfold zlen. rewrite repeat_length, Z2Nat.id by lia.
  vm_compute. split; [reflexivity|discriminate].
Defined.

(** an unsigned 64-bit integer with a ninth contents octet is accepted
    whatever that octet is (below 128), although only a zero one leaves a value
    that fits: the octet is shifted out and the value read is the number modulo
    2^64, in spite of the check that the integer fits to the given type. *)
Theorem uint64_overlong_truncated (b : Z) (bs rest : octets)
  (Hb : 0 <= b < 128) (Hbs : Forall is_octet bs) (Hlen : length bs = 8%nat) :
  exists d, decode_uint64 None 8 (new_decoder (tlv universal_c tag_integer false (b :: bs) ++ rest)) =
            (Ok (be_val (b :: bs) mod 2 ^ 64), d).
Proof.
  set (all := tlv universal_c tag_integer false (b :: bs) ++ rest).
  assert (zlen (b :: bs) = 9) as Hz by (unfold zlen; cbn [length]; lia).
  destruct (reads_fresh (before_end 0) (decode_uint64 None 8) all (be_val (b :: bs) mod 2 ^ 64)
    (0 + zlen (tlv universal_c tag_integer false (b :: bs)))) as (d & D & _); [|done|by exists d].
  unfold decode_uint64, dec_integer. apply reads_element.
  - rewrite Hz. ground.
  - apply octets_at_prefix.
  - intros q Hq. cbn [h_length it_signed u64].
    destruct (Z.ltb_spec (8 + 1) (zlen (b :: bs))); [lia|]. destruct (Z.eqb_spec (zlen (b :: bs)) 0); [lia|].
    eapply reads_bind; [by apply reads_rd| |done].
    cbn [hd]. rewrite octet_bit7 by (unfold is_octet; lia). destruct (Z.leb_spec 128 b); [lia|]. cbn [andb].
    unfold Asn1Int.decode_integer. cbn [hd]. rewrite octet_bit7 by (unfold is_octet; lia).
    destruct (Z.leb_spec 128 b); [lia|].
    replace (decode_from_octets u64 (b :: bs)) with (be_val (b :: bs) mod 2 ^ 64); [apply reads_ret|].
    symmetry. unfold decode_from_octets. change (be_val (b :: bs)) with (fold_left (fun acc c => acc * 256 + c) bs b).
    assert (forall acc acc', 0 <= acc' -> acc = acc' mod 2 ^ 64 ->
      fold_left (fun ret x => cast u64 (Z.lor (Z.shiftl ret 8) x)) bs acc =
      fold_left (fun acc c => acc * 256 + c) bs acc' mod 2 ^ 64) as G; [|apply G; [lia|rewrite Z.mod_small; lia]].
    clear - Hbs. induction Hbs as [|x xs Hx _ IH]; intros acc acc' Ha E; [done|]. cbn [fold_left].
    unfold is_octet in Hx. apply IH; [lia|]. subst acc.
    rewrite Z.lor_comm, lor_disjoint by (try lia; apply Z.mod_pos_bound; lia).
    unfold cast, wrap. change (it_bits u64) with 64. cbn [it_signed u64]. change (2 ^ 8) with 256.
    rewrite (Z.add_mod x), Zmult_mod_idemp_l by lia.
    rewrite <- Z.add_mod by lia. f_equal. lia.
Qed.

Lemma uint64_overlong_truncated_witness :
  exists d, decode_uint64 None 8 (new_decoder (tlv universal_c tag_integer false (1 :: repeat 0 8) ++ [])) =
            (Ok (be_val (1 :: repeat 0 8) mod 2 ^ 64), d).
Proof. apply (uint64_overlong_truncated 1 (repeat 0 8) []); [lia|ground|done]. Defined.

Example uint64_overlong_zero :
  fst (decode_uint64 None 8 (new_decoder (2 :: 9 :: 1 :: repeat 0 8))) = Ok 0.
Proof. vm_compute. reflexivity. Qed.
