(* ===== verification/Serialise.v ===== *)
(** The serialisation front end over the DER codec:
    [serialisation/serialiser.hpp], [deserialiser.hpp], [helpers.hpp],
    [sequence.hpp], [container.hpp], [vector.hpp], [set.hpp], [map.hpp],
    [enum.hpp], [tag.hpp] and the one-shot functions of [util.hpp].

    The overloads of [serialise] become values of type [codec]; the class
    [Element] states what one DER element promises to its enclosing one. *)

From stdpp Require Import base list numbers strings.
From Stdlib Require Import ZArith Lia.
From S2P Require Import Prelude ByteOrder Asn1Int Asn1Stream Asn1Encoder Asn1Decoder.
Open Scope Z_scope.

(** ** State *)

Record serialiser : Type := Serialiser { sr_enc : encoder; sr_tag : option tag_info }.

Record deserialiser : Type := Deserialiser {
  ds_dec : decoder;
  ds_tag : option tag_info;      (** [current_tag_] *)
  ds_ex : option ser_exn         (** [ex_]: kept by [end_sequence] *)
}.

Abbreviation ser := (sexn serialiser ser_exn).
Abbreviation des := (sexn deserialiser ser_exn).

(** ** serialiser *)

(** [e_->f(..., use_current_tag())] *)
Definition ser_enc (f : option tag_info -> enc unit) : ser unit := fun s =>
  let '(r, e) := f (sr_tag s) (sr_enc s) in (r, Serialiser e None).

(** [e_->f(...)], the pending tag untouched. *)
Definition ser_raw (f : enc unit) : ser unit := fun s =>
  let '(r, e) := f (sr_enc s) in (r, Serialiser e (sr_tag s)).

Definition ser_int (t : int_type) (v : Z) : ser unit :=
  ser_enc (fun tag => if it_signed t then encode_int64 v tag (Z.of_nat (it_size t))
                      else encode_uint64 v tag (Z.of_nat (it_size t))).

Definition ser_start_sequence : ser unit := ser_enc enc_start_sequence.
Definition ser_start_sequence_tag (tag : tag_info) : ser unit :=
  ser_enc (fun t => enc_start_sequence (Some (default tag t))).
Definition ser_end_sequence : ser unit := ser_raw enc_end_sequence.

(** [sequence<serialiser>]: the destructor closes the sequence on both exits. *)
Definition ser_sequence {A} (body : ser A) : ser A :=
  ser_start_sequence ;; with_dtor body (fun _ s => snd (ser_end_sequence s)).

Definition set_tag (tag : tag_info) : ser unit := fun s => (Ok tt, Serialiser (sr_enc s) (Some tag)).

Inductive tag_type : Type := explicit_tag | implicit_tag.

Definition tag_of (t : Z) : tag_info := TagInfo None t.

Definition ser_tagged (tt : tag_type) (t : Z) (m : ser unit) : ser unit :=
  match tt with
  | implicit_tag => set_tag (tag_of t) ;; m
  | explicit_tag =>
      ser_raw (enc_start_explicit_tag (tag_of t)) ;; m ;; ser_raw enc_end_explicit_tag
  end.

(** ** deserialiser *)

Definition des_dec {A} (f : option tag_info -> dec A) : des A := fun s =>
  let '(r, d) := f (ds_tag s) (ds_dec s) in (r, Deserialiser d None (ds_ex s)).

Definition des_raw {A} (f : dec A) : des A := fun s =>
  let '(r, d) := f (ds_dec s) in (r, Deserialiser d (ds_tag s) (ds_ex s)).

(** [operator&]: the call, then the exception a sequence kept. *)
Definition amp {A} (m : des A) : des A := fun s =>
  match m s with
  | (Ok a, s') =>
      match ds_ex s' with
      | Some e => (Throw e, Deserialiser (ds_dec s') (ds_tag s') None)
      | None => (Ok a, s')
      end
  | (Throw e, s') => (Throw e, s')
  end.

Definition des_int (t : int_type) : des Z :=
  v ← des_dec (fun tag => if it_signed t then decode_int64 tag (Z.of_nat (it_size t))
                          else decode_uint64 tag (Z.of_nat (it_size t)));
  mret (cast t v).

Definition des_start_sequence : des unit := des_dec dec_start_sequence.
Definition des_start_sequence_tag (tag : tag_info) : des unit :=
  des_dec (fun t => dec_start_sequence (Some (default tag t))).

(** [end_sequence]: an exception is kept for the next [operator&]. *)
Definition des_end_sequence (s : deserialiser) : deserialiser :=
  match dec_end_sequence (ds_dec s) with
  | (Ok _, d) => Deserialiser d (ds_tag s) (ds_ex s)
  | (Throw e, d) => Deserialiser d (ds_tag s) (Some e)
  end.

Definition des_sequence {A} (body : des A) : des A :=
  des_start_sequence ;; with_dtor body (fun _ => des_end_sequence).

Definition set_dtag (tag : tag_info) : des unit := fun s => (Ok tt, Deserialiser (ds_dec s) (Some tag) (ds_ex s)).

Definition des_tagged {A} (tt : tag_type) (t : Z) (m : des A) : des A :=
  match tt with
  | implicit_tag => set_dtag (tag_of t) ;; amp m
  | explicit_tag =>
      des_raw (dec_start_explicit_tag (tag_of t)) ;;
      a ← amp m; des_raw dec_end_explicit_tag ;; mret a
  end.

Definition des_peek_guard {A} (m : des A) : des A := fun s =>
  let '(i, d) := dec_start_peek (ds_dec s) in
  with_dtor m (fun ex s' => Deserialiser (dec_end_peek i (negb ex) (ds_dec s')) (ds_tag s') (ds_ex s'))
    (Deserialiser d (ds_tag s) (ds_ex s)).

(** [handle(std::optional<T>&, etag)]: only [element_not_present] means absent. *)
Definition des_optional {A} (m : des A) (etag : option tag_info) : des (option A) :=
  try_catch
    (des_peek_guard
       ((match etag with Some t => des_raw (dec_start_explicit_tag t) | None => mret tt end) ;;
        a ← amp m;
        (match etag with Some _ => des_raw dec_end_explicit_tag | None => mret tt end) ;;
        mret (Some a)))
    (fun e => match e with ElementNotPresent _ => mret None | _ => throw e end).

Definition des_next_tag : des tag_info := des_raw next_tag.
Definition des_has_next : des Z := des_raw has_next.
Definition des_is_end_of_sequence (s : deserialiser) : bool := is_end_of_sequence (ds_dec s).
Definition des_position (s : deserialiser) : Z := position (ds_dec s).

(** ** Codecs: the [serialise] overloads *)

Record codec (A : Type) : Type := Codec { c_ser : A -> ser unit; c_des : des A }.
Arguments Codec {A} c_ser c_des.
Arguments c_ser {A} c a : rename.
Arguments c_des {A} c : rename.

Definition bool_codec : codec bool := Codec (fun v => ser_enc (encode_bool v)) (des_dec decode_bool).
Definition int_codec (t : int_type) : codec Z := Codec (ser_int t) (des_int t).
Definition string_codec : codec octets := Codec (fun v => ser_enc (encode_string v)) (des_dec decode_string).
Definition octets_codec : codec octets := Codec (fun v => ser_enc (encode_octets v)) (des_dec decode_octets).
Definition big_codec : codec octets := Codec (fun v => ser_enc (encode_big v)) (des_dec decode_big).
Definition trailing_codec : codec octets :=
  Codec (fun v => ser_raw (encode_trailing v)) (des_raw decode_trailing).

(** enum.hpp, an enumeration as the value of its underlying type. *)
Definition enum_codec (t : int_type) : codec Z :=
  Codec (ser_int t) (v ← amp (des_int t); mret (cast t v)).

Definition optional_codec {A} (c : codec A) : codec (option A) :=
  Codec (fun v => match v with Some a => c_ser c a | None => mret tt end) (des_optional (c_des c) None).

(** [s & explicit_tag(t, opt)] and [s & implicit_tag(t, opt)]. *)
Definition optional_tagged_codec {A} (tt : tag_type) (t : Z) (c : codec A) : codec (option A) :=
  Codec (fun v => match v with Some a => ser_tagged tt t (c_ser c a) | None => mret Datatypes.tt end)
        (match tt with
         | implicit_tag => des_tagged implicit_tag t (des_optional (c_des c) None)
         | explicit_tag => des_optional (c_des c) (Some (tag_of t))
         end).

Definition tagged_codec {A} (tt : tag_type) (t : Z) (c : codec A) : codec A :=
  Codec (fun v => ser_tagged tt t (c_ser c v)) (des_tagged tt t (c_des c)).

(** Fields in a row, [seq & a & b]. *)
Definition unit_codec : codec unit := Codec (fun _ => mret tt) (mret tt).
Definition then_codec {A B} (c1 : codec A) (c2 : codec B) : codec (A * B) :=
  Codec (fun v => c_ser c1 (fst v) ;; c_ser c2 (snd v))
        (a ← amp (c_des c1); b ← c_des c2; mret (a, b)).

(** A member function [serialise] that opens a sequence. *)
Definition seq_codec {A} (c : codec A) : codec A :=
  Codec (fun v => ser_sequence (c_ser c v)) (des_sequence (c_des c)).

Definition iso_codec {A B} (f : A -> B) (g : B -> A) (c : codec A) : codec B :=
  Codec (fun b => c_ser c (g b)) (a ← c_des c; mret (f a)).

(** A [serialise] that checks or completes what it read. *)
Definition check_codec {A B} (f : A -> result ser_exn B) (g : B -> A) (c : codec A) : codec B :=
  Codec (fun b => c_ser c (g b)) (a ← c_des c; lift_res (f a)).

(** map.hpp, [std::pair] *)
Definition pair_codec {A B} (c1 : codec A) (c2 : codec B) : codec (A * B) :=
  seq_codec (iso_codec (fun v => (fst v, fst (snd v))) (fun v => (fst v, (snd v, tt)))
               (then_codec c1 (then_codec c2 unit_codec))).

(** ** container.hpp *)

Section container.
Context {C E : Type} (elements : C -> list E) (insert_end : C -> E -> C) (empty : C) (c : codec E).

Fixpoint ser_elements (l : list E) : ser unit :=
  match l with
  | [] => mret tt
  | x :: xs => c_ser c x ;; ser_elements xs
  end.

(** [for(;!s.is_end_of_sequence();)]: every round consumes an octet. *)
Fixpoint des_elements (fuel : nat) (acc : C) : des C := fun s =>
  if des_is_end_of_sequence s then (Ok acc, s)
  else match fuel with
       | O => (Throw (OtherExn "out of fuel"), s)
       | S k =>
           (x ← amp (c_des c);
            s1 ← get_st;
            if des_position s1 =? des_position s
            then throw (SerialisationError "container element did not consume any data")
            else des_elements k (insert_end acc x)) s
       end.

(** More than there are octets left to read: fuel for the loop. *)
Definition octets_held (d : decoder) : nat :=
  length (bs_buffer (d_s d)) + length (is_data (bs_stream (d_s d))).

Definition container_codec : codec C :=
  Codec (fun v => ser_sequence (ser_elements (elements v)))
        (des_sequence (s ← get_st; des_elements (octets_held (ds_dec s)) empty)).
End container.

Definition vector_codec {A} (c : codec A) : codec (list A) :=
  container_codec (fun v => v) (fun v x => v ++ [x]) [] c.

(** [std::set] and [std::map] as lists in key order; [insert] with a hint keeps
    an element that is already there. *)
Fixpoint ordered_insert {E} (lt : E -> E -> bool) (x : E) (l : list E) : list E :=
  match l with
  | [] => [x]
  | y :: ys => if lt x y then x :: l else if lt y x then y :: ordered_insert lt x ys else l
  end.

Definition set_codec {A} (lt : A -> A -> bool) (c : codec A) : codec (list A) :=
  container_codec (fun v => v) (fun v x => ordered_insert lt x v) [] c.

Definition map_codec {K V} (lt : K -> K -> bool) (ck : codec K) (cv : codec V) : codec (list (K * V)) :=
  container_codec (fun v => v) (fun v x => ordered_insert (fun a b => lt (fst a) (fst b)) x v) []
    (pair_codec ck cv).

(** ** util.hpp, one-shot functions *)

Definition asn_der_serialise {A} (c : codec A) (v : A) : result ser_exn octets :=
  match c_ser c v (Serialiser fresh_encoder None) with
  | (Ok _, s) => Ok (written (sr_enc s))
  | (Throw e, _) => Throw e
  end.

Definition new_deserialiser (data : octets) : deserialiser := Deserialiser (new_decoder data) None None.

Definition asn_der_deserialise {A} (c : codec A) (data : octets) : result ser_exn A :=
  fst (amp (c_des c) (new_deserialiser data)).

(** ** choice.hpp *)

(** A packet type is a sum; [alts v] gives the tag and the writer of [v], and
    the reader dispatches on the tag number over the list of alternatives. *)
Fixpoint choice_visit {R} (alts : list (Z * des R)) (tag : tag_info) : des R :=
  match alts with
  | [] => throw (SerialisationError "no such tag with choice")
  | (t, m) :: rest => if t =? ti_tag tag then amp (des_tagged implicit_tag t m) else choice_visit rest tag
  end.

Definition choice_deserialise {R} (alts : list (Z * des R)) : des R :=
  tag ← des_next_tag; choice_visit alts tag.

(** ** What a codec writes and reads *)

(** With pending tag [tag], [m] succeeds, appends [bs] and uses the tag up. *)
Definition semits (m : ser unit) (tag : option tag_info) (bs : octets) : Prop :=
  forall e, enc_ok e -> m (Serialiser e tag) = (Ok tt, Serialiser (append_out bs e) None).

Definition sview (all : octets) (mark : option (Z * Z)) (k p : Z) (seqs : list Z) (tag : option tag_info)
  (s : deserialiser) : Prop :=
  dview all mark k p seqs (ds_dec s) /\ ds_tag s = tag /\ ds_ex s = None.

(** From position [p] with pending tag [tag], [m] returns [a], moves to [p'],
    uses the tag up and keeps no exception. *)
Definition sreads {A} (pre : list Z -> Prop) (m : des A) (tag : option tag_info) (all : octets) (p : Z) (a : A) (p' : Z) : Prop :=
  forall mark k seqs s, pre seqs -> sview all mark k p seqs tag s ->
    exists s', m s = (Ok a, s') /\ sview all mark k p' seqs None s'.

Lemma semits_eq m tag a b : semits m tag a -> a = b -> semits m tag b.
Proof. by intros ? <-. Qed.

Lemma semits_ret : semits (mret tt) None [].
Proof. intros e He. by rewrite append_out_nil. Qed.

Lemma semits_bind m f tag a b :
  semits m tag a -> semits (f tt) None b -> semits (m ≫= f) tag (a ++ b).
Proof.
  intros Hm Hf e He. rewrite (bind_ok _ _ _ _ _ (Hm e He)).
  rewrite (Hf _ (append_out_ok _ _ He)). by rewrite append_out_app.
Qed.

Lemma emits_unit (m : enc unit) bs e : emits m bs -> enc_ok e -> m e = (Ok tt, append_out bs e).
Proof. intros H He. by destruct (H e He) as [[] ->]. Qed.

Lemma semits_enc f tag bs : emits (f tag) bs -> semits (ser_enc f) tag bs.
Proof. intros H e He. unfold ser_enc. cbn [sr_tag sr_enc]. by rewrite (emits_unit _ _ _ H He). Qed.

Lemma semits_raw f bs : emits f bs -> semits (ser_raw f) None bs.
Proof. intros H e He. unfold ser_raw. cbn [sr_tag sr_enc]. by rewrite (emits_unit _ _ _ H He). Qed.

Lemma sreads_ret {A} pre all p (a : A) : sreads pre (mret a) None all p a p.
Proof. intros mark k seqs s _ V. by exists s. Qed.

Lemma sreads_bind {A B} pre pre' (m : des A) (f : A -> des B) tag all p a p1 b p2 :
  sreads pre m tag all p a p1 -> sreads pre' (f a) None all p1 b p2 -> (forall l, pre l -> pre' l) ->
  sreads pre (m ≫= f) tag all p b p2.
Proof.
  intros Hm Hf Hp mark k seqs s H V. destruct (Hm _ _ _ _ H V) as (s1 & E & V1).
  rewrite (bind_ok _ _ _ _ _ E). apply (Hf _ _ _ _ (Hp _ H) V1).
Qed.

Lemma sreads_weaken {A} (pre pre' : list Z -> Prop) (m : des A) tag all p a p' :
  sreads pre m tag all p a p' -> (forall l, pre' l -> pre l) -> sreads pre' m tag all p a p'.
Proof. intros Hm Hp mark k seqs s H V. apply Hm; auto. Qed.

Lemma sreads_dec {A} pre (f : option tag_info -> dec A) tag all p a p' :
  reads pre (f tag) all p a p' -> sreads pre (des_dec f) tag all p a p'.
Proof.
  intros H mark k seqs s Hp (V & Ht & Hx). unfold des_dec. rewrite Ht.
  destruct (H _ _ _ _ Hp V) as (d & -> & V'). eexists; split; [done|]. by split_and!.
Qed.

Lemma sreads_amp {A} pre (m : des A) tag all p a p' :
  sreads pre m tag all p a p' -> sreads pre (amp m) tag all p a p'.
Proof.
  intros H mark k seqs s Hp V. destruct (H _ _ _ _ Hp V) as (s' & E & V'). unfold amp. rewrite E.
  pose proof V' as (_ & _ & ->). by exists s'.
Qed.

Lemma sreads_set_dtag {A} pre t (m : des A) tag all p a p' :
  sreads pre m (Some t) all p a p' -> sreads pre (set_dtag t ;; m) tag all p a p'.
Proof.
  intros H mark k seqs s Hp (V & Ht & Hx).
  erewrite bind_ok by reflexivity. apply (H mark k seqs); [done|]. by split_and!.
Qed.

(** At [p] the element is not there: its sequence or the stream ends, or
    another element comes. *)
Definition absent (c t : Z) (all : octets) (p : Z) (seqs : list Z) : Prop :=
  (exists e es, seqs = e :: es /\ e <= p) \/ (seqs = [] /\ p = zlen all) \/
  (before_end p seqs /\ exists h, header_readable h /\ octets_at all p (header_octets h) /\
     (h_class h <> c \/ h_tag h <> t)).

(** [m] throws [element_not_present], at a position not before [p] and with
    the open elements as they were. *)
Definition smisses {A} (pre : list Z -> Prop) (m : des A) (tag : option tag_info) (all : octets) (p : Z) : Prop :=
  forall mark k seqs s, pre seqs -> sview all mark k p seqs tag s ->
    exists msg s' p', m s = (Throw (ElementNotPresent msg), s') /\ p <= p' /\ sview all mark k p' seqs None s'.

(** Another element is there: its header is read. *)
Lemma misses_other_header c t h all p mark k seqs s :
  header_readable h -> octets_at all p (header_octets h) -> h_class h <> c \/ h_tag h <> t -> before_end p seqs ->
  dview all mark k p seqs s ->
  exists msg s', expect_header c t s = (Throw (ElementNotPresent msg), s') /\
    dview all mark k (p + zlen (header_octets h)) seqs s'.
Proof.
  intros Hh Hat Hne Hb V.
  pose proof (zlen_header_pos h (proj1 Hh)) as HL. pose proof Hat as (P1 & P2 & _).
  destruct (nothing_left_no all mark k p seqs s Hb V ltac:(lia)) as (s1 & E1 & V1).
  unfold expect_header. rewrite (bind_ok _ _ _ _ _ E1).
  destruct (reads_header all h p Hh Hat mark k seqs s1 I V1) as (s2 & E2 & V2). rewrite (bind_ok _ _ _ _ _ E2).
  destruct (Z.eqb_spec (h_class h) c), (Z.eqb_spec (h_tag h) t); cbn [negb orb]; try tauto;
    (eexists _, s2; split; [reflexivity|exact V2]).
Qed.

Lemma misses_expect_header c t all p mark k seqs s :
  absent c t all p seqs -> dview all mark k p seqs s ->
  exists msg s' p', expect_header c t s = (Throw (ElementNotPresent msg), s') /\ p <= p' /\ dview all mark k p' seqs s'.
Proof.
  intros HA V. pose proof V as [V0 Hs]. destruct (view_core _ _ _ _ _ V0) as [_ Hpos].
  unfold expect_header. destruct HA as [(e & es & -> & He)|[[-> ->]|(Hb & h & Hh & Hat & Hne)]].
  - assert (nothing_left s = (Ok true, s)) as E.
    { unfold nothing_left, is_end_of_sequence, position, bs_pos. rewrite Hs, <- Hpos.
      destruct (Z.leb_spec e p); [done|lia]. }
    rewrite (bind_ok _ _ _ _ _ E). by eexists _, s, p.
  - destruct (readable_end _ _ _ 1 _ V0 ltac:(lia)) as (b' & E & V').
    erewrite bind_ok; [|unfold nothing_left, is_end_of_sequence; rewrite Hs; erewrite bind_ok;
      [reflexivity|unfold dec_readable; rewrite E; reflexivity]].
    eexists _, _, _. split; [reflexivity|]. split; [reflexivity|]. by split.
  - destruct (misses_other_header _ _ _ _ _ _ _ _ _ Hh Hat Hne Hb V) as (msg & s' & E & V').
    pose proof (zlen_header_pos h (proj1 Hh)). exists msg, s', (p + zlen (header_octets h)). split_and!; [exact E|lia|done].
Qed.

Lemma smisses_dec {A} (f : option tag_info -> dec A) c t (g : asn_header -> dec A) tag all p :
  (f tag = (h ← expect_header c t; g h))-> smisses (absent c t all p) (des_dec f) tag all p.
Proof.
  intros Hf mark k seqs s Ha (V & Ht & Hx). unfold des_dec. rewrite Ht, Hf.
  destruct (misses_expect_header _ _ _ _ _ _ _ _ Ha V) as (msg & s' & p' & E & Hp & V').
  rewrite (bind_throw _ _ _ _ _ E). eexists _, _, p'. split; [reflexivity|]. split; [done|]. by split_and!.
Qed.

Lemma smisses_bind {A B} pre (m : des A) (f : A -> des B) tag all p :
  smisses pre m tag all p -> smisses pre (m ≫= f) tag all p.
Proof.
  intros H mark k seqs s Hp V. destruct (H _ _ _ _ Hp V) as (msg & s' & p' & E & V').
  exists msg, s', p'. split; [by apply bind_throw|done].
Qed.

Lemma smisses_amp {A} pre (m : des A) tag all p : smisses pre m tag all p -> smisses pre (amp m) tag all p.
Proof.
  intros H mark k seqs s Hp V. destruct (H _ _ _ _ Hp V) as (msg & s' & p' & E & V').
  exists msg, s', p'. split; [unfold amp; by rewrite E|done].
Qed.

(** As [smisses], but the reader may have got as far as [hi] before it found
    an element missing. *)
Definition gives_up {A} (hi : Z) (pre : list Z -> Prop) (m : des A) (tag : option tag_info) (all : octets) (p : Z) : Prop :=
  forall mark k seqs s, pre seqs -> sview all mark k p seqs tag s ->
    exists msg s' p', m s = (Throw (ElementNotPresent msg), s') /\ p <= p' <= hi /\ sview all mark k p' seqs None s'.

Lemma gives_up_misses {A} pre (m : des A) tag all p : smisses pre m tag all p -> gives_up (zlen all) pre m tag all p.
Proof.
  intros H mark k seqs s Hp V. destruct (H _ _ _ _ Hp V) as (msg & s' & p' & E & Hp' & V').
  pose proof V' as ((V0 & _) & _). destruct (view_core _ _ _ _ _ V0) as [(_ & _ & _ & _ & Hle & _) Hpos].
  exists msg, s', p'. split; [done|]. split; [lia|done].
Qed.

Lemma gives_up_weaken {A} hi (pre pre' : list Z -> Prop) (m : des A) tag all p :
  gives_up hi pre m tag all p -> (forall l, pre' l -> pre l) -> gives_up hi pre' m tag all p.
Proof. intros H Hl mark k seqs s Hp. apply H; auto. Qed.

Lemma gives_up_bind {A B} hi pre (m : des A) (f : A -> des B) tag all p :
  gives_up hi pre m tag all p -> gives_up hi pre (m ≫= f) tag all p.
Proof.
  intros H mark k seqs s Hp V. destruct (H _ _ _ _ Hp V) as (msg & s' & p' & E & V').
  exists msg, s', p'. split; [by apply bind_throw|done].
Qed.

Lemma gives_up_amp {A} hi pre (m : des A) tag all p : gives_up hi pre m tag all p -> gives_up hi pre (amp m) tag all p.
Proof.
  intros H mark k seqs s Hp V. destruct (H _ _ _ _ Hp V) as (msg & s' & p' & E & V').
  exists msg, s', p'. split; [unfold amp; by rewrite E|done].
Qed.

(** A field is read, a later one is missing. *)
Lemma gives_up_after {A B} hi pre pre' (m : des A) (f : A -> des B) tag all p a p1 :
  sreads pre m tag all p a p1 -> gives_up hi pre' (f a) None all p1 -> (forall l, pre l -> pre' l) -> p <= p1 ->
  gives_up hi pre (m ≫= f) tag all p.
Proof.
  intros Hm Hf Hl Hle mark k seqs s Hp V. destruct (Hm _ _ _ _ Hp V) as (s1 & E1 & V1).
  destruct (Hf _ _ _ _ (Hl _ Hp) V1) as (msg & s' & p' & E & Hp' & V').
  exists msg, s', p'. split; [by rewrite (bind_ok _ _ _ _ _ E1)|]. split; [lia|done].
Qed.

Lemma gives_up_dec {A} hi (f : option tag_info -> dec A) c t (g : asn_header -> dec A) h tag all p :
  f tag = (h ← expect_header c t; g h) -> header_readable h -> octets_at all p (header_octets h) ->
  h_class h <> c \/ h_tag h <> t -> p + zlen (header_octets h) <= hi -> gives_up hi (before_end p) (des_dec f) tag all p.
Proof.
  intros Hf Hh Hat Hne Hhi mark k seqs s Hb (V & Ht & Hx). unfold des_dec. rewrite Ht, Hf.
  destruct (misses_other_header _ _ _ _ _ _ _ _ _ Hh Hat Hne Hb V) as (msg & s' & E & V').
  rewrite (bind_throw _ _ _ _ _ E). pose proof (zlen_header_pos h (proj1 Hh)).
  eexists _, _, _. split; [reflexivity|]. split; [|by split_and!]. lia.
Qed.

(** ** The contract of one element *)

(** [el_tag], [el_constr] and [el_content] are the identifier and contents a
    value is written with; [el_wf] the values the format can hold; [el_depth]
    how deep a value nests. *)
Class Element {A} (c : codec A) : Type := {
  el_tag : Z;
  el_constr : bool;
  el_content : A -> octets;
  el_wf : A -> Prop;
  el_depth : A -> Z;
  el_octets (tag : option tag_info) (a : A) : octets :=
    tlv (get_asn_class tag) (get_tag tag el_tag) el_constr (el_content a);
  el_tag_range : 0 <= el_tag < 2 ^ 64;
  el_depth_nonneg a : 0 <= el_depth a;
  el_size a : el_wf a -> zlen (el_content a) <= (if el_constr then max_constructed_size else max_structure_size);
  el_writes tag a : el_wf a -> tag_ok tag -> semits (c_ser c a) tag (el_octets tag a);
  el_reads tag a all p : el_wf a -> tag_ok tag -> octets_at all p (el_octets tag a) ->
    sreads (ctx p (el_depth a)) (c_des c) tag all p a (p + zlen (el_octets tag a));
  el_missing tag all p : tag_ok tag ->
    smisses (absent (get_asn_class tag) (get_tag tag el_tag) all p) (c_des c) tag all p
}.

Arguments el_tag {A} c {_}.
Arguments el_constr {A} c {_}.
Arguments el_content {A} c {_} a.
Arguments el_wf {A} c {_} a.
Arguments el_depth {A} c {_} a.
Arguments el_octets {A} c {_} tag a.

Lemma element_header_readable (constr : bool) t d n :
  tag_ok t -> 0 <= d < 2 ^ 64 -> 0 <= n <= (if constr then max_constructed_size else max_structure_size) ->
  header_readable (AsnHeader (get_asn_class t) (get_tag t d) n constr).
Proof.
  intros Ht Hd Hn. split; [|destruct constr; cbn; lia]. apply wf_header; [by apply tag_ok_class|by apply tag_ok_tag|].
  assert (max_structure_size < 2 ^ 64) by reflexivity. assert (max_constructed_size < 2 ^ 64) by reflexivity.
  destruct constr; lia.
Qed.

Lemma zlen_tlv_pos c t (constr : bool) content :
  header_ok (AsnHeader c t (zlen content) constr) -> 2 <= zlen (tlv c t constr content) - zlen content.
Proof. intros H. unfold tlv. rewrite zlen_app. pose proof (zlen_header_pos _ H). lia. Qed.

Section elements.
Context {A : Type} (c : codec A) `{!Element c}.

Lemma el_header_ok tag a :
  el_wf c a -> tag_ok tag ->
  header_readable (AsnHeader (get_asn_class tag) (get_tag tag (el_tag c)) (zlen (el_content c a)) (el_constr c)).
Proof.
  intros Hw Ht. apply element_header_readable; [done|apply el_tag_range|].
  split; [apply zlen_nonneg|by apply el_size].
Qed.

Lemma zlen_el_octets tag a : el_wf c a -> tag_ok tag -> 2 <= zlen (el_octets c tag a).
Proof.
  intros Hw Ht. pose proof (zlen_tlv_pos _ _ _ _ (proj1 (el_header_ok tag a Hw Ht))).
  pose proof (zlen_nonneg (el_content c a)). unfold el_octets. lia.
Qed.
End elements.

Lemma ctx_before p n l : ctx p n l -> before_end p l.
Proof. by intros [? _]. Qed.
#[export] Hint Resolve ctx_before : core.

(** Primitive elements. *)
Lemma sreads_prim {A} (f : option tag_info -> dec A) tag all p n a p' :
  reads (before_end p) (f tag) all p a p' -> sreads (ctx p n) (des_dec f) tag all p a p'.
Proof. intros H. apply sreads_dec. apply (reads_weaken _ _ _ _ _ _ _ H). apply ctx_before. Qed.

#[export] Program Instance bool_element : Element bool_codec := {|
  el_tag := tag_boolean; el_constr := false;
  el_content b := int_octets (if b then 1 else 0); el_wf _ := True; el_depth _ := 0 |}.
Next Obligation. ground. Qed.
Next Obligation. done. Qed.
Next Obligation. intros [|] _; by vm_compute. Qed.
Next Obligation.
  intros tag b _ Ht. apply semits_enc, emits_integer; [done|ground|lia|lia|].
  pose proof (bool_fits b). assert (2 ^ (8 * 1 - 1) < 2 ^ (8 * 1)) by reflexivity. lia.
Qed.
Next Obligation. intros tag b all p _ Ht Hp. apply sreads_prim. by apply reads_bool. Qed.
Next Obligation.
  intros tag all p Ht mark k seqs s Ha (V & Hst & Hsx). cbn [c_des bool_codec]. unfold des_dec. rewrite Hst.
  destruct (misses_expect_header _ _ _ _ _ _ _ _ Ha V) as (msg & s' & p' & E & Hp & V').
  unfold decode_bool, dec_integer. erewrite bind_throw by (erewrite bind_throw by exact E; reflexivity).
  eexists _, _, p'. split; [reflexivity|]. split; [done|]. by split_and!.
Qed.

#[export] Program Instance string_element : Element string_codec := {|
  el_tag := tag_t61string; el_constr := false;
  el_content s := s; el_wf s := zlen s <= max_structure_size; el_depth _ := 0 |}.
Next Obligation. ground. Qed.
Next Obligation. done. Qed.
Next Obligation. done. Qed.
Next Obligation. intros tag s Hs Ht. apply semits_enc, emits_string; [done|ground|done]. Qed.
Next Obligation. intros tag s all p Hs Ht Hp. apply sreads_prim. apply reads_string; auto. ground. Qed.
Next Obligation. intros tag all p Ht. by eapply smisses_dec. Qed.

#[export] Program Instance octets_element : Element octets_codec := {|
  el_tag := tag_octet_string; el_constr := false;
  el_content s := s; el_wf s := zlen s <= max_structure_size; el_depth _ := 0 |}.
Next Obligation. ground. Qed.
Next Obligation. done. Qed.
Next Obligation. done. Qed.
Next Obligation. intros tag s Hs Ht. apply semits_enc, emits_string; [done|ground|done]. Qed.
Next Obligation. intros tag s all p Hs Ht Hp. apply sreads_prim. apply reads_string; auto. ground. Qed.
Next Obligation. intros tag all p Ht. by eapply smisses_dec. Qed.

(** Integers of a C++ type of one to eight octets. *)
Class IntWidth (t : int_type) : Prop := int_width_ok : 1 <= Z.of_nat (it_size t) <= 8.
#[export] Instance u8_ok : IntWidth u8. Proof. unfold IntWidth; simpl; lia. Qed.
#[export] Instance u16_ok : IntWidth u16. Proof. unfold IntWidth; simpl; lia. Qed.
#[export] Instance u32_ok : IntWidth u32. Proof. unfold IntWidth; simpl; lia. Qed.
#[export] Instance u64_ok : IntWidth u64. Proof. unfold IntWidth; simpl; lia. Qed.
#[export] Instance i32_ok : IntWidth i32. Proof. unfold IntWidth; simpl; lia. Qed.
#[export] Instance i64_ok : IntWidth i64. Proof. unfold IntWidth; simpl; lia. Qed.

Lemma in_range_hint t `{!IntWidth t} v :
  in_range t v -> - 2 ^ (8 * Z.of_nat (it_size t) - 1) <= v < 2 ^ (8 * Z.of_nat (it_size t)).
Proof.
  unfold in_range, it_bits. pose proof (int_width_ok (t:=t)). intros Hv.
  assert (2 ^ (8 * Z.of_nat (it_size t) - 1) < 2 ^ (8 * Z.of_nat (it_size t))) by (apply Z.pow_lt_mono_r; lia).
  assert (0 < 2 ^ (8 * Z.of_nat (it_size t) - 1)) by (apply Z.pow_pos_nonneg; lia).
  destruct (it_signed t); lia.
Qed.

Lemma int_content_size t `{!IntWidth t} v : in_range t v -> zlen (int_octets v) <= max_structure_size.
Proof.
  intros H. destruct (zlen_int_octets_range v (Z.of_nat (it_size t)) int_width_ok (in_range_hint t v H)) as [? _].
  pose proof (int_width_ok (t:=t)). assert (max_structure_size = 2097152) by reflexivity. lia.
Qed.

Lemma semits_int t `{!IntWidth t} tag v :
  in_range t v -> tag_ok tag ->
  semits (ser_int t v) tag (tlv (get_asn_class tag) (get_tag tag tag_integer) false (int_octets v)).
Proof.
  intros Hv Ht. apply semits_enc. pose proof (int_width_ok (t:=t)). pose proof (in_range_hint t v Hv).
  destruct (it_signed t); (apply emits_integer; [done|ground|lia|lia|lia]).
Qed.

Lemma sreads_int t `{!IntWidth t} tag v all p :
  in_range t v -> tag_ok tag ->
  let bs := tlv (get_asn_class tag) (get_tag tag tag_integer) false (int_octets v) in
  octets_at all p bs -> sreads (ctx p 0) (des_int t) tag all p v (p + zlen bs).
Proof.
  intros Hv Ht bs Hp. pose proof (int_width_ok (t:=t)). unfold des_int.
  eapply sreads_bind; [| |intros l H0; exact H0].
  - apply sreads_prim. unfold in_range, it_bits in Hv.
    destruct (it_signed t); (apply reads_integer; [by auto|done|ground|lia|exact Hv|exact Hp]).
  - rewrite cast_in_range by (try lia; done). apply sreads_ret.
Qed.

Lemma smisses_int t tag all p :
  smisses (absent (get_asn_class tag) (get_tag tag tag_integer) all p) (des_int t) tag all p.
Proof. apply smisses_bind. destruct (it_signed t); by eapply smisses_dec. Qed.

#[export] Program Instance int_element t `{!IntWidth t} : Element (int_codec t) := {|
  el_tag := tag_integer; el_constr := false;
  el_content v := int_octets v; el_wf v := in_range t v; el_depth _ := 0 |}.
Next Obligation. intros. ground. Qed.
Next Obligation. done. Qed.
Next Obligation. intros t ? v Hv. by apply (int_content_size t). Qed.
Next Obligation. intros t ? tag v Hv Ht. by apply semits_int. Qed.
Next Obligation. intros t ? tag v all p Hv Ht Hp. by apply sreads_int. Qed.
Next Obligation. intros t ? tag all p Ht. by apply smisses_int. Qed.

#[export] Program Instance enum_element t `{!IntWidth t} : Element (enum_codec t) := {|
  el_tag := tag_integer; el_constr := false;
  el_content v := int_octets v; el_wf v := in_range t v; el_depth _ := 0 |}.
Next Obligation. intros. ground. Qed.
Next Obligation. done. Qed.
Next Obligation. intros t ? v Hv. by apply (int_content_size t). Qed.
Next Obligation. intros t ? tag v Hv Ht. by apply semits_int. Qed.
Next Obligation.
  intros t ? tag v all p Hv Ht Hp. cbn [c_des enum_codec]. pose proof (int_width_ok (t:=t)).
  eapply sreads_bind; [apply sreads_amp; by apply sreads_int| |intros l H0; exact H0].
  rewrite cast_in_range by (try lia; done). apply sreads_ret.
Qed.
Next Obligation. intros t ? tag all p Ht. cbn [c_des enum_codec]. by apply smisses_bind, smisses_amp, smisses_int. Qed.

(** ** Fields inside a sequence *)

(** The innermost open element ends at [e], with room for [n] more. *)
Definition inside (e n : Z) (seqs : list Z) : Prop :=
  hd_error seqs = Some e /\ zlen seqs + n <= max_structure_depth.

Lemma inside_ctx e n n' p l : inside e n l -> p < e -> n' <= n -> ctx p n' l.
Proof. intros [H1 H2] Hp Hn. split; [|lia]. destruct l; [done|]. by injection H1 as ->. Qed.

Lemma inside_le e n n' l : inside e n l -> n' <= n -> inside e n' l.
Proof. intros [H1 H2] Hn. split; [done|lia]. Qed.

(** What consecutive fields of a sequence promise. *)
Class Body {A} (c : codec A) : Type := {
  bd_content : A -> octets;
  bd_wf : A -> Prop;
  bd_depth : A -> Z;
  bd_depth_nonneg a : 0 <= bd_depth a;
  bd_writes a : bd_wf a -> semits (c_ser c a) None (bd_content a);
  bd_reads a all p e : bd_wf a -> octets_at all p (bd_content a) -> p + zlen (bd_content a) = e ->
    sreads (inside e (bd_depth a)) (c_des c) None all p a (p + zlen (bd_content a))
}.
Arguments bd_content {A} c {_} a.
Arguments bd_wf {A} c {_} a.
Arguments bd_depth {A} c {_} a.

#[export] Program Instance unit_body : Body unit_codec := {|
  bd_content _ := []; bd_wf _ := True; bd_depth _ := 0 |}.
Next Obligation. done. Qed.
Next Obligation. intros [] _. apply semits_ret. Qed.
Next Obligation. intros [] all p e _ _ _. change (zlen _) with 0. rewrite Z.add_0_r. apply sreads_ret. Qed.

#[export] Program Instance then_body {A B} (c1 : codec A) (c2 : codec B) `{!Element c1, !Body c2} :
  Body (then_codec c1 c2) := {|
  bd_content v := el_octets c1 None (fst v) ++ bd_content c2 (snd v);
  bd_wf v := el_wf c1 (fst v) /\ bd_wf c2 (snd v);
  bd_depth v := Z.max (el_depth c1 (fst v)) (bd_depth c2 (snd v)) |}.
Next Obligation. intros A B c1 c2 ?? [a b]; cbn. pose proof (el_depth_nonneg (c:=c1) a). lia. Qed.
Next Obligation.
  intros A B c1 c2 ?? [a b] [H1 H2]; cbn in *.
  apply semits_bind; [by apply el_writes|by apply bd_writes].
Qed.
Next Obligation.
  intros A B c1 c2 ?? [a b] all p e [H1 H2] Hp He; cbn in *. apply octets_at_app in Hp as [Hp1 Hp2].
  rewrite zlen_app in *. pose proof (zlen_el_octets c1 None a H1 I). pose proof (zlen_nonneg (bd_content c2 b)).
  rewrite Z.add_assoc. eapply sreads_bind.
  - eapply sreads_weaken; [apply sreads_amp; by apply el_reads|].
    intros l Hl. apply (inside_ctx e _ _ p l Hl); lia.
  - eapply sreads_bind; [apply (bd_reads b all _ e); [done|done|lia]|apply sreads_ret|intros l Hl; exact Hl].
  - intros l Hl. apply (inside_le _ _ _ _ Hl). lia.
Qed.

(** Record types: [f] builds the record from its fields, [g] lists them. *)
Program Definition iso_body {A B} (f : A -> B) (g : B -> A) (Hfg : forall b, f (g b) = b)
  (c : codec A) `{!Body c} : Body (iso_codec f g c) := {|
  bd_content b := bd_content c (g b); bd_wf b := bd_wf c (g b); bd_depth b := bd_depth c (g b) |}.
Next Obligation. intros; cbn. apply bd_depth_nonneg. Qed.
Next Obligation. intros A B f g Hfg c ? b Hb; cbn in *. by apply bd_writes. Qed.
Next Obligation.
  intros A B f g Hfg c ? b all p e Hb Hp He; cbn in *.
  eapply sreads_bind; [by apply bd_reads|rewrite Hfg; apply sreads_ret|intros l Hl; exact Hl].
Qed.

Program Definition check_element {A B} (f : A -> result ser_exn B) (g : B -> A) (c : codec A) `{!Element c} :
  Element (check_codec f g c) := {|
  el_tag := el_tag c; el_constr := el_constr c; el_content b := el_content c (g b);
  el_wf b := el_wf c (g b) /\ f (g b) = Ok b; el_depth b := el_depth c (g b) |}.
Next Obligation. intros. apply el_tag_range. Qed.
Next Obligation. intros; cbn. apply el_depth_nonneg. Qed.
Next Obligation. intros A B f g c ? b [Hb _]. by apply el_size. Qed.
Next Obligation. intros A B f g c ? tag b [Hb _] Ht. by apply (el_writes (c:=c)). Qed.
Next Obligation.
  intros A B f g c ? tag b all p [Hb Hf] Ht Hp.
  eapply sreads_bind; [by apply (el_reads (c:=c))|rewrite Hf; apply sreads_ret|intros l Hl; exact Hl].
Qed.
Next Obligation. intros A B f g c ? tag all p Ht. apply smisses_bind. by apply el_missing. Qed.

(** Opening and closing a sequence around a body. *)
Lemma semits_sequence (m : ser unit) tag bs :
  tag_ok tag -> zlen bs <= max_constructed_size -> semits m None bs ->
  semits (ser_sequence m) tag (tlv (get_asn_class tag) (get_tag tag tag_sequence) true bs).
Proof.
  intros Ht Hs Hm e He. unfold ser_sequence.
  set (h := AsnHeader (get_asn_class tag) (get_tag tag tag_sequence) 0 true).
  rewrite (bind_ok _ _ _ tt (Serialiser (Encoder (e_stream e) (SeqStruct h [] :: e_layers e)) None)) by reflexivity.
  unfold with_dtor. rewrite (Hm (Encoder (e_stream e) (SeqStruct h [] :: e_layers e)) He).
  f_equal. unfold ser_end_sequence, ser_raw. cbn [sr_enc sr_tag].
  pose proof (emits_sequence h (mret tt) [] (emits_ret tt)) as _.
  unfold append_out at 1. cbn [e_layers e_stream ss_header ss_data app].
  assert (header_ok (AsnHeader (h_class h) (h_tag h) (zlen bs) (h_constructed h))) as Hh.
  { apply (element_header_readable true tag tag_sequence); [done|ground|]. split; [apply zlen_nonneg|done]. }
  assert (forall e0 : encoder, enc_ok e0 ->
    enc_end_sequence (Encoder (e_stream e0) (SeqStruct h bs :: e_layers e0)) =
    (Ok tt, append_out (tlv (get_asn_class tag) (get_tag tag tag_sequence) true bs) e0)) as HE.
  { intros [st ls] He0. unfold enc_end_sequence. erewrite bind_ok by reflexivity. cbn [ss_header ss_data e_stream e_layers].
    apply emits_unit; [|done]. unfold tlv. eapply emits_bind; [by apply emits_header|]. intros _.
    destruct (Z.eqb_spec (zlen bs) 0) as [Hz|Hz]; [|apply emits_write].
    apply zlen_zero in Hz as ->. apply emits_ret. }
  by rewrite (HE e He).
Qed.

Lemma sreads_sequence {A} (m : des A) tag content all p n a :
  tag_ok tag -> zlen content <= max_constructed_size -> 0 <= n ->
  let bs := tlv (get_asn_class tag) (get_tag tag tag_sequence) true content in
  octets_at all p bs ->
  (forall q, octets_at all q content -> exists q', q' <= q + zlen content /\
     sreads (inside (q + zlen content) n) m None all q a q') ->
  sreads (ctx p (1 + n)) (des_sequence m) tag all p a (p + zlen bs).
Proof.
  intros Ht Hs Hn bs Hp Hm mark k seqs s [Hb Hd] (V & Hst & Hsx).
  assert (header_readable (AsnHeader (get_asn_class tag) (get_tag tag tag_sequence) (zlen content) true)) as Hh.
  { apply element_header_readable; [done|ground|]. split; [apply zlen_nonneg|done]. }
  destruct (reads_open all mark k _ _ content p (fun _ => mret tt) seqs (ds_dec s) Hh Hp) as (q & d1 & E1 & _ & Hq & Hc & V1);
    [split; [done|lia]|done|].
  unfold des_sequence. erewrite bind_ok; [|unfold des_start_sequence, des_dec; rewrite Hst; unfold dec_start_sequence; rewrite E1; reflexivity].
  destruct (Hm q Hc) as (q' & Hq' & Hr).
  destruct (Hr mark k (q + zlen content :: seqs) (Deserialiser d1 None (ds_ex s))) as (s2 & E2 & (V2 & Ht2 & Hx2)).
  { split; [done|]. rewrite zlen_cons. lia. }
  { by split_and!. }
  unfold with_dtor. rewrite E2. unfold des_end_sequence, dec_end_sequence.
  pose proof Hc as (_ & Hc2 & _). 
  destruct (pop_view _ _ _ _ _ _ _ V2 ltac:(lia)) as (d3 & -> & V3).
  eexists; split; [done|]. fold bs in Hq. rewrite <- Hq. by split_and!.
Qed.

Lemma smisses_sequence {A} (m : des A) tag all p :
  smisses (absent (get_asn_class tag) (get_tag tag tag_sequence) all p) (des_sequence m) tag all p.
Proof. apply smisses_bind. by eapply smisses_dec. Qed.

(** A sequence is there, but a field in it is missing. *)
Lemma gives_up_sequence {A} (m : des A) tag content all p n :
  tag_ok tag -> zlen content <= max_constructed_size -> 0 <= n ->
  let bs := tlv (get_asn_class tag) (get_tag tag tag_sequence) true content in
  octets_at all p bs ->
  (forall q, octets_at all q content -> gives_up (q + zlen content) (inside (q + zlen content) n) m None all q) ->
  gives_up (p + zlen bs) (ctx p (1 + n)) (des_sequence m) tag all p.
Proof.
  intros Ht Hs Hn bs Hp Hm mark k seqs s [Hb Hd] (V & Hst & Hsx).
  assert (header_readable (AsnHeader (get_asn_class tag) (get_tag tag tag_sequence) (zlen content) true)) as Hh.
  { apply element_header_readable; [done|ground|]. split; [apply zlen_nonneg|done]. }
  destruct (reads_open all mark k _ _ content p (fun _ => mret tt) seqs (ds_dec s) Hh Hp) as (q & d1 & E1 & _ & Hq & Hc & V1);
    [split; [done|lia]|done|].
  unfold des_sequence. erewrite bind_ok; [|unfold des_start_sequence, des_dec; rewrite Hst; unfold dec_start_sequence; rewrite E1; reflexivity].
  destruct (Hm q Hc mark k (q + zlen content :: seqs) (Deserialiser d1 None (ds_ex s))) as (msg & s2 & q' & E2 & Hq' & (V2 & Ht2 & Hx2)).
  { split; [done|]. rewrite zlen_cons. lia. }
  { by split_and!. }
  unfold with_dtor. rewrite E2. unfold des_end_sequence, dec_end_sequence.
  pose proof Hc as (_ & Hc2 & _).
  destruct (pop_view _ _ _ _ _ _ _ V2 ltac:(lia)) as (d3 & -> & V3).
  pose proof (zlen_header_pos _ (proj1 Hh)) as HL. assert (p <= q) by (unfold bs, tlv in Hq; rewrite zlen_app in Hq; lia).
  eexists _, _, _. split; [reflexivity|]. split; [|by split_and!]. unfold bs in *. lia.
Qed.

#[export] Program Instance seq_element {A} (c : codec A) `{!Body c} : Element (seq_codec c) := {|
  el_tag := tag_sequence; el_constr := true;
  el_content v := bd_content c v;
  el_wf v := bd_wf c v /\ zlen (bd_content c v) <= max_constructed_size;
  el_depth v := 1 + bd_depth c v |}.
Next Obligation. intros. ground. Qed.
Next Obligation. intros A c ? v; cbn. pose proof (bd_depth_nonneg (c:=c) v). lia. Qed.
Next Obligation. by intros A c ? v []. Qed.
Next Obligation. intros A c ? tag v [H1 H2] Ht. apply semits_sequence; auto. by apply bd_writes. Qed.
Next Obligation.
  intros A c ? tag v all p [H1 H2] Ht Hp.
  apply sreads_sequence; [done|done|apply bd_depth_nonneg|done|].
  intros q Hq. exists (q + zlen (bd_content c v)). split; [lia|]. by apply bd_reads.
Qed.
Next Obligation. intros A c ? tag all p Ht. by apply smisses_sequence. Qed.

(** ** Containers *)

Section container_law.
Context {C E : Type} (elements : C -> list E) (insert_end : C -> E -> C) (empty : C) (c : codec E) `{!Element c}.

Definition els_content (l : list E) : octets := concat (map (el_octets c None) l).
Definition els_depth (l : list E) : Z := foldr Z.max 0 (map (el_depth c) l).

(** Stated by recursion, so that it evaluates on a concrete list. *)
Definition els_wf (l : list E) : Prop := foldr (fun x P => el_wf c x /\ P) True l.

Lemma els_wf_forall l : els_wf l -> Forall (el_wf c) l.
Proof. induction l; cbn; [by constructor|]. intros []. constructor; auto. Qed.

Lemma els_depth_nonneg l : 0 <= els_depth l.
Proof. unfold els_depth. induction l; cbn; lia. Qed.

Lemma zlen_els_content l : Forall (el_wf c) l -> zlen l <= zlen (els_content l).
Proof.
  induction 1 as [|x l Hx _ IH]; [done|]. unfold els_content in *. cbn [map concat].
  rewrite zlen_cons, zlen_app. pose proof (zlen_el_octets c None x Hx I). lia.
Qed.

Lemma semits_elements l : Forall (el_wf c) l -> semits (ser_elements c l) None (els_content l).
Proof.
  induction 1 as [|x l Hx _ IH]; [apply semits_ret|].
  apply semits_bind; [by apply el_writes|exact IH].
Qed.

(** The loop, with enough fuel for the elements left. *)
Lemma sreads_elements l fuel acc all p e :
  Forall (el_wf c) l -> (length l <= fuel)%nat -> octets_at all p (els_content l) ->
  p + zlen (els_content l) = e ->
  sreads (inside e (els_depth l)) (des_elements insert_end c fuel acc) None all p (fold_left insert_end l acc) e.
Proof.
  intros Hl; revert fuel acc p; induction Hl as [|x l Hx Hl IH]; intros fuel acc p Hf Hp He mark k seqs s Hin V.
  - change (zlen (els_content [])) with 0 in He. rewrite Z.add_0_r in He. subst e. exists s. split; [|done].
    pose proof V as ((V0 & Hs) & _). destruct (view_core _ _ _ _ _ V0) as [_ Hpos].
    destruct Hin as [Hi _]. destruct seqs as [|e es]; [done|]. injection Hi as ->.
    assert (des_is_end_of_sequence s = true) as HE.
    { unfold des_is_end_of_sequence, is_end_of_sequence, position, bs_pos. rewrite Hs, <- Hpos. apply Z.leb_le. lia. }
    destruct fuel; cbn [des_elements]; by rewrite HE.
  - destruct fuel as [|fuel]; [simpl in Hf; lia|]. unfold els_content in Hp, He. cbn [map concat] in Hp, He.
    apply octets_at_app in Hp as [Hp1 Hp2]. rewrite zlen_app in He.
    pose proof (zlen_el_octets c None x Hx I) as Hpos2. pose proof (zlen_nonneg (els_content l)) as Hnn.
    unfold els_content in Hnn.
    pose proof V as ((V0 & Hs) & _). destruct (view_core _ _ _ _ _ V0) as [_ Hpos].
    assert (des_is_end_of_sequence s = false) as HE.
    { unfold des_is_end_of_sequence, is_end_of_sequence, position, bs_pos. rewrite Hs, <- Hpos.
      destruct Hin as [Hi _]. destruct seqs as [|e0 es]; [done|]. injection Hi as ->. apply Z.leb_gt. lia. }
    cbn [des_elements]. rewrite HE.
    assert (els_depth (x :: l) = Z.max (el_depth c x) (els_depth l)) as Hd by done.
    destruct (sreads_amp _ _ _ _ _ _ _ (el_reads (c:=c) None x all p Hx I Hp1) mark k seqs s) as (s1 & E1 & V1);
      [apply (inside_ctx e _ _ _ _ Hin); lia|done|].
    rewrite (bind_ok _ _ _ _ _ E1). erewrite bind_ok by reflexivity.
    pose proof V1 as ((V10 & _) & _). destruct (view_core _ _ _ _ _ V10) as [_ Hpos1].
    unfold des_position, position, bs_pos. rewrite <- Hpos, <- Hpos1.
    destruct (Z.eqb_spec (p + zlen (el_octets c None x)) p); [lia|].
    apply (IH fuel (insert_end acc x) (p + zlen (el_octets c None x)) ltac:(simpl in Hf; lia) Hp2 ltac:(unfold els_content; lia) mark k seqs);
      [apply (inside_le _ _ _ _ Hin); lia|done].
Qed.

Program Definition container_element (Helems : C -> Prop)
  (Hins : forall v, Helems v -> fold_left insert_end (elements v) empty = v) :
  Element (container_codec elements insert_end empty c) := {|
  el_tag := tag_sequence; el_constr := true;
  el_content v := els_content (elements v);
  el_wf v := Helems v /\ els_wf (elements v) /\ zlen (els_content (elements v)) <= max_constructed_size;
  el_depth v := 1 + els_depth (elements v) |}.
Next Obligation. intros. ground. Qed.
Next Obligation. intros Helems Hins v; cbn. pose proof (els_depth_nonneg (elements v)). lia. Qed.
Next Obligation. by intros Helems Hins v (_ & _ & ?). Qed.
Next Obligation. intros Helems Hins tag v (H1 & H2%els_wf_forall & H3) Ht. apply semits_sequence; auto. by apply semits_elements. Qed.
Next Obligation.
  intros Helems Hins tag v all p (H1 & H2%els_wf_forall & H3) Ht Hp.
  apply sreads_sequence; [done|done|apply els_depth_nonneg|done|].
  intros q Hq. exists (q + zlen (els_content (elements v))). split; [lia|].
  intros mark k seqs s Hi V. erewrite bind_ok by reflexivity.
  destruct V as ((V & Hs) & Hrt & Hrx).
  assert (zlen all - q <= Z.of_nat (octets_held (ds_dec s))) as Hlen.
  { destruct (view_core _ _ _ _ _ V) as [Hc Hp2]. destruct (core_rest _ _ Hc) as (_ & _ & E0).
    destruct Hc as ((Hs1 & Hs2) & Hlo & _). unfold octets_held, is_rest, bs_pos in *. rewrite <- Hp2 in E0.
    rewrite zlen_zdrop in E0 by lia. unfold zlen in *. lia. }
  pose proof (zlen_els_content (elements v) H2).
  assert (length (elements v) <= octets_held (ds_dec s))%nat as Hfuel
    by (destruct Hq as (_ & Hq & _); unfold zlen in *; lia).
  pose proof (sreads_elements (elements v) _ empty all q _ H2 Hfuel Hq eq_refl) as G.
  rewrite (Hins v H1) in G. apply (G mark k seqs); [done|by split_and!].
Qed.
Next Obligation. intros Helems Hins tag all p Ht. by apply smisses_sequence. Qed.
End container_law.

Lemma vector_refold {A} (v : list A) : fold_left (fun v x => v ++ [x]) v [] = v.
Proof.
  enough (forall acc, fold_left (fun v x => v ++ [x]) v acc = acc ++ v) as G by apply G.
  induction v as [|x v IH]; intros acc; cbn; [by rewrite app_nil_r|].
  by rewrite IH, <- app_assoc.
Qed.

#[export] Instance vector_element {A} (c : codec A) `{!Element c} : Element (vector_codec c) :=
  container_element (fun v : list A => v) (fun v x => v ++ [x]) [] c (fun _ => True) (fun v _ => vector_refold v).

(** Ordered containers: strictly increasing lists. *)
Section ordered.
Context {E : Type} (lt : E -> E -> bool).

Fixpoint increasing (l : list E) : Prop :=
  match l with
  | [] => True
  | x :: xs => foldr (fun y P => (lt x y = true /\ lt y x = false) /\ P) True xs /\ increasing xs
  end.

Lemma ordered_insert_last x l :
  Forall (fun y => lt y x = true /\ lt x y = false) l -> ordered_insert lt x l = l ++ [x].
Proof.
  induction 1 as [|y l [H1 H2] _ IH]; [done|]. cbn. by rewrite H1, H2, IH.
Qed.

Lemma increasing_app l x k : increasing (l ++ x :: k) -> Forall (fun y => lt y x = true /\ lt x y = false) l.
Proof.
  induction l as [|y l IH]; [by constructor|]. cbn. intros [H1 H2]. constructor; [|by apply IH].
  rewrite foldr_app in H1. clear H2 IH. induction l as [|z l IH]; [apply H1|apply IH, H1].
Qed.

Lemma ordered_refold l : increasing l -> fold_left (fun v x => ordered_insert lt x v) l [] = l.
Proof.
  intros H. change l with ([] ++ l) at 2. change l with ([] ++ l) in H. revert H. generalize (@nil E).
  induction l as [|x l IH]; intros acc H; cbn; [by rewrite app_nil_r|].
  rewrite ordered_insert_last by (by apply (increasing_app _ _ l)).
  rewrite IH; by rewrite <- app_assoc.
Qed.
End ordered.

#[export] Instance set_element {A} (lt : A -> A -> bool) (c : codec A) `{!Element c} : Element (set_codec lt c) :=
  container_element (fun v : list A => v) (fun v x => ordered_insert lt x v) [] c (increasing lt) (ordered_refold lt).

#[export] Instance pair_body {A B} (c1 : codec A) (c2 : codec B) `{!Element c1, !Element c2} :
  Body (iso_codec (fun v => (fst v, fst (snd v))) (fun v => (fst v, (snd v, tt))) (then_codec c1 (then_codec c2 unit_codec))).
Proof. apply iso_body; [by intros []|apply _]. Defined.

#[export] Instance pair_element {A B} (c1 : codec A) (c2 : codec B) `{!Element c1, !Element c2} : Element (pair_codec c1 c2).
Proof. unfold pair_codec. apply _. Defined.

#[export] Instance map_element {K V} (lt : K -> K -> bool) (ck : codec K) (cv : codec V)
  `{!Element ck, !Element cv} : Element (map_codec lt ck cv) :=
  container_element (fun v : list (K * V) => v) (fun v x => ordered_insert (fun a b => lt (fst a) (fst b)) x v) []
    (pair_codec ck cv) (increasing (fun a b => lt (fst a) (fst b))) (ordered_refold _).

(** ** Optional fields *)

Lemma view_mark_k all mark k p b : view all mark k p b -> 0 <= k.
Proof. intros (_ & _ & H). destruct mark as [[lo rp]|]; lia. Qed.

(** A peek that ends where it started, or that commits. *)
Lemma peek_guard_run {A} (m : des A) all mark k p p' seqs tag s (r : result ser_exn A) :
  sview all mark k p seqs tag s ->
  (forall mark' k' s1, sview all mark' k' p seqs tag s1 -> exists s2, m s1 = (r, s2) /\ sview all mark' k' p' seqs None s2) ->
  p <= p' ->
  exists s', des_peek_guard m s = (r, s') /\
    sview all mark k (match r with Ok _ => p' | Throw _ => p end) seqs None s'.
Proof.
  intros ((V & Hs) & Ht & Hx) Hm Hp. pose proof (view_mark_k _ _ _ _ _ V) as Hk.
  destruct (start_peek_view _ _ _ _ _ V Hk) as (lo & rp & b' & E & V' & Hlo & Hmark).
  unfold des_peek_guard, dec_start_peek. rewrite E.
  destruct (Hm (Some (lo, rp)) (k + 1) (Deserialiser (Decoder b' (d_seq (ds_dec s))) (ds_tag s) (ds_ex s)))
    as (s2 & E2 & ((V2 & Hs2) & Ht2 & Hx2)); [by split_and!|].
  unfold with_dtor. rewrite E2.
  assert (forall commit : bool, view all mark k (if commit then p' else p) (end_peek (p - rp) commit (d_s (ds_dec s2)))) as HE.
  { intros commit. pose proof (end_peek_view _ _ _ _ _ p _ commit V2 Hlo Hp) as H.
    replace (k + 1 - 1) with k in H by lia. destruct (Z.eqb_spec (k + 1) 1) as [Hk1|Hk1].
    - destruct mark as [[lo0 rp0]|]; [|done]. destruct V as (_ & _ & HV & _). lia.
    - destruct mark as [m0|]; [by rewrite Hmark|]. destruct V as (_ & _ & HV & _). lia. }
  destruct r as [a|e]; eexists; (split; [reflexivity|]).
  - split_and!; [|done|done]. split; [apply (HE true)|done].
  - split_and!; [|done|done]. split; [apply (HE false)|done].
Qed.

Section optional.
Context {A : Type} (c : codec A) `{!Element c}.

Lemma sreads_optional_some tag a all p :
  el_wf c a -> tag_ok tag -> octets_at all p (el_octets c tag a) ->
  sreads (ctx p (el_depth c a)) (des_optional (c_des c) None) tag all p (Some a) (p + zlen (el_octets c tag a)).
Proof.
  intros Hw Ht Hp mark k seqs s Hc V. unfold des_optional, try_catch.
  destruct (peek_guard_run (mret tt ;; a0 ← amp (c_des c); mret tt ;; mret (Some a0)) all mark k p
    (p + zlen (el_octets c tag a)) seqs tag s (Ok (Some a)) V) as (s' & E & V').
  - intros mark' k' s1 V1.
    destruct (sreads_amp _ _ _ _ _ _ _ (el_reads (c:=c) tag a all p Hw Ht Hp) mark' k' seqs s1 Hc V1) as (s2 & E2 & V2).
    exists s2. split; [|done]. erewrite bind_ok by reflexivity. by erewrite bind_ok by exact E2.
  - pose proof (zlen_el_octets c tag a Hw Ht). lia.
  - rewrite E. by exists s'.
Qed.

Lemma sreads_optional_none hi pre tag all p :
  gives_up hi pre (c_des c) tag all p -> sreads pre (des_optional (c_des c) None) tag all p None p.
Proof.
  intros HM%gives_up_amp mark k seqs s Ha V. unfold des_optional, try_catch.
  pose proof V as ((V0 & Hs) & Hst & Hsx). pose proof (view_mark_k _ _ _ _ _ V0) as Hk.
  destruct (start_peek_view _ _ _ _ _ V0 Hk) as (lo & rp & b' & E & V' & Hlo & Hmark).
  unfold des_peek_guard, dec_start_peek. rewrite E.
  destruct (HM (Some (lo, rp)) (k + 1) seqs (Deserialiser (Decoder b' (d_seq (ds_dec s))) (ds_tag s) (ds_ex s)) Ha)
    as (msg & s2 & p' & E2 & [Hp _] & ((V2 & Hs2) & Ht2 & Hx2)); [by split_and!|].
  unfold with_dtor. erewrite bind_ok by reflexivity. rewrite (bind_throw _ _ _ _ _ E2).
  eexists; split; [reflexivity|]. split_and!; [|done|done]. split; [|done].
  pose proof (end_peek_view _ _ _ _ _ p _ false V2 Hlo Hp) as H.
  replace (k + 1 - 1) with k in H by lia. destruct (Z.eqb_spec (k + 1) 1) as [Hk1|Hk1].
  - destruct mark as [[lo0 rp0]|]; [|done]. destruct V0 as (_ & _ & HV & _). lia.
  - destruct mark as [m0|]; [by rewrite Hmark|]. destruct V0 as (_ & _ & HV & _). lia.
Qed.
End optional.

(** The octets of the fields after an absent one start with another element. *)
Definition starts_otherwise (t : Z) (bs : octets) : Prop :=
  bs = [] \/ exists h rest, header_readable h /\ bs = header_octets h ++ rest /\ (h_class h <> universal_c \/ h_tag h <> t).

(** [pass]: with which following fields the reader gives up on an absent one;
    it may open [n] elements before it does. *)
Program Definition optional_body_when {A B} (c1 : codec A) (c2 : codec B) `{!Element c1, !Body c2} (pass : B -> Prop) (n : Z)
  (Hn : 0 <= n) (Hpass : forall b all p e, bd_wf c2 b -> pass b -> octets_at all p (bd_content c2 b) -> p + zlen (bd_content c2 b) = e ->
     gives_up (zlen all) (inside e n) (c_des c1) None all p) :
  Body (then_codec (optional_codec c1) c2) := {|
  bd_content v := match fst v with Some a => el_octets c1 None a | None => [] end ++ bd_content c2 (snd v);
  bd_wf v := match fst v with
             | Some a => el_wf c1 a
             | None => pass (snd v)
             end /\ bd_wf c2 (snd v);
  bd_depth v := Z.max (match fst v with Some a => el_depth c1 a | None => n end) (bd_depth c2 (snd v)) |}.
Next Obligation. intros A B c1 c2 ?? pass n Hn Hpass [a b]; cbn. pose proof (bd_depth_nonneg (c:=c2) b). lia. Qed.
Next Obligation.
  intros A B c1 c2 ?? pass n Hn Hpass [[a|] b] [H1 H2]; cbn in *.
  - apply semits_bind; [by apply el_writes|by apply bd_writes].
  - apply (semits_bind _ _ None []); [apply semits_ret|by apply bd_writes].
Qed.
Next Obligation.
  intros A B c1 c2 ?? pass n Hn Hpass [[a|] b] all p e [H1 H2] Hp He; cbn in *.
  - apply octets_at_app in Hp as [Hp1 Hp2].
    rewrite zlen_app in *. pose proof (zlen_el_octets c1 None a H1 I). pose proof (zlen_nonneg (bd_content c2 b)).
    rewrite Z.add_assoc. eapply sreads_bind.
    + eapply sreads_weaken; [apply sreads_amp; by apply sreads_optional_some|].
      intros l Hl. apply (inside_ctx e _ _ p l Hl); lia.
    + eapply sreads_bind; [apply (bd_reads b all _ e); [done|done|lia]|apply sreads_ret|intros l Hl; exact Hl].
    + intros l Hl. apply (inside_le _ _ _ _ Hl). lia.
  - eapply sreads_bind.
    + eapply sreads_weaken; [apply sreads_amp; apply (sreads_optional_none c1 _ _ _ _ _ (Hpass b all p e H2 H1 Hp He))|].
      intros l Hl. apply (inside_le _ _ _ _ Hl). lia.
    + eapply sreads_bind; [apply (bd_reads b all _ e); [done|done|lia]|apply sreads_ret|intros l Hl; exact Hl].
    + intros l Hl. apply (inside_le _ _ _ _ Hl). lia.
Qed.

Lemma starts_otherwise_missing {A B} (c1 : codec A) (c2 : codec B) `{!Element c1, !Body c2} b all p e :
  bd_wf c2 b -> starts_otherwise (el_tag c1) (bd_content c2 b) -> octets_at all p (bd_content c2 b) ->
  p + zlen (bd_content c2 b) = e -> gives_up (zlen all) (inside e 0) (c_des c1) None all p.
Proof.
  intros _ H1 Hp He. eapply gives_up_weaken; [apply gives_up_misses, (el_missing (c:=c1) None all p I)|].
  intros l [Hl Hd]. cbn. destruct l as [|e0 es]; [done|]. injection Hl as ->.
  destruct H1 as [H1|(h & rest & Hh & Hb & Hne)].
  - left. rewrite H1, zlen_nil in He. exists e, es. split; [done|lia].
  - right; right. rewrite Hb in Hp, He. apply octets_at_app in Hp as [Hp1 Hp2].
    pose proof (zlen_header_pos h (proj1 Hh)). rewrite zlen_app in He. pose proof (zlen_nonneg rest).
    split; [cbn; lia|]. by exists h.
Qed.

#[export] Instance optional_body {A B} (c1 : codec A) (c2 : codec B) `{!Element c1, !Body c2} :
  Body (then_codec (optional_codec c1) c2) :=
  optional_body_when c1 c2 (fun b => starts_otherwise (el_tag c1) (bd_content c2 b)) 0 (Z.le_refl 0)
    (starts_otherwise_missing c1 c2).

(** The rest of the sequence, kept as raw octets. *)
#[export] Program Instance trailing_body : Body trailing_codec := {|
  bd_content d := d; bd_wf _ := True; bd_depth _ := 0 |}.
Next Obligation. done. Qed.
Next Obligation. intros d _. apply semits_raw, emits_write. Qed.
Next Obligation.
  intros d all p e _ Hp He mark k seqs s [Hi Hd] ((V & Hs) & Ht & Hx). cbn [c_des trailing_codec]. cbv beta in Hp, He.
  destruct seqs as [|e0 es]; [done|]. injection Hi as ->.
  destruct (view_core _ _ _ _ _ V) as [_ Hpos].
  unfold des_raw, decode_trailing. rewrite Hs. unfold position, bs_pos. rewrite <- Hpos.
  destruct (Z.ltb_spec p e).
  - replace (e - p) with (zlen d) by lia.
    destruct (reads_rd all p d Hp mark k (e :: es) (ds_dec s) I) as (s1 & E & V1); [by split|].
    rewrite E. eexists; split; [reflexivity|]. by split_and!.
  - pose proof (zlen_nonneg d). assert (zlen d = 0) as Hz by lia. apply zlen_zero in Hz as ->.
    eexists; split; [reflexivity|]. rewrite zlen_nil, Z.add_0_r. by split_and!.
Qed.

(** ** Tagged elements and choices *)

Lemma semits_implicit {A} (c : codec A) `{!Element c} t a tag :
  el_wf c a -> 0 <= t < 2 ^ 64 -> semits (ser_tagged implicit_tag t (c_ser c a)) tag (el_octets c (Some (tag_of t)) a).
Proof.
  intros Hw Ht e He. unfold ser_tagged. erewrite bind_ok by reflexivity.
  apply (el_writes (c:=c)); auto. split; cbn; lia.
Qed.

Lemma sreads_implicit {A} (c : codec A) `{!Element c} t a tag all p :
  el_wf c a -> 0 <= t < 2 ^ 64 -> octets_at all p (el_octets c (Some (tag_of t)) a) ->
  sreads (ctx p (el_depth c a)) (des_tagged implicit_tag t (c_des c)) tag all p a (p + zlen (el_octets c (Some (tag_of t)) a)).
Proof.
  intros Hw Ht Hp. apply sreads_set_dtag, sreads_amp. apply (el_reads (c:=c)); auto. split; cbn; lia.
Qed.

(** Looking at the next tag does not move. *)
Lemma sreads_next_tag h all p tag :
  header_readable h -> octets_at all p (header_octets h) ->
  forall mark k seqs s, sview all mark k p seqs tag s ->
  exists s', des_next_tag s = (Ok (TagInfo (Some (h_class h)) (h_tag h)), s') /\ sview all mark k p seqs tag s'.
Proof.
  intros Hh Hp mark k seqs s ((V & Hs) & Ht & Hx). pose proof (view_mark_k _ _ _ _ _ V) as Hk.
  destruct (start_peek_view _ _ _ _ _ V Hk) as (lo & rp & b' & E & V' & Hlo & Hmark).
  destruct (reads_header all h p Hh Hp (Some (lo, rp)) (k + 1) seqs (Decoder b' seqs) I) as (s2 & E2 & (V2 & Hs2)); [by split|].
  unfold des_next_tag, des_raw, next_tag, next_header, stream_peek, dec_start_peek.
  erewrite bind_ok; [|rewrite E, Hs; unfold with_dtor; rewrite E2; reflexivity].
  eexists; split; [reflexivity|]. split_and!; [|done|done]. split; [|done].
  pose proof (zlen_header_pos h (proj1 Hh)).
  pose proof (end_peek_view _ _ _ _ _ p _ false V2 Hlo ltac:(lia)) as HE.
  replace (k + 1 - 1) with k in HE by lia. destruct (Z.eqb_spec (k + 1) 1) as [Hk1|Hk1].
  - destruct mark as [[lo0 rp0]|]; [|done]. destruct V as (_ & _ & HV & _). lia.
  - destruct mark as [m0|]; [by rewrite Hmark|]. destruct V as (_ & _ & HV & _). lia.
Qed.

(** The tags of a choice are distinct, so an alternative is found by its own. *)
Lemma choice_visit_found {R} (alts : list (Z * des R)) t m cls :
  NoDup (map fst alts) -> (t, m) ∈ alts ->
  choice_visit alts (TagInfo cls t) = amp (des_tagged implicit_tag t m).
Proof.
  induction alts as [|[t0 m0] alts IH]; intros Hn Hin; [by inversion Hin|].
  cbn [map fst] in Hn. apply NoDup_cons in Hn as [Hnot Hn]. cbn [choice_visit ti_tag].
  apply elem_of_cons in Hin as [Heq|Hin].
  - injection Heq as -> ->. by rewrite Z.eqb_refl.
  - destruct (Z.eqb_spec t0 t) as [->|]; [|by apply IH].
    exfalso. apply Hnot. change t with (fst (t, m)). rewrite list_elem_of_fmap. by exists (t, m).
Qed.

(** An element written under its tag is read back by the choice, whatever the
    reader [f] makes of it. *)
Lemma sreads_choice {A R} (alts : list (Z * des R)) t (c : codec A) `{!Element c} (f : A -> R) a all p :
  NoDup (map fst alts) -> (t, (x ← c_des c; mret (f x))) ∈ alts -> el_wf c a -> 0 <= t < 2 ^ 64 ->
  octets_at all p (el_octets c (Some (tag_of t)) a) ->
  sreads (ctx p (el_depth c a)) (choice_deserialise alts) None all p (f a) (p + zlen (el_octets c (Some (tag_of t)) a)).
Proof.
  intros Hn Hin Hw Ht Hp mark k seqs s Hc V.
  assert (tag_ok (Some (tag_of t))) as Htag by (split; cbn; lia).
  pose proof (el_header_ok c (Some (tag_of t)) a Hw Htag) as Hh.
  pose proof Hp as Hp0. unfold el_octets, tlv in Hp0. apply octets_at_app in Hp0 as [Hp0 _].
  destruct (sreads_next_tag _ all p None Hh Hp0 mark k seqs s V) as (s1 & E1 & V1).
  unfold choice_deserialise. rewrite (bind_ok _ _ _ _ _ E1). cbn [h_class h_tag get_tag tag_of ti_tag].
  rewrite (choice_visit_found _ t _ _ Hn Hin).
  apply (sreads_amp (ctx p (el_depth c a)) _ None all p (f a)); [|done|done].
  unfold des_tagged. apply sreads_set_dtag, sreads_amp.
  eapply sreads_bind; [by apply (el_reads (c:=c))|apply sreads_ret|intros l H; exact H].
Qed.

(** ** Properties *)

(** Any element deserialises from its own octets, whatever follows. *)
Lemma deserialise_element {A} (c : codec A) `{!Element c} (a : A) (rest : octets) :
  el_wf c a -> el_depth c a <= max_structure_depth ->
  asn_der_deserialise c (el_octets c None a ++ rest) = Ok a.
Proof.
  intros Hw Hd. unfold asn_der_deserialise.
  destruct (sreads_amp _ _ _ _ _ _ _ (el_reads (c:=c) None a (el_octets c None a ++ rest) 0 Hw I (octets_at_prefix _ _))
    None 0 [] (new_deserialiser (el_octets c None a ++ rest))) as (s' & -> & _); [|split_and!; [split; [apply view_new|done]|done|done]|done].
  split; [done|]. by rewrite zlen_nil.
Qed.

Lemma serialise_element {A} (c : codec A) `{!Element c} (a : A) :
  el_wf c a -> asn_der_serialise c a = Ok (el_octets c None a).
Proof.
  intros Hw. unfold asn_der_serialise. rewrite (el_writes (c:=c) None a Hw I fresh_encoder eq_refl). done.
Qed.

(** The form clients use: what was written is read back. *)
Lemma wire_element {A} (c : codec A) `{!Element c} (a : A) bs :
  el_wf c a -> el_depth c a <= max_structure_depth -> asn_der_serialise c a = Ok bs -> asn_der_deserialise c bs = Ok a.
Proof.
  intros Hw Hd. rewrite (serialise_element c) by done. intros [= <-].
  rewrite <- (app_nil_r (el_octets c None a)). by apply deserialise_element.
Qed.

(** Identifier and length take at most ten octets for a small tag. *)
Lemma zlen_el_octets_le {A} (c : codec A) `{!Element c} (a : A) :
  el_tag c <= 30 -> el_wf c a -> zlen (el_octets c None a) <= zlen (el_content c a) + 10.
Proof.
  intros Ht Hw. destruct (el_header_ok c None a Hw I) as [(_ & _ & Hl) _]. cbn [h_length] in Hl.
  unfold el_octets, tlv, header_octets, tag_octets, length_octets. rewrite !zlen_app. cbn [h_tag h_length get_tag].
  destruct (Z.ltb_spec 30 (el_tag c)); [lia|]. cbv zeta. rewrite zlen_cons, zlen_nil.
  pose proof (blocks8_range _ Hl). destruct (127 <? zlen (el_content c a)); rewrite zlen_cons.
  - rewrite zlen_be_digits. lia.
  - rewrite (zlen_nil (A:=Z)). lia.
Qed.

Lemma zlen_int_octets_le t `{!IntWidth t} v : in_range t v -> zlen (int_octets v) <= 9.
Proof.
  intros H. destruct (zlen_int_octets_range v (Z.of_nat (it_size t)) int_width_ok (in_range_hint t v H)) as [? _].
  pose proof (int_width_ok (t:=t)). lia.
Qed.

Lemma int_octets_wf t `{!IntWidth t} v : in_range t v -> zlen (el_octets (int_codec t) None v) <= 19.
Proof.
  intros Hv. assert (el_tag (int_codec t) <= 30) as Ht by ground. pose proof (zlen_el_octets_le (int_codec t) v Ht Hv) as HL.
  change (el_content (int_codec t) v) with (int_octets v) in HL. pose proof (zlen_int_octets_le t v Hv). lia.
Qed.

Lemma octets_field b : zlen b <= max_structure_size -> zlen (el_octets octets_codec None b) <= zlen b + 10.
Proof.
  intros Hb. assert (el_tag octets_codec <= 30) as Ht by ground. exact (zlen_el_octets_le octets_codec b Ht Hb).
Qed.

(** a choice reads back what was written under one of its tags: for a list
    of alternatives with distinct tags, the deserialiser dispatches on the tag
    number it peeks and hands the alternative's value to the visitor. *)
Theorem choice_round_trip {A R} (alts : list (Z * des R)) (t : Z) (c : codec A) (E : Element c) (f : A -> R) (a : A)
  (rest : octets) (Hn : NoDup (map fst alts)) (Hin : (t, (x ← c_des c; mret (f x))) ∈ alts)
  (Hw : el_wf c a) (Ht : 0 <= t < 2 ^ 64) (Hd : el_depth c a <= max_structure_depth) :
  exists s d,
    ser_tagged implicit_tag t (c_ser c a) (Serialiser fresh_encoder None) = (Ok tt, s) /\
    choice_deserialise alts (new_deserialiser (written (sr_enc s) ++ rest)) = (Ok (f a), d) /\
    des_position d = zlen (written (sr_enc s)).
Proof.
  eexists. rewrite (semits_implicit c t a None Hw Ht fresh_encoder eq_refl).
  set (bs := el_octets c (Some (tag_of t)) a).
  destruct (sreads_choice alts t c f a (bs ++ rest) 0 Hn Hin Hw Ht (octets_at_prefix _ _)
    None 0 [] (new_deserialiser (bs ++ rest))) as (d & Ed & ((V & _) & _)).
  { split; [done|]. by rewrite zlen_nil. }
  { split_and!; [split; [apply view_new|done]|done|done]. }
  exists d. split_and!; [done|exact Ed|].
  destruct (view_core _ _ _ _ _ V) as [_ Hp]. unfold des_position, position, bs_pos. by rewrite <- Hp.
Qed.

Definition sample_alts : list (Z * des (Z + octets)) :=
  [(1, (x ← c_des (int_codec u16); mret (inl x))); (7, (x ← c_des string_codec; mret (inr x)))].

Lemma choice_round_trip_witness :
  exists s d,
    ser_tagged implicit_tag 7 (c_ser string_codec [104; 105]) (Serialiser fresh_encoder None) = (Ok tt, s) /\
    choice_deserialise sample_alts (new_deserialiser (written (sr_enc s) ++ [9; 9])) = (Ok (inr [104; 105]), d) /\
    des_position d = zlen (written (sr_enc s)).
Proof.
  apply (choice_round_trip sample_alts 7 string_codec _ inr [104; 105] [9; 9]).
  - by apply (bool_decide_unpack _).
  - right; left.
  - done.
  - lia.
  - done.
Defined.

(** an optional field with an explicit tag leaks an open element.  When the
    tag is there but holds another element, the field reads as absent and the
    position is restored, but the end of the tag stays recorded as the end of
    the innermost open element, so what follows is read against the wrong end
    and closing the enclosing sequence pops the leaked entry instead. *)
Theorem optional_explicit_leaves_element_open {A} (c : codec A) (E : Element c) (t : Z) (h : asn_header)
  (content rest : octets) (Ht : 0 <= t < 2 ^ 64) (Hh : header_readable h)
  (Hne : h_class h <> universal_c \/ h_tag h <> el_tag c)
  (Hs : zlen (header_octets h ++ content) <= max_constructed_size) :
  exists d e,
    des_optional (c_des c) (Some (tag_of t))
      (new_deserialiser (tlv context_specific_c t true (header_octets h ++ content) ++ rest)) = (Ok None, d) /\
    des_position d = 0 /\ d_seq (ds_dec d) = [e] /\ 0 < e.
Proof.
  set (inner := header_octets h ++ content) in *.
  set (all := tlv context_specific_c t true inner ++ rest).
  assert (header_readable (AsnHeader context_specific_c t (zlen inner) true)) as Hh0.
  { apply (element_header_readable true (Some (tag_of t)) 0); [split; cbn; lia|ground|].
    split; [apply zlen_nonneg|done]. }
  destruct (start_peek_view all None 0 0 _ (view_new all) ltac:(lia)) as (lo & rp & b' & Esp & V' & Hlo & Hmark).
  destruct (reads_open all (Some (lo, rp)) 1 context_specific_c t inner 0 (fun _ => mret tt) [] (Decoder b' []) Hh0
    (octets_at_prefix _ _)) as (q & d1 & _ & E1 & Hq & Hc & V1); [by split|by split|].
  pose proof (zlen_tlv_pos _ _ _ _ (proj1 Hh0)) as Hpos.
  pose proof (el_missing (c:=c) None all q I) as HM. apply smisses_amp in HM.
  pose proof Hc as Hc0. apply octets_at_app in Hc0 as [Hc0 _].
  pose proof (zlen_header_pos h (proj1 Hh)). pose proof (zlen_nonneg content).
  destruct (HM (Some (lo, rp)) 1 [q + zlen inner] (Deserialiser d1 None None)) as (msg & s2 & p' & E2 & Hp & ((V2 & Hs2) & Ht2 & Hx2)).
  { right; right. split; [cbn; unfold inner; rewrite zlen_app; lia|]. by exists h. }
  { by split_and!. }
  assert (des_optional (c_des c) (Some (tag_of t)) (new_deserialiser all) =
    (Ok None, Deserialiser (dec_end_peek (0 - rp) false (ds_dec s2)) (ds_tag s2) (ds_ex s2))) as ->.
  { unfold des_optional, try_catch, des_peek_guard, dec_start_peek, new_deserialiser. cbn [ds_dec new_decoder d_s d_seq ds_tag ds_ex].
    rewrite Esp. unfold with_dtor.
    assert (des_raw (dec_start_explicit_tag (tag_of t)) (Deserialiser (Decoder b' []) None None) =
      (Ok tt, Deserialiser d1 None None)) as Eo.
    { unfold des_raw, dec_start_explicit_tag. cbn [ds_dec ds_tag ds_ex tag_of ti_type ti_tag default].
      by rewrite E1. }
    rewrite (bind_ok _ _ _ _ _ Eo). by rewrite (bind_throw _ _ _ _ _ E2). }
  eexists _, _. split; [reflexivity|]. unfold des_position, position, dec_end_peek. cbn [ds_dec d_s d_seq].
  pose proof (end_peek_view _ _ _ _ _ 0 _ false V2 ltac:(lia) ltac:(unfold octets_at in Hc; lia)) as HE.
  destruct (view_core _ _ _ _ _ HE) as [_ Hz]. unfold bs_pos. rewrite <- Hz.
  split; [done|]. split; [exact Hs2|]. unfold inner. destruct Hc as [? _]. rewrite zlen_app. lia.
Qed.

Lemma optional_explicit_leaves_element_open_witness :
  exists d e,
    des_optional (c_des (int_codec i32)) (Some (tag_of 0))
      (new_deserialiser (tlv context_specific_c 0 true (header_octets (AsnHeader 0 1 1 false) ++ [1]) ++ [])) = (Ok None, d) /\
    des_position d = 0 /\ d_seq (ds_dec d) = [e] /\ 0 < e.
Proof.
  apply (optional_explicit_leaves_element_open (int_codec i32) _ 0 (AsnHeader 0 1 1 false) [1] []);
    [lia|ground|right; discriminate|ground].
Defined.

(** A record whose first field is such an optional loses its second field: the
    octets are those of a record { [0] BOOLEAN, INTEGER 5 }. *)
Example leaked_element_breaks_the_record :
  fst (c_des (seq_codec (then_codec (optional_tagged_codec explicit_tag 0 (int_codec i32)) trailing_codec))
         (new_deserialiser [48; 8; 160; 3; 1; 1; 1; 2; 1; 5])) = Ok (None, [160; 3; 1; 1; 1]).
Proof. vm_compute. reflexivity. Qed.
