(* ===== verification/Errors.v ===== *)
(** Errors with codes and categories: [util/error.hpp], [util/error.cpp], the
    categories of [crypto/error.cpp], [network/encryption/error.cpp] and
    [packet_transport/protocol/error.cpp], and their form on the wire,
    [network/net_error.hpp].

    A [std::error_code] and a [std::error_condition] are both a value with its
    category.  What a category of the standard library or of asio says of a
    value is the class [ForeignCategories]. *)

From stdpp Require Import base list numbers strings.
From Stdlib Require Import ZArith Lia Ascii String.
From S2P Require Import Prelude Serialise.
Open Scope Z_scope.

(** The octets of a literal. *)
Definition literal (s : string) : octets := map (fun a => Z.of_N (N_of_ascii a)) (list_ascii_of_string s).

(** ** Categories *)

Inductive category : Type :=
| securepath_category
| crypto_category
| network_category
| protocol_category
| foreign_category (name : octets).

#[export] Instance category_eq_dec : EqDecision category.
Proof. solve_decision. Defined.

Record error_code : Type := ErrorCode { ec_value : Z; ec_category : category }.

#[export] Instance error_code_eq_dec : EqDecision error_code.
Proof. solve_decision. Defined.

Class ForeignCategories : Type := {
  foreign_condition : octets -> Z -> error_code;
  foreign_message : octets -> Z -> octets
}.

(** [def_error_category]: the name, the first code, the messages in order. *)
Record def_error_category : Type := DefErrorCategory {
  dc_name : octets;
  dc_begin : Z;
  dc_errors : list octets
}.

Definition dc_end (d : def_error_category) : Z := dc_begin d + zlen (dc_errors d).

Definition definition_of (c : category) : option def_error_category :=
  match c with
  | securepath_category => Some (DefErrorCategory (literal "securepath error") 0 (map literal
      ["no error"; "unknown error"; "exception occurred"; "not implemented"; "not supported"; "invalid data";
       "no such data exists"; "operation timed out"; "invalid state"; "constraint violation"; "invalid argument"]%string))
  | crypto_category => Some (DefErrorCategory (literal "securepath crypto error") 1 (map literal
      ["no such root key"; "no such key"; "invalid certificate chain"; "invalid certificate chain CA level"; "invalid data";
       "invalid operation"; "invalid public key"; "invalid certificate"; "signature not authentic"]%string))
  | network_category => Some (DefErrorCategory (literal "securepath network error") 1 (map literal
      ["Initialising network failed"; "Connection closed"; "Authentication failed"; "Invalid record"; "No such handshake";
       "Handshake failed"; "Invalid data"; "Key is not authentic"; "bad version number"; "already connected"; "TLS failure"]%string))
  | protocol_category => Some (DefErrorCategory (literal "packet transport protocol error") 1 (map literal
      ["invalid client key"; "bad version"; "invalid state"]%string))
  | foreign_category _ => None
  end.

Definition category_name (c : category) : octets :=
  match definition_of c with
  | Some d => dc_name d
  | None => match c with foreign_category name => name | _ => [] end
  end.

Definition unknown_error : error_code := ErrorCode 1 securepath_category.

Section categories.
Context `{ForeignCategories}.

(** [def_error_category::default_error_condition]: a code outside the range of
    its enumeration becomes [unknown_error]. *)
Definition default_error_condition (ec : error_code) : error_code :=
  match definition_of (ec_category ec), ec_category ec with
  | Some d, _ => if (dc_begin d <=? ec_value ec) && (ec_value ec <? dc_end d) then ec else unknown_error
  | None, foreign_category name => foreign_condition name (ec_value ec)
  | None, _ => unknown_error
  end.

Definition code_message (ec : error_code) : octets :=
  match definition_of (ec_category ec), ec_category ec with
  | Some d, _ =>
      if (dc_begin d <=? ec_value ec) && (ec_value ec <? dc_end d)
      then default (literal "unknown error") (dc_errors d !! Z.to_nat (ec_value ec - dc_begin d))
      else literal "unknown error"
  | None, foreign_category name => foreign_message name (ec_value ec)
  | None, _ => literal "unknown error"
  end.

(** ** [securepath::error] *)

Record error : Type := Error { err_code : error_code; err_message : octets }.

(** [operator bool]: an error code counts by its value. *)
Definition is_error (e : error) : bool := negb (ec_value (err_code e) =? 0).

(** [error()]: no error. *)
Definition no_error : error := Error (ErrorCode 0 (foreign_category (literal "system"))) [].

Definition make_error (ec : error_code) (msg : octets) : error := Error ec msg.

(** [what] *)
Definition error_what (e : error) : octets :=
  match err_message e with
  | [] => code_message (err_code e)
  | m => code_message (err_code e) ++ literal ": " ++ m
  end.

(** ** [network::net_error] *)

Record net_error : Type := NetError {
  ne_code : Z;
  ne_message : octets;
  ne_category : octets;
  ne_aux_message : octets
}.

Definition no_net_error : net_error := NetError 0 [] [] [].

Definition is_net_error (e : net_error) : bool := negb (ne_code e =? 0).

Definition net_error_of (e : error) : net_error :=
  let c := default_error_condition (err_code e) in
  NetError (ec_value c) (code_message c) (category_name (ec_category c)) (err_message e).

(** [key_client]'s [to_error] *)
Definition client_error (e : net_error) : error :=
  make_error unknown_error
    (match ne_aux_message e with [] => ne_message e | aux => ne_message e ++ literal ": " ++ aux end).

(** [protocol::to_error] of the packet transport *)
Definition is_protocol_code (code : Z) : bool := (0 <? code) && (code <? 4).

Definition protocol_error (e : net_error) : error :=
  if is_net_error e
  then if bool_decide (ne_category e = category_name protocol_category) && is_protocol_code (ne_code e)
       then make_error (ErrorCode (ne_code e) protocol_category) (ne_aux_message e)
       else make_error unknown_error []
  else no_error.
End categories.

(** ** Wire format *)

Definition net_error_fields : codec net_error :=
  iso_codec (fun v => NetError (fst v) (fst (snd v)) (fst (snd (snd v))) (fst (snd (snd (snd v)))))
    (fun e => (ne_code e, (ne_message e, (ne_category e, (ne_aux_message e, tt)))))
    (then_codec (int_codec i32) (then_codec string_codec (then_codec string_codec (then_codec string_codec unit_codec)))).
Definition net_error_codec : codec net_error := seq_codec net_error_fields.

#[export] Instance net_error_body : Body net_error_fields.
Proof. unfold net_error_fields. apply iso_body; [by intros []|apply _]. Defined.
#[export] Instance net_error_element : Element net_error_codec.
Proof. unfold net_error_codec. apply _. Defined.

(** ** What the conversions keep *)

Section laws.
Context `{ForeignCategories}.

Definition own_category (c : category) : bool := match c with foreign_category _ => false | _ => true end.

(** An error of this program arrives with a code of its category, and never as
    no error unless it was none. *)
Lemma net_error_code (e : error) : own_category (ec_category (err_code e)) = true ->
  is_error e = true -> is_net_error (net_error_of e) = true.
Proof.
  destruct e as [[v c] m]. unfold is_error, is_net_error, net_error_of, default_error_condition. cbn [err_code ec_value ec_category].
  intros Hc Hv. destruct c; try done; cbn [definition_of]; case_match; done.
Qed.

(** The packet transport's client gets the protocol's own codes back. *)
Lemma protocol_error_round_trip (v : Z) (m : octets) : is_protocol_code v = true ->
  protocol_error (net_error_of (make_error (ErrorCode v protocol_category) m)) = make_error (ErrorCode v protocol_category) m.
Proof.
  intros Hv. unfold protocol_error, net_error_of, default_error_condition, make_error. cbn [err_code ec_value ec_category definition_of].
  pose proof Hv as Hv'. unfold is_protocol_code in Hv'.
  assert ((dc_begin (DefErrorCategory (literal "packet transport protocol error") 1
     (map literal ["invalid client key"; "bad version"; "invalid state"]%string)) <=? v) &&
    (v <? dc_end (DefErrorCategory (literal "packet transport protocol error") 1
     (map literal ["invalid client key"; "bad version"; "invalid state"]%string))) = true) as ->.
  { change (dc_end _) with 4. cbn [dc_begin]. apply andb_prop in Hv' as [H1%Z.ltb_lt H2%Z.ltb_lt]. apply andb_true_intro. lia. }
  unfold is_net_error. cbn [ne_code ne_category ne_aux_message ec_value ec_category err_message].
  rewrite Hv, bool_decide_eq_true_2 by done. cbn [andb].
  destruct (Z.eqb_spec v 0) as [->|]; [done|]. done.
Qed.
End laws.

(** A library whose conditions are its codes, as [std::generic_category]. *)
Module SampleCategories.
#[export] Instance generic_categories : ForeignCategories := {|
  foreign_condition name v := ErrorCode v (foreign_category name);
  foreign_message _ _ := literal "message" |}.
End SampleCategories.
