(* ===== verification/PacketDeserialiser.v ===== *)
(** Reassembly of packets from a byte stream: [packet_deserialiser_base] and
    [packet_deserialiser] of [serialisation/util.hpp].  The callback is a
    parameter; the reassembly theorem holds for any callback that consumes
    complete packets. *)

From stdpp Require Import base list numbers strings.
From Stdlib Require Import ZArith Lia.
From S2P Require Import Prelude ByteOrder Asn1Int Asn1Stream Asn1Encoder Asn1Decoder Serialise.
Open Scope Z_scope.

(** ** packet_deserialiser_base *)

Definition default_buf_max_size : Z := 1024 * 1024.

Record packet_deserialiser (W : Type) : Type := PacketDeserialiser {
  pd_max : Z;          (** [buf_max_size_] *)
  pd_buf : octets;     (** [buf_] *)
  pd_world : W         (** what the callback changes *)
}.
Arguments PacketDeserialiser {W}.
Arguments pd_max {W}. Arguments pd_buf {W}. Arguments pd_world {W}.

Section check.
Context {W : Type} (callback : deserialiser -> octets -> sexn W ser_exn unit).

(** [while(deser_func(rest))]: the position reached; every round consumes. *)
Fixpoint check_loop (fuel : nat) (s : octets) (pos : Z) : sexn W ser_exn Z := fun w =>
  match fuel with
  | O => (Throw (OtherExn "out of fuel"), w)
  | S k =>
      match des_has_next (new_deserialiser s) with
      | (Ok len, d) =>
          if len =? 0 then (Ok pos, w)
          else (callback d (ztake len s) ;; check_loop k (zdrop len s) (pos + len)) w
      | (Throw e, _) => (Throw e, w)
      end
  end.

Definition do_check (data : octets) : sexn (packet_deserialiser W) ser_exn unit := fun st =>
  if pd_max st <? zlen (pd_buf st) + zlen data
  then (Throw (OtherExn "max buffer size reached"), st)
  else if zlen (pd_buf st) =? 0 then
    match check_loop (S (length data)) data 0 (pd_world st) with
    | (Ok pos, w) => (Ok tt, PacketDeserialiser (pd_max st) (pd_buf st ++ zdrop pos data) w)
    | (Throw e, w) => (Throw e, PacketDeserialiser (pd_max st) (pd_buf st) w)
    end
  else
    let buf := pd_buf st ++ data in
    match check_loop (S (length buf)) buf 0 (pd_world st) with
    | (Ok pos, w) => (Ok tt, PacketDeserialiser (pd_max st) (zdrop pos buf) w)
    | (Throw e, w) => (Throw e, PacketDeserialiser (pd_max st) buf w)
    end.

(** The calls a connection makes as octets arrive. *)
Fixpoint feed (chunks : list octets) : sexn (packet_deserialiser W) ser_exn unit :=
  match chunks with
  | [] => mret tt
  | c :: cs => do_check c ;; feed cs
  end.

Definition pd_clear (st : packet_deserialiser W) : packet_deserialiser W :=
  PacketDeserialiser (pd_max st) [] (pd_world st).
End check.

(** [packet_deserialiser<ChoiceTypeList>::handle] *)
Definition pd_handle {W} (alts : list (Z * des (W -> W))) (data : octets) : sexn (packet_deserialiser W) ser_exn unit :=
  do_check (fun d _ w => match fst (choice_deserialise alts d) with
                         | Ok visit => (Ok tt, visit w)
                         | Throw e => (Throw e, w)
                         end) data.

(** ** Truncated input *)

(** [all] ends inside the octets [bs] that would be at [p]. *)
Definition cut_at (all : octets) (p : Z) (bs : octets) : Prop :=
  0 <= p <= zlen all /\ exists x, x <> [] /\ zdrop p all ++ x = bs.

Lemma cut_at_short all p bs : cut_at all p bs -> zlen all < p + zlen bs.
Proof.
  intros (Hp & x & Hx & <-). rewrite zlen_app, zlen_zdrop by lia.
  destruct x; [done|]. rewrite zlen_cons. pose proof (zlen_nonneg x). lia.
Qed.

Lemma cut_at_app all p a b :
  cut_at all p (a ++ b) -> cut_at all p a \/ (octets_at all p a /\ cut_at all (p + zlen a) b).
Proof.
  intros (Hp & x & Hx & E). destruct (app_eq_inv _ _ _ _ E) as [(k & Ha & Hb)|(k & Ha & Hb)].
  - right. pose proof (f_equal zlen Ha) as HL. rewrite zlen_zdrop, zlen_app in HL by lia.
    pose proof (zlen_nonneg k). pose proof (zlen_nonneg a). split.
    + unfold octets_at, slice. split; [lia|]. split; [lia|]. rewrite Ha. apply ztake_app.
    + split; [lia|]. exists x. split; [done|].
      rewrite Hb. f_equal. rewrite <- (zdrop_zdrop (zlen a) p), Ha by lia. apply zdrop_app.
  - destruct k as [|y k].
    + right. rewrite app_nil_r in Ha. cbn in Hb. subst b.
      pose proof (f_equal zlen Ha) as HL. rewrite zlen_zdrop in HL by lia. split.
      * unfold octets_at, slice. split; [lia|]. split; [lia|]. rewrite <- Ha. apply ztake_ge. lia.
      * split; [lia|]. exists x. split; [done|]. rewrite zdrop_all by lia. done.
    + left. split; [done|]. by exists (y :: k).
Qed.

Lemma throws_rd all p bs : cut_at all p bs -> throws anywhere (rd (zlen bs)) all p.
Proof.
  intros H mark k seqs s _ [V <-]. unfold rd.
  destruct (read_short _ _ _ _ (zlen bs) _ V (zlen_nonneg _)) as (b' & ->); [by apply cut_at_short in H|].
  by eexists _, _.
Qed.

Lemma throws_rd1 all p b : cut_at all p [b] -> throws anywhere rd1 all p.
Proof. intros H. unfold rd1. apply throws_bind. by apply (throws_rd _ _ [b]). Qed.

(** A truncated header throws. *)
Lemma throws_long_tag_loop all last ds n acc p :
  Forall (fun d => 0 <= d < 128) ds -> 0 <= last < 128 -> (length ds <= n)%nat ->
  let os := map (fun x => x + 128) ds ++ [last] in
  cut_at all p (tl os) -> throws anywhere (long_tag_loop n acc (hd 0 os)) all p.
Proof.
  intros Hds Hl; revert n acc p; induction Hds as [|d ds Hd Hds IH]; intros n acc p Hn os Hp; subst os.
  - cbn [map app tl] in Hp. destruct Hp as (_ & x & Hx & E). by apply app_eq_nil in E as [_ ->].
  - simpl in Hn. destruct n as [|n]; [lia|]. cbn [map app hd tl] in *.
    cbn [long_tag_loop]. rewrite octet_bit7 by (unfold is_octet; lia).
    destruct (Z.leb_spec 128 (d + 128)); [|lia].
    assert (exists o os, map (fun x => x + 128) ds ++ [last] = o :: os) as (o & os & Eo) by (destruct ds; simpl; eauto).
    rewrite Eo in Hp. change (o :: os) with ([o] ++ os) in Hp. apply cut_at_app in Hp as [Hp|[Hp1 Hp2]].
    + apply throws_bind. by apply (throws_rd1 _ _ o).
    + eapply throws_after; [by apply reads_rd1|].
      specialize (IH n (wrap 64 (Z.lor (Z.shiftl acc 7) (Z.land (d + 128) 127))) (p + 1) ltac:(lia)). cbv zeta in IH.
      rewrite Eo in IH. by apply IH.
Qed.

Lemma throws_tag all h p : header_ok h -> cut_at all p (tag_octets h) -> throws anywhere decode_tag all p.
Proof.
  intros (Hc & Ht & Hl) Hp. unfold decode_tag, tag_octets in *. pose proof (blocks7_range _ Ht) as HB.
  destruct (Z.ltb_spec 30 (h_tag h)) as [Hlong|Hshort]; [|by eapply throws_bind, throws_rd1].
  set (n := Z.to_nat (blocks (h_tag h) false 7 + 1)) in *.
  set (c := first_octet (h_class h) 31 (h_constructed h)) in *.
  change (c :: tag_digits n (h_tag h)) with ([c] ++ tag_digits n (h_tag h)) in *.
  apply cut_at_app in Hp as [Hp|[Hp1 Hp2]]; [by apply throws_bind, (throws_rd1 _ _ c)|].
  destruct (first_octet_fields (h_class h) 31 (h_constructed h)) as (F1 & F2 & F3); [lia..|]. fold c in F1, F2, F3.
  eapply throws_after; [by apply reads_rd1|]. apply throws_bind.
  unfold decode_tag_number. rewrite F3. cbn [Z.eqb Pos.eqb]. unfold decode_long_tag, tag_digits in *.
  set (ds := digits128 (pred n) (h_tag h / 128)) in *.
  assert (exists o os, map (fun x => x + 128) ds ++ [h_tag h mod 128] = o :: os) as (o & os & Eo) by (destruct ds; simpl; eauto).
  rewrite Eo in Hp2. change (o :: os) with ([o] ++ os) in Hp2. apply cut_at_app in Hp2 as [Hp|[Hp2 Hp3]].
  - apply throws_bind. by apply (throws_rd1 _ _ o).
  - eapply throws_after; [by apply reads_rd1|].
    pose proof (throws_long_tag_loop all (h_tag h mod 128) ds 9 0 (p + zlen [c] + zlen [o])) as G.
    cbv zeta in G. rewrite Eo in G. apply G; [apply digits128_range|apply Z.mod_pos_bound; lia| |done].
    unfold ds. rewrite digits128_map, length_map, length_seq. lia.
Qed.

Lemma throws_length all n p : 0 <= n < 2 ^ 64 -> cut_at all p (length_octets n) -> throws anywhere decode_length all p.
Proof.
  intros Hn Hp. unfold decode_length, length_octets in *. pose proof (blocks8_range _ Hn) as HB. cbv zeta in *.
  destruct (Z.ltb_spec 127 n) as [Hlong|Hshort]; [|by eapply throws_bind, throws_rd1].
  set (k := blocks n false 8 + 1) in *.
  pose proof (zlen_be_digits (Z.to_nat k) n) as Hz. rewrite Z2Nat.id in Hz by lia.
  change (128 + k :: be_digits (Z.to_nat k) n) with ([128 + k] ++ be_digits (Z.to_nat k) n) in *.
  apply cut_at_app in Hp as [Hp|[Hp1 Hp2]]; [by apply throws_bind, (throws_rd1 _ _ (128 + k))|].
  eapply throws_after; [by apply reads_rd1|].
  rewrite octet_bit7 by (unfold is_octet; lia). destruct (Z.leb_spec 128 (128 + k)); [|lia].
  unfold decode_long_length. rewrite (Z.add_comm 128 k), land_127_high by lia.
  destruct (Z.ltb_spec 8 k); [lia|]. destruct (Z.eqb_spec k 0); [lia|]. cbn [orb].
  apply throws_bind. rewrite <- Hz. by apply throws_rd.
Qed.

Lemma throws_header all h p : header_ok h -> cut_at all p (header_octets h) -> throws anywhere decode_header all p.
Proof.
  intros Hh Hp. unfold header_octets in Hp. unfold decode_header. apply cut_at_app in Hp as [Hp|[Hp1 Hp2]].
  - apply throws_bind. by apply (throws_tag _ h).
  - eapply throws_after; [by apply reads_tag|]. apply throws_bind. by apply (throws_length _ (h_length h)); [apply Hh|].
Qed.

(** ** has_next *)

Definition is_packet (p : octets) : Prop :=
  exists h content, header_readable h /\ h_length h = zlen content /\ p = header_octets h ++ content.

Lemma zlen_packet p : is_packet p -> 2 <= zlen p.
Proof.
  intros (h & c & Hh & _ & ->). rewrite zlen_app. pose proof (zlen_header_pos h (proj1 Hh)).
  pose proof (zlen_nonneg c). lia.
Qed.

Lemma next_length_packet all p h c :
  header_readable h -> h_length h = zlen c -> octets_at all p (header_octets h) ->
  forall mark k seqs s, dview all mark k p seqs s ->
  exists s', next_length s = (Ok (zlen (header_octets h ++ c)), s') /\ dview all mark k p seqs s'.
Proof.
  intros Hh Hc Hp mark k seqs s (V & Hs). pose proof (view_mark_k _ _ _ _ _ V) as Hk.
  destruct (view_core _ _ _ _ _ V) as [_ Hpos].
  destruct (start_peek_view _ _ _ _ _ V Hk) as (lo & rp & b' & E & V' & Hlo & Hmark).
  destruct (reads_header all h p Hh Hp (Some (lo, rp)) (k + 1) seqs (Decoder b' seqs) I) as (s2 & E2 & (V2 & Hs2)); [by split|].
  unfold next_length, catch_zero, try_catch, stream_peek, dec_start_peek. rewrite E, Hs. unfold with_dtor. rewrite E2.
  destruct (view_core _ _ _ _ _ V2) as [_ Hpos2]. unfold position, bs_pos. rewrite <- Hpos, <- Hpos2, zlen_app, Hc.
  eexists. split; [f_equal; f_equal; lia|]. split; [|done].
  pose proof (zlen_header_pos h (proj1 Hh)).
  pose proof (end_peek_view _ _ _ _ _ p _ false V2 Hlo ltac:(lia)) as HE.
  replace (k + 1 - 1) with k in HE by lia. destruct (Z.eqb_spec (k + 1) 1) as [Hk1|Hk1].
  - destruct mark as [[lo0 rp0]|]; [|done]. destruct V as (_ & _ & HV & _). lia.
  - destruct mark as [m0|]; [by rewrite Hmark|]. destruct V as (_ & _ & HV & _). lia.
Qed.

(** A complete packet is announced with its length, and the deserialiser is
    left in front of it. *)
Lemma has_next_packet p rest :
  is_packet p ->
  exists d, des_has_next (new_deserialiser (p ++ rest)) = (Ok (zlen p), d) /\ sview (p ++ rest) None 0 0 [] None d.
Proof.
  intros Hp. pose proof (zlen_packet p Hp) as Hlen. destruct Hp as (h & c & Hh & Hc & ->).
  set (all := (header_octets h ++ c) ++ rest).
  assert (octets_at all 0 (header_octets h ++ c)) as Hat by apply octets_at_prefix.
  pose proof Hat as (_ & Hle & _). apply octets_at_app in Hat as [Hat _].
  destruct (next_length_packet all 0 h c Hh Hc Hat None 0 [] (new_decoder all)) as (s1 & E1 & (V1 & Hs1));
    [split; [apply view_new|done]|].
  destruct (readable_view _ _ _ _ (zlen (header_octets h ++ c)) _ V1 ltac:(lia) ltac:(lia)) as (b' & E2 & V2).
  unfold des_has_next, des_raw, has_next, catch_zero, try_catch. cbn [new_deserialiser ds_dec ds_tag ds_ex].
  rewrite (bind_ok _ _ _ _ _ E1). destruct (Z.eqb_spec (zlen (header_octets h ++ c)) 0); [lia|].
  erewrite bind_ok; [|unfold dec_readable; rewrite E2; reflexivity].
  eexists. split; [reflexivity|]. split_and!; [|done|done]. by split.
Qed.

Lemma readable_short all mark k p n b :
  view all mark k p b -> zlen all < p + n -> p <= zlen all -> exists b', readable_bytes n b = (false, b').
Proof.
  intros V Hn Hpe. destruct (view_core _ _ _ _ _ V) as [Hc Hp].
  destruct (core_rest _ _ Hc) as (E & Hpos & Hrest). unfold bs_pos in *. rewrite <- Hp in *.
  pose proof Hc as (Hs & Hlo & Hbuf & Hreal & _). unfold readable_bytes.
  pose proof (zlen_nonneg (is_rest (bs_stream b))).
  set (m := zlen (bs_buffer b) - bs_look b) in *.
  assert ((if bs_look b <? zlen (bs_buffer b) then m else 0) = m) as ->
    by (destruct (Z.ltb_spec (bs_look b) (zlen (bs_buffer b))); lia).
  destruct (Z.leb_spec n m); [lia|]. rewrite is_read_short by (auto; lia). by eexists.
Qed.

(** A packet cut short is not announced. *)
Lemma has_next_short p s x :
  is_packet p -> s ++ x = p -> x <> [] -> exists d, des_has_next (new_deserialiser s) = (Ok 0, d).
Proof.
  intros (h & c & Hh & Hc & ->) Hs Hx. unfold des_has_next, des_raw, has_next, catch_zero, try_catch.
  cbn [new_deserialiser ds_dec ds_tag ds_ex].
  assert (cut_at s 0 (header_octets h ++ c)) as Hcut.
  { split; [split; [done|apply zlen_nonneg]|]. exists x. split; [done|]. by rewrite zdrop_0. }
  pose proof (cut_at_short _ _ _ Hcut) as Hshort. apply cut_at_app in Hcut as [Hcut|[Hat Hcut]].
  - destruct (start_peek_view s None 0 0 _ (view_new s) ltac:(lia)) as (lo & rp & b' & E & V' & _).
    destruct (throws_header s h 0 (proj1 Hh) Hcut (Some (lo, rp)) 1 [] (Decoder b' []) I) as (e & s2 & E2); [by split|].
    assert (exists s3, next_length (new_decoder s) = (Ok 0, s3)) as (s3 & E3).
    { unfold next_length, catch_zero, try_catch, stream_peek, dec_start_peek, new_decoder. cbn [d_s d_seq].
      rewrite E. unfold with_dtor. rewrite E2. by eexists. }
    rewrite (bind_ok _ _ _ _ _ E3). by eexists.
  - destruct (next_length_packet s 0 h c Hh Hc Hat None 0 [] (new_decoder s)) as (s1 & E1 & (V1 & Hs1));
      [split; [apply view_new|done]|].
    rewrite (bind_ok _ _ _ _ _ E1). destruct (Z.eqb_spec (zlen (header_octets h ++ c)) 0); [by eexists|].
    destruct (readable_short _ _ _ _ (zlen (header_octets h ++ c)) _ V1 ltac:(lia) (zlen_nonneg s)) as (b' & E2).
    erewrite bind_ok; [|unfold dec_readable; rewrite E2; reflexivity]. by eexists.
Qed.

(** ** Reassembly *)

Section reassembly.
Context {W : Type} (callback : deserialiser -> octets -> sexn W ser_exn unit) (g : W -> octets -> W).

(** The callback handles a complete packet in front of the deserialiser. *)
Definition handles : Prop := forall p rest d w,
  is_packet p -> sview (p ++ rest) None 0 0 [] None d -> callback d p w = (Ok tt, g w p).

(** [s] starts the packets [ps] and stops inside the next one. *)
Definition pending (ps : list octets) (buf more : octets) : Prop :=
  buf ++ more = concat ps /\ match ps with [] => True | p :: _ => zlen buf < zlen p end.

Lemma zlen_concat_packets ps : Forall is_packet ps -> concat ps = [] -> ps = [].
Proof.
  intros H E. destruct H as [|p ps Hp _]; [done|]. exfalso. cbn in E. apply app_eq_nil in E as [-> _].
  by apply zlen_packet in Hp.
Qed.

Lemma check_loop_packets (H : handles) ps fuel s more pos w :
  Forall is_packet ps -> s ++ more = concat ps -> (length s < fuel)%nat ->
  exists k rest, check_loop callback fuel s pos w =
      (Ok (pos + (zlen s - zlen rest)), fold_left g (take k ps) w) /\
    zdrop (zlen s - zlen rest) s = rest /\ 0 <= zlen s - zlen rest /\ pending (drop k ps) rest more.
Proof.
  intros Hps; revert fuel s pos w. induction Hps as [|p ps Hp Hps IH]; intros fuel s pos w Hs Hf.
  - cbn in Hs. apply app_eq_nil in Hs as [-> ->]. exists 0%nat, []. destruct fuel; [simpl in Hf; lia|].
    cbn [check_loop]. replace (pos + (zlen [] - zlen [])) with pos by (rewrite (zlen_nil (A:=Z)); lia).
    by split_and!.
  - destruct fuel as [|fuel]; [lia|]. cbn [concat] in Hs. cbn [check_loop].
    destruct (app_eq_inv _ _ _ _ Hs) as [(x & Ha & Hb)|(x & Ha & Hb)].
    + (* complete *)
      subst s. destruct (has_next_packet p x Hp) as (d & -> & V). pose proof (zlen_packet p Hp).
      destruct (Z.eqb_spec (zlen p) 0); [lia|]. rewrite ztake_app, zdrop_app.
      rewrite (bind_ok _ _ _ _ _ (H p x d w Hp V)).
      destruct (IH fuel x (pos + zlen p) (g w p) (eq_sym Hb)) as (k & rest & E & Hd & Hz & Hpend).
      { rewrite length_app in Hf. unfold zlen in *. lia. }
      exists (S k), rest. rewrite E. rewrite zlen_app. split_and!.
      * f_equal. f_equal. lia.
      * replace (zlen p + zlen x - zlen rest) with (zlen p + (zlen x - zlen rest)) by lia.
        rewrite <- zdrop_zdrop by lia. by rewrite zdrop_app.
      * lia.
      * done.
    + (* cut *)
      destruct x as [|y x].
      * rewrite app_nil_r in Ha. cbn in Hb. subst more s. 
        destruct (has_next_packet p [] Hp) as (d & E & V). rewrite app_nil_r in E, V. rewrite E.
        pose proof (zlen_packet p Hp). destruct (Z.eqb_spec (zlen p) 0); [lia|].
        rewrite ztake_all, zdrop_all by lia.
        rewrite <- (app_nil_r p) in V at 1. rewrite (bind_ok _ _ _ _ _ (H p [] d w Hp V)).
        destruct (IH fuel [] (pos + zlen p) (g w p)) as (k & rest & E' & Hd & Hz & Hpend); [done|unfold zlen in *; simpl; lia|].
        rewrite (zlen_nil (A:=Z)) in *. assert (rest = []) as -> by (apply zlen_zero; pose proof (zlen_nonneg rest); lia).
        exists (S k), []. rewrite E', (zlen_nil (A:=Z)). split_and!; [f_equal; f_equal; lia|apply zdrop_all; lia|lia|done].
      * destruct (has_next_short p s (y :: x) Hp (eq_sym Ha)) as (d & ->); [done|]. rewrite Z.eqb_refl.
        exists 0%nat, s. replace (zlen s - zlen s) with 0 by lia. rewrite Z.add_0_r.
        split_and!; [done|done|lia|split; [exact Hs|]]. cbn [drop]. apply (f_equal zlen) in Ha. rewrite zlen_app, zlen_cons in Ha.
        pose proof (zlen_nonneg x). lia.
Qed.

Lemma do_check_packets (H : handles) ps data more st m :
  Forall is_packet ps -> Forall (fun p => zlen p <= m) ps -> pending ps (pd_buf st) (data ++ more) ->
  0 <= m -> m + zlen data <= pd_max st ->
  exists k buf, do_check callback data st =
      (Ok tt, PacketDeserialiser (pd_max st) buf (fold_left g (take k ps) (pd_world st))) /\
    pending (drop k ps) buf more.
Proof.
  intros Hps Hm [Hs Hshort] Hm0 Hcap. unfold do_check. pose proof (zlen_nonneg data).
  destruct (Z.ltb_spec (pd_max st) (zlen (pd_buf st) + zlen data)) as [Hc|_].
  { exfalso. destruct ps as [|p ps]; [|inversion Hm; subst; lia].
    cbn in Hs. apply app_eq_nil in Hs as [E Hd]. rewrite E, (zlen_nil (A:=Z)) in Hc. lia. }
  destruct (Z.eqb_spec (zlen (pd_buf st)) 0) as [Hz|Hz].
  - apply zlen_zero in Hz. rewrite Hz in *. cbn [app] in Hs.
    destruct (check_loop_packets H ps (S (length data)) data more 0 (pd_world st) Hps Hs ltac:(lia))
      as (k & rest & E & Hd & _ & Hpend).
    rewrite E, Z.add_0_l, Hd. by exists k, rest.
  - rewrite app_assoc in Hs.
    destruct (check_loop_packets H ps (S (length (pd_buf st ++ data))) (pd_buf st ++ data) more 0 (pd_world st) Hps Hs ltac:(lia))
      as (k & rest & E & Hd & _ & Hpend).
    rewrite E, Z.add_0_l, Hd. by exists k, rest.
Qed.

Lemma feed_packets (H : handles) chunks ps more st m :
  Forall is_packet ps -> Forall (fun p => zlen p <= m) ps -> pending ps (pd_buf st) (concat chunks ++ more) ->
  0 <= m -> Forall (fun c => m + zlen c <= pd_max st) chunks ->
  exists k buf, feed callback chunks st =
      (Ok tt, PacketDeserialiser (pd_max st) buf (fold_left g (take k ps) (pd_world st))) /\
    pending (drop k ps) buf more.
Proof.
  intros Hps Hm Hpend Hm0 Hcap; revert ps st Hps Hm Hpend Hcap.
  induction chunks as [|c cs IH]; intros ps st Hps Hm Hpend Hcap.
  - exists 0%nat, (pd_buf st). split; [by destruct st|done].
  - cbn [concat] in Hpend. rewrite <- app_assoc in Hpend. inversion Hcap as [|? ? Hc Hcs]; subst.
    destruct (do_check_packets H ps c (concat cs ++ more) st m Hps Hm Hpend Hm0 Hc) as (k & buf & E & Hp').
    cbn [feed]. rewrite (bind_ok _ _ _ _ _ E).
    destruct (IH (drop k ps) (PacketDeserialiser (pd_max st) buf (fold_left g (take k ps) (pd_world st)))) as (j & buf' & E' & Hp2);
      [by apply Forall_drop|by apply Forall_drop|done|done|].
    exists (k + j)%nat, buf'. rewrite E'. cbn [pd_max pd_world]. split.
    + f_equal. f_equal. rewrite <- fold_left_app. f_equal. apply take_take_drop.
    + by rewrite drop_drop in Hp2.
Qed.
End reassembly.

(** ** Properties *)

(** ** A message in a frame *)

Lemma el_is_packet {A} (c : codec A) `{!Element c} tag a : el_wf c a -> tag_ok tag -> is_packet (el_octets c tag a).
Proof. intros Hw Ht. eexists _, (el_content c a). split; [by apply (el_header_ok c tag a)|]. by split. Qed.

(** A connection that hands every frame to [handle] gets the message in it. *)
Lemma handle_one {A W} (alts : list (Z * des (W -> W))) t (c : codec A) `{!Element c} (f : A -> W -> W) a cap w :
  NoDup (map fst alts) -> (t, (x ← c_des c; mret (f x))) ∈ alts -> el_wf c a -> 0 <= t < 2 ^ 64 ->
  el_depth c a <= max_structure_depth -> zlen (el_octets c (Some (tag_of t)) a) <= cap ->
  pd_handle alts (el_octets c (Some (tag_of t)) a) (PacketDeserialiser cap [] w) = (Ok tt, PacketDeserialiser cap [] (f a w)).
Proof.
  intros Hn Hin Hw Ht Hd Hcap. set (bs := el_octets c (Some (tag_of t)) a) in *.
  assert (tag_ok (Some (tag_of t))) as Htag by (split; cbn; lia).
  assert (is_packet bs) as Hp by by apply el_is_packet.
  unfold pd_handle, do_check. cbn [pd_max pd_buf pd_world]. rewrite (zlen_nil (A:=Z)), !Z.add_0_l.
  destruct (Z.ltb_spec cap (zlen bs)); [lia|]. cbn [Z.eqb].
  destruct (has_next_packet bs [] Hp) as (d & E & V). rewrite app_nil_r in E, V.
  pose proof (zlen_packet bs Hp). cbn [check_loop]. rewrite E. destruct (Z.eqb_spec (zlen bs) 0); [lia|].
  assert (octets_at bs 0 bs) as Hat by (pose proof (octets_at_prefix bs []) as Hb; by rewrite app_nil_r in Hb).
  destruct (sreads_choice alts t c f a bs 0 Hn Hin Hw Ht Hat None 0 [] d) as (d' & Ed & _); [split; [done|by rewrite zlen_nil]|done|].
  rewrite zdrop_all by lia. erewrite bind_ok; [|rewrite Ed; reflexivity].
  destruct (length bs) as [|fuel] eqn:El; [unfold zlen in *; lia|]. cbn [check_loop].
  destruct (des_has_next (new_deserialiser [])) as [[len|e] d2] eqn:E2.
  - assert (len = 0) as ->.
    { vm_compute in E2. congruence. }
    cbn [Z.eqb app]. by rewrite zdrop_all by lia.
  - vm_compute in E2. discriminate.
Qed.

(** C21: however the transport cuts the octet stream, the packets come out whole,
    once each, in order, and as soon as they are complete.  For packets no longer
    than [m] and chunks that leave room for one ([m] plus a chunk fits the
    buffer), feeding the chunks never fails; the callback has then been called
    exactly for the packets whose last octet has arrived, in order: what is
    still held is a beginning of the next packet, shorter than it, and nothing
    when every packet has arrived. *)
Theorem packets_reassembled {W} (callback : deserialiser -> octets -> sexn W ser_exn unit) (g : W -> octets -> W)
  (packets chunks : list octets) (missing : octets) (cap m : Z) (w : W)
  (Hcb : handles callback g) (Hp : Forall is_packet packets) (Hm : Forall (fun p => zlen p <= m) packets)
  (Hs : concat chunks ++ missing = concat packets)
  (H0 : 0 <= m) (Hcap : Forall (fun c => m + zlen c <= cap) chunks) :
  exists k buf,
    feed callback chunks (PacketDeserialiser cap [] w) =
      (Ok tt, PacketDeserialiser cap buf (fold_left g (take k packets) w)) /\
    buf ++ missing = concat (drop k packets) /\
    match drop k packets with [] => True | p :: _ => zlen buf < zlen p end /\
    (missing = [] -> buf = [] /\ take k packets = packets).
Proof.
  destruct (feed_packets callback g Hcb chunks packets missing (PacketDeserialiser cap [] w) m Hp Hm) as (k & buf & E & Hb1 & Hb2);
    [|done|done|].
  { split; [done|]. destruct Hp as [|p ps Hp _]; [done|]. apply zlen_packet in Hp. cbn [pd_buf]. rewrite (zlen_nil (A:=Z)). lia. }
  exists k, buf. split_and!; [exact E|exact Hb1|exact Hb2|]. intros ->. rewrite app_nil_r in Hb1.
  destruct (drop k packets) as [|p ps] eqn:Ed.
  - cbn in Hb1. split; [done|]. rewrite <- (take_drop k packets) at 2. by rewrite Ed, app_nil_r.
  - exfalso. cbn in Hb1. rewrite Hb1, zlen_app in Hb2. pose proof (zlen_nonneg (concat ps)). lia.
Qed.

(** Recording the packets, as a concrete callback. *)
Definition recorder : deserialiser -> octets -> sexn (list octets) ser_exn unit :=
  fun _ p w => (Ok tt, w ++ [p]).

Lemma recorder_handles : handles recorder (fun w p => w ++ [p]).
Proof. by intros p rest d w _ _. Qed.

Lemma is_packet_small a b c : is_packet [2; 1; a] /\ is_packet [4; 2; b; c].
Proof.
  split.
  - by exists (AsnHeader 0 2 1 false), [a].
  - by exists (AsnHeader 0 4 2 false), [b; c].
Qed.

Lemma packets_reassembled_witness :
  exists k buf,
    feed recorder [[2]; [1; 5; 4; 2]; [6]] (PacketDeserialiser 100 [] []) =
      (Ok tt, PacketDeserialiser 100 buf (fold_left (fun w p => w ++ [p]) (take k [[2; 1; 5]; [4; 2; 6; 7]]) [])) /\
    buf ++ [7] = concat (drop k [[2; 1; 5]; [4; 2; 6; 7]]) /\
    match drop k [[2; 1; 5]; [4; 2; 6; 7]] with [] => True | p :: _ => zlen buf < zlen p end /\
    ([7] = [] -> buf = [] /\ take k [[2; 1; 5]; [4; 2; 6; 7]] = [[2; 1; 5]; [4; 2; 6; 7]]).
Proof.
  apply (packets_reassembled recorder (fun w p => w ++ [p]) [[2; 1; 5]; [4; 2; 6; 7]] [[2]; [1; 5; 4; 2]; [6]] [7] 100 10 []).
  - exact recorder_handles.
  - destruct (is_packet_small 5 6 7). repeat constructor; done.
  - repeat constructor; vm_compute; discriminate.
  - reflexivity.
  - lia.
  - repeat constructor; vm_compute; discriminate.
Defined.
