(* ===== verification/Crypto.v ===== *)
(** Keys, signatures and certificates: [crypto/public_key.cpp],
    [crypto/detail/{public_key_impl,framing,suite_parameters}.cpp],
    [crypto/{signature,certificate,certificate_revocation,key_certificate}],
    [crypto/suite.cpp].

    The algorithms themselves (SHA3-256, ML-DSA) belong to Botan and are the
    class [Primitives]; [SignatureLaw] is the documented behaviour of a
    signature scheme that the positive results rely on. *)

From stdpp Require Import base list numbers strings.
From Stdlib Require Import ZArith Lia.
From S2P Require Import Prelude ByteOrder Asn1Int Asn1Stream Asn1Encoder Asn1Decoder Serialise.
Open Scope Z_scope.

Class Primitives : Type := {
  sha3_256 : octets -> octets;
  (** [ML_DSA_PublicKey(pk, mode)] and [verify_message]; [false] for a Botan
      exception *)
  ml_dsa_verify (suite : Z) (pk framed sig : octets) : bool;
  ml_dsa_public (suite : Z) (seed : octets) : octets;
  ml_dsa_sign (suite : Z) (seed nonce framed : octets) : octets
}.

Class SignatureLaw `{Primitives} : Prop := {
  verify_signed s seed nonce m :
    ml_dsa_verify s (ml_dsa_public s seed) m (ml_dsa_sign s seed nonce m) = true;
  signature_nonempty s seed nonce m : ml_dsa_sign s seed nonce m <> []
}.

(** ** Errors *)

Inductive crypto_errc : Type :=
| no_such_root_key | no_such_key | invalid_certificate_chain | invalid_certificate_chain_ca_level
| invalid_data | invalid_operation | invalid_public_key | invalid_certificate | signature_not_authentic.

#[export] Instance crypto_errc_eq_dec : EqDecision crypto_errc.
Proof. solve_decision. Defined.

(** What a call of this library can throw. *)
Inductive crypto_exn : Type :=
| Error (e : crypto_errc)
| SerExn (e : ser_exn)
| InvalidCertType
| InvalidContext
| InvalidKey
| UnknownSuite
| NoFuel.   (** of the model only: a bounded recursion was cut short *)

Abbreviation cres := (result crypto_exn).

Definition ser_result {A} (r : result ser_exn A) : cres A :=
  match r with Ok a => Ok a | Throw e => Throw (SerExn e) end.

(** ** Suites *)

Definition pq1 : Z := 1.
Definition pq1_high : Z := 2.

Definition is_known (s : Z) : bool := (s =? pq1) || (s =? pq1_high).

Record suite_parameters : Type := SuiteParameters {
  sp_x_key_size : Z; sp_sig_public_size : Z; sp_sig_seed_size : Z; sp_signature_size : Z;
  sp_kem_public_size : Z; sp_kem_seed_size : Z; sp_kem_ciphertext_size : Z
}.

Definition parameters (s : Z) : cres suite_parameters :=
  if s =? pq1 then Ok (SuiteParameters 32 1952 32 3309 1184 64 1088)
  else if s =? pq1_high then Ok (SuiteParameters 56 2592 32 4627 1568 64 1568)
  else Throw UnknownSuite.

Definition suite_codec : codec Z :=
  check_codec (fun v => if is_known v then Ok v else Throw (OtherExn "unknown_suite")) (fun v => v) (enum_codec u16).

#[export] Instance suite_element : Element suite_codec := check_element _ _ _.

Lemma known_suite_wf s : is_known s = true -> el_wf suite_codec s.
Proof.
  intros Hs. cbn. split; [|by rewrite Hs]. unfold is_known, pq1, pq1_high in Hs.
  apply orb_true_iff in Hs as [Hs|Hs]; apply Z.eqb_eq in Hs as ->; ground.
Qed.

Lemma known_suite_octets s : is_known s = true -> zlen (el_octets suite_codec None s) <= 19.
Proof.
  intros Hs. pose proof (known_suite_wf s Hs) as Hw.
  assert (el_tag suite_codec <= 30) as Ht by ground. pose proof (zlen_el_octets_le suite_codec s Ht Hw) as HL.
  change (el_content suite_codec s) with (int_octets s) in HL.
  pose proof (zlen_int_octets_le u16 s (proj1 Hw)). lia.
Qed.

(** ** Identifiers and signatures *)

Definition id_codec : codec octets := seq_codec (iso_codec fst (fun i => (i, tt)) (then_codec octets_codec unit_codec)).

#[export] Instance id_body : Body (iso_codec fst (fun i : octets => (i, tt)) (then_codec octets_codec unit_codec)).
Proof. apply iso_body; [done|apply _]. Defined.
#[export] Instance id_element : Element id_codec.
Proof. unfold id_codec. apply _. Defined.

Record signature : Type := Signature { sg_version : Z; sg_issuer : octets; sg_data : octets }.

Definition sig_is_valid (s : signature) : bool := negb (zlen (sg_data s) =? 0).

Definition signature_fields : codec signature :=
  iso_codec (fun v => Signature (fst v) (fst (snd v)) (fst (snd (snd v))))
            (fun s => (sg_version s, (sg_issuer s, (sg_data s, tt))))
    (then_codec (int_codec u32) (then_codec id_codec (then_codec octets_codec unit_codec))).
Definition signature_codec : codec signature := seq_codec signature_fields.

#[export] Instance signature_fields_body : Body signature_fields.
Proof. apply iso_body; [by intros []|apply _]. Defined.
#[export] Instance signature_element : Element signature_codec.
Proof. unfold signature_codec. apply _. Defined.

(** [frame_message]: "SPSIG" || u8(len(context)) || context || message *)
Definition spsig : octets := [83; 80; 83; 73; 71].

Definition frame_message (context message : octets) : cres octets :=
  if 255 <? zlen context then Throw InvalidContext
  else Ok (spsig ++ [wrap 8 (zlen context)] ++ context ++ message).

(** ** Public keys *)

Record public_key : Type := PublicKey {
  pk_version : Z;
  pk_suite : Z;
  pk_sig_pk : octets;
  pk_kem_x_pk : octets;
  pk_kem_pq_pk : octets;
  pk_certificate_ids : list octets;   (** a [std::set]: in lexicographic order *)
  pk_sig : signature;
  pk_trailing : octets;
  pk_id : octets
}.

Definition pk_is_valid (k : public_key) : cres bool :=
  p ← parameters (pk_suite k);
  mret ((zlen (pk_sig_pk k) =? sp_sig_public_size p) && (zlen (pk_kem_x_pk k) =? sp_x_key_size p) &&
        (zlen (pk_kem_pq_pk k) =? sp_kem_public_size p)).

(** [std::vector<uint8_t>::operator<] *)
Fixpoint octets_lt (a b : octets) : bool :=
  match a, b with
  | _, [] => false
  | [], _ :: _ => true
  | x :: xs, y :: ys => if x <? y then true else if y <? x then false else octets_lt xs ys
  end.

Definition id_content_codec : codec (Z * (octets * (octets * (octets * unit)))) :=
  seq_codec (then_codec suite_codec (then_codec octets_codec (then_codec octets_codec (then_codec octets_codec unit_codec)))).

Definition cert_ids_codec : codec (list octets) := set_codec octets_lt id_codec.

Section crypto.
Context `{Primitives}.

(** [construct_id] *)
Definition construct_id (k : public_key) : result ser_exn octets :=
  v ← asn_der_serialise id_content_codec (pk_suite k, (pk_sig_pk k, (pk_kem_x_pk k, (pk_kem_pq_pk k, tt))));
  mret (sha3_256 v).

(** [signature_content]: everything but the signature itself. *)
Definition signature_content_codec : codec (Z * (Z * (octets * (octets * (octets * (list octets * octets)))))) :=
  seq_codec (then_codec (int_codec u16) (then_codec suite_codec (then_codec octets_codec (then_codec octets_codec
    (then_codec octets_codec (then_codec cert_ids_codec trailing_codec)))))).

Definition signature_content (k : public_key) : result ser_exn octets :=
  asn_der_serialise signature_content_codec
    (pk_version k, (pk_suite k, (pk_sig_pk k, (pk_kem_x_pk k, (pk_kem_pq_pk k, (pk_certificate_ids k, pk_trailing k)))))).

(** The wire format; [id_] is computed after reading. *)
Definition public_key_fields : codec (Z * (Z * (octets * (octets * (octets * (list octets * (signature * octets))))))) :=
  seq_codec (then_codec (int_codec u16) (then_codec suite_codec (then_codec octets_codec (then_codec octets_codec
    (then_codec octets_codec (then_codec cert_ids_codec (then_codec signature_codec trailing_codec))))))).

Definition public_key_codec : codec public_key :=
  check_codec
    (fun v => let '(ver, (s, (a, (x, (q, (ids, (sg, tr))))))) := v in
       let k := PublicKey ver s a x q ids sg tr [] in
       match construct_id k with
       | Ok i => Ok (PublicKey ver s a x q ids sg tr i)
       | Throw e => Throw e
       end)
    (fun k => (pk_version k, (pk_suite k, (pk_sig_pk k, (pk_kem_x_pk k, (pk_kem_pq_pk k,
       (pk_certificate_ids k, (pk_sig k, pk_trailing k))))))))
    public_key_fields.

#[export] Instance public_key_element : Element public_key_codec := check_element _ _ _.

Definition verify_framed (k : public_key) (framed sig : octets) : cres bool :=
  v ← pk_is_valid k;
  mret (v && ml_dsa_verify (pk_suite k) (pk_sig_pk k) framed sig).

(** [public_key::verify] *)
Definition pk_verify (k : public_key) (sg : signature) (data context : octets) : cres bool :=
  f ← frame_message context data;
  verify_framed k f (sg_data sg).

Definition self_signature_context : octets := [115; 112; 45; 107; 101; 121].   (** "sp-key" *)

Definition pk_verify_me (k : public_key) : cres bool :=
  content ← ser_result (signature_content k);
  ok ← pk_verify k (pk_sig k) content self_signature_context;
  if (ok : bool) then i ← ser_result (construct_id k); mret (bool_decide (i = pk_id k))
  else mret false.

Definition references_certificate (k : public_key) (id : octets) : bool := bool_decide (id ∈ pk_certificate_ids k).

Definition add_certificate_id (id : octets) (k : public_key) : public_key :=
  PublicKey (pk_version k) (pk_suite k) (pk_sig_pk k) (pk_kem_x_pk k) (pk_kem_pq_pk k)
    (ordered_insert octets_lt id (pk_certificate_ids k)) (pk_sig k) (pk_trailing k) (pk_id k).

Definition remove_certificate_id (id : octets) (k : public_key) : public_key :=
  PublicKey (pk_version k) (pk_suite k) (pk_sig_pk k) (pk_kem_x_pk k) (pk_kem_pq_pk k)
    (filter (fun i => i <> id) (pk_certificate_ids k)) (pk_sig k) (pk_trailing k) (pk_id k).

(** ** Private keys *)

Record private_key : Type := PrivateKey {
  sk_suite : Z;
  sk_public : public_key;
  sk_sig_seed : octets;
  sk_kem_x_sk : octets;
  sk_kem_pq_seed : octets
}.

Definition sk_is_valid (k : private_key) : cres bool :=
  p ← parameters (sk_suite k);
  if (zlen (sk_sig_seed k) =? sp_sig_seed_size p) && (zlen (sk_kem_x_sk k) =? sp_x_key_size p) &&
     (zlen (sk_kem_pq_seed k) =? sp_kem_seed_size p)
  then v ← pk_is_valid (sk_public k); mret (v && (pk_suite (sk_public k) =? sk_suite k))
  else mret false.

Definition sk_id (k : private_key) : octets := pk_id (sk_public k).

(** [private_key::sign]; [nonce] is what the generator contributes. *)
Definition sk_sign (k : private_key) (nonce data context : octets) : cres signature :=
  f ← frame_message context data;
  v ← sk_is_valid k;
  if negb (v : bool) then Throw InvalidKey
  else mret (Signature 2 (sk_id k) (ml_dsa_sign (sk_suite k) (sk_sig_seed k) nonce f)).

Definition set_pk_sig (sg : signature) (k : public_key) : public_key :=
  PublicKey (pk_version k) (pk_suite k) (pk_sig_pk k) (pk_kem_x_pk k) (pk_kem_pq_pk k)
    (pk_certificate_ids k) sg (pk_trailing k) (pk_id k).

(** [public_key::sign_me] *)
Definition pk_sign_me (sk : private_key) (nonce : octets) (k : public_key) : cres public_key :=
  content ← ser_result (signature_content k);
  sg ← sk_sign sk nonce content self_signature_context;
  mret (set_pk_sig sg k).

(** [private_key::set_public_key] *)
Definition set_public_key (nonce : octets) (k : public_key) (sk : private_key) : cres private_key :=
  if negb (bool_decide (pk_id k = sk_id sk)) then Throw InvalidKey
  else
    k' ← pk_sign_me sk nonce k;
    mret (PrivateKey (sk_suite sk) k' (sk_sig_seed sk) (sk_kem_x_sk sk) (sk_kem_pq_seed sk)).

(** The key pair belongs together: what the constructor of
    [private_key_impl] establishes. *)
Definition key_pair (sk : private_key) : Prop :=
  sk_is_valid sk = Ok true /\ pk_sig_pk (sk_public sk) = ml_dsa_public (sk_suite sk) (sk_sig_seed sk).

(** ** Revocations *)

Record certificate_revocation : Type := Revocation {
  rv_version : Z; rv_cid : octets; rv_sig : signature; rv_trailing : octets }.

Definition revocation_sig_data_codec : codec (Z * (octets * octets)) :=
  seq_codec (then_codec (int_codec i32) (then_codec id_codec trailing_codec)).

Definition revocation_fields : codec certificate_revocation :=
  iso_codec (fun v => Revocation (fst v) (fst (snd v)) (fst (snd (snd v))) (snd (snd (snd v))))
            (fun r => (rv_version r, (rv_cid r, (rv_sig r, rv_trailing r))))
    (then_codec (int_codec i32) (then_codec id_codec (then_codec signature_codec trailing_codec))).
Definition revocation_codec : codec certificate_revocation := seq_codec revocation_fields.

#[export] Instance revocation_fields_body : Body revocation_fields.
Proof. apply iso_body; [by intros []|apply _]. Defined.
#[export] Instance revocation_element : Element revocation_codec.
Proof. unfold revocation_codec. apply _. Defined.

(** [make_sig_data], the returned vector being the one the encoder writes to. *)
Definition rv_sig_data (r : certificate_revocation) : result ser_exn octets :=
  asn_der_serialise revocation_sig_data_codec (rv_version r, (rv_cid r, rv_trailing r)).

(** "sp-revocation" *)
Definition revocation_context : octets := [115; 112; 45; 114; 101; 118; 111; 99; 97; 116; 105; 111; 110].

Definition rv_sign_me (sk : private_key) (nonce : octets) (r : certificate_revocation) : cres certificate_revocation :=
  d ← ser_result (rv_sig_data r);
  sg ← sk_sign sk nonce d revocation_context;
  mret (Revocation (rv_version r) (rv_cid r) sg (rv_trailing r)).

Definition rv_verify_me (r : certificate_revocation) (k : public_key) : cres bool :=
  d ← ser_result (rv_sig_data r);
  pk_verify k (rv_sig r) d revocation_context.

(** ** Certificates *)

Record certificate : Type := Certificate {
  ct_version : Z;
  ct_type : Z;
  ct_data : octets;
  ct_sig : signature;
  ct_revocation : option certificate_revocation;
  ct_trailing : octets
}.

Definition new_certificate (type : Z) (data : octets) : certificate :=
  Certificate 1 type data (Signature 2 [] []) None [].

Definition cert_sig_data_codec : codec (Z * (Z * (octets * octets))) :=
  seq_codec (then_codec (int_codec i32) (then_codec (int_codec i32) (then_codec octets_codec trailing_codec))).

Definition certificate_fields : codec certificate :=
  iso_codec (fun v => Certificate (fst v) (fst (snd v)) (fst (snd (snd v))) (fst (snd (snd (snd v))))
                        (fst (snd (snd (snd (snd v))))) (snd (snd (snd (snd (snd v))))))
            (fun c => (ct_version c, (ct_type c, (ct_data c, (ct_sig c, (ct_revocation c, ct_trailing c))))))
    (then_codec (int_codec i32) (then_codec (int_codec i32) (then_codec octets_codec (then_codec signature_codec
      (then_codec (optional_codec revocation_codec) trailing_codec))))).
Definition certificate_codec : codec certificate := seq_codec certificate_fields.

#[export] Instance certificate_fields_body : Body certificate_fields.
Proof. apply iso_body; [by intros []|apply _]. Defined.
#[export] Instance certificate_element : Element certificate_codec.
Proof. unfold certificate_codec. apply _. Defined.

Definition make_sig_data (c : certificate) : result ser_exn octets :=
  asn_der_serialise cert_sig_data_codec (ct_version c, (ct_type c, (ct_data c, ct_trailing c))).

(** "sp-cert" *)
Definition certificate_context : octets := [115; 112; 45; 99; 101; 114; 116].

Definition ct_issuer (c : certificate) : octets := sg_issuer (ct_sig c).

Definition ct_id (c : certificate) : cres octets :=
  d ← ser_result (asn_der_serialise signature_codec (ct_sig c));
  mret (sha3_256 d).

Definition ct_sign_me (sk : private_key) (nonce : octets) (c : certificate) : cres certificate :=
  d ← ser_result (make_sig_data c);
  sg ← sk_sign sk nonce d certificate_context;
  mret (Certificate (ct_version c) (ct_type c) (ct_data c) sg (ct_revocation c) (ct_trailing c)).

Definition ct_verify_me (c : certificate) (k : public_key) : cres bool :=
  d ← ser_result (make_sig_data c);
  pk_verify k (ct_sig c) d certificate_context.

(** [is_revoked]: only a revocation of this very certificate counts. *)
Definition ct_is_revoked (c : certificate) (k : public_key) : cres bool :=
  match ct_revocation c with
  | None => mret false
  | Some r =>
      if negb (sig_is_valid (ct_sig c)) then mret false
      else
        i ← ct_id c;
        if negb (bool_decide (rv_cid r = i)) then mret false else rv_verify_me r k
  end.

Definition ct_is_authentic (c : certificate) (k : public_key) : cres bool :=
  v ← ct_verify_me c k;
  if (v : bool) then r ← ct_is_revoked c k; mret (negb r) else mret false.

Definition set_revocation (r : certificate_revocation) (c : certificate) : certificate :=
  Certificate (ct_version c) (ct_type c) (ct_data c) (ct_sig c) (Some r) (ct_trailing c).

(** [revoke_certificate] *)
Definition revoke_certificate (sk : private_key) (nonce : octets) (c : certificate) : cres certificate_revocation :=
  if negb (bool_decide (sk_id sk = ct_issuer c)) then Throw (Error invalid_public_key)
  else
    i ← ct_id c;
    rv_sign_me sk nonce (Revocation 1 i (Signature 2 [] []) []).

(** ** Key certificates *)

Record key_cert_restriction : Type := Restriction { kr_hostname : octets; kr_trailing : octets }.

Definition no_restriction : key_cert_restriction := Restriction [] [].

Definition has_hostname (r : key_cert_restriction) : bool := negb (zlen (kr_hostname r) =? 0).

Definition restriction_fields : codec key_cert_restriction :=
  iso_codec (fun v => Restriction (fst v) (snd v)) (fun r => (kr_hostname r, kr_trailing r))
    (then_codec string_codec trailing_codec).
Definition restriction_codec : codec key_cert_restriction := seq_codec restriction_fields.

#[export] Instance restriction_fields_body : Body restriction_fields.
Proof. apply iso_body; [by intros []|apply _]. Defined.
#[export] Instance restriction_element : Element restriction_codec.
Proof. unfold restriction_codec. apply _. Defined.

Record key_certificate_data : Type := KeyCertData {
  kc_version : Z; kc_subject : octets; kc_ca_level : Z; kc_restrictions : key_cert_restriction;
  kc_metadata : octets; kc_trailing : octets }.

Definition key_certificate_id : Z := 1.

Definition key_certificate_fields : codec key_certificate_data :=
  iso_codec (fun v => KeyCertData (fst v) (fst (snd v)) (fst (snd (snd v))) (fst (snd (snd (snd v))))
                        (fst (snd (snd (snd (snd v))))) (snd (snd (snd (snd (snd v))))))
            (fun c => (kc_version c, (kc_subject c, (kc_ca_level c, (kc_restrictions c, (kc_metadata c, kc_trailing c))))))
    (then_codec (int_codec i32) (then_codec id_codec (then_codec (int_codec u16) (then_codec restriction_codec
      (then_codec octets_codec trailing_codec))))).
Definition key_certificate_codec : codec key_certificate_data := seq_codec key_certificate_fields.

#[export] Instance key_certificate_fields_body : Body key_certificate_fields.
Proof. apply iso_body; [by intros []|apply _]. Defined.
#[export] Instance key_certificate_element : Element key_certificate_codec.
Proof. unfold key_certificate_codec. apply _. Defined.

(** [extract<key_certificate_data>] *)
Definition extract_key_cert (c : certificate) : cres key_certificate_data :=
  if negb (ct_type c =? key_certificate_id) then Throw InvalidCertType
  else ser_result (asn_der_deserialise key_certificate_codec (ct_data c)).

Definition create_key_certificate (sk : private_key) (nonce : octets) (data : key_certificate_data) : cres certificate :=
  d ← ser_result (asn_der_serialise key_certificate_codec data);
  ct_sign_me sk nonce (new_certificate key_certificate_id d).

(** [to_lower] in the "C" locale. *)
Definition to_lower (s : octets) : octets := map (fun c => if (65 <=? c) && (c <=? 90) then c + 32 else c) s.

Definition ends_with (s suffix : octets) : bool :=
  (zlen suffix <=? zlen s) && bool_decide (zdrop (zlen s - zlen suffix) s = suffix).

Definition is_subset_of (r other : key_cert_restriction) : bool :=
  if negb (has_hostname other) then true
  else
    let other_host := to_lower (kr_hostname other) in
    let my_host := to_lower (kr_hostname r) in
    let other_host_sub := if hd 0 other_host =? 46 then other_host else 46 :: other_host in
    bool_decide (my_host = other_host) || ends_with my_host other_host_sub.

Definition merge (r1 r2 : key_cert_restriction) : cres key_cert_restriction :=
  if is_subset_of r1 r2 then Ok r1
  else if is_subset_of r2 r1 then Ok r2
  else Throw (Error invalid_operation).
End crypto.

(** ** Signing and verifying *)

Section law.
Context `{SignatureLaw}.

Lemma sk_sign_verifies sk nonce data context sg :
  key_pair sk -> sk_sign sk nonce data context = Ok sg ->
  pk_verify (sk_public sk) sg data context = Ok true /\ sg_issuer sg = sk_id sk /\ sig_is_valid sg = true.
Proof.
  intros [Hv Hk]. unfold sk_sign, pk_verify, mbind, result_bind, mret, result_ret.
  destruct (frame_message context data) as [f|e]; [|done]. rewrite Hv. cbn [negb].
  intros [= <-]. cbn [sg_data sg_issuer]. split; [|split; [done|]].
  - unfold verify_framed, mbind, result_bind, mret, result_ret.
    unfold sk_is_valid, mbind, result_bind, mret, result_ret in Hv.
    destruct (parameters (sk_suite sk)); [|done]. destruct (_ && _); [|done].
    destruct (pk_is_valid (sk_public sk)) as [[|]|]; [|done|done].
    injection Hv as Hs. apply Z.eqb_eq in Hs. rewrite Hs, Hk, verify_signed. done.
  - unfold sig_is_valid. cbn [sg_data]. pose proof (signature_nonempty (sk_suite sk) (sk_sig_seed sk) nonce f) as Hn.
    destruct (ml_dsa_sign _ _ _ _); [done|]. rewrite zlen_cons. pose proof (zlen_nonneg l).
    by destruct (Z.eqb_spec (zlen l + 1) 0); [lia|].
Qed.
End law.

(** A signing context and a message are recovered from the framed octets. *)
Lemma frame_message_inj c m c' m' f :
  frame_message c m = Ok f -> frame_message c' m' = Ok f -> c = c' /\ m = m'.
Proof.
  unfold frame_message. pose proof (zlen_nonneg c). pose proof (zlen_nonneg c').
  destruct (Z.ltb_spec 255 (zlen c)); [done|]. destruct (Z.ltb_spec 255 (zlen c')); [done|].
  intros [= <-] [= E1 E]. rewrite !wrap_small in E1 by (change (2 ^ 8) with 256; lia).
  apply app_inj_1 in E; [naive_solver|]. unfold zlen in E1. lia.
Qed.

(** ** The restriction order *)

Lemma to_lower_length s : zlen (to_lower s) = zlen s.
Proof. unfold to_lower, zlen. by rewrite length_map. Qed.

Lemma ends_with_spec s x : ends_with s x = true <-> exists p, s = p ++ x.
Proof.
  unfold ends_with. rewrite andb_true_iff, bool_decide_eq_true, Z.leb_le. pose proof (zlen_nonneg x). split.
  - intros [H1 H2]. exists (ztake (zlen s - zlen x) s). rewrite <- H2 at 2. symmetry. apply ztake_zdrop.
  - intros [p ->]. rewrite zlen_app. pose proof (zlen_nonneg p). split; [lia|].
    replace (zlen p + zlen x - zlen x) with (zlen p) by lia. apply zdrop_app.
Qed.

(** [domain_of h]: the suffix a host within domain [h] ends with. *)
Definition domain_of (h : octets) : octets := if hd 0 h =? 46 then h else 46 :: h.

Definition within (a b : octets) : Prop := b = [] \/ a = b \/ exists p, a = p ++ domain_of b.

Lemma is_subset_of_spec r r' : is_subset_of r r' = true <-> within (to_lower (kr_hostname r)) (to_lower (kr_hostname r')).
Proof.
  unfold is_subset_of, within, has_hostname. rewrite negb_involutive.
  destruct (Z.eqb_spec (zlen (kr_hostname r')) 0) as [Hz|Hz].
  - apply zlen_zero in Hz. rewrite Hz. split; [by left|done].
  - rewrite orb_true_iff, bool_decide_eq_true, ends_with_spec. split; [by right|].
    intros [H|H]; [|done]. rewrite <- to_lower_length, H in Hz. done.
Qed.

Lemma domain_of_suffix h : exists p, domain_of h = p ++ h.
Proof. unfold domain_of. destruct (hd 0 h =? 46); [by exists []|by exists [46]]. Qed.

Lemma domain_of_nonempty h : domain_of h <> [].
Proof. unfold domain_of. destruct h as [|x h]; [done|]. by destruct (hd 0 (x :: h) =? 46). Qed.

Lemma within_nil c : within [] c -> c = [].
Proof.
  intros [->|[<-|[p H]]]; [done|done|]. symmetry in H. apply app_eq_nil in H as [_ H].
  by apply domain_of_nonempty in H.
Qed.

Lemma within_trans a b c : within a b -> within b c -> within a c.
Proof.
  intros [->|[->|[p ->]]] Hbc; [apply within_nil in Hbc as ->; by left|done|].
  destruct Hbc as [->|[->|[q ->]]]; [by left|by right; right; exists p|].
  right; right. destruct (domain_of_suffix (q ++ domain_of c)) as [x ->].
  exists (p ++ x ++ q). by rewrite <- !app_assoc.
Qed.

Lemma is_subset_of_refl r : is_subset_of r r = true.
Proof. apply is_subset_of_spec. right. by left. Qed.

Lemma is_subset_of_trans a b c : is_subset_of a b = true -> is_subset_of b c = true -> is_subset_of a c = true.
Proof. rewrite !is_subset_of_spec. apply within_trans. Qed.

(** ** A concrete instance, to evaluate on *)

(** Not a signature scheme: the key is in the signature.  It satisfies the law
    the results use, which is all an instance is for here. *)
Definition demo_public (s : Z) (seed : octets) : octets :=
  match parameters s with Ok p => resize (sp_sig_public_size p) seed | Throw _ => [] end.

#[local] Instance demo : Primitives := {|
  sha3_256 b := resize 32 (be_digits 8 (fold_left (fun h x => (h * 31 + x + 7) mod 2 ^ 61) b 0));
  ml_dsa_verify s pk f sg := bool_decide (sg = 1 :: ztake 32 pk ++ f);
  ml_dsa_public := demo_public;
  ml_dsa_sign s seed nonce f := 1 :: ztake 32 (demo_public s seed) ++ f |}.

#[local] Instance demo_law : SignatureLaw.
Proof. split; [intros; by apply bool_decide_eq_true|done]. Qed.

Definition demo_sk (seed : octets) : private_key :=
  let mk := PublicKey 2 pq1 (demo_public pq1 seed) (repeat 1 32) (repeat 2 1184) [] (Signature 2 [] []) [] in
  let i := match construct_id (mk []) with Ok i => i | Throw _ => [] end in
  PrivateKey pq1 (mk i) (resize 32 seed) (repeat 3 32) (repeat 4 64).

Definition demo_key : private_key := Eval vm_compute in demo_sk [5].

Lemma demo_key_pair : key_pair demo_key.
Proof. split; vm_compute; reflexivity. Qed.

(** ** Identifiers and revocations *)

Section more.
Context `{Primitives}.

Lemma amp_ok {A} (m : des A) s a s' : amp m s = (Ok a, s') -> exists s1, m s = (Ok a, s1).
Proof.
  unfold amp. destruct (m s) as [[b|e] s1]; [|done]. destruct (ds_ex s1); [done|].
  intros [= <- _]. by eexists.
Qed.

Lemma check_codec_ok {A B} (f : A -> result ser_exn B) g (c : codec A) bs b :
  asn_der_deserialise (check_codec f g c) bs = Ok b -> exists a, f a = Ok b.
Proof.
  unfold asn_der_deserialise. destruct (amp _ _) as [r s'] eqn:E. cbn [fst]. intros ->.
  apply amp_ok in E as [s1 E]. cbn [c_des check_codec] in E. unfold mbind, sexn_bind in E.
  destruct (c_des c _) as [[a|e] s2]; [|done]. unfold lift_res in E. injection E as E _. by exists a.
Qed.

Lemma ct_id_set_revocation r c : ct_id (set_revocation r c) = ct_id c.
Proof. done. Qed.

Lemma ct_verify_me_set_revocation r c k : ct_verify_me (set_revocation r c) k = ct_verify_me c k.
Proof. done. Qed.
End more.

(** ** Properties *)

(** host restrictions form a preorder, so checking each link of a chain
    against the one above bounds the last by all: a restriction is a subset of
    itself, subsets compose, and merging two restrictions gives one that is a
    subset of both, or fails when neither contains the other. *)
Theorem restriction_preorder (a b c : key_cert_restriction) :
  is_subset_of a a = true /\
  (is_subset_of a b = true -> is_subset_of b c = true -> is_subset_of a c = true) /\
  match merge a b with
  | Ok m => is_subset_of m a = true /\ is_subset_of m b = true
  | Throw e => e = Error invalid_operation /\ is_subset_of a b = false /\ is_subset_of b a = false
  end.
Proof.
  split; [apply is_subset_of_refl|]. split; [apply is_subset_of_trans|].
  unfold merge. destruct (is_subset_of a b) eqn:E; [by split; [apply is_subset_of_refl|]|].
  destruct (is_subset_of b a) eqn:E2; [by split; [|apply is_subset_of_refl]|by split_and!].
Qed.

Lemma restriction_preorder_witness :
  is_subset_of (Restriction [97; 46; 66] []) (Restriction [97; 46; 66] []) = true /\
  (is_subset_of (Restriction [97; 46; 66] []) (Restriction [98] []) = true ->
   is_subset_of (Restriction [98] []) no_restriction = true ->
   is_subset_of (Restriction [97; 46; 66] []) no_restriction = true) /\
  match merge (Restriction [97; 46; 66] []) (Restriction [98] []) with
  | Ok m => is_subset_of m (Restriction [97; 46; 66] []) = true /\ is_subset_of m (Restriction [98] []) = true
  | Throw e => e = Error invalid_operation /\ is_subset_of (Restriction [97; 46; 66] []) (Restriction [98] []) = false /\
      is_subset_of (Restriction [98] []) (Restriction [97; 46; 66] []) = false
  end.
Proof. apply (restriction_preorder (Restriction [97; 46; 66] []) (Restriction [98] []) no_restriction). Defined.

(** signatures are separated by context: two framed messages are the same
    octets only when context and message are both the same, so a signature made
    for one purpose never covers another. *)
Theorem frame_message_separates (c m c' m' f f' : octets)
  (H : frame_message c m = Ok f) (H' : frame_message c' m' = Ok f') :
  f = f' <-> c = c' /\ m = m'.
Proof.
  split.
  - intros <-. by apply (frame_message_inj c m c' m' f).
  - intros [-> ->]. congruence.
Qed.

Lemma frame_message_separates_witness :
  spsig ++ [1; 7; 1; 2] = spsig ++ [2; 7; 1; 2] <-> [7] = [7; 1] /\ [1; 2] = [2].
Proof. apply (frame_message_separates [7] [1; 2] [7; 1] [2]); reflexivity. Defined.

(** a public key read from the wire carries the identifier of its own
    material: whatever the octets, a key that deserialises has as [id] the hash
    of its suite and key halves, so nobody can present another key's
    identifier. *)
Theorem deserialised_key_id `{Primitives} (bs : octets) (k : public_key)
  (Hk : asn_der_deserialise public_key_codec bs = Ok k) : construct_id k = Ok (pk_id k).
Proof.
  apply check_codec_ok in Hk as [(ver & s & a & x & q & ids & sg & tr) Hk].
  cbv zeta in Hk. destruct (construct_id (PublicKey ver s a x q ids sg tr [])) as [i|] eqn:E; [|done].
  injection Hk as <-. exact E.
Qed.

Definition demo_key_octets : octets :=
  match asn_der_serialise public_key_codec (sk_public demo_key) with Ok b => b | Throw _ => [] end.

Lemma deserialised_key_id_witness : @construct_id demo (sk_public demo_key) = Ok (pk_id (sk_public demo_key)).
Proof. apply (@deserialised_key_id demo demo_key_octets). vm_compute. reflexivity. Defined.

(** C37: a revocation by the issuer takes effect, and only such a one does.  For
    a signed certificate of the key pair, the revocation [revoke_certificate]
    makes reads as a revocation of it and the certificate is no longer
    authentic; and whatever revocation is stapled to a certificate, it counts
    only when it names this certificate and verifies under the issuer's key. *)
Theorem revocation_exact `{SignatureLaw} (sk : private_key) (nonce : octets) (c : certificate)
  (r r' : certificate_revocation) (k : public_key)
  (Hk : key_pair sk) (Hv : sig_is_valid (ct_sig c) = true) (Hr : revoke_certificate sk nonce c = Ok r) :
  ct_is_revoked (set_revocation r c) (sk_public sk) = Ok true /\
  ct_is_authentic (set_revocation r c) (sk_public sk) <> Ok true /\
  (ct_is_revoked (set_revocation r' c) k = Ok true -> ct_id c = Ok (rv_cid r') /\ rv_verify_me r' k = Ok true).
Proof.
  assert (ct_is_revoked (set_revocation r c) (sk_public sk) = Ok true) as HR.
  { unfold revoke_certificate in Hr. destruct (bool_decide _); [|done]. cbn [negb] in Hr.
    unfold mbind, result_bind in Hr. destruct (ct_id c) as [i|e] eqn:Ei; [|done].
    unfold rv_sign_me, mbind, result_bind, mret, result_ret in Hr.
    destruct (ser_result (rv_sig_data _)) as [d|e] eqn:Ed; [|done].
    destruct (sk_sign sk nonce d revocation_context) as [sg|e] eqn:Es; [|done]. injection Hr as <-.
    destruct (sk_sign_verifies _ _ _ _ _ Hk Es) as (Hver & _ & _).
    unfold ct_is_revoked. cbn [ct_revocation set_revocation ct_sig]. rewrite Hv. cbn [negb].
    unfold mbind, result_bind. change (ct_id _) with (ct_id c). rewrite Ei. cbn [rv_cid].
    rewrite bool_decide_eq_true_2 by done. cbn [negb].
    unfold rv_verify_me, mbind, result_bind.
    change (rv_sig_data _) with (rv_sig_data (Revocation 1 i (Signature 2 [] []) [])). rewrite Ed. exact Hver. }
  split; [done|]. split.
  - unfold ct_is_authentic, mbind, result_bind, mret, result_ret. destruct (ct_verify_me _ _) as [[|]|]; [|done|done].
    by rewrite HR.
  - unfold ct_is_revoked. cbn [ct_revocation set_revocation ct_sig]. rewrite Hv. cbn [negb].
    unfold mbind, result_bind. change (ct_id (set_revocation r' c)) with (ct_id c). destruct (ct_id c) as [i|e]; [|done].
    destruct (decide (rv_cid r' = i)) as [->|Hne]; [|by rewrite bool_decide_eq_false_2 by done].
    rewrite bool_decide_eq_true_2 by done. done.
Qed.

Definition demo_cert : certificate :=
  match @create_key_certificate demo demo_key [] (KeyCertData 1 [1; 2] 3 no_restriction [] []) with
  | Ok c => c | Throw _ => new_certificate 0 [] end.
Definition demo_revocation : certificate_revocation :=
  match @revoke_certificate demo demo_key [] demo_cert with Ok r => r | Throw _ => Revocation 0 [] (Signature 0 [] []) [] end.

Lemma revocation_exact_witness :
  @ct_is_revoked demo (set_revocation demo_revocation demo_cert) (sk_public demo_key) = Ok true /\
  @ct_is_authentic demo (set_revocation demo_revocation demo_cert) (sk_public demo_key) <> Ok true /\
  (@ct_is_revoked demo (set_revocation demo_revocation demo_cert) (sk_public demo_key) = Ok true ->
   @ct_id demo demo_cert = Ok (rv_cid demo_revocation) /\ @rv_verify_me demo demo_revocation (sk_public demo_key) = Ok true).
Proof.
  apply (@revocation_exact demo demo_law demo_key [] demo_cert demo_revocation demo_revocation (sk_public demo_key)).
  - exact demo_key_pair.
  - vm_compute. reflexivity.
  - vm_compute. reflexivity.
Defined.
