(* ===== verification/SerialiseTypes.v ===== *)
(** The types the serialisation front end covers, as a universe: what the
    overload resolution of [serialise] makes of a C++ type is [codec_of], what
    the format prescribes for its values is [der_of], and the two agree.  The
    format is DER, except that true is written as one and that sets are
    sequences ([set.hpp] says so). *)

From stdpp Require Import base list numbers strings.
From Stdlib Require Import ZArith Lia.
From S2P Require Import Prelude ByteOrder Asn1Int Asn1Stream Asn1Encoder Asn1Decoder Serialise Crypto.
Open Scope Z_scope.

(** ** Tagged fields *)

(** [s & implicit_tag(n, x)]: the element with the tag's class and number. *)
Program Definition implicit_body {A B} (n : Z) (Hn : 0 <= n < 2 ^ 64) (c1 : codec A) (c2 : codec B)
  `{!Element c1, !Body c2} : Body (then_codec (tagged_codec implicit_tag n c1) c2) := {|
  bd_content v := el_octets c1 (Some (tag_of n)) (fst v) ++ bd_content c2 (snd v);
  bd_wf v := el_wf c1 (fst v) /\ bd_wf c2 (snd v);
  bd_depth v := Z.max (el_depth c1 (fst v)) (bd_depth c2 (snd v)) |}.
Next Obligation. intros A B n Hn c1 c2 ?? [a b]; cbn. pose proof (el_depth_nonneg (c:=c1) a). lia. Qed.
Next Obligation.
  intros A B n Hn c1 c2 ?? [a b] [H1 H2]; cbn in *.
  apply semits_bind; [by apply semits_implicit|by apply bd_writes].
Qed.
Next Obligation.
  intros A B n Hn c1 c2 ?? [a b] all p e [H1 H2] Hp He; cbn in *. apply octets_at_app in Hp as [Hp1 Hp2].
  assert (tag_ok (Some (tag_of n))) as Ht by (split; cbn; lia).
  rewrite zlen_app in *. pose proof (zlen_el_octets c1 _ a H1 Ht). pose proof (zlen_nonneg (bd_content c2 b)).
  rewrite Z.add_assoc. eapply sreads_bind.
  - eapply sreads_weaken; [apply sreads_amp; by apply sreads_implicit|].
    intros l Hl. apply (inside_ctx e _ _ p l Hl); lia.
  - eapply sreads_bind; [apply (bd_reads b all _ e); [done|done|lia]|apply sreads_ret|intros l Hl; exact Hl].
  - intros l Hl. apply (inside_le _ _ _ _ Hl). lia.
Qed.

(** [s & explicit_tag(n, x)]: the element inside one with the tag. *)
Lemma explicit_header_readable n (bs : octets) : 0 <= n < 2 ^ 64 -> zlen bs <= max_constructed_size ->
  header_readable (AsnHeader context_specific_c n (zlen bs) true).
Proof.
  intros Hn Hs. apply (element_header_readable true (Some (tag_of n)) 0); [split; cbn; lia|ground|].
  split; [apply zlen_nonneg|done].
Qed.

Lemma semits_explicit n (m : ser unit) bs : 0 <= n < 2 ^ 64 -> zlen bs <= max_constructed_size -> semits m None bs ->
  semits (ser_tagged explicit_tag n m) None (tlv context_specific_c n true bs).
Proof.
  intros Hn Hs Hm e He. unfold ser_tagged.
  set (h := AsnHeader context_specific_c n 0 true).
  rewrite (bind_ok _ _ _ tt (Serialiser (Encoder (e_stream e) (SeqStruct h [] :: e_layers e)) None)) by reflexivity.
  rewrite (bind_ok _ _ _ _ _ (Hm (Encoder (e_stream e) (SeqStruct h [] :: e_layers e)) He)).
  unfold append_out at 1. cbn [e_layers e_stream ss_header ss_data app].
  unfold ser_raw, enc_end_explicit_tag, enc_end_sequence. cbn [sr_enc sr_tag].
  erewrite bind_ok by reflexivity. cbn [ss_header ss_data e_stream e_layers h_class h_tag h_constructed h].
  assert (emits (encode_header (AsnHeader context_specific_c n (zlen bs) true) ;;
    if zlen bs =? 0 then mret tt else enc_write bs) (tlv context_specific_c n true bs)) as HE.
  { unfold tlv. eapply emits_bind; [apply emits_header, (explicit_header_readable n bs Hn Hs)|]. intros _.
    destruct (Z.eqb_spec (zlen bs) 0) as [Hz|Hz]; [|apply emits_write].
    apply zlen_zero in Hz as ->. apply emits_ret. }
  destruct e as [st ls]. cbn [e_stream e_layers]. by rewrite (emits_unit _ _ (Encoder st ls) HE He).
Qed.

Lemma sreads_explicit {A} (c : codec A) `{!Element c} n a all p : el_wf c a -> 0 <= n < 2 ^ 64 ->
  let inner := el_octets c None a in zlen inner <= max_constructed_size ->
  let bs := tlv context_specific_c n true inner in octets_at all p bs ->
  sreads (ctx p (1 + el_depth c a)) (des_tagged explicit_tag n (c_des c)) None all p a (p + zlen bs).
Proof.
  intros Hw Hn inner Hs bs Hp mark k seqs s [Hb Hd] (V & Hst & Hsx).
  pose proof (el_depth_nonneg (c:=c) a).
  destruct (reads_open all mark k context_specific_c n inner p (fun _ => mret tt) seqs (ds_dec s)
    (explicit_header_readable n inner Hn Hs) Hp) as (q & d1 & _ & E1 & Hq & Hc & V1); [split; [done|lia]|done|].
  assert (des_raw (dec_start_explicit_tag (tag_of n)) s = (Ok tt, Deserialiser d1 None None)) as Eo.
  { unfold des_raw, dec_start_explicit_tag. cbn [tag_of ti_type ti_tag default]. by rewrite E1, Hst, Hsx. }
  unfold des_tagged. rewrite (bind_ok _ _ _ _ _ Eo).
  pose proof (zlen_el_octets c None a Hw I) as Hz. fold inner in Hz.
  destruct (sreads_amp _ _ _ _ _ _ _ (el_reads (c:=c) None a all q Hw I Hc) mark k (q + zlen inner :: seqs) (Deserialiser d1 None None))
    as (s2 & E2 & (V2 & Ht2 & Hx2)).
  { split; [cbn; lia|]. rewrite zlen_cons. lia. }
  { by split_and!. }
  rewrite (bind_ok _ _ _ _ _ E2). fold inner in V2. pose proof Hc as (_ & Hc2 & _).
  destruct (pop_view _ _ _ _ _ _ _ V2 ltac:(lia)) as (d3 & Ed & V3).
  assert (des_raw dec_end_explicit_tag s2 = (Ok tt, Deserialiser d3 None None)) as Ep
    by (unfold des_raw, dec_end_explicit_tag; by rewrite Ed, Ht2, Hx2).
  rewrite (bind_ok _ _ _ _ _ Ep). eexists. split; [reflexivity|]. unfold bs in *. rewrite <- Hq. by split_and!.
Qed.

Program Definition explicit_body {A B} (n : Z) (Hn : 0 <= n < 2 ^ 64) (c1 : codec A) (c2 : codec B)
  `{!Element c1, !Body c2} : Body (then_codec (tagged_codec explicit_tag n c1) c2) := {|
  bd_content v := tlv context_specific_c n true (el_octets c1 None (fst v)) ++ bd_content c2 (snd v);
  bd_wf v := (el_wf c1 (fst v) /\ zlen (el_octets c1 None (fst v)) <= max_constructed_size) /\ bd_wf c2 (snd v);
  bd_depth v := Z.max (1 + el_depth c1 (fst v)) (bd_depth c2 (snd v)) |}.
Next Obligation. intros A B n Hn c1 c2 ?? [a b]; cbn. pose proof (el_depth_nonneg (c:=c1) a). lia. Qed.
Next Obligation.
  intros A B n Hn c1 c2 ?? [a b] [[H1 Hs] H2]; cbn in *.
  apply semits_bind; [apply semits_explicit; [done|done|by apply el_writes]|by apply bd_writes].
Qed.
Next Obligation.
  intros A B n Hn c1 c2 ?? [a b] all p e [[H1 Hs] H2] Hp He; cbn in *. apply octets_at_app in Hp as [Hp1 Hp2].
  rewrite zlen_app in *. pose proof (zlen_nonneg (bd_content c2 b)).
  pose proof (zlen_tlv_pos _ _ _ _ (proj1 (explicit_header_readable n (el_octets c1 None a) Hn Hs))).
  pose proof (zlen_nonneg (el_octets c1 None a)).
  rewrite Z.add_assoc. eapply sreads_bind.
  - eapply sreads_weaken; [apply sreads_amp; by apply sreads_explicit|].
    intros l Hl. apply (inside_ctx e _ _ p l Hl); lia.
  - eapply sreads_bind; [apply (bd_reads b all _ e); [done|done|lia]|apply sreads_ret|intros l Hl; exact Hl].
  - intros l Hl. apply (inside_le _ _ _ _ Hl). lia.
Qed.

(** ** The universe *)

Inductive int_kind : Type := U8 | U16 | U32 | U64 | I32 | I64.

Definition int_of (k : int_kind) : int_type :=
  match k with U8 => u8 | U16 => u16 | U32 => u32 | U64 => u64 | I32 => i32 | I64 => i64 end.

#[export] Instance int_of_ok k : IntWidth (int_of k).
Proof. destruct k; apply _. Qed.

(** The number of a tag, an unsigned integer of 64 bits. *)
Record tag_number : Type := Tag { tag_value : Z; tag_value_ok : (0 <=? tag_value) && (tag_value <? 2 ^ 64) = true }.

Lemma tag_value_range n : 0 <= tag_value n < 2 ^ 64.
Proof. destruct n as [n H]. cbn. apply andb_true_iff in H as [?%Z.leb_le ?%Z.ltb_lt]. lia. Qed.

(** Keys of ordered containers. *)
Inductive key : Type := KInt (k : int_kind) | KString | KOctets.

(** [ty]: what is one element; [fields]: the members of a class, in a
    sequence, each possibly tagged or a [std::optional]. *)
Inductive ty : Type :=
| TBool
| TInt (k : int_kind)
| TEnum (underlying : int_kind)
| TString
| TOctets
| TVector (t : ty)
| TSet (k : key)
| TMap (k : key) (t : ty)
| TPair (t1 t2 : ty)
| TClass (f : fields)
with fields : Type :=
| FEnd
| FTrailing
| FThen (t : ty) (f : fields)
| FImplicit (n : tag_number) (t : ty) (f : fields)
| FExplicit (n : tag_number) (t : ty) (f : fields)
| FOptional (t : ty) (f : fields).

Scheme ty_fields_ind := Induction for ty Sort Prop
with fields_ty_ind := Induction for fields Sort Prop.
Combined Scheme types_ind from ty_fields_ind, fields_ty_ind.

(** *** Values *)

Definition key_value (k : key) : Type := match k with KInt _ => Z | KString | KOctets => octets end.

Fixpoint denote (t : ty) : Type :=
  match t with
  | TBool => bool
  | TInt _ | TEnum _ => Z
  | TString | TOctets => octets
  | TVector t => list (denote t)
  | TSet k => list (key_value k)
  | TMap k t => list (key_value k * denote t)
  | TPair t1 t2 => denote t1 * denote t2
  | TClass f => members f
  end
with members (f : fields) : Type :=
  match f with
  | FEnd => unit
  | FTrailing => octets
  | FThen t f | FImplicit _ t f | FExplicit _ t f => denote t * members f
  | FOptional t f => option (denote t) * members f
  end.

(** [operator<] *)
Definition key_lt (k : key) : key_value k -> key_value k -> bool :=
  match k with KInt _ => Z.ltb | KString | KOctets => octets_lt end.

(** *** Codecs: the overload of [serialise] for each type *)

Definition key_codec (k : key) : codec (key_value k) :=
  match k with KInt k => int_codec (int_of k) | KString => string_codec | KOctets => octets_codec end.

Fixpoint codec_of (t : ty) : codec (denote t) :=
  match t with
  | TBool => bool_codec
  | TInt k => int_codec (int_of k)
  | TEnum k => enum_codec (int_of k)
  | TString => string_codec
  | TOctets => octets_codec
  | TVector t => vector_codec (codec_of t)
  | TSet k => set_codec (key_lt k) (key_codec k)
  | TMap k t => map_codec (key_lt k) (key_codec k) (codec_of t)
  | TPair t1 t2 => pair_codec (codec_of t1) (codec_of t2)
  | TClass f => seq_codec (members_codec f)
  end
with members_codec (f : fields) : codec (members f) :=
  match f with
  | FEnd => unit_codec
  | FTrailing => trailing_codec
  | FThen t f => then_codec (codec_of t) (members_codec f)
  | FImplicit n t f => then_codec (tagged_codec implicit_tag (tag_value n) (codec_of t)) (members_codec f)
  | FExplicit n t f => then_codec (tagged_codec explicit_tag (tag_value n) (codec_of t)) (members_codec f)
  | FOptional t f => then_codec (optional_codec (codec_of t)) (members_codec f)
  end.

(** ** What the format prescribes *)

(** The type's own tag number. *)
Definition number_of (t : ty) : Z :=
  match t with
  | TBool => tag_boolean
  | TInt _ | TEnum _ => tag_integer
  | TString => tag_t61string
  | TOctets => tag_octet_string
  | _ => tag_sequence
  end.

Definition constructed (t : ty) : bool :=
  match t with TVector _ | TSet _ | TMap _ _ | TPair _ _ | TClass _ => true | _ => false end.

Definition key_ty (k : key) : ty := match k with KInt k => TInt k | KString => TString | KOctets => TOctets end.

Definition key_content (k : key) : key_value k -> octets :=
  match k with KInt _ => int_octets | KString | KOctets => fun v => v end.
Definition key_der (k : key) (v : key_value k) : octets :=
  tlv universal_c (number_of (key_ty k)) false (key_content k v).

(** The contents octets of a value, and its encoding under a tag. *)
Fixpoint content (t : ty) : denote t -> octets :=
  match t with
  | TBool => fun v => int_octets (if v then 1 else 0)
  | TInt _ | TEnum _ => int_octets
  | TString | TOctets => fun v => v
  | TVector t => fun v => concat (map (fun x => tlv universal_c (number_of t) (constructed t) (content t x)) v)
  | TSet k => fun v => concat (map (key_der k) v)
  | TMap k t => fun v => concat (map (fun x => tlv universal_c tag_sequence true
      (key_der k (fst x) ++ tlv universal_c (number_of t) (constructed t) (content t (snd x)))) v)
  | TPair t1 t2 => fun v =>
      tlv universal_c (number_of t1) (constructed t1) (content t1 (fst v)) ++
      tlv universal_c (number_of t2) (constructed t2) (content t2 (snd v))
  | TClass f => members_der f
  end
with members_der (f : fields) : members f -> octets :=
  match f with
  | FEnd => fun _ => []
  | FTrailing => fun v => v
  | FThen t f => fun v => tlv universal_c (number_of t) (constructed t) (content t (fst v)) ++ members_der f (snd v)
  | FImplicit n t f => fun v =>
      tlv context_specific_c (tag_value n) (constructed t) (content t (fst v)) ++ members_der f (snd v)
  | FExplicit n t f => fun v =>
      tlv context_specific_c (tag_value n) true (tlv universal_c (number_of t) (constructed t) (content t (fst v))) ++
      members_der f (snd v)
  | FOptional t f => fun v =>
      match fst v with Some x => tlv universal_c (number_of t) (constructed t) (content t x) | None => [] end ++
      members_der f (snd v)
  end.

Definition der_of (t : ty) (v : denote t) : octets := tlv universal_c (number_of t) (constructed t) (content t v).

(** ** What the format can hold *)

Definition all_of {A} (P : A -> Prop) (l : list A) : Prop := foldr (fun x Q => P x /\ Q) True l.

Definition key_fits (k : key) : key_value k -> Prop :=
  match k with KInt k => in_range (int_of k) | KString | KOctets => fun v => zlen v <= max_structure_size end.

(** An optional member that is absent must not be followed by an element that
    would be taken for it. *)
Fixpoint follows (number : Z) (f : fields) : members f -> Prop :=
  match f with
  | FEnd => fun _ => True
  | FTrailing => fun v => starts_otherwise number v
  | FThen t _ => fun _ => number_of t <> number
  | FImplicit _ _ _ | FExplicit _ _ _ => fun _ => True
  | FOptional t f => fun v => match fst v with Some _ => number_of t <> number | None => follows number f (snd v) end
  end.

(** Integers in the range of their type, sizes within the format's limits,
    ordered containers in the order of their keys. *)
Fixpoint fits (t : ty) : denote t -> Prop :=
  match t with
  | TBool => fun _ => True
  | TInt k | TEnum k => in_range (int_of k)
  | TString | TOctets => fun v => zlen v <= max_structure_size
  | TVector t => fun v => all_of (fits t) v /\ zlen (content (TVector t) v) <= max_constructed_size
  | TSet k => fun v => increasing (key_lt k) v /\ all_of (key_fits k) v /\ zlen (content (TSet k) v) <= max_constructed_size
  | TMap k t => fun v =>
      increasing (fun a b => key_lt k (fst a) (fst b)) v /\
      all_of (fun x => (key_fits k (fst x) /\ fits t (snd x)) /\
                       zlen (key_der k (fst x) ++ der_of t (snd x)) <= max_constructed_size) v /\
      zlen (content (TMap k t) v) <= max_constructed_size
  | TPair t1 t2 => fun v => (fits t1 (fst v) /\ fits t2 (snd v)) /\ zlen (content (TPair t1 t2) v) <= max_constructed_size
  | TClass f => fun v => members_fit f v /\ zlen (members_der f v) <= max_constructed_size
  end
with members_fit (f : fields) : members f -> Prop :=
  match f with
  | FEnd | FTrailing => fun _ => True
  | FThen t f | FImplicit _ t f => fun v => fits t (fst v) /\ members_fit f (snd v)
  | FExplicit _ t f => fun v => (fits t (fst v) /\ zlen (der_of t (fst v)) <= max_constructed_size) /\ members_fit f (snd v)
  | FOptional t f => fun v =>
      match fst v with Some x => fits t x | None => follows (number_of t) f (snd v) end /\ members_fit f (snd v)
  end.

(** How deep a value nests. *)
Definition max_of {A} (f : A -> Z) (l : list A) : Z := foldr Z.max 0 (map f l).

Fixpoint depth_of (t : ty) : denote t -> Z :=
  match t with
  | TBool | TInt _ | TEnum _ | TString | TOctets => fun _ => 0
  | TVector t => fun v => 1 + max_of (depth_of t) v
  | TSet _ => fun _ => 1
  | TMap _ t => fun v => 1 + max_of (fun x => 1 + depth_of t (snd x)) v
  | TPair t1 t2 => fun v => 1 + Z.max (depth_of t1 (fst v)) (depth_of t2 (snd v))
  | TClass f => fun v => 1 + members_depth f v
  end
with members_depth (f : fields) : members f -> Z :=
  match f with
  | FEnd | FTrailing => fun _ => 0
  | FThen t f | FImplicit _ t f => fun v => Z.max (depth_of t (fst v)) (members_depth f (snd v))
  | FExplicit _ t f => fun v => Z.max (1 + depth_of t (fst v)) (members_depth f (snd v))
  | FOptional t f => fun v =>
      Z.max (match fst v with Some x => depth_of t x | None => 0 end) (members_depth f (snd v))
  end.

(** ** The contracts, by recursion on the type *)

#[export] Instance key_element k : Element (key_codec k) :=
  match k with KInt k => int_element (int_of k) | KString => string_element | KOctets => octets_element end.

Fixpoint element_of (t : ty) : Element (codec_of t) :=
  match t with
  | TBool => bool_element
  | TInt k => int_element (int_of k)
  | TEnum k => enum_element (int_of k)
  | TString => string_element
  | TOctets => octets_element
  | TVector t => @vector_element _ _ (element_of t)
  | TSet k => set_element (key_lt k) (key_codec k)
  | TMap k t => @map_element _ _ (key_lt k) (key_codec k) _ _ (element_of t)
  | TPair t1 t2 => @pair_element _ _ _ _ (element_of t1) (element_of t2)
  | TClass f => @seq_element _ _ (members_body f)
  end
with members_body (f : fields) : Body (members_codec f) :=
  match f with
  | FEnd => unit_body
  | FTrailing => trailing_body
  | FThen t f => @then_body _ _ _ _ (element_of t) (members_body f)
  | FImplicit n t f => @implicit_body _ _ _ (tag_value_range n) _ _ (element_of t) (members_body f)
  | FExplicit n t f => @explicit_body _ _ _ (tag_value_range n) _ _ (element_of t) (members_body f)
  | FOptional t f => @optional_body _ _ _ _ (element_of t) (members_body f)
  end.
#[export] Existing Instances element_of members_body.

(** ** The contracts are what the format prescribes *)

Definition agrees (t : ty) : Prop :=
  el_tag (codec_of t) = number_of t /\ el_constr (codec_of t) = constructed t /\
  (forall v, el_content (codec_of t) v = content t v) /\ (forall v, fits t v -> el_wf (codec_of t) v) /\
  forall v, el_depth (codec_of t) v <= depth_of t v.

Definition members_agree (f : fields) : Prop :=
  (forall v, bd_content (members_codec f) v = members_der f v) /\
  (forall v, members_fit f v -> bd_wf (members_codec f) v) /\
  (forall v, bd_depth (members_codec f) v <= members_depth f v) /\
  forall number v, members_fit f v -> follows number f v -> starts_otherwise number (members_der f v).

Lemma agrees_octets t tag v : agrees t ->
  el_octets (codec_of t) tag v = tlv (get_asn_class tag) (get_tag tag (number_of t)) (constructed t) (content t v).
Proof. intros (H1 & H2 & H3 & _). unfold el_octets. by rewrite H1, H2, H3. Qed.

Lemma agrees_der t v : agrees t -> el_octets (codec_of t) None v = der_of t v.
Proof. intros H. by rewrite (agrees_octets _ _ _ H). Qed.

Lemma key_octets k v : el_octets (key_codec k) None v = key_der k v.
Proof. by destruct k. Qed.

Lemma key_wf k v : key_fits k v -> el_wf (key_codec k) v.
Proof. by destruct k. Qed.

Lemma key_depth k v : el_depth (key_codec k) v = 0.
Proof. by destruct k. Qed.

Lemma all_of_imp {A} (P Q : A -> Prop) l : (forall x, P x -> Q x) -> all_of P l -> all_of Q l.
Proof. intros H. induction l as [|x l IH]; cbn; [done|]. intros [H1 H2]; split; [by apply H|by apply IH]. Qed.

Lemma concat_map_ext {A} (f g : A -> octets) l : (forall x, f x = g x) -> concat (map f l) = concat (map g l).
Proof. intros H. f_equal. by apply map_ext. Qed.

Lemma max_of_le {A} (f g : A -> Z) l : (forall x, f x <= g x) -> max_of f l <= max_of g l.
Proof. intros H. unfold max_of. induction l as [|x l IH]; cbn; [done|]. specialize (H x). lia. Qed.

Lemma max_of_zero {A} (f : A -> Z) l : (forall x, f x = 0) -> max_of f l = 0.
Proof. intros H. unfold max_of. induction l as [|x l IH]; cbn; [done|]. rewrite H, IH. lia. Qed.

(** The elements of a container. *)
Lemma els_content_is {A} (c : codec A) `{!Element c} (f : A -> octets) l :
  (forall x, el_octets c None x = f x) -> els_content c l = concat (map f l).
Proof. apply concat_map_ext. Qed.

Lemma els_depth_le {A} (c : codec A) `{!Element c} (f : A -> Z) l :
  (forall x, el_depth c x <= f x) -> els_depth c l <= max_of f l.
Proof. apply max_of_le. Qed.

Lemma agrees_vector t : agrees t -> agrees (TVector t).
Proof.
  intros H. pose proof H as (_ & _ & _ & Hw & Hd).
  assert (forall v : list (denote t), els_content (codec_of t) v = concat (map (der_of t) v)) as Hc
    by (intros v; apply els_content_is; intros x; by apply agrees_der).
  split_and!; [done|done|exact Hc| |].
  - intros v [H1 H2]. split_and!; [done|exact (all_of_imp _ _ v Hw H1)|]. cbv beta. by rewrite Hc.
  - intros v. pose proof (els_depth_le (codec_of t) (depth_of t) v Hd).
    change (1 + els_depth (codec_of t) v <= 1 + max_of (depth_of t) v). lia.
Qed.

Lemma agrees_set k : agrees (TSet k).
Proof.
  assert (forall v, els_content (key_codec k) v = concat (map (key_der k) v)) as Hc
    by (intros v; apply els_content_is, key_octets).
  split_and!; [done|done|exact Hc| |].
  - intros v (H1 & H2 & H3). split_and!; [done|exact (all_of_imp _ _ v (key_wf k) H2)|]. cbv beta. by rewrite Hc.
  - intros v. change (1 + els_depth (key_codec k) v <= 1). unfold els_depth.
    pose proof (max_of_zero (el_depth (key_codec k)) v (key_depth k)) as Hz. unfold max_of in Hz. lia.
Qed.

(** A pair is a sequence of two. *)
Lemma pair_octets {A B} (c1 : codec A) (c2 : codec B) `{!Element c1, !Element c2} x :
  el_octets (pair_codec c1 c2) None x =
  tlv universal_c tag_sequence true (el_octets c1 None (fst x) ++ el_octets c2 None (snd x)).
Proof.
  change (tlv universal_c tag_sequence true (el_octets c1 None (fst x) ++ el_octets c2 None (snd x) ++ []) =
    tlv universal_c tag_sequence true (el_octets c1 None (fst x) ++ el_octets c2 None (snd x))).
  by rewrite app_nil_r.
Qed.

Lemma pair_wf {A B} (c1 : codec A) (c2 : codec B) `{!Element c1, !Element c2} x :
  el_wf c1 (fst x) -> el_wf c2 (snd x) -> zlen (el_octets c1 None (fst x) ++ el_octets c2 None (snd x)) <= max_constructed_size ->
  el_wf (pair_codec c1 c2) x.
Proof.
  intros H1 H2 Hs.
  change ((el_wf c1 (fst x) /\ el_wf c2 (snd x) /\ True) /\
    zlen (el_octets c1 None (fst x) ++ el_octets c2 None (snd x) ++ []) <= max_constructed_size).
  by rewrite app_nil_r.
Qed.

Lemma pair_depth {A B} (c1 : codec A) (c2 : codec B) `{!Element c1, !Element c2} x :
  el_depth (pair_codec c1 c2) x <= 1 + Z.max (el_depth c1 (fst x)) (el_depth c2 (snd x)).
Proof.
  pose proof (el_depth_nonneg (c:=c2) (snd x)).
  change (1 + Z.max (el_depth c1 (fst x)) (Z.max (el_depth c2 (snd x)) 0) <= 1 + Z.max (el_depth c1 (fst x)) (el_depth c2 (snd x))).
  lia.
Qed.

Lemma agrees_map k t : agrees t -> agrees (TMap k t).
Proof.
  intros H. pose proof H as (_ & _ & _ & Hw & Hd).
  set (c := pair_codec (key_codec k) (codec_of t)).
  assert (forall x, el_octets c None x = tlv universal_c tag_sequence true (key_der k (fst x) ++ der_of t (snd x))) as Ho
    by (intros x; unfold c; by rewrite pair_octets, key_octets, agrees_der).
  assert (forall v, els_content c v = content (TMap k t) v) as Hc by (intros v; apply els_content_is, Ho).
  split_and!; [done|done|exact Hc| |].
  - intros v (H1 & H2 & H3). split_and!; [exact H1| |cbv beta; rewrite Hc; exact H3].
    refine (all_of_imp _ _ v _ H2). intros x ((K1 & K2) & K3). apply pair_wf; [by apply key_wf|by apply Hw|].
    by rewrite key_octets, agrees_der.
  - intros v. enough (els_depth c v <= max_of (fun x => 1 + depth_of t (snd x)) v) as He
      by (change (1 + els_depth c v <= 1 + max_of (fun x => 1 + depth_of t (snd x)) v); lia).
    apply els_depth_le. intros x. pose proof (pair_depth (key_codec k) (codec_of t) x) as Hp. rewrite key_depth in Hp.
    pose proof (el_depth_nonneg (c:=codec_of t) (snd x)). specialize (Hd (snd x)). fold c in Hp. lia.
Qed.

Lemma agrees_pair t1 t2 : agrees t1 -> agrees t2 -> agrees (TPair t1 t2).
Proof.
  intros K1 K2. pose proof K1 as (_ & _ & _ & W1 & D1). pose proof K2 as (_ & _ & _ & W2 & D2).
  split_and!; [done|done| | |].
  - intros v. change (el_octets (codec_of t1) None (fst v) ++ el_octets (codec_of t2) None (snd v) ++ [] =
      der_of t1 (fst v) ++ der_of t2 (snd v)). by rewrite app_nil_r, !agrees_der.
  - intros v [[F1 F2] Hs]. apply (pair_wf (codec_of t1) (codec_of t2)); [by apply W1|by apply W2|by rewrite !agrees_der].
  - intros v. etransitivity; [exact (pair_depth (codec_of t1) (codec_of t2) v)|].
    apply Z.add_le_mono_l, Z.max_le_compat; [apply D1|apply D2].
Qed.

(** *** Members *)

Lemma agrees_class f : members_agree f -> agrees (TClass f).
Proof.
  intros (Hc & Hw & Hd & _). split_and!; [done|done|exact Hc| |].
  - intros v [H1 H2]. split; [exact (Hw v H1)|]. change (zlen (bd_content (members_codec f) v) <= max_constructed_size). by rewrite Hc.
  - intros v. exact (Zplus_le_compat_l _ _ 1 (Hd v)).
Qed.

(** What a member is written with does not start like an absent one. *)
Lemma starts_with h rest number : header_readable h -> h_class h <> universal_c \/ h_tag h <> number ->
  starts_otherwise number (header_octets h ++ rest).
Proof. intros Hh Hne. right. by exists h, rest. Qed.

Lemma tlv_starts c n (constr : bool) body rest number :
  header_readable (AsnHeader c n (zlen body) constr) -> c <> universal_c \/ n <> number ->
  starts_otherwise number (tlv c n constr body ++ rest).
Proof. intros Hh Hne. unfold tlv. rewrite <- app_assoc. by apply (starts_with _ _ _ Hh). Qed.

Lemma element_header t tag v : agrees t -> fits t v -> tag_ok tag ->
  header_readable (AsnHeader (get_asn_class tag) (get_tag tag (number_of t)) (zlen (content t v)) (constructed t)).
Proof.
  intros (H1 & H2 & H3 & H4 & _) Hf Ht. rewrite <- H1, <- H2, <- H3. apply (el_header_ok (codec_of t) tag v); [by apply H4|done].
Qed.

Lemma members_then t f : agrees t -> members_agree f -> members_agree (FThen t f).
Proof.
  intros H (Hc & Hw & Hd & _). pose proof H as (_ & _ & _ & Ew & Ed). split_and!.
  - intros v. change (el_octets (codec_of t) None (fst v) ++ bd_content (members_codec f) (snd v) =
      der_of t (fst v) ++ members_der f (snd v)). by rewrite agrees_der, Hc.
  - intros v [H1 H2]. split; [exact (Ew _ H1)|exact (Hw _ H2)].
  - intros v. exact (Z.max_le_compat _ _ _ _ (Ed (fst v)) (Hd (snd v))).
  - intros number v [H1 _] Hf. apply tlv_starts; [exact (element_header t None _ H H1 I)|by right].
Qed.

Lemma members_implicit n t f : agrees t -> members_agree f -> members_agree (FImplicit n t f).
Proof.
  intros H (Hc & Hw & Hd & _). pose proof H as (_ & _ & _ & Ew & Ed). split_and!.
  - intros v. change (el_octets (codec_of t) (Some (tag_of (tag_value n))) (fst v) ++ bd_content (members_codec f) (snd v) =
      tlv context_specific_c (tag_value n) (constructed t) (content t (fst v)) ++ members_der f (snd v)).
    by rewrite (agrees_octets _ _ _ H), Hc.
  - intros v [H1 H2]. split; [exact (Ew _ H1)|exact (Hw _ H2)].
  - intros v. exact (Z.max_le_compat _ _ _ _ (Ed (fst v)) (Hd (snd v))).
  - intros number v [H1 _] _. apply tlv_starts; [|by left]. pose proof (tag_value_range n).
    apply (element_header t (Some (tag_of (tag_value n))) _ H H1). split; cbn; lia.
Qed.

Lemma members_explicit n t f : agrees t -> members_agree f -> members_agree (FExplicit n t f).
Proof.
  intros H (Hc & Hw & Hd & _). pose proof H as (_ & _ & _ & Ew & Ed). split_and!.
  - intros v. change (tlv context_specific_c (tag_value n) true (el_octets (codec_of t) None (fst v)) ++
        bd_content (members_codec f) (snd v) =
      tlv context_specific_c (tag_value n) true (der_of t (fst v)) ++ members_der f (snd v)). by rewrite agrees_der, Hc.
  - intros v [[H1 H2] H3]. split; [split; [exact (Ew _ H1)|]|exact (Hw _ H3)].
    change (zlen (el_octets (codec_of t) None (fst v)) <= max_constructed_size). by rewrite agrees_der.
  - intros v. exact (Z.max_le_compat _ _ _ _ (Zplus_le_compat_l _ _ 1 (Ed (fst v))) (Hd (snd v))).
  - intros number v [[_ H2] _] _. apply tlv_starts; [|by left]. apply explicit_header_readable; [apply tag_value_range|exact H2].
Qed.


Lemma members_optional t f : agrees t -> members_agree f -> members_agree (FOptional t f).
Proof.
  intros H (Hc & Hw & Hd & Hs). pose proof H as (Ht & _ & _ & Ew & Ed). split_and!.
  - intros [[a|] b].
    + change (el_octets (codec_of t) None a ++ bd_content (members_codec f) b = der_of t a ++ members_der f b).
      by rewrite agrees_der, Hc.
    + exact (Hc b).
  - intros [[a|] b] [H1 H2]; (split; [|exact (Hw _ H2)]); [exact (Ew _ H1)|]. cbn in H1, H2.
    change (starts_otherwise (el_tag (codec_of t)) (bd_content (members_codec f) b)). rewrite Ht, Hc. by apply Hs.
  - intros [[a|] b].
    + exact (Z.max_le_compat _ _ _ _ (Ed a) (Hd b)).
    + exact (Z.max_le_compat _ _ _ _ (Z.le_refl 0) (Hd b)).
  - intros number [[a|] b] [H1 H2] Hf; cbn in H1, H2, Hf.
    + apply tlv_starts; [exact (element_header t None a H H1 I)|by right].
    + exact (Hs number b H2 Hf).
Qed.

Lemma universe_agrees : (forall t, agrees t) /\ (forall f, members_agree f).
Proof.
  apply types_ind; intros; auto using agrees_vector, agrees_set, agrees_map, agrees_pair, agrees_class, members_then,
    members_implicit, members_explicit, members_optional; split_and!; try done.
  - intros number v _ _. by left.
Qed.

(** ** Properties *)

(** C20: For every type built from the supported ones — booleans, integers of
    all widths, enumerations, strings, octet vectors, vectors, ordered sets and
    maps, pairs, and classes whose members may be tagged, optional or trailing
    data, nested in each other — and every value the format can hold:
    serialising gives exactly the octets the format prescribes, [der_of], and
    deserialising these octets gives the value back, whatever follows them. *)
Theorem types_round_trip (t : ty) (v : denote t) (rest : octets) :
  fits t v -> depth_of t v <= max_structure_depth ->
  asn_der_serialise (codec_of t) v = Ok (der_of t v) /\
  asn_der_deserialise (codec_of t) (der_of t v ++ rest) = Ok v.
Proof.
  intros Hf Hd. destruct universe_agrees as [H _]. specialize (H t). pose proof H as (_ & _ & _ & Hw & Hle).
  rewrite <- agrees_der by done. specialize (Hle v).
  split; [by apply serialise_element, Hw|apply deserialise_element; [by apply Hw|lia]].
Qed.

(** A class as the library's users write them: an optional vector, a map, a
    member with a tag of each kind, an absent optional before empty trailing
    data. *)
Definition sample_type : ty :=
  TClass (FOptional (TVector (TInt I32)) (FThen (TMap KOctets TBool)
    (FImplicit (Tag 5 eq_refl) TString (FExplicit (Tag 40 eq_refl) (TPair (TEnum U8) (TSet (KInt U16)))
    (FOptional (TClass (FThen TBool FEnd)) (FThen TOctets (FOptional TBool FTrailing))))))).

Definition sample_value : denote sample_type :=
  (Some [1; -5; 70000], ([([1], true); ([2; 3], false)], ([104; 105], ((7, [3; 300]), (None, ([9], (None, []))))))).

Example sample_octets : der_of sample_type sample_value =
  [48; 56; 48; 11; 2; 1; 1; 2; 1; 251; 2; 3; 1; 17; 112; 48; 17; 48; 6; 4; 1; 1; 1; 1; 1; 48; 7; 4; 2; 2; 3; 1; 1; 0;
   133; 2; 104; 105; 191; 40; 14; 48; 12; 2; 1; 7; 48; 7; 2; 1; 3; 2; 2; 1; 44; 4; 1; 9].
Proof. vm_compute. reflexivity. Qed.

(** A leaf of [fits]: an inequality, an order, an inequality of numbers. *)
#[local] Ltac leaf :=
  lazymatch goal with
  | |- starts_otherwise _ [] => by left
  | |- _ <> _ => discriminate
  | |- True => exact I
  | |- _ => vm_compute; repeat split; discriminate
  end.

Lemma sample_fits : fits sample_type sample_value.
Proof.
  unfold sample_type, sample_value. cbn [fits members_fit follows fst snd all_of foldr key_fits int_of]. split_and!; leaf.
Qed.

Lemma types_round_trip_witness : asn_der_serialise (codec_of sample_type) sample_value = Ok (der_of sample_type sample_value) /\
  asn_der_deserialise (codec_of sample_type) (der_of sample_type sample_value ++ [255]) = Ok sample_value.
Proof.
  apply (types_round_trip sample_type sample_value [255]); [exact sample_fits|vm_compute; discriminate].
Defined.
