(* ===== verification/CertChain.v ===== *)
(** Certificate chains: [crypto/certificate_chain.cpp] and
    [crypto/public_key_access.cpp].

    The key and certificate stores are interfaces here ([KeyStore],
    [CertStore]); [Caches] implements them.  The specification of
    [is_authentic] is the inductive relation [linked]. *)

From stdpp Require Import base list numbers strings.
From Stdlib Require Import ZArith Lia.
From S2P Require Import Prelude ByteOrder Asn1Int Asn1Stream Asn1Encoder Asn1Decoder Serialise Crypto.
Open Scope Z_scope.

Definition max_chain_length : Z := 16.
Definition int_max : Z := 2147483647.

(** What the code asks of [public_key_access] and [certificate_access]. *)
Record key_store : Type := KeyStore {
  ks_root : option public_key;              (** the process-wide root key *)
  ks_find : octets -> option public_key
}.
Record cert_store : Type := CertStore { cs_find : octets -> option certificate }.

(** [find_root_key(key_id)] *)
Definition find_root_key (keys : key_store) (key_id : option octets) : option public_key :=
  match ks_root keys with
  | Some root =>
      match key_id with
      | None => Some root
      | Some i => if bool_decide (i = pk_id root) then Some root else None
      end
  | None => None
  end.

Record key_cert_pair : Type := KeyCertPair { kp_subject : public_key; kp_cert : certificate }.

Record certificate_chain : Type := CertificateChain {
  cc_version : Z; cc_root_key_id : octets; cc_chain : list key_cert_pair }.

Definition new_chain (root : octets) (l : list key_cert_pair) : certificate_chain := CertificateChain 1 root l.
Definition empty_chain : certificate_chain := CertificateChain 1 [] [].

Section chain.
Context `{Primitives}.

(** ** Wire format *)

Definition key_cert_pair_fields : codec key_cert_pair :=
  iso_codec (fun v => KeyCertPair (fst v) (fst (snd v))) (fun p => (kp_subject p, (kp_cert p, tt)))
    (then_codec public_key_codec (then_codec certificate_codec unit_codec)).
Definition key_cert_pair_codec : codec key_cert_pair := seq_codec key_cert_pair_fields.

#[export] Instance key_cert_pair_body : Body key_cert_pair_fields.
Proof. apply iso_body; [by intros []|apply _]. Defined.
#[export] Instance key_cert_pair_element : Element key_cert_pair_codec.
Proof. unfold key_cert_pair_codec. apply _. Defined.

Definition chain_fields : codec certificate_chain :=
  iso_codec (fun v => CertificateChain (fst v) (fst (snd v)) (fst (snd (snd v))))
            (fun c => (cc_version c, (cc_root_key_id c, (cc_chain c, tt))))
    (then_codec (int_codec i32) (then_codec id_codec (then_codec (vector_codec key_cert_pair_codec) unit_codec))).
Definition chain_codec : codec certificate_chain := seq_codec chain_fields.

#[export] Instance chain_body : Body chain_fields.
Proof. apply iso_body; [by intros []|apply _]. Defined.
#[export] Instance chain_element : Element chain_codec.
Proof. unfold chain_codec. apply _. Defined.

(** ** Queries *)

Definition chain_is_valid (c : certificate_chain) : bool :=
  negb (bool_decide (cc_chain c = [])) && negb (bool_decide (cc_root_key_id c = [])).

Definition chain_subject (c : certificate_chain) : cres public_key :=
  if negb (chain_is_valid c) then Throw (Error invalid_certificate_chain)
  else match last (cc_chain c) with
       | Some p => Ok (kp_subject p)
       | None => Throw (Error invalid_certificate_chain)
       end.

Definition subject_key_cert (c : certificate_chain) : cres key_certificate_data :=
  if negb (chain_is_valid c) then Throw (Error invalid_certificate_chain)
  else match last (cc_chain c) with
       | Some p => extract_key_cert (kp_cert p)
       | None => Throw (Error invalid_certificate_chain)
       end.

Definition subject_ca_level (c : certificate_chain) : cres Z := d ← subject_key_cert c; mret (kc_ca_level d).
Definition subject_restrictions (c : certificate_chain) : cres key_cert_restriction :=
  d ← subject_key_cert c; mret (kc_restrictions d).

(** ** Checking one link *)

Record check_data : Type := CheckData { cd_ca_level : Z; cd_restriction : key_cert_restriction }.

(** [None] is the empty [error]. *)
Definition check_link_certificate (key : public_key) (cert : certificate) (previous_key : public_key) :
  cres (option crypto_errc) :=
  a ← ct_is_authentic cert previous_key;
  if negb (a : bool) then mret (Some invalid_certificate)
  else
    v ← pk_verify_me key;
    if negb (v : bool) then mret (Some invalid_public_key)
    else if negb (ct_type cert =? key_certificate_id) then mret (Some invalid_certificate)
    else if negb (bool_decide (pk_id previous_key = ct_issuer cert)) then mret (Some invalid_data)
    else mret None.

Definition check_link_data (key : public_key) (cert : certificate) (key_cert : key_certificate_data) (data : check_data) :
  cres (option crypto_errc * check_data) :=
  if negb (bool_decide (kc_subject key_cert = pk_id key)) then mret (Some invalid_data, data)
  else
    i ← ct_id cert;
    if negb (references_certificate key i) then mret (Some invalid_data, data)
    else if cd_ca_level data <=? kc_ca_level key_cert then mret (Some invalid_certificate_chain_ca_level, data)
    else
      let data := CheckData (kc_ca_level key_cert) (cd_restriction data) in
      if negb (is_subset_of (kc_restrictions key_cert) (cd_restriction data)) then mret (Some invalid_data, data)
      else mret (None, CheckData (cd_ca_level data) (kc_restrictions key_cert)).

Definition check_link (key : public_key) (cert : certificate) (previous_key : public_key) (data : check_data) :
  cres (option crypto_errc * check_data) :=
  err ← check_link_certificate key cert previous_key;
  match err with
  | Some e => mret (Some e, data)
  | None => d ← extract_key_cert cert; check_link_data key cert d data
  end.

(** ** is_authentic *)

Record chain_verify : Type := ChainVerify {
  cv_previous : public_key; cv_ca_level : Z; cv_restriction : key_cert_restriction }.

Definition is_revoked_in_store (certs : cert_store) (previous : public_key) (cert : certificate) : cres bool :=
  i ← ct_id cert;
  match cs_find certs i with
  | Some stored => ct_is_revoked stored previous
  | None => mret false
  end.

Definition check_chain_element (certs : cert_store) (elem : key_cert_pair) (v : chain_verify) :
  cres (bool * chain_verify) :=
  r ← check_link (kp_subject elem) (kp_cert elem) (cv_previous v) (CheckData (cv_ca_level v) (cv_restriction v));
  match r with
  | (Some _, _) => mret (false, v)
  | (None, data) =>
      revoked ← is_revoked_in_store certs (cv_previous v) (kp_cert elem);
      if (revoked : bool) then mret (false, v)
      else mret (true, ChainVerify (kp_subject elem) (cd_ca_level data) (cd_restriction data))
  end.

(** [for(it = begin(); res && it != end(); ++it)] *)
Fixpoint check_elements (certs : cert_store) (l : list key_cert_pair) (v : chain_verify) : cres bool :=
  match l with
  | [] => mret true
  | e :: es =>
      r ← check_chain_element certs e v;
      if (fst r : bool) then check_elements certs es (snd r) else mret false
  end.

Definition is_authentic (keys : key_store) (certs : cert_store) (c : certificate_chain) : cres bool :=
  if max_chain_length <? zlen (cc_chain c) then mret false
  else if negb (chain_is_valid c) then mret false
  else match find_root_key keys (Some (cc_root_key_id c)) with
       | Some root => check_elements certs (cc_chain c) (ChainVerify root int_max no_restriction)
       | None => mret false
       end.

Definition is_authentic_for (keys : key_store) (certs : cert_store) (rest : key_cert_restriction) (c : certificate_chain) :
  cres bool :=
  a ← is_authentic keys certs c;
  if (a : bool) then r ← subject_restrictions c; mret (is_subset_of rest r) else mret false.

(** ** Extending a chain *)

Definition push_link (key : public_key) (cert : certificate) (c : certificate_chain) : certificate_chain :=
  CertificateChain (cc_version c) (cc_root_key_id c) (cc_chain c ++ [KeyCertPair key cert]).

Definition add_link (key : public_key) (cert : certificate) (c : certificate_chain) : cres certificate_chain :=
  if bool_decide (cc_chain c = []) then Throw (Error no_such_root_key)
  else
    lvl ← subject_ca_level c;
    rest ← subject_restrictions c;
    subj ← chain_subject c;
    r ← check_link key cert subj (CheckData lvl rest);
    match (fst r : option crypto_errc) with
    | Some e => Throw (Error e)
    | None => mret (push_link key cert c)
    end.

(** The overload that can start a chain at the root. *)
Definition add_link_root (keys : key_store) (key : public_key) (cert : certificate) (c : certificate_chain) :
  cres certificate_chain :=
  if bool_decide (cc_chain c = []) then
    match find_root_key keys (Some (ct_issuer cert)) with
    | None => Throw (Error no_such_root_key)
    | Some root =>
        r ← check_link key cert root (CheckData int_max no_restriction);
        match (fst r : option crypto_errc) with
        | Some e => Throw (Error e)
        | None => mret (push_link key cert (CertificateChain (cc_version c) (pk_id root) (cc_chain c)))
        end
    end
  else
    subj ← chain_subject c;
    lvl ← subject_ca_level c;
    rest ← subject_restrictions c;
    r ← check_link key cert subj (CheckData lvl rest);
    match (fst r : option crypto_errc) with
    | Some e => Throw (Error e)
    | None => mret (push_link key cert c)
    end.

(** ** Building a chain: [chain_builder] *)

Section builder.
Context (keys : key_store) (certs : cert_store).

Definition try_complete (cert : certificate) (l : list key_cert_pair) : cres (option certificate_chain) :=
  let cc := new_chain (ct_issuer cert) (rev l) in
  a ← is_authentic keys certs cc;
  mret (if (a : bool) then Some cc else None).

(** [build_list] with [consider] and [follow_issuer] inlined as the loop
    body; the certificate levels grow strictly, [fuel] bounds them. *)
Fixpoint build_list (fuel : nat) (subject : public_key) (last_ca_level : option Z) (l : list key_cert_pair) :
  cres (option certificate_chain) :=
  match fuel with
  | O => Throw NoFuel
  | S fuel =>
      let follow_issuer (cert : certificate) (ca_level : Z) (l : list key_cert_pair) :=
        match find_root_key keys (Some (ct_issuer cert)) with
        | Some _ => try_complete cert l
        | None =>
            match ks_find keys (ct_issuer cert) with
            | Some key => build_list fuel key (Some ca_level) l
            | None => mret None
            end
        end in
      let consider (cert : certificate) :=
        if negb (ct_type cert =? key_certificate_id) then mret None
        else
          d ← extract_key_cert cert;
          let ca_level := kc_ca_level d in
          if match last_ca_level with None => true | Some last => last <? ca_level end
          then follow_issuer cert ca_level (l ++ [KeyCertPair subject cert])
          else mret None in
      (fix loop (ids : list octets) : cres (option certificate_chain) :=
         match ids with
         | [] => mret None
         | i :: ids =>
             r ← (match cs_find certs i with Some cert => consider cert | None => mret None end : cres (option certificate_chain));
             match r with Some cc => mret (Some cc) | None => loop ids end
         end) (pk_certificate_ids subject)
  end.

(** Levels are 16-bit: 65537 rounds visit every level. *)
Definition create_certificate_chain (subject : public_key) : cres (option certificate_chain) :=
  build_list (Z.to_nat 65537) subject None [].
End builder.
End chain.

(** ** Lemmas *)

Lemma rbind_ok {E A B} (m : result E A) (f : A -> result E B) b :
  (m ≫= f) = Ok b <-> exists a, m = Ok a /\ f a = Ok b.
Proof.
  unfold mbind, result_bind. destruct m as [a|e]; split.
  - intros H. by exists a.
  - by intros (a' & [= <-] & H).
  - done.
  - by intros (a' & ? & _).
Qed.

Lemma ret_ok {E A} (a b : A) : (mret a : result E A) = Ok b <-> a = b.
Proof. unfold mret, result_ret. split; congruence. Qed.

(** One link, as the specification states it: [cert] vouches for [key] under
    [previous], at a level below [lvl] and inside [r]. *)
Definition vouched `{Primitives} (previous : public_key) (lvl : Z) (r : key_cert_restriction)
  (key : public_key) (cert : certificate) (d : key_certificate_data) : Prop :=
  (ct_verify_me cert previous = Ok true /\ ct_is_revoked cert previous = Ok false) /\
  pk_verify_me key = Ok true /\ ct_type cert = key_certificate_id /\ ct_issuer cert = pk_id previous /\
  extract_key_cert cert = Ok d /\ kc_subject d = pk_id key /\
  (exists i, ct_id cert = Ok i /\ i ∈ pk_certificate_ids key) /\
  kc_ca_level d < lvl /\ is_subset_of (kc_restrictions d) r = true.

Section lemmas.
Context `{Primitives}.

Lemma ct_is_authentic_ok c k : ct_is_authentic c k = Ok true <-> ct_verify_me c k = Ok true /\ ct_is_revoked c k = Ok false.
Proof.
  unfold ct_is_authentic. rewrite rbind_ok. split.
  - intros ([|] & H1 & H2); [|done]. apply rbind_ok in H2 as ([|] & H2 & H3); done.
  - intros [H1 H2]. exists true. split; [done|]. apply rbind_ok. by exists false.
Qed.

Lemma check_link_certificate_ok key cert prev :
  check_link_certificate key cert prev = Ok None <->
  (ct_verify_me cert prev = Ok true /\ ct_is_revoked cert prev = Ok false) /\
  pk_verify_me key = Ok true /\ ct_type cert = key_certificate_id /\ ct_issuer cert = pk_id prev.
Proof.
  unfold check_link_certificate. rewrite <- ct_is_authentic_ok, rbind_ok. split.
  - intros ([|] & H1 & H2); [|done]. split; [done|]. apply rbind_ok in H2 as ([|] & H2 & H3); [|done].
    split; [done|]. destruct (Z.eqb_spec (ct_type cert) key_certificate_id); [|done].
    cbn [negb] in H3. destruct (decide (pk_id prev = ct_issuer cert)) as [Hp|Hp].
    + done.
    + by rewrite bool_decide_eq_false_2 in H3.
  - intros (H1 & H2 & H3 & H4). exists true. split; [done|]. apply rbind_ok. exists true. split; [done|].
    rewrite H3, Z.eqb_refl, bool_decide_eq_true_2 by done. done.
Qed.

Lemma check_link_data_ok key cert d lvl r data' :
  check_link_data key cert d (CheckData lvl r) = Ok (None, data') <->
  kc_subject d = pk_id key /\ (exists i, ct_id cert = Ok i /\ i ∈ pk_certificate_ids key) /\
  kc_ca_level d < lvl /\ is_subset_of (kc_restrictions d) r = true /\
  data' = CheckData (kc_ca_level d) (kc_restrictions d).
Proof.
  unfold check_link_data, references_certificate. cbn [cd_ca_level cd_restriction].
  destruct (decide (kc_subject d = pk_id key)) as [Hs|Hs].
  - rewrite (bool_decide_eq_true_2 (kc_subject d = pk_id key)) by done. cbn [negb]. rewrite rbind_ok. split.
    + intros (i & Hi & HH). destruct (decide (i ∈ pk_certificate_ids key)) as [He|He];
        [rewrite bool_decide_eq_true_2 in HH by done|by rewrite bool_decide_eq_false_2 in HH].
      cbn [negb] in HH. destruct (Z.leb_spec lvl (kc_ca_level d)); [done|].
      destruct (is_subset_of _ _) eqn:Hsub; [|done]. cbn [negb] in HH. apply (ret_ok (E:=crypto_exn)) in HH. injection HH as <-. split_and!; eauto; done.
    + intros (_ & (i & Hi & He) & Hl & Hsub & ->). exists i. split; [done|].
      rewrite bool_decide_eq_true_2 by done. cbn [negb]. destruct (Z.leb_spec lvl (kc_ca_level d)); [lia|].
      by rewrite Hsub.
  - rewrite bool_decide_eq_false_2 by done. cbn [negb]. split; [done|tauto].
Qed.

Lemma check_link_ok key cert prev lvl r data' :
  check_link key cert prev (CheckData lvl r) = Ok (None, data') <->
  exists d, vouched prev lvl r key cert d /\ data' = CheckData (kc_ca_level d) (kc_restrictions d).
Proof.
  unfold check_link. rewrite rbind_ok. split.
  - intros ([e|] & H1 & H2); [done|]. apply check_link_certificate_ok in H1.
    apply rbind_ok in H2 as (d & H2 & H3). apply check_link_data_ok in H3. exists d. unfold vouched. tauto.
  - intros (d & HV & ->). unfold vouched in HV. exists None. split; [apply check_link_certificate_ok; tauto|].
    apply rbind_ok. exists d. split; [tauto|]. apply check_link_data_ok. tauto.
Qed.

(** The trusted store does not know the certificate as revoked. *)
Definition not_revoked_in_store (certs : cert_store) (previous : public_key) (cert : certificate) : Prop :=
  exists i, ct_id cert = Ok i /\
    match cs_find certs i with Some stored => ct_is_revoked stored previous = Ok false | None => True end.

Lemma is_revoked_in_store_ok certs prev cert :
  is_revoked_in_store certs prev cert = Ok false <-> not_revoked_in_store certs prev cert.
Proof.
  unfold is_revoked_in_store, not_revoked_in_store. rewrite rbind_ok.
  split; intros (i & Hi & HH); exists i; split; auto; destruct (cs_find certs i); done.
Qed.

(** A chain of links under [previous], each below the last in level, inside
    it in restriction, and unrevoked. *)
Inductive linked (certs : cert_store) : public_key -> Z -> key_cert_restriction -> list key_cert_pair -> Prop :=
| linked_nil previous lvl r : linked certs previous lvl r []
| linked_cons previous lvl r key cert d l :
    vouched previous lvl r key cert d ->
    not_revoked_in_store certs previous cert ->
    linked certs key (kc_ca_level d) (kc_restrictions d) l ->
    linked certs previous lvl r (KeyCertPair key cert :: l).

Lemma check_elements_ok certs l prev lvl r :
  check_elements certs l (ChainVerify prev lvl r) = Ok true <-> linked certs prev lvl r l.
Proof.
  revert prev lvl r; induction l as [|[key cert] l IH]; intros prev lvl r.
  - split; [by constructor|done].
  - cbn [check_elements]. unfold check_chain_element. cbn [kp_subject kp_cert cv_previous cv_ca_level cv_restriction].
    rewrite rbind_ok. split.
    + intros ([b v] & H1 & H2). apply rbind_ok in H1 as ([[e|] data] & H0 & H1).
      { apply (ret_ok (E:=crypto_exn)) in H1 as [= <- <-]. done. }
      apply check_link_ok in H0 as (d & HV & ->). apply rbind_ok in H1 as ([|] & Hs & H1).
      { apply (ret_ok (E:=crypto_exn)) in H1 as [= <- <-]. done. }
      apply is_revoked_in_store_ok in Hs. apply (ret_ok (E:=crypto_exn)) in H1 as [= <- <-]. cbn [fst snd cd_ca_level cd_restriction] in H2.
      apply IH in H2. by econstructor.
    + inversion 1 as [|? ? ? ? ? d ? HV Hs HL]; subst. exists (true, ChainVerify key (kc_ca_level d) (kc_restrictions d)).
      split; [|by apply IH]. apply rbind_ok. exists (None, CheckData (kc_ca_level d) (kc_restrictions d)).
      split; [apply check_link_ok; by exists d|]. apply rbind_ok. exists false. split; [by apply is_revoked_in_store_ok|done].
Qed.

(** The specification of an authentic chain. *)
Definition authentic (keys : key_store) (certs : cert_store) (c : certificate_chain) : Prop :=
  cc_chain c <> [] /\ cc_root_key_id c <> [] /\ zlen (cc_chain c) <= max_chain_length /\
  exists root, ks_root keys = Some root /\ pk_id root = cc_root_key_id c /\
    linked certs root int_max no_restriction (cc_chain c).

Lemma find_root_key_ok keys i root :
  find_root_key keys (Some i) = Some root <-> ks_root keys = Some root /\ pk_id root = i.
Proof.
  unfold find_root_key. destruct (ks_root keys) as [k|]; [|naive_solver].
  destruct (decide (i = pk_id k)) as [->|]; [rewrite bool_decide_eq_true_2 by done|rewrite bool_decide_eq_false_2 by done];
    naive_solver.
Qed.

Lemma is_authentic_spec keys certs c : is_authentic keys certs c = Ok true <-> authentic keys certs c.
Proof.
  unfold is_authentic, authentic, chain_is_valid. destruct (Z.ltb_spec max_chain_length (zlen (cc_chain c))) as [Hl|Hl].
  - split; [done|]. intros (_ & _ & ? & _). lia.
  - destruct (decide (cc_chain c = [])) as [Hc|Hc];
      [rewrite (bool_decide_eq_true_2 (cc_chain c = [])) by done; split; [done|tauto]|].
    destruct (decide (cc_root_key_id c = [])) as [Hr|Hr];
      [rewrite (bool_decide_eq_true_2 (cc_root_key_id c = [])) by done; rewrite andb_false_r; split; [done|tauto]|].
    rewrite !bool_decide_eq_false_2 by done. cbn [negb andb].
    destruct (find_root_key keys (Some (cc_root_key_id c))) as [root|] eqn:Ef.
    + apply find_root_key_ok in Ef as [E1 E2]. rewrite check_elements_ok. split.
      * intros HL. split_and!; auto. by exists root.
      * intros (_ & _ & _ & root' & E1' & E2' & HL). congruence.
    + split; [done|]. intros (_ & _ & _ & root' & E1' & E2' & HL).
      assert (find_root_key keys (Some (cc_root_key_id c)) = Some root') by (by apply find_root_key_ok). congruence.
Qed.

(** Levels fall along a chain, and every link is inside the first bound. *)
Lemma linked_bounds certs prev lvl r l p d :
  linked certs prev lvl r l -> last l = Some p -> extract_key_cert (kp_cert p) = Ok d ->
  kc_ca_level d + zlen l <= lvl /\ is_subset_of (kc_restrictions d) r = true.
Proof.
  intros HL; revert p d. induction HL as [|prev lvl r key cert d0 l HV Hs HL IH]; intros p d Hp Hd; [done|].
  unfold vouched in HV. destruct HV as (_ & _ & _ & _ & He & _ & _ & Hlvl & Hsub).
  destruct l as [|p' l'].
  - cbn in Hp. injection Hp as <-. cbn in Hd. assert (d = d0) as -> by congruence.
    rewrite zlen_cons, (zlen_nil (A:=key_cert_pair)). split; [lia|done].
  - destruct (IH p d Hp Hd) as [H1 H2]. rewrite zlen_cons. split; [lia|]. by eapply is_subset_of_trans.
Qed.

Lemma linked_snoc certs prev lvl r l p d key cert d' :
  linked certs prev lvl r l -> last l = Some p -> extract_key_cert (kp_cert p) = Ok d ->
  vouched (kp_subject p) (kc_ca_level d) (kc_restrictions d) key cert d' ->
  not_revoked_in_store certs (kp_subject p) cert ->
  linked certs prev lvl r (l ++ [KeyCertPair key cert]).
Proof.
  intros HL; revert p d. induction HL as [|prev lvl r key0 cert0 d0 l HV Hs HL IH]; intros p d Hp Hd HV' Hs'; [done|].
  cbn [app]. econstructor; [done|done|]. destruct l as [|p' l'].
  - cbn in Hp. injection Hp as <-. cbn in Hd, HV', Hs'.
    assert (d = d0) as -> by (unfold vouched in HV; destruct HV as (_ & _ & _ & _ & He & _); congruence).
    econstructor; [done|done|constructor].
  - by apply (IH p d).
Qed.
End lemmas.

(** ** Levels are 16-bit *)

Lemma sbind_ok {S E A B} (m : sexn S E A) (f : A -> sexn S E B) s b s' :
  (m ≫= f) s = (Ok b, s') -> exists a s1, m s = (Ok a, s1) /\ f a s1 = (Ok b, s').
Proof. unfold mbind, sexn_bind. destruct (m s) as [[a|e] s1]; [|done]. intros. by exists a, s1. Qed.

Lemma des_sequence_ok {A} (m : des A) s a s' :
  des_sequence m s = (Ok a, s') -> exists s1 s2, m s1 = (Ok a, s2).
Proof.
  unfold des_sequence. intros ([] & s1 & _ & HH)%sbind_ok. exists s1.
  unfold with_dtor in HH. destruct (m s1) as [[b|e] s2]; [|done]. injection HH as -> _. by exists s2.
Qed.

Lemma then_codec_ok {A B} (c1 : codec A) (c2 : codec B) s v s' :
  c_des (then_codec c1 c2) s = (Ok v, s') ->
  (exists s1 s2, c_des c1 s1 = (Ok (fst v), s2)) /\ (exists s1 s2, c_des c2 s1 = (Ok (snd v), s2)).
Proof.
  cbn [c_des then_codec]. intros (a & s1 & H1 & (b & s2 & H2 & HH)%sbind_ok)%sbind_ok.
  unfold mret, sexn_ret in HH. injection HH as <- _. apply amp_ok in H1 as [s3 H1]. split; eauto.
Qed.

Lemma iso_codec_ok {A B} (f : A -> B) g (c : codec A) s b s' :
  c_des (iso_codec f g c) s = (Ok b, s') -> exists a s2, c_des c s = (Ok a, s2) /\ b = f a.
Proof.
  cbn [c_des iso_codec]. intros (a & s1 & H1 & HH)%sbind_ok.
  unfold mret, sexn_ret in HH. injection HH as <- _. by exists a, s1.
Qed.

Lemma des_int_range t s v s' : it_signed t = false -> c_des (int_codec t) s = (Ok v, s') -> 0 <= v < 2 ^ it_bits t.
Proof.
  intros Ht. cbn [c_des int_codec]. unfold des_int. intros (a & s1 & H1 & HH)%sbind_ok.
  unfold mret, sexn_ret in HH. injection HH as <- _. unfold cast. rewrite Ht. apply wrap_range. unfold it_bits. lia.
Qed.

Lemma extract_ca_level `{Primitives} c d : extract_key_cert c = Ok d -> 0 <= kc_ca_level d < 65536.
Proof.
  unfold extract_key_cert. destruct (negb _); [done|]. unfold ser_result, asn_der_deserialise.
  destruct (amp _ _) as [[d0|e] s'] eqn:E; cbn [fst]; [|done]. intros [= ->].
  apply amp_ok in E as [s1 E]. cbn [c_des key_certificate_codec seq_codec] in E.
  apply des_sequence_ok in E as (s2 & s3 & E). unfold key_certificate_fields in E.
  apply iso_codec_ok in E as (v & s4 & E & ->). cbn [kc_ca_level].
  apply then_codec_ok in E as [_ (s5 & s6 & E)]. apply then_codec_ok in E as [_ (s7 & s8 & E)].
  apply then_codec_ok in E as [(s9 & s10 & E) _].
  apply des_int_range in E; [|done]. change (2 ^ it_bits u16) with 65536 in E. exact E.
Qed.

(** ** The chain builder *)

Definition fuelled {A} (r : cres A) : Prop := r <> Throw NoFuel.

Lemma fuelled_bind {A B} (m : cres A) (f : A -> cres B) :
  fuelled m -> (forall a, m = Ok a -> fuelled (f a)) -> fuelled (m ≫= f).
Proof. unfold fuelled, mbind, result_bind. destruct m as [a|e]; [auto|]. intros Hm _ [= ->]. by apply Hm. Qed.
Lemma fuelled_ret {A} (a : A) : fuelled (mret a).
Proof. done. Qed.
Lemma fuelled_ok {A} (a : A) : fuelled (Ok a).
Proof. done. Qed.
Lemma fuelled_throw {A} e : e <> NoFuel -> @fuelled A (Throw e).
Proof. unfold fuelled. congruence. Qed.
Lemma fuelled_ser {A} (r : result ser_exn A) : fuelled (ser_result r).
Proof. by destruct r. Qed.
Lemma fuelled_if {A} (b : bool) (m1 m2 : cres A) : fuelled m1 -> fuelled m2 -> fuelled (if b then m1 else m2).
Proof. by destruct b. Qed.
Create HintDb fuelled.
#[export] Hint Resolve fuelled_bind fuelled_ret fuelled_ok fuelled_ser fuelled_if : fuelled.
#[export] Hint Extern 1 (fuelled (Throw _)) => apply fuelled_throw; discriminate : fuelled.

Section fuelled.
Context `{Primitives}.

Lemma fuelled_pk_verify k sg d c : fuelled (pk_verify k sg d c).
Proof. unfold pk_verify, frame_message, verify_framed, pk_is_valid, parameters. auto 12 with fuelled. Qed.
Hint Resolve fuelled_pk_verify : fuelled.

Lemma fuelled_extract c : fuelled (extract_key_cert c).
Proof. unfold extract_key_cert. auto with fuelled. Qed.
Lemma fuelled_ct_id c : fuelled (ct_id c).
Proof. unfold ct_id. auto with fuelled. Qed.
Lemma fuelled_verify_me k : fuelled (pk_verify_me k).
Proof. unfold pk_verify_me. auto 8 with fuelled. Qed.
Hint Resolve fuelled_extract fuelled_ct_id fuelled_verify_me : fuelled.
Lemma fuelled_is_revoked c k : fuelled (ct_is_revoked c k).
Proof. unfold ct_is_revoked, rv_verify_me. destruct (ct_revocation c); auto 8 with fuelled. Qed.
Hint Resolve fuelled_is_revoked : fuelled.
Lemma fuelled_ct_is_authentic c k : fuelled (ct_is_authentic c k).
Proof. unfold ct_is_authentic, ct_verify_me. auto 8 with fuelled. Qed.
Hint Resolve fuelled_ct_is_authentic : fuelled.

Lemma fuelled_check_link key cert prev data : fuelled (check_link key cert prev data).
Proof.
  unfold check_link, check_link_certificate. apply fuelled_bind; [auto 12 with fuelled|].
  intros [e|] _; [done|]. apply fuelled_bind; [auto with fuelled|]. intros d _.
  unfold check_link_data. auto 12 with fuelled.
Qed.

Lemma fuelled_check_elements certs l v : fuelled (check_elements certs l v).
Proof.
  revert v; induction l as [|e l IH]; intros v; cbn [check_elements]; [done|].
  apply fuelled_bind; [|auto with fuelled]. unfold check_chain_element. apply fuelled_bind; [apply fuelled_check_link|].
  intros [[err|] data] _; [done|]. apply fuelled_bind; [|auto with fuelled].
  unfold is_revoked_in_store. apply fuelled_bind; [auto with fuelled|]. intros i _. destruct (cs_find certs i); auto with fuelled.
Qed.

Lemma fuelled_is_authentic keys certs c : fuelled (is_authentic keys certs c).
Proof.
  unfold is_authentic. destruct (_ <? _); [done|]. destruct (negb _); [done|].
  destruct (find_root_key _ _); [apply fuelled_check_elements|done].
Qed.

Lemma fuelled_try_complete keys certs cert l : fuelled (try_complete keys certs cert l).
Proof. unfold try_complete. apply fuelled_bind; [apply fuelled_is_authentic|done]. Qed.

(** Every round raises the level, which stays below 65536. *)
Definition enough_fuel (fuel : nat) (last : option Z) : Prop :=
  match last with
  | None => 65536 < Z.of_nat fuel
  | Some lvl => lvl < 65536 /\ 65536 <= Z.of_nat fuel + lvl
  end.

Lemma fuelled_build_list keys certs fuel subject last l :
  enough_fuel fuel last -> fuelled (build_list keys certs fuel subject last l).
Proof.
  revert subject last l; induction fuel as [|fuel IH]; intros subject last l Hf.
  { exfalso. destruct last as [lvl|]; unfold enough_fuel in Hf; lia. }
  cbn [build_list]. induction (pk_certificate_ids subject) as [|i ids IHids]; [done|].
  apply fuelled_bind; [|intros [cc|] _; [done|exact IHids]].
  destruct (cs_find certs i) as [cert|]; [|done].
  destruct (negb _); [done|]. apply fuelled_bind; [auto with fuelled|]. intros d Hd.
  apply extract_ca_level in Hd.
  destruct (match last with None => true | Some lvl => lvl <? kc_ca_level d end) eqn:Hl; [|done].
  destruct (find_root_key _ _); [apply fuelled_try_complete|].
  destruct (ks_find _ _) as [key|]; [|done]. apply IH. unfold enough_fuel in *.
  destruct last as [lvl|]; [apply Z.ltb_lt in Hl|]; lia.
Qed.

(** What the builder returns is authentic and ends at the first subject. *)
Lemma build_list_ok keys certs fuel subject last l cc s0 :
  build_list keys certs fuel subject last l = Ok (Some cc) ->
  match l with [] => s0 = subject | p :: _ => kp_subject p = s0 end ->
  authentic keys certs cc /\ chain_subject cc = Ok s0.
Proof.
  revert subject last l; induction fuel as [|fuel IH]; intros subject last l Hb Hs0; [done|].
  cbn [build_list] in Hb. induction (pk_certificate_ids subject) as [|i ids IHids]; [done|].
  apply rbind_ok in Hb as ([cc'|] & Hc & Hb); [|by apply IHids]. injection Hb as ->.
  destruct (cs_find certs i) as [cert|]; [|done].
  destruct (negb _); [done|]. apply rbind_ok in Hc as (d & Hd & Hc).
  destruct (match last with None => true | Some lvl => lvl <? kc_ca_level d end) eqn:Hl; [|done].
  assert (match l ++ [KeyCertPair subject cert] with [] => s0 = subject | p :: _ => kp_subject p = s0 end) as Hs1
    by (destruct l; cbn; congruence).
  destruct (find_root_key _ _).
  - unfold try_complete in Hc. apply rbind_ok in Hc as ([|] & Ha & Hc); [|done]. injection Hc as <-.
    apply is_authentic_spec in Ha. split; [done|]. destruct Ha as (H1 & H2 & _).
    unfold chain_subject, chain_is_valid. rewrite !bool_decide_eq_false_2 by done. cbn [negb andb cc_chain new_chain].
    destruct (l ++ [KeyCertPair subject cert]) as [|p0 l'] eqn:El; [by destruct l|]. cbn [rev].
    rewrite last_snoc. by rewrite Hs1.
  - destruct (ks_find _ _) as [key|]; [|done]. apply (IH key (Some (kc_ca_level d)) (l ++ [KeyCertPair subject cert]) Hc).
    by destruct l.
Qed.
End fuelled.

(** ** Properties *)

(** C14: [is_authentic] accepts exactly the authentic chains: at most sixteen
    links starting at the known root key, in which every certificate carries a
    valid, unrevoked signature of the key before it, names and is referenced by
    the self-signed key it vouches for, grants a strictly lower level and a
    subset of the restriction before it, and is not revoked in the verifier's
    own store either. *)
Theorem is_authentic_iff `{Primitives} (keys : key_store) (certs : cert_store) (c : certificate_chain) :
  is_authentic keys certs c = Ok true <-> authentic keys certs c.
Proof. apply is_authentic_spec. Qed.

(** C38: a host accepted for a chain is inside every restriction of the chain,
    not only the last one, and each certificate's level bounds the number of
    links below it. *)
Theorem authentic_host_everywhere `{Primitives} (keys : key_store) (certs : cert_store) (host : key_cert_restriction)
  (c : certificate_chain) (before : list key_cert_pair) (p : key_cert_pair) (after : list key_cert_pair)
  (Ha : is_authentic_for keys certs host c = Ok true) (Hc : cc_chain c = before ++ p :: after) :
  exists d, extract_key_cert (kp_cert p) = Ok d /\ is_subset_of host (kc_restrictions d) = true /\
    zlen after <= kc_ca_level d.
Proof.
  unfold is_authentic_for in Ha. apply rbind_ok in Ha as ([|] & Ha & Hr); [|done].
  apply rbind_ok in Hr as (r & Hr & Hsub). injection Hsub as Hsub.
  apply is_authentic_spec in Ha as (_ & _ & _ & root & _ & _ & HL).
  unfold subject_restrictions, subject_key_cert in Hr. destruct (negb _); [done|].
  rewrite Hc in Hr, HL. clear Hc. generalize dependent HL. generalize root int_max no_restriction.
  induction before as [|q before IH]; intros prev lvl r0 HL.
  - inversion HL as [|? ? ? key cert d l HV Hs HL']; subst. exists d. cbn [kp_cert].
    assert (extract_key_cert cert = Ok d) as He by (unfold vouched in HV; tauto). split; [done|].
    destruct after as [|p' after].
    + cbn in Hr. rewrite He in Hr. apply rbind_ok in Hr as (d' & [= <-] & Hr). injection Hr as <-.
      split; [done|]. rewrite (zlen_nil (A:=key_cert_pair)). apply extract_ca_level in He. lia.
    + destruct (last (p' :: after)) as [pl|] eqn:Elast; [|by apply last_None in Elast].
      assert (last ([] ++ KeyCertPair key cert :: p' :: after) = Some pl) as El by (rewrite <- Elast; done).
      rewrite El in Hr. apply rbind_ok in Hr as (d' & Hd' & Hr). injection Hr as <-.
      destruct (linked_bounds _ _ _ _ _ _ _ HL' Elast Hd') as [H1 H2].
      pose proof (extract_ca_level _ _ Hd'). split; [by eapply is_subset_of_trans|lia].
  - inversion HL as [|? ? ? key cert d l HV Hs HL']; subst.
    refine (IH _ _ _ _ HL'). rewrite <- Hr. cbn [app]. by destruct before.
Qed.

(** extending keeps a chain authentic: when [add_link] accepts a link to an
    authentic chain with room left and the store does not know the new
    certificate as revoked, the result is authentic and ends at the new key. *)
Theorem add_link_authentic `{Primitives} (keys : key_store) (certs : cert_store) (key : public_key) (cert : certificate)
  (c c' : certificate_chain) (subj : public_key)
  (Ha : is_authentic keys certs c = Ok true) (Hl : zlen (cc_chain c) < max_chain_length)
  (Hs : chain_subject c = Ok subj) (Hr : not_revoked_in_store certs subj cert)
  (Hadd : add_link key cert c = Ok c') :
  is_authentic keys certs c' = Ok true /\ chain_subject c' = Ok key.
Proof.
  apply is_authentic_spec in Ha as (H1 & H2 & H3 & root & H4 & H5 & HL).
  unfold add_link in Hadd. rewrite bool_decide_eq_false_2 in Hadd by done.
  apply rbind_ok in Hadd as (lvl & Hlvl & Hadd). apply rbind_ok in Hadd as (rest & Hrest & Hadd).
  apply rbind_ok in Hadd as (subj' & Hs' & Hadd). assert (subj' = subj) as -> by congruence.
  apply rbind_ok in Hadd as ([[e|] data] & Hlink & Hadd); cbn [fst] in Hadd; [done|]. injection Hadd as <-.
  unfold subject_ca_level, subject_restrictions, subject_key_cert in Hlvl, Hrest. unfold chain_subject in Hs.
  assert (chain_is_valid c = true) as Hv by (unfold chain_is_valid; by rewrite !bool_decide_eq_false_2).
  rewrite Hv in Hlvl, Hrest, Hs. cbn [negb] in Hlvl, Hrest, Hs.
  destruct (last (cc_chain c)) as [p|] eqn:Elast; [|done]. injection Hs as Hs.
  apply rbind_ok in Hlvl as (d & Hd & Hlvl). apply rbind_ok in Hrest as (d' & Hd' & Hrest).
  assert (d' = d) as -> by congruence. injection Hlvl as <-. injection Hrest as <-.
  apply check_link_ok in Hlink as (dn & HV & _). rewrite <- Hs in HV, Hr.
  split.
  - apply is_authentic_spec. unfold authentic. cbn [push_link cc_chain cc_root_key_id]. split_and!; [by destruct (cc_chain c)|done| |].
    + rewrite zlen_app, zlen_cons, (zlen_nil (A:=key_cert_pair)). lia.
    + exists root. split_and!; auto. by eapply linked_snoc.
  - unfold chain_subject, chain_is_valid. cbn [push_link cc_chain cc_root_key_id].
    rewrite !bool_decide_eq_false_2; [|done|by destruct (cc_chain c)]. cbn [negb andb]. by rewrite last_snoc.
Qed.

(** C36: building a chain always ends, whatever cycles the stored keys and
    certificates form, and a chain it returns is authentic and ends at the key
    it was asked for. *)
Theorem create_certificate_chain_sound `{Primitives} (keys : key_store) (certs : cert_store) (subject : public_key) :
  create_certificate_chain keys certs subject <> Throw NoFuel /\
  (forall cc, create_certificate_chain keys certs subject = Ok (Some cc) ->
     is_authentic keys certs cc = Ok true /\ chain_subject cc = Ok subject).
Proof.
  split.
  - apply fuelled_build_list. unfold enough_fuel. rewrite Z2Nat.id by lia. lia.
  - intros cc Hcc. rewrite is_authentic_spec. by apply (build_list_ok _ _ _ _ _ _ _ _ Hcc).
Qed.

(** ** Concrete chains *)

Definition get_ok {A} (d : A) (r : cres A) : A := match r with Ok a => a | Throw _ => d end.

(** Certify the key of [sub] with [issuer] at a level for a host, and sign the
    key again with the reference to the certificate. *)
Definition demo_link (issuer sub : private_key) (level : Z) (host : octets) : key_cert_pair :=
  let cert := get_ok (new_certificate 0 []) (@create_key_certificate demo issuer [] (KeyCertData 1 (sk_id sub) level (Restriction host []) [] [])) in
  let i := get_ok [] (@ct_id demo cert) in
  KeyCertPair (get_ok (sk_public sub) (@pk_sign_me demo sub [] (add_certificate_id i (sk_public sub)))) cert.

Definition demo_sub : private_key := Eval vm_compute in demo_sk [6].
Definition demo_leaf : private_key := Eval vm_compute in demo_sk [7].
Definition demo_link1 : key_cert_pair := Eval vm_compute in demo_link demo_key demo_sub 2 [98].
Definition demo_link2 : key_cert_pair := Eval vm_compute in demo_link demo_sub demo_leaf 1 [97; 46; 66].
Definition demo_keys : key_store := KeyStore (Some (sk_public demo_key)) (fun _ => Some (kp_subject demo_link1)).
Definition demo_certs : cert_store := CertStore (fun i =>
  if bool_decide (i ∈ pk_certificate_ids (kp_subject demo_link1)) then Some (kp_cert demo_link1)
  else if bool_decide (i ∈ pk_certificate_ids (kp_subject demo_link2)) then Some (kp_cert demo_link2) else None).
Definition demo_chain : certificate_chain := new_chain (sk_id demo_key) [demo_link1; demo_link2].

Lemma authentic_host_everywhere_witness :
  exists d, @extract_key_cert (kp_cert demo_link1) = Ok d /\
    is_subset_of (Restriction [120; 46; 97; 46; 98] []) (kc_restrictions d) = true /\ zlen [demo_link2] <= kc_ca_level d.
Proof.
  apply (@authentic_host_everywhere demo demo_keys demo_certs (Restriction [120; 46; 97; 46; 98] []) demo_chain
    [] demo_link1 [demo_link2]); [vm_compute; reflexivity|reflexivity].
Defined.

Lemma add_link_authentic_witness :
  @is_authentic demo demo_keys demo_certs demo_chain = Ok true /\ chain_subject demo_chain = Ok (kp_subject demo_link2).
Proof.
  apply (@add_link_authentic demo demo_keys demo_certs (kp_subject demo_link2) (kp_cert demo_link2)
    (new_chain (sk_id demo_key) [demo_link1]) demo_chain (kp_subject demo_link1)).
  - vm_compute. reflexivity.
  - vm_compute. reflexivity.
  - reflexivity.
  - exists (get_ok [] (@ct_id demo (kp_cert demo_link2))). split; vm_compute; reflexivity.
  - vm_compute. reflexivity.
Defined.

Example create_demo_chain :
  @create_certificate_chain demo demo_keys demo_certs (kp_subject demo_link2) = Ok (Some demo_chain).
Proof. vm_compute. reflexivity. Qed.
