(* ===== verification/Gcm.v ===== *)
(** AES in counter mode, incremental and authenticated: [crypto/aes_gcm.cpp],
    [crypto/aes.cpp].

    Botan's ciphers are the class [Aes]: the key stream of its [StreamCipher] and
    its one-shot AEAD.  The library feeds a message in pieces of additional data
    and of text, in any order; the class [AesGcm] is what the standard says of
    the one-shot form, and the theorems say that the pieces come to the same. *)

From stdpp Require Import base list numbers.
From Stdlib Require Import ZArith Lia.
From S2P Require Import Prelude ByteOrder.
Open Scope Z_scope.

Class Aes : Type := {
  (** octet [i] of the key stream of "CTR-BE(AES-256,counter_size)" *)
  keystream (counter_size : Z) (key iv : octets) (i : Z) : Z;
  (** "AES-256/GCM", encrypting: the ciphertext followed by the tag *)
  gcm_seal (key nonce aad plain : octets) : octets;
  (** decrypting; [None] for [Invalid_Authentication_Tag] *)
  gcm_unseal (key nonce aad sealed : octets) : option octets
}.

(** [StreamCipher::cipher]: the input and the key stream from a position on. *)
Fixpoint xor_at (ks : Z -> Z) (i : Z) (data : octets) : octets :=
  match data with
  | [] => []
  | b :: data => Z.lxor b (ks i) :: xor_at ks (i + 1) data
  end.

(** ** Sizes *)

Definition gcm_block_tag_size : Z := 16.
Definition aes_gcm_key_size : Z := 32.
Definition aes_gcm_iv_size : Z := 12.
Definition aes_gcm_tag_size : Z := gcm_block_tag_size.
Definition aes_gcm_max_data_size : Z := (Z.shiftl 1 39 - 256) / 8.
Definition aes_gcm_implicit_counter_iv_size : Z := 4.

(** NIST SP 800-38D for 96-bit nonces: counter mode, and a tag that decryption
    compares. *)
Class AesGcm `{Aes} : Prop := {
  seal_is_ctr key nonce aad plain :
    zlen key = aes_gcm_key_size -> zlen nonce = aes_gcm_iv_size -> zlen plain <= aes_gcm_max_data_size ->
    exists tag, zlen tag = aes_gcm_tag_size /\
      gcm_seal key nonce aad plain = xor_at (keystream 4 key (nonce ++ [0; 0; 0; 2])) 0 plain ++ tag;
  unseal_iff key nonce aad plain sealed :
    zlen key = aes_gcm_key_size -> zlen nonce = aes_gcm_iv_size ->
    gcm_unseal key nonce aad sealed = Some plain <->
    zlen plain <= aes_gcm_max_data_size /\ sealed = gcm_seal key nonce aad plain
}.

(** ** The cipher *)

Inductive cipher_exn : Type :=
| InvalidKeySize | InvalidIvSize | ConstraintViolation | InvalidArgument | InvalidState | NotSupported.

(** The derived classes: [single_message_gcm] and [implicit_counter_gcm] with its
    [iv_] and [counter_]. *)
Inductive gcm_variant : Type :=
| single_message
| implicit_counter (iv : octets) (counter : Z).

Record gcm_stream_cipher : Type := GcmStreamCipher {
  gc_key : octets;
  gc_encrypt : bool;
  gc_finished : bool;
  gc_ctr : octets * Z;        (** the counter mode cipher: its iv, its position *)
  gc_nonce : octets;
  gc_aad : octets;
  gc_plain : octets;
  gc_variant : gcm_variant
}.

Definition set_variant (v : gcm_variant) (c : gcm_stream_cipher) : gcm_stream_cipher :=
  GcmStreamCipher (gc_key c) (gc_encrypt c) (gc_finished c) (gc_ctr c) (gc_nonce c) (gc_aad c) (gc_plain c) v.

(** A call: what it returns or throws, and the cipher afterwards. *)
Abbreviation call A := (gcm_stream_cipher -> result cipher_exn A * gcm_stream_cipher).

Definition check_usable {A} (k : call A) : call A := fun c => if gc_finished c then (Throw InvalidState, c) else k c.

Definition start (nonce : octets) : call unit := fun c =>
  if negb (zlen nonce =? aes_gcm_iv_size) then (Throw InvalidIvSize, c)
  else (Ok tt, GcmStreamCipher (gc_key c) (gc_encrypt c) (gc_finished c) (nonce ++ [0; 0; 0; 2], 0) nonce [] [] (gc_variant c)).

Definition finish (c : gcm_stream_cipher) : gcm_stream_cipher :=
  GcmStreamCipher (gc_key c) (gc_encrypt c) true (gc_ctr c) (gc_nonce c) [] [] (gc_variant c).

Definition next_nonce (iv : octets) (counter : Z) : octets := iv ++ to_endian big u64 counter.

(** [start(next_nonce())]: the counter has advanced even if that throws. *)
Definition start_next (iv : octets) (counter : Z) : call unit := fun c =>
  start (next_nonce iv counter) (set_variant (implicit_counter iv (wrap 64 (counter + 1))) c).

Definition after_tag : call unit := fun c =>
  match gc_variant c with
  | single_message => (Ok tt, finish c)
  | implicit_counter iv counter => start_next iv counter c
  end.

Definition seek (counter : Z) : call unit := fun c =>
  match gc_variant c with
  | single_message => (Throw NotSupported, c)
  | implicit_counter iv _ => start_next iv counter c
  end.

Definition process_auth (data : octets) : call unit := check_usable (fun c =>
  (Ok tt, GcmStreamCipher (gc_key c) (gc_encrypt c) (gc_finished c) (gc_ctr c) (gc_nonce c) (gc_aad c ++ data) (gc_plain c) (gc_variant c))).

Section ciphers.
Context `{Aes}.

(** [in_place]: the output goes over the input. *)
Definition process_to (in_place : bool) (data : octets) : call octets := check_usable (fun c =>
  if wrap 64 (aes_gcm_max_data_size - zlen (gc_plain c)) <? zlen data then (Throw ConstraintViolation, c)
  else
    let '(iv, pos) := gc_ctr c in
    let out := xor_at (keystream 4 (gc_key c) iv) pos data in
    let begin := if in_place then out else data in    (** the input, after it was processed *)
    let plain := if gc_encrypt c then begin else out in
    (Ok out, GcmStreamCipher (gc_key c) (gc_encrypt c) (gc_finished c) (iv, pos + zlen data) (gc_nonce c) (gc_aad c)
               (gc_plain c ++ plain) (gc_variant c))).

(** [stream_cipher::process] of a vector: the result is another one. *)
Definition process : octets -> call octets := process_to false.

Definition tag_of_size (tag_size : Z) : call octets := check_usable (fun c =>
  if (tag_size =? 0) || (gcm_block_tag_size <? tag_size) then (Throw InvalidArgument, c)
  else
    let buf := gcm_seal (gc_key c) (gc_nonce c) (gc_aad c) (gc_plain c) in
    match after_tag c with
    | (Ok _, c) => (Ok (ztake tag_size (zdrop (zlen buf - gcm_block_tag_size) buf)), c)
    | (Throw e, c) => (Throw e, c)
    end).

(** [auth_stream_cipher::tag] *)
Definition tag : call octets := tag_of_size gcm_block_tag_size.

(** The constructor of the base class. *)
Definition new_cipher (key : octets) (encrypt : bool) (v : gcm_variant) : result cipher_exn gcm_stream_cipher :=
  if negb (zlen key =? aes_gcm_key_size) then Throw InvalidKeySize
  else Ok (GcmStreamCipher key encrypt false ([], 0) [] [] [] v).

Definition constructed (r : result cipher_exn unit * gcm_stream_cipher) : result cipher_exn gcm_stream_cipher :=
  match r with (Ok _, c) => Ok c | (Throw e, _) => Throw e end.

Definition single_message_gcm (key nonce : octets) (encrypt : bool) : result cipher_exn gcm_stream_cipher :=
  c ← new_cipher key encrypt single_message;
  constructed (start nonce c).

Definition implicit_counter_gcm (key iv : octets) (counter : Z) (encrypt : bool) : result cipher_exn gcm_stream_cipher :=
  c ← new_cipher key encrypt (implicit_counter iv counter);
  if negb (zlen iv =? aes_gcm_implicit_counter_iv_size) then Throw InvalidIvSize
  else constructed (start_next iv counter c).

Definition create_aes_gcm_stream_encryptor (key iv : octets) := single_message_gcm key iv true.
Definition create_aes_gcm_stream_decryptor (key iv : octets) := single_message_gcm key iv false.
Definition create_aes_gcm_implicit_counter_stream_encryptor (key iv : octets) (counter : Z) := implicit_counter_gcm key iv counter true.
Definition create_aes_gcm_implicit_counter_stream_decryptor (key iv : octets) (counter : Z) := implicit_counter_gcm key iv counter false.

(** [constant_time_compare] compares octets. *)
Definition tag_matches (l r : octets) : bool := (zlen l =? zlen r) && bool_decide (l = r).

(** ** AES in counter mode alone *)

Record aes_ctr_stream_cipher : Type := AesCtr { ac_key : octets; ac_iv : octets; ac_pos : Z }.

Definition aes_stream_cipher_key_size : Z := 32.
Definition aes_stream_cipher_iv_size : Z := 16.

Definition create_aes_stream_cipher (key iv : octets) : result cipher_exn aes_ctr_stream_cipher :=
  if negb (zlen key =? aes_stream_cipher_key_size) then Throw InvalidKeySize
  else if negb (zlen iv =? aes_stream_cipher_iv_size) then Throw InvalidIvSize
  else Ok (AesCtr key iv 0).

Definition ctr_process (data : octets) (c : aes_ctr_stream_cipher) : octets * aes_ctr_stream_cipher :=
  (xor_at (keystream 16 (ac_key c) (ac_iv c)) (ac_pos c) data, AesCtr (ac_key c) (ac_iv c) (ac_pos c + zlen data)).

Definition ctr_seek (pos : Z) (c : aes_ctr_stream_cipher) : aes_ctr_stream_cipher := AesCtr (ac_key c) (ac_iv c) pos.

(** ** A message in pieces *)

Inductive piece : Type := Auth (data : octets) | Text (data : octets).

Definition auth_of (ps : list piece) : octets := concat (map (fun p => match p with Auth d => d | Text _ => [] end) ps).
Definition text_of (ps : list piece) : octets := concat (map (fun p => match p with Auth _ => [] | Text d => d end) ps).

(** Feeds the pieces, appending what [process] returns. *)
Fixpoint feed (ps : list piece) (c : gcm_stream_cipher) : result cipher_exn octets * gcm_stream_cipher :=
  match ps with
  | [] => (Ok [], c)
  | Auth d :: ps =>
      match process_auth d c with (Ok _, c) => feed ps c | (Throw e, c) => (Throw e, c) end
  | Text d :: ps =>
      match process d c with
      | (Ok out, c) => match feed ps c with (Ok rest, c) => (Ok (out ++ rest), c) | r => r end
      | (Throw e, c) => (Throw e, c)
      end
  end.

(** A whole message: its output and its tag. *)
Definition message (ps : list piece) (c : gcm_stream_cipher) : result cipher_exn (octets * octets) * gcm_stream_cipher :=
  match feed ps c with
  | (Ok out, c) => match tag c with (Ok t, c) => (Ok (out, t), c) | (Throw e, c) => (Throw e, c) end
  | (Throw e, c) => (Throw e, c)
  end.

Fixpoint messages (ms : list (list piece)) (c : gcm_stream_cipher) : result cipher_exn (list (octets * octets)) * gcm_stream_cipher :=
  match ms with
  | [] => (Ok [], c)
  | m :: ms =>
      match message m c with
      | (Ok o, c) => match messages ms c with (Ok os, c) => (Ok (o :: os), c) | r => r end
      | (Throw e, c) => (Throw e, c)
      end
  end.
End ciphers.

(** ** Lemmas *)

Lemma zlen_xor_at ks i data : zlen (xor_at ks i data) = zlen data.
Proof. revert i. induction data as [|b data IH]; intros i; cbn [xor_at]; [done|]. by rewrite !zlen_cons, IH. Qed.
#[export] Hint Rewrite zlen_xor_at : zlen.

Lemma xor_at_app ks i a b : xor_at ks i (a ++ b) = xor_at ks i a ++ xor_at ks (i + zlen a) b.
Proof.
  revert i. induction a as [|x a IH]; intros i; cbn [xor_at app]; [by rewrite zlen_nil, Z.add_0_r|].
  rewrite IH, zlen_cons. do 3 f_equal. lia.
Qed.

Lemma xor_at_twice ks i data : xor_at ks i (xor_at ks i data) = data.
Proof.
  revert i. induction data as [|b data IH]; intros i; cbn [xor_at]; [done|].
  by rewrite IH, Z.lxor_assoc, Z.lxor_nilpotent, Z.lxor_0_r.
Qed.

Lemma app_same_size {A} (a a' b b' : list A) : zlen b = zlen b' -> a ++ b = a' ++ b' -> a = a' /\ b = b'.
Proof. unfold zlen. intros Hb E. apply app_inj_2; [lia|done]. Qed.

Lemma zlen_next_nonce iv counter : zlen (next_nonce iv counter) = zlen iv + 8.
Proof. unfold next_nonce. by rewrite zlen_app, zlen_to_endian. Qed.

(** Different counters, different nonces. *)
Lemma next_nonce_inj iv n m : 0 <= n < 2 ^ 64 -> 0 <= m < 2 ^ 64 -> next_nonce iv n = next_nonce iv m -> n = m.
Proof.
  intros Hn Hm E%app_inv_head%(f_equal (from_endian big u64)).
  rewrite !from_to_endian in E by first [done|cbn; lia]. done.
Qed.

(** The message that the clients send: the iv and then the data. *)
Lemma two_pieces a d : auth_of [Auth a; Text d] = a /\ text_of [Auth a; Text d] = d.
Proof. unfold auth_of, text_of. cbn. by rewrite !app_nil_r. Qed.

Section lemmas.
Context `{AesGcm}.

Definition data_keys (key nonce : octets) : Z -> Z := keystream 4 key (nonce ++ [0; 0; 0; 2]).

(** A cipher in the middle of a message, its additional data and its input so far. *)
Definition cipher_at (key nonce : octets) (encrypt : bool) (v : gcm_variant) (aad text : octets) : gcm_stream_cipher :=
  GcmStreamCipher key encrypt false (nonce ++ [0; 0; 0; 2], zlen text) nonce aad
    (if encrypt then text else xor_at (data_keys key nonce) 0 text) v.

Lemma process_at key nonce enc v aad text d : zlen text + zlen d <= aes_gcm_max_data_size ->
  process d (cipher_at key nonce enc v aad text) =
  (Ok (xor_at (data_keys key nonce) (zlen text) d), cipher_at key nonce enc v aad (text ++ d)).
Proof.
  intros Hl. unfold process, process_to, check_usable, cipher_at. cbn -[aes_gcm_max_data_size Z.sub].
  assert (zlen (if enc then text else xor_at (data_keys key nonce) 0 text) = zlen text) as -> by (destruct enc; [done|apply zlen_xor_at]).
  pose proof (zlen_nonneg text). pose proof (zlen_nonneg d).
  assert (aes_gcm_max_data_size < 2 ^ 64) as Hm by reflexivity. rewrite wrap_small by lia.
  destruct (Z.ltb_spec (aes_gcm_max_data_size - zlen text) (zlen d)); [lia|].
  rewrite zlen_app. destruct enc; [done|]. by rewrite (xor_at_app (data_keys key nonce) 0 text d), Z.add_0_l.
Qed.

Lemma feed_at ps key nonce enc v aad text : zlen text + zlen (text_of ps) <= aes_gcm_max_data_size ->
  feed ps (cipher_at key nonce enc v aad text) =
  (Ok (xor_at (data_keys key nonce) (zlen text) (text_of ps)), cipher_at key nonce enc v (aad ++ auth_of ps) (text ++ text_of ps)).
Proof.
  revert aad text. induction ps as [|[d|d] ps IH]; intros aad text Hl; [by cbn; rewrite !app_nil_r|..].
  - change (text_of (Auth d :: ps)) with (text_of ps) in *. change (auth_of (Auth d :: ps)) with (d ++ auth_of ps).
    cbn [feed]. change (process_auth d (cipher_at key nonce enc v aad text)) with (@Ok cipher_exn _ tt, cipher_at key nonce enc v (aad ++ d) text).
    cbn iota. by rewrite IH, app_assoc.
  - change (text_of (Text d :: ps)) with (d ++ text_of ps) in *. change (auth_of (Text d :: ps)) with (auth_of ps).
    rewrite zlen_app in Hl. pose proof (zlen_nonneg (text_of ps)). cbn [feed]. rewrite process_at by lia.
    rewrite IH by (rewrite zlen_app; lia). by rewrite xor_at_app, zlen_app, app_assoc.
Qed.

(** The tag is Botan's, over what the cipher has as the plaintext. *)
Lemma tag_at (key nonce : octets) (enc : bool) v aad (text : octets) c' (plain := if enc then text else xor_at (data_keys key nonce) 0 text) :
  zlen key = aes_gcm_key_size -> zlen nonce = aes_gcm_iv_size -> zlen text <= aes_gcm_max_data_size ->
  after_tag (cipher_at key nonce enc v aad text) = (Ok tt, c') ->
  exists t, zlen t = aes_gcm_tag_size /\ tag (cipher_at key nonce enc v aad text) = (Ok t, c') /\
    gcm_seal key nonce aad plain = xor_at (data_keys key nonce) 0 plain ++ t.
Proof.
  intros Hk Hn Hl Ha. destruct (seal_is_ctr key nonce aad plain Hk Hn) as (t & Ht & E).
  { unfold plain. destruct enc; [done|]. by rewrite zlen_xor_at. }
  exists t. split_and!; [done| |done]. unfold tag, tag_of_size, check_usable. rewrite Ha.
  change ((gcm_block_tag_size =? 0) || _) with false.
  cbn [cipher_at gc_finished gc_key gc_nonce gc_aad gc_plain]. fold plain. rewrite E, zlen_app, Ht.
  change aes_gcm_tag_size with gcm_block_tag_size in *. rewrite Z.add_simpl_r, zdrop_app, <- Ht.
  by rewrite ztake_all.
Qed.
End lemmas.

Section messages.
Context `{AesGcm}.

Definition fits (m : list piece) : Prop := zlen (text_of m) <= aes_gcm_max_data_size.

(** A whole message is the one-shot form, when the cipher can go on after it. *)
Lemma message_at m key nonce enc v c' (out := xor_at (data_keys key nonce) 0 (text_of m)) :
  zlen key = aes_gcm_key_size -> zlen nonce = aes_gcm_iv_size -> fits m ->
  after_tag (cipher_at key nonce enc v (auth_of m) (text_of m)) = (Ok tt, c') ->
  exists t, zlen t = aes_gcm_tag_size /\ message m (cipher_at key nonce enc v [] []) = (Ok (out, t), c') /\
    gcm_seal key nonce (auth_of m) (if enc then text_of m else out) = (if enc then out else text_of m) ++ t.
Proof.
  intros Hk Hn Hm Ha. destruct (tag_at _ _ _ _ _ _ _ Hk Hn Hm Ha) as (t & Ht & Et & E).
  exists t. split_and!; [done| |].
  - unfold message. rewrite feed_at by done. rewrite !app_nil_l. by rewrite Et.
  - subst out. rewrite E. destruct enc; [done|]. by rewrite xor_at_twice.
Qed.

Lemma single_at key nonce enc : zlen key = aes_gcm_key_size -> zlen nonce = aes_gcm_iv_size ->
  single_message_gcm key nonce enc = Ok (cipher_at key nonce enc single_message [] []).
Proof.
  intros Hk Hn. unfold single_message_gcm, new_cipher. rewrite Hk, Z.eqb_refl. cbn. unfold start.
  rewrite Hn, Z.eqb_refl. cbn. by destruct enc.
Qed.

Lemma start_next_at iv n (c : gcm_stream_cipher) : zlen iv = aes_gcm_implicit_counter_iv_size -> gc_finished c = false ->
  start_next iv n c = (Ok tt, cipher_at (gc_key c) (next_nonce iv n) (gc_encrypt c) (implicit_counter iv (wrap 64 (n + 1))) [] []).
Proof.
  intros Hi Hf. unfold start_next, start. rewrite zlen_next_nonce, Hi. cbn. rewrite Hf. unfold cipher_at. by destruct (gc_encrypt c).
Qed.

Lemma implicit_at key iv n enc : zlen key = aes_gcm_key_size -> zlen iv = aes_gcm_implicit_counter_iv_size ->
  implicit_counter_gcm key iv n enc = Ok (cipher_at key (next_nonce iv n) enc (implicit_counter iv (wrap 64 (n + 1))) [] []).
Proof.
  intros Hk Hi. unfold implicit_counter_gcm, new_cipher. rewrite Hk, Z.eqb_refl. cbn. rewrite Hi. cbn.
  by rewrite start_next_at.
Qed.

(** The tag that decrypting computes against the one that came. *)
Lemma tag_matches_iff key nonce aad text out t t' :
  zlen key = aes_gcm_key_size -> zlen nonce = aes_gcm_iv_size -> zlen out <= aes_gcm_max_data_size -> zlen t = aes_gcm_tag_size ->
  text = xor_at (data_keys key nonce) 0 out -> gcm_seal key nonce aad out = text ++ t ->
  zlen t' = aes_gcm_tag_size -> gcm_unseal key nonce aad (text ++ t') = if tag_matches t t' then Some out else None.
Proof.
  intros Hk Hn Hl Ht Etext E Ht'. unfold tag_matches. rewrite Ht, Ht'. cbn [Z.eqb aes_gcm_tag_size andb].
  destruct (bool_decide_reflect (t = t')) as [<-|Hne].
  - by apply unseal_iff.
  - destruct (gcm_unseal key nonce aad (text ++ t')) as [p|] eqn:Eu; [|done]. exfalso.
    apply unseal_iff in Eu as [Hp Eu]; [|done..]. destruct (seal_is_ctr key nonce aad p) as (tp & Htp & Ep); [done..|].
    rewrite Ep in Eu. apply app_same_size in Eu as [Ex Et]; [|by rewrite Ht'].
    assert (p = out) as ->.
    { rewrite <- (xor_at_twice (data_keys key nonce) 0 p), <- (xor_at_twice (data_keys key nonce) 0 out). by rewrite <- Etext, Ex. }
    rewrite E in Ep. apply app_inv_head_iff in Ep || apply app_same_size in Ep as [_ Ep]; [|by rewrite Ht, Htp]. congruence.
Qed.

Lemma single_seals m key nonce : zlen key = aes_gcm_key_size -> zlen nonce = aes_gcm_iv_size -> fits m ->
  exists c out t c', single_message_gcm key nonce true = Ok c /\ message m c = (Ok (out, t), c') /\
    gcm_seal key nonce (auth_of m) (text_of m) = out ++ t /\ zlen t = aes_gcm_tag_size.
Proof.
  intros Hk Hn Hm. destruct (message_at m key nonce true single_message _ Hk Hn Hm eq_refl) as (t & Ht & E & Es).
  do 4 eexists. split_and!; [by apply single_at|exact E|exact Es|done].
Qed.

Lemma single_opens m key nonce : zlen key = aes_gcm_key_size -> zlen nonce = aes_gcm_iv_size -> fits m ->
  exists c out t c', single_message_gcm key nonce false = Ok c /\ message m c = (Ok (out, t), c') /\ zlen t = aes_gcm_tag_size /\
    forall t', zlen t' = aes_gcm_tag_size ->
      gcm_unseal key nonce (auth_of m) (text_of m ++ t') = if tag_matches t t' then Some out else None.
Proof.
  intros Hk Hn Hm. destruct (message_at m key nonce false single_message _ Hk Hn Hm eq_refl) as (t & Ht & E & Es).
  do 4 eexists. split_and!; [by apply single_at|exact E|done|]. intros t' Ht'. apply tag_matches_iff; try done.
  - by rewrite zlen_xor_at.
  - by rewrite xor_at_twice.
Qed.
End messages.

Section implicit.
Context `{AesGcm}.

(** Ready for the message with the counter [n]. *)
Definition ready (key iv : octets) (encrypt : bool) (n : Z) : gcm_stream_cipher :=
  cipher_at key (next_nonce iv (wrap 64 n)) encrypt (implicit_counter iv (wrap 64 (n + 1))) [] [].

Lemma wrap_succ n : wrap 64 (wrap 64 n + 1) = wrap 64 (n + 1).
Proof. unfold wrap. by rewrite Zplus_mod_idemp_l. Qed.

Lemma message_ready m key iv enc n (out := xor_at (data_keys key (next_nonce iv (wrap 64 n))) 0 (text_of m)) :
  zlen key = aes_gcm_key_size -> zlen iv = aes_gcm_implicit_counter_iv_size -> fits m ->
  exists t, zlen t = aes_gcm_tag_size /\ message m (ready key iv enc n) = (Ok (out, t), ready key iv enc (n + 1)) /\
    gcm_seal key (next_nonce iv (wrap 64 n)) (auth_of m) (if enc then text_of m else out) = (if enc then out else text_of m) ++ t.
Proof.
  intros Hk Hi Hm. apply message_at; [done|by rewrite zlen_next_nonce, Hi|done|].
  unfold after_tag. cbn [gc_variant cipher_at]. rewrite start_next_at by done. unfold ready. by rewrite wrap_succ.
Qed.

Lemma messages_ready ms key iv n :
  zlen key = aes_gcm_key_size -> zlen iv = aes_gcm_implicit_counter_iv_size -> Forall fits ms ->
  exists os, messages ms (ready key iv true n) = (Ok os, ready key iv true (n + zlen ms)) /\ length os = length ms /\
    forall i m o t, ms !! i = Some m -> os !! i = Some (o, t) ->
      zlen t = aes_gcm_tag_size /\
      gcm_seal key (next_nonce iv (wrap 64 (n + Z.of_nat i))) (auth_of m) (text_of m) = o ++ t.
Proof.
  intros Hk Hi Hf. revert n. induction Hf as [|m ms Hm _ IH]; intros n.
  { exists []. split_and!; [by rewrite zlen_nil, Z.add_0_r|done|]. by intros [|i]. }
  destruct (message_ready m key iv true n Hk Hi Hm) as (t & Ht & E & Es). destruct (IH (n + 1)) as (os & Eo & Hl & Ho).
  eexists (_ :: os). cbn [messages]. rewrite E, Eo, zlen_cons. split_and!; [do 2 f_equal; lia|cbn; congruence|].
  intros [|i] m' o' t'; cbn [lookup list_lookup].
  - intros [= <-] [= <- <-]. by rewrite Z.add_0_r.
  - intros Hm' Ho'. destruct (Ho i m' o' t' Hm' Ho') as [? Es']. split; [done|]. rewrite <- Es'. do 3 f_equal. lia.
Qed.

Lemma seek_ready n (c : gcm_stream_cipher) iv k : zlen iv = aes_gcm_implicit_counter_iv_size -> gc_finished c = false ->
  gc_variant c = implicit_counter iv k -> 0 <= n < 2 ^ 64 -> seek n c = (Ok tt, ready (gc_key c) iv (gc_encrypt c) n).
Proof. intros Hi Hf Hv Hn. unfold seek. rewrite Hv, start_next_at by done. unfold ready. by rewrite (wrap_small 64 n). Qed.
(** What was sealed is opened: the text and the same tag. *)
Lemma open_sealed key iv n aad text o t :
  zlen key = aes_gcm_key_size -> zlen iv = aes_gcm_implicit_counter_iv_size -> zlen text <= aes_gcm_max_data_size -> zlen t = aes_gcm_tag_size ->
  gcm_seal key (next_nonce iv (wrap 64 n)) aad text = o ++ t ->
  message [Auth aad; Text o] (ready key iv false n) = (Ok (text, t), ready key iv false (n + 1)).
Proof.
  intros Hk Hi Hl Ht Es. assert (zlen (next_nonce iv (wrap 64 n)) = aes_gcm_iv_size) as Hn by by rewrite zlen_next_nonce, Hi.
  destruct (seal_is_ctr key _ aad text Hk Hn Hl) as (t0 & Ht0 & E). rewrite Es in E.
  apply app_same_size in E as [-> <-]; [|by rewrite Ht, Ht0]. fold (data_keys key (next_nonce iv (wrap 64 n))) in *.
  destruct (message_ready [Auth aad; Text (xor_at (data_keys key (next_nonce iv (wrap 64 n))) 0 text)] key iv false n Hk Hi) as (t1 & Ht1 & Em & Et).
  { unfold fits. by rewrite (proj2 (two_pieces _ _)), zlen_xor_at. }
  cbn iota in Et.
  rewrite !(proj2 (two_pieces _ _)), !(proj1 (two_pieces _ _)), xor_at_twice in *. rewrite Em.
  rewrite Es in Et. by apply app_inv_head in Et as ->.
Qed.
End implicit.

(** ** Properties *)

(** C18: Cutting a message into pieces of additional data and of text, in any order,
    makes no difference: the encryptor's output and tag are the one-shot AEAD's
    over the concatenations, and what the decryptor returns, with the tag it
    computes matching the one that came or not, is what the one-shot decryption
    gives. *)
Theorem pieces_are_gcm `{AesGcm} (key nonce : octets) (Hk : zlen key = aes_gcm_key_size) (Hn : zlen nonce = aes_gcm_iv_size) :
  exists enc dec, create_aes_gcm_stream_encryptor key nonce = Ok enc /\ create_aes_gcm_stream_decryptor key nonce = Ok dec /\
    forall m, fits m ->
      (exists out t c, message m enc = (Ok (out, t), c) /\ gcm_seal key nonce (auth_of m) (text_of m) = out ++ t /\ zlen t = aes_gcm_tag_size) /\
      (exists out t c, message m dec = (Ok (out, t), c) /\
         forall t', zlen t' = aes_gcm_tag_size ->
           gcm_unseal key nonce (auth_of m) (text_of m ++ t') = if tag_matches t t' then Some out else None).
Proof.
  do 2 eexists. split_and!; [by apply single_at..|]. intros m Hm. split.
  - destruct (single_seals m key nonce Hk Hn Hm) as (c & out & t & c' & Ec & E). rewrite single_at in Ec by done.
    injection Ec as <-. eauto.
  - destruct (single_opens m key nonce Hk Hn Hm) as (c & out & t & c' & Ec & E & _ & Ht). rewrite single_at in Ec by done.
    injection Ec as <-. eauto.
Qed.

(** C19: The implicit counter numbers the messages of a cipher: each is sealed under
    the nonce of its number, no two of fewer than 2^64 share a nonce, and a
    decryptor that seeks to a number decrypts from there, whatever it did before. *)
Theorem counted_messages `{AesGcm} (key iv : octets) (n : Z) (ms : list (list piece))
  (Hk : zlen key = aes_gcm_key_size) (Hi : zlen iv = aes_gcm_implicit_counter_iv_size) (Hn : 0 <= n < 2 ^ 64)
  (Hf : Forall fits ms) (Hm : zlen ms <= 2 ^ 64) :
  exists enc os c, create_aes_gcm_implicit_counter_stream_encryptor key iv n = Ok enc /\ messages ms enc = (Ok os, c) /\
    length os = length ms /\
    (forall i j, (i < j < length ms)%nat ->
       next_nonce iv (wrap 64 (n + Z.of_nat i)) <> next_nonce iv (wrap 64 (n + Z.of_nat j))) /\
    forall i m o t, ms !! i = Some m -> os !! i = Some (o, t) ->
      gcm_seal key (next_nonce iv (wrap 64 (n + Z.of_nat i))) (auth_of m) (text_of m) = o ++ t /\
      forall dec k, gc_key dec = key -> gc_encrypt dec = false -> gc_finished dec = false -> gc_variant dec = implicit_counter iv k ->
        exists d d', seek (wrap 64 (n + Z.of_nat i)) dec = (Ok tt, d) /\ message [Auth (auth_of m); Text o] d = (Ok (text_of m, t), d').
Proof.
  destruct (messages_ready ms key iv n Hk Hi Hf) as (os & Eo & Hl & Ho). exists (ready key iv true n), os. eexists.
  split_and!; [|exact Eo|done| |].
  - unfold create_aes_gcm_implicit_counter_stream_encryptor, ready. rewrite implicit_at by done. by rewrite (wrap_small 64 n).
  - intros i j Hij E. apply next_nonce_inj in E; [|by apply wrap_range..]. unfold zlen in Hm. unfold wrap in E.
    assert ((n + Z.of_nat j - (n + Z.of_nat i)) mod 2 ^ 64 = 0) as E0 by (rewrite Zminus_mod, E, Z.sub_diag; done).
    rewrite Z.mod_small in E0; lia.
  - intros i m o t Em Ei. destruct (Ho i m o t Em Ei) as [Ht Es]. split; [done|]. intros dec k <- He Hd Hv.
    set (no := wrap 64 (n + Z.of_nat i)) in *. assert (0 <= no < 2 ^ 64) as Hno by by apply wrap_range.
    assert (zlen (text_of m) <= aes_gcm_max_data_size) as Hmax by by apply (proj1 (Forall_lookup fits ms) Hf i m).
    exists (ready (gc_key dec) iv false no), (ready (gc_key dec) iv false (no + 1)). split.
    + rewrite <- He. by apply (seek_ready no dec iv k).
    + apply open_sealed; try done. by rewrite (wrap_small 64 no).
Qed.

(** Errors: in the middle of a message a text beyond the limit, a tag of a
    wrong size and seeking throw and change nothing; after the tag every call of
    a single-message cipher throws. *)
Theorem cipher_errors `{AesGcm} (key nonce : octets) (encrypt : bool) (m : list piece)
  (Hk : zlen key = aes_gcm_key_size) (Hn : zlen nonce = aes_gcm_iv_size) (Hm : fits m) :
  exists c0 out c, single_message_gcm key nonce encrypt = Ok c0 /\ feed m c0 = (Ok out, c) /\
    (forall d, aes_gcm_max_data_size < zlen (text_of m) + zlen d -> process d c = (Throw ConstraintViolation, c)) /\
    (forall n, n = 0 \/ gcm_block_tag_size < n -> tag_of_size n c = (Throw InvalidArgument, c)) /\
    (forall n, seek n c = (Throw NotSupported, c)) /\
    exists t c', tag c = (Ok t, c') /\
      (forall d, process d c' = (Throw InvalidState, c') /\ process_auth d c' = (Throw InvalidState, c')) /\
      (forall n, tag_of_size n c' = (Throw InvalidState, c') /\ seek n c' = (Throw NotSupported, c')).
Proof.
  eexists _, _, _. split; [by apply single_at|]. split; [by apply feed_at|]. rewrite !app_nil_l. split_and!; [| |done|].
  - intros d Hd. unfold process, process_to, check_usable, cipher_at. cbn -[aes_gcm_max_data_size Z.sub].
    assert (zlen (if encrypt then text_of m else xor_at (data_keys key nonce) 0 (text_of m)) = zlen (text_of m)) as ->
      by (destruct encrypt; [done|apply zlen_xor_at]).
    unfold fits in Hm. pose proof (zlen_nonneg (text_of m)). assert (aes_gcm_max_data_size < 2 ^ 64) as Hx by reflexivity.
    rewrite wrap_small by lia. by destruct (Z.ltb_spec (aes_gcm_max_data_size - zlen (text_of m)) (zlen d)); [|lia].
  - intros n Hw. unfold tag_of_size, check_usable. cbn [gc_finished cipher_at].
    by assert ((n =? 0) || (gcm_block_tag_size <? n) = true) as -> by (destruct Hw; [subst|]; lia).
  - destruct (tag_at key nonce encrypt single_message (auth_of m) (text_of m) _ Hk Hn Hm eq_refl) as (t & _ & E & _).
    eexists t, _. split; [exact E|]. by split.
Qed.

(** Counter mode is random access: seeking to a position and processing a part
    of the ciphertext from there gives that part of the text. *)
Theorem ctr_random_access `{Aes} (key iv text : octets) (pos n : Z)
  (Hk : zlen key = aes_stream_cipher_key_size) (Hi : zlen iv = aes_stream_cipher_iv_size)
  (Hp : 0 <= pos) (Hn : 0 <= n) (Hl : pos + n <= zlen text) :
  exists c, create_aes_stream_cipher key iv = Ok c /\
    let cipher := fst (ctr_process text c) in
    fst (ctr_process (ztake n (zdrop pos cipher)) (ctr_seek pos c)) = ztake n (zdrop pos text).
Proof.
  eexists. split; [unfold create_aes_stream_cipher; by rewrite Hk, Hi|]. cbn. set (ks := keystream 16 key iv).
  rewrite <- (ztake_zdrop pos text) at 1. rewrite xor_at_app, Z.add_0_l, zlen_ztake by lia.
  assert (zlen (xor_at ks 0 (ztake pos text)) = pos) as E by (rewrite zlen_xor_at, zlen_ztake by lia; done).
  rewrite <- E at 2. rewrite zdrop_app. rewrite <- (ztake_zdrop n (zdrop pos text)) at 1.
  rewrite xor_at_app, zlen_ztake by (rewrite zlen_zdrop; lia).
  assert (zlen (xor_at ks pos (ztake n (zdrop pos text))) = n) as En by (rewrite zlen_xor_at, zlen_ztake; [done|rewrite zlen_zdrop; lia]).
  rewrite <- En at 1. by rewrite ztake_app, xor_at_twice.
Qed.

(** Encrypting in place, which the interface allows, gives the right ciphertext
    and the tag of another message: the ciphertext has gone over the text before
    the text is kept, so the tag is the one for sealing the ciphertext. *)
Theorem in_place_tag `{AesGcm} (key nonce data : octets)
  (Hk : zlen key = aes_gcm_key_size) (Hn : zlen nonce = aes_gcm_iv_size) (Hd : zlen data <= aes_gcm_max_data_size) :
  exists c0 out c t c' t0, single_message_gcm key nonce true = Ok c0 /\ process_to true data c0 = (Ok out, c) /\ tag c = (Ok t, c') /\
    gcm_seal key nonce [] data = out ++ t0 /\ gcm_seal key nonce [] out = data ++ t.
Proof.
  set (out := xor_at (data_keys key nonce) 0 data). assert (zlen out = zlen data) as Hl by apply zlen_xor_at.
  destruct (seal_is_ctr key nonce [] data Hk Hn Hd) as (t0 & _ & E0).
  assert (process_to true data (cipher_at key nonce true single_message [] []) = (Ok out, cipher_at key nonce true single_message [] out)) as Ep.
  { unfold process_to, check_usable, cipher_at. cbn -[aes_gcm_max_data_size Z.sub wrap]. change (wrap 64 (aes_gcm_max_data_size - zlen [])) with aes_gcm_max_data_size.
    destruct (Z.ltb_spec aes_gcm_max_data_size (zlen data)); [lia|]. by rewrite Hl. }
  destruct (tag_at key nonce true single_message [] out _ Hk Hn ltac:(lia) eq_refl) as (t & _ & Et & Es). cbn iota in Es.
  unfold out in Es at 2. rewrite xor_at_twice in Es. do 6 eexists.
  split_and!; [by apply single_at|exact Ep|exact Et|exact E0|exact Es].
Qed.

Module GcmSample.
(** Ciphers that can be evaluated and have the structure of the real ones. *)
Definition sample_stream (counter_size : Z) (key iv : octets) (i : Z) : Z := (be_val key + be_val iv + 7 * i) mod 256.

Definition sample_seal (key nonce aad plain : octets) : octets :=
  xor_at (sample_stream 4 key (nonce ++ [0; 0; 0; 2])) 0 plain ++ be_digits 16 (be_val (key ++ nonce ++ aad ++ plain)).

Definition sample_unseal (key nonce aad sealed : octets) : option octets :=
  let plain := xor_at (sample_stream 4 key (nonce ++ [0; 0; 0; 2])) 0 (ztake (zlen sealed - 16) sealed) in
  if (zlen plain <=? aes_gcm_max_data_size) && bool_decide (sealed = sample_seal key nonce aad plain) then Some plain else None.

#[export] Instance sample_aes : Aes := {| keystream := sample_stream; gcm_seal := sample_seal; gcm_unseal := sample_unseal |}.

#[export] Instance sample_gcm : AesGcm.
Proof.
  split; cbn -[Z.leb aes_gcm_max_data_size].
  - intros key nonce aad plain _ _ _. eexists. split; [|reflexivity]. apply zlen_be_digits.
  - intros key nonce aad plain sealed _ _. unfold sample_unseal. split.
    + set (p := xor_at _ _ (ztake _ _)). destruct (Z.leb_spec (zlen p) aes_gcm_max_data_size); [|done].
      cbn [andb]. destruct (bool_decide_reflect (sealed = sample_seal key nonce aad p)); [|done]. intros [= <-]. by split.
    + intros [Hl ->]. assert (ztake (zlen (sample_seal key nonce aad plain) - 16) (sample_seal key nonce aad plain) =
        xor_at (sample_stream 4 key (nonce ++ [0; 0; 0; 2])) 0 plain) as ->.
      { unfold sample_seal at 1. rewrite zlen_app, zlen_be_digits, Z.add_simpl_r. unfold sample_seal. apply ztake_app. }
      rewrite xor_at_twice. rewrite bool_decide_eq_true_2 by done. by destruct (Z.leb_spec (zlen plain) aes_gcm_max_data_size); [|lia].
Qed.

Definition sample_key : octets := repeat 3 32.
Definition sample_nonce : octets := repeat 5 12.
Definition sample_iv : octets := [1; 2; 3; 4].
Definition sample_message : list piece := [Auth [1]; Text [10; 20]; Auth [2; 3]; Text []; Text [30]].

(** A tag that was changed. *)
Example tampered :
  match single_message_gcm sample_key sample_nonce true, single_message_gcm sample_key sample_nonce false with
  | Ok enc, Ok dec =>
      match message sample_message enc with
      | (Ok (out, t), _) =>
          match message [Text out; Auth [1; 2; 3]] dec with
          | (Ok (text, t'), _) => text = [10; 20; 30] /\ tag_matches t' t = true /\ tag_matches t' (1 :: tl t) = false
          | _ => False
          end
      | _ => False
      end
  | _, _ => False
  end.
Proof. vm_compute. repeat split. Qed.

(** A message encrypted in place does not authenticate. *)
Example in_place_refused :
  match single_message_gcm sample_key sample_nonce true, single_message_gcm sample_key sample_nonce false with
  | Ok enc, Ok dec =>
      match process_to true [10; 20; 30] enc with
      | (Ok out, c) =>
          match tag c, message [Text out] dec with
          | (Ok t, _), (Ok (text, t'), _) => text = [10; 20; 30] /\ tag_matches t' t = false
          | _, _ => False
          end
      | _ => False
      end
  | _, _ => False
  end.
Proof. vm_compute. repeat split. Qed.

(** The counter comes round: the message after the last number has number 0. *)
Example counter_wraps :
  match implicit_counter_gcm sample_key sample_iv (2 ^ 64 - 1) true with
  | Ok c => gc_nonce c = sample_iv ++ repeat 255 8 /\ gc_nonce (snd (tag c)) = sample_iv ++ repeat 0 8
  | Throw _ => False
  end.
Proof. by vm_compute. Qed.
End GcmSample.
Import GcmSample.

Lemma pieces_are_gcm_witness :
  match create_aes_gcm_stream_encryptor sample_key sample_nonce with
  | Ok enc => exists out t c, message sample_message enc = (Ok (out, t), c) /\
                gcm_seal sample_key sample_nonce [1; 2; 3] [10; 20; 30] = out ++ t
  | Throw _ => False
  end.
Proof.
  destruct (pieces_are_gcm sample_key sample_nonce eq_refl eq_refl) as (enc & dec & -> & _ & Hm).
  destruct (Hm sample_message) as [(out & t & c & E & Es & _) _]; [ground|]. exists out, t, c. by split.
Defined.

Lemma counted_messages_witness :
  exists enc os c, create_aes_gcm_implicit_counter_stream_encryptor sample_key sample_iv 9 = Ok enc /\
    messages [sample_message; [Text [1]]] enc = (Ok os, c) /\ length os = 2%nat.
Proof.
  destruct (counted_messages sample_key sample_iv 9 [sample_message; [Text [1]]]) as (enc & os & c & E & Em & El & _).
  - reflexivity.
  - reflexivity.
  - lia.
  - repeat constructor; ground.
  - ground.
  - exists enc, os, c. by split_and!.
Defined.

Lemma cipher_errors_witness :
  exists c0 out c, single_message_gcm sample_key sample_nonce true = Ok c0 /\ feed sample_message c0 = (Ok out, c) /\
    tag_of_size 17 c = (Throw InvalidArgument, c).
Proof.
  destruct (cipher_errors sample_key sample_nonce true sample_message eq_refl eq_refl) as (c0 & out & c & E & Ef & _ & Ht & _); [ground|].
  exists c0, out, c. split_and!; [exact E|exact Ef|]. apply Ht. by right.
Defined.

Lemma in_place_tag_witness :
  exists c0 out c, single_message_gcm sample_key sample_nonce true = Ok c0 /\ process_to true [10; 20] c0 = (Ok out, c).
Proof.
  destruct (in_place_tag sample_key sample_nonce [10; 20] eq_refl eq_refl) as (c0 & out & c & _ & _ & _ & E & Ep & _); [ground|].
  exists c0, out, c. exact (conj E Ep).
Defined.

Lemma ctr_random_access_witness :
  exists c, create_aes_stream_cipher sample_key (repeat 1 16) = Ok c /\
    fst (ctr_process (ztake 2 (zdrop 1 (fst (ctr_process [5; 6; 7; 8] c)))) (ctr_seek 1 c)) = [6; 7].
Proof. apply (ctr_random_access sample_key (repeat 1 16) [5; 6; 7; 8] 1 2); [reflexivity|reflexivity|lia|lia|ground]. Defined.
