(* ===== verification/Envelope.v ===== *)
(** Encryption to public keys and of contents: [crypto/detail/hybrid_kem.cpp],
    [crypto/detail/private_key_impl.cpp], [crypto/key_generation.cpp], the
    encrypting halves of [crypto/public_key.cpp] and [crypto/private_key.cpp],
    [crypto/encrypted_content.cpp], [encrypted_key.cpp], [enveloped_content.cpp].

    Botan's key agreement, ML-KEM and HKDF are the class [Kem] and what their
    documentation promises the class [KemLaw]; what the random number generator
    contributes to a call is an argument of it. *)

From stdpp Require Import base list numbers strings.
From Stdlib Require Import ZArith Lia.
From S2P Require Import Prelude Asn1Int Asn1Stream Asn1Encoder Asn1Decoder Serialise Crypto Gcm.
Open Scope Z_scope.

(** A suite stands for its algorithms: X25519 and ML-KEM-768 for [pq1], X448 and
    ML-KEM-1024 for [pq1_high]. *)
Class Kem : Type := {
  x_public (suite : Z) (sk : octets) : octets;
  (** [PK_Key_Agreement] with "Raw"; [None] for an exception of Botan *)
  x_derive (suite : Z) (sk peer : octets) : option octets;
  ml_kem_public (suite : Z) (seed : octets) : octets;
  (** the encapsulated key and the shared key *)
  ml_kem_encrypt (suite : Z) (pk random : octets) : option (octets * octets);
  ml_kem_decrypt (suite : Z) (seed ct : octets) : option octets;
  hkdf_sha3_256 (size : Z) (ikm info : octets) : octets
}.

(** ** Errors *)

Inductive content_exn : Type :=
| CryptoExn (e : crypto_exn)
| CipherExn (e : cipher_exn)
| InvalidTag
| BadCiphertext
| WrongKey.

Abbreviation eres := (result content_exn).

Definition of_crypto {A} (r : cres A) : eres A := match r with Ok a => Ok a | Throw e => Throw (CryptoExn e) end.
Definition of_cipher {A} (r : result cipher_exn A) : eres A := match r with Ok a => Ok a | Throw e => Throw (CipherExn e) end.

(** ** The hybrid key encapsulation *)

Record kem_public_key : Type := KemPublicKey { kp_id : Z; kp_x_pk : octets; kp_pq_pk : octets }.
Record kem_private_key : Type := KemPrivateKey { ks_id : Z; ks_x_sk : octets; ks_pq_seed : octets }.
Record kem_encapsulation : Type := KemEncapsulation { ke_ct_x : octets; ke_ct_pq : octets; ke_key : octets }.

Record hybrid_ciphertext : Type := HybridCiphertext {
  hc_version : Z; hc_id : Z; hc_ct_x : octets; hc_ct_pq : octets; hc_iv : octets; hc_encrypted : octets; hc_tag : octets }.

Definition hybrid_fields : codec hybrid_ciphertext :=
  iso_codec (fun '(v, (s, (x, (q, (i, (e, (t, tt))))))) => HybridCiphertext v s x q i e t)
            (fun c => (hc_version c, (hc_id c, (hc_ct_x c, (hc_ct_pq c, (hc_iv c, (hc_encrypted c, (hc_tag c, tt))))))))
    (then_codec (int_codec u16) (then_codec suite_codec (then_codec octets_codec (then_codec octets_codec
      (then_codec octets_codec (then_codec octets_codec (then_codec octets_codec unit_codec))))))).
Definition hybrid_codec : codec hybrid_ciphertext := seq_codec hybrid_fields.

#[export] Instance hybrid_fields_body : Body hybrid_fields.
Proof. apply iso_body; [by intros []|apply _]. Defined.
#[export] Instance hybrid_element : Element hybrid_codec.
Proof. unfold hybrid_codec. apply _. Defined.

Definition kem_key_size : Z := 32.

Section kem.
Context `{Kem}.

Definition check_public_sizes (p : suite_parameters) (pk : kem_public_key) : cres unit :=
  if negb (zlen (kp_x_pk pk) =? sp_x_key_size p) || negb (zlen (kp_pq_pk pk) =? sp_kem_public_size p) then Throw InvalidKey else Ok tt.

Definition check_private_sizes (p : suite_parameters) (sk : kem_private_key) : cres unit :=
  if negb (zlen (ks_x_sk sk) =? sp_x_key_size p) || negb (zlen (ks_pq_seed sk) =? sp_kem_seed_size p) then Throw InvalidKey else Ok tt.

(** [to_string]: "pq1", "pq1_high" *)
Definition suite_to_string (s : Z) : cres octets :=
  if s =? pq1 then Ok [112; 113; 49] else if s =? pq1_high then Ok [112; 113; 49; 95; 104; 105; 103; 104] else Throw UnknownSuite.

(** "securepath-kem-v1/" *)
Definition kem_info : octets := [115; 101; 99; 117; 114; 101; 112; 97; 116; 104; 45; 107; 101; 109; 45; 118; 49; 47].

Definition combine_shared_secrets (s : Z) (ss_pq ss_x ct_x pk_x : octets) : cres octets :=
  name ← suite_to_string s;
  mret (hkdf_sha3_256 kem_key_size (ss_pq ++ ss_x ++ ct_x ++ pk_x) (kem_info ++ name)).

(** [x] and [seed] are what the generator gives. *)
Definition generate_kem_private_key (x seed : octets) (s : Z) : cres kem_private_key :=
  _ ← parameters s;
  mret (KemPrivateKey s x seed).

Definition kem_public_part (sk : kem_private_key) : cres kem_public_key :=
  p ← parameters (ks_id sk);
  _ ← check_private_sizes p sk;
  mret (KemPublicKey (ks_id sk) (x_public (ks_id sk) (ks_x_sk sk)) (ml_kem_public (ks_id sk) (ks_pq_seed sk))).

(** [eph] is the ephemeral key of [make_x_ephemeral]. *)
Definition kem_encapsulate (eph random : octets) (pk : kem_public_key) : cres kem_encapsulation :=
  p ← parameters (kp_id pk);
  _ ← check_public_sizes p pk;
  match x_derive (kp_id pk) eph (kp_x_pk pk), ml_kem_encrypt (kp_id pk) (kp_pq_pk pk) random with
  | Some ss_x, Some (ct_pq, ss_pq) =>
      let ct_x := x_public (kp_id pk) eph in
      key ← combine_shared_secrets (kp_id pk) ss_pq ss_x ct_x (kp_x_pk pk);
      mret (KemEncapsulation ct_x ct_pq key)
  | _, _ => Throw InvalidKey
  end.

Definition kem_decapsulate (sk : kem_private_key) (ct_x ct_pq : octets) : eres octets :=
  p ← of_crypto (parameters (ks_id sk));
  _ ← of_crypto (check_private_sizes p sk);
  if negb (zlen ct_x =? sp_x_key_size p) || negb (zlen ct_pq =? sp_kem_ciphertext_size p) then Throw BadCiphertext
  else
    match x_derive (ks_id sk) (ks_x_sk sk) ct_x, ml_kem_decrypt (ks_id sk) (ks_pq_seed sk) ct_pq with
    | Some ss_x, Some ss_pq => of_crypto (combine_shared_secrets (ks_id sk) ss_pq ss_x ct_x (x_public (ks_id sk) (ks_x_sk sk)))
    | _, _ => Throw BadCiphertext
    end.

(** ** Making keys *)

Context `{Primitives}.

(** The constructor of [public_key_impl]. *)
Definition new_public_key (s : Z) (sig_pk x_pk pq_pk : octets) : cres public_key :=
  let k := PublicKey 2 s sig_pk x_pk pq_pk [] (Signature 2 [] []) [] [] in
  i ← ser_result (construct_id k);
  mret (PublicKey 2 s sig_pk x_pk pq_pk [] (Signature 2 [] []) [] i).

Definition make_public_key (s : Z) (sig_seed : octets) (kem : kem_private_key) : cres public_key :=
  p ← parameters s;
  if negb (zlen sig_seed =? sp_sig_seed_size p) then Throw InvalidKey
  else
    kem_pk ← kem_public_part kem;
    new_public_key s (ml_dsa_public s sig_seed) (kp_x_pk kem_pk) (kp_pq_pk kem_pk).

(** The constructor of [private_key_impl] and then that of [private_key]. *)
Definition new_private_key_impl (s : Z) (sig_seed : octets) (kem : kem_private_key) : cres private_key :=
  pk ← make_public_key s sig_seed kem;
  mret (PrivateKey s pk sig_seed (ks_x_sk kem) (ks_pq_seed kem)).

Definition new_private_key (nonce : octets) (sk : private_key) : cres private_key :=
  pk ← pk_sign_me sk nonce (sk_public sk);
  mret (PrivateKey (sk_suite sk) pk (sk_sig_seed sk) (sk_kem_x_sk sk) (sk_kem_pq_seed sk)).

Definition generate_private_key (sig_seed x pq_seed nonce : octets) (s : Z) : cres private_key :=
  _ ← parameters s;
  kem ← generate_kem_private_key x pq_seed s;
  k ← new_private_key_impl s sig_seed kem;
  new_private_key nonce k.

(** ** Encrypting to a key *)

Context `{Aes}.

(** What the generator contributes to one encryption. *)
Record encryption_random : Type := EncryptionRandom { er_eph : octets; er_pq : octets; er_iv : octets }.

Definition encrypt_for (r : encryption_random) (plain : octets) (k : public_key) : eres octets :=
  v ← of_crypto (pk_is_valid k);
  if negb (v : bool) then Throw (CryptoExn InvalidKey)
  else
    enc ← of_crypto (kem_encapsulate (er_eph r) (er_pq r) (KemPublicKey (pk_suite k) (pk_kem_x_pk k) (pk_kem_pq_pk k)));
    let buf := gcm_seal (ke_key enc) (er_iv r) (pk_id k) plain in
    let n := zlen buf - aes_gcm_tag_size in
    of_crypto (ser_result (asn_der_serialise hybrid_codec
      (HybridCiphertext 1 (pk_suite k) (ke_ct_x enc) (ke_ct_pq enc) (er_iv r) (ztake n buf) (zdrop n buf)))).

Definition parse_ciphertext (cipher : octets) (expected : Z) : eres hybrid_ciphertext :=
  match asn_der_deserialise hybrid_codec cipher with
  | Throw _ => Throw BadCiphertext
  | Ok ct =>
      if negb (hc_version ct =? 1) then Throw BadCiphertext
      else if negb (hc_id ct =? expected) then Throw BadCiphertext
      else if negb (zlen (hc_iv ct) =? aes_gcm_iv_size) || negb (zlen (hc_tag ct) =? aes_gcm_tag_size) then Throw BadCiphertext
      else Ok ct
  end.

Definition open_sealed_text (key id : octets) (ct : hybrid_ciphertext) : eres octets :=
  match gcm_unseal key (hc_iv ct) id (hc_encrypted ct ++ hc_tag ct) with
  | Some buf => Ok buf
  | None => Throw BadCiphertext
  end.

Definition decapsulate (sk : private_key) (ct_x ct_pq : octets) : eres octets :=
  v ← of_crypto (sk_is_valid sk);
  if negb (v : bool) then Throw (CryptoExn InvalidKey)
  else kem_decapsulate (KemPrivateKey (sk_suite sk) (sk_kem_x_sk sk) (sk_kem_pq_seed sk)) ct_x ct_pq.

(** [private_key::decrypt] *)
Definition sk_decrypt (sk : private_key) (cipher : octets) : eres octets :=
  ct ← parse_ciphertext cipher (sk_suite sk);
  key ← decapsulate sk (hc_ct_x ct) (hc_ct_pq ct);
  open_sealed_text key (sk_id sk) ct.

(** ** Contents *)

Record encrypted_content : Type := EncryptedContent { ec_version : Z; ec_iv : octets; ec_encrypted : octets; ec_tag : octets }.

(** The stream cipher over the iv and the data, and its tag. *)
Definition run_cipher (c : result cipher_exn gcm_stream_cipher) (iv data : octets) : eres (octets * octets) :=
  c ← of_cipher c;
  of_cipher (fst (message [Auth iv; Text data] c)).

(** [iv] is [random_octet_vector(aes_gcm_iv_size())]. *)
Definition encrypt (iv data sym_key : octets) : eres encrypted_content :=
  '(encdata, t) ← run_cipher (create_aes_gcm_stream_encryptor sym_key iv) iv data;
  mret (EncryptedContent 0 iv encdata t).

Definition decrypt (ec : encrypted_content) (sym_key : octets) : eres octets :=
  '(data, t) ← run_cipher (create_aes_gcm_stream_decryptor sym_key (ec_iv ec)) (ec_iv ec) (ec_encrypted ec);
  if negb (tag_matches t (ec_tag ec)) then Throw InvalidTag else mret data.

Record encrypted_key : Type := EncryptedKey { ek_version : Z; ek_id : octets; ek_data : octets }.

Definition encrypt_key (r : encryption_random) (pkey : public_key) (key : octets) : eres encrypted_key :=
  data ← encrypt_for r key pkey;
  mret (EncryptedKey 1 (pk_id pkey) data).

Definition decrypt_key (sk : private_key) (key : encrypted_key) : eres octets :=
  if negb (bool_decide (ek_id key = sk_id sk)) then Throw WrongKey else sk_decrypt sk (ek_data key).

Record enveloped_content : Type := EnvelopedContent {
  ev_version : Z; ev_keys : list encrypted_key; ev_iv : octets; ev_encrypted : octets; ev_tag : octets }.

Definition envelope_decrypt (e : enveloped_content) (sk : private_key) : eres octets :=
  match List.find (fun k => bool_decide (ek_id k = sk_id sk)) (ev_keys e) with
  | None => Throw WrongKey
  | Some k =>
      sym_key ← decrypt_key sk k;
      '(data, t) ← run_cipher (create_aes_gcm_stream_decryptor sym_key (ev_iv e)) (ev_iv e) (ev_encrypted e);
      if negb (tag_matches t (ev_tag e)) then Throw InvalidTag else mret data
  end.

Definition envelope_add (k : encrypted_key) (e : enveloped_content) : enveloped_content :=
  EnvelopedContent (ev_version e) (ev_keys e ++ [k]) (ev_iv e) (ev_encrypted e) (ev_tag e).

(** [enveloper]: its key is [random_octet_vector(aes_gcm_key_size())]. *)
Record enveloper : Type := Enveloper { en_data : octets; en_sym_key : octets; en_keys : list encrypted_key }.

Definition new_enveloper (sym_key data : octets) : enveloper := Enveloper data sym_key [].

Definition enveloper_encrypt_key (r : encryption_random) (pk : public_key) (en : enveloper) : eres encrypted_key :=
  encrypt_key r pk (en_sym_key en).

Definition enveloper_add (r : encryption_random) (pk : public_key) (en : enveloper) : eres enveloper :=
  k ← enveloper_encrypt_key r pk en;
  mret (Enveloper (en_data en) (en_sym_key en) (en_keys en ++ [k])).

Definition enveloper_result (iv : octets) (en : enveloper) : eres enveloped_content :=
  '(encdata, t) ← run_cipher (create_aes_gcm_stream_encryptor (en_sym_key en) iv) iv (en_data en);
  mret (EnvelopedContent 0 (en_keys en) iv encdata t).

(** The loop of [envelope] over the recipients. *)
Fixpoint add_all (recipients : list (encryption_random * public_key)) (en : enveloper) : eres enveloper :=
  match recipients with
  | [] => Ok en
  | (r, pk) :: recipients => en ← enveloper_add r pk en; add_all recipients en
  end.

Definition envelope (sym_key iv : octets) (recipients : list (encryption_random * public_key)) (data : octets) : eres enveloped_content :=
  en ← add_all recipients (new_enveloper sym_key data);
  enveloper_result iv en.
End kem.

(** ** Wire formats *)

Definition encrypted_content_fields : codec encrypted_content :=
  iso_codec (fun '(v, (i, (e, (t, tt)))) => EncryptedContent v i e t)
            (fun c => (ec_version c, (ec_iv c, (ec_encrypted c, (ec_tag c, tt)))))
    (then_codec (int_codec u32) (then_codec octets_codec (then_codec octets_codec (then_codec octets_codec unit_codec)))).
Definition encrypted_content_codec : codec encrypted_content := seq_codec encrypted_content_fields.

Definition encrypted_key_fields : codec encrypted_key :=
  iso_codec (fun '(v, (i, (d, tt))) => EncryptedKey v i d) (fun k => (ek_version k, (ek_id k, (ek_data k, tt))))
    (then_codec (int_codec u32) (then_codec id_codec (then_codec octets_codec unit_codec))).
Definition encrypted_key_codec : codec encrypted_key := seq_codec encrypted_key_fields.

#[export] Instance encrypted_content_fields_body : Body encrypted_content_fields.
Proof. apply iso_body; [by intros []|apply _]. Defined.
#[export] Instance encrypted_content_element : Element encrypted_content_codec.
Proof. unfold encrypted_content_codec. apply _. Defined.
#[export] Instance encrypted_key_fields_body : Body encrypted_key_fields.
Proof. apply iso_body; [by intros []|apply _]. Defined.
#[export] Instance encrypted_key_element : Element encrypted_key_codec.
Proof. unfold encrypted_key_codec. apply _. Defined.

Definition enveloped_content_fields : codec enveloped_content :=
  iso_codec (fun '(v, (k, (i, (e, (t, tt))))) => EnvelopedContent v k i e t)
            (fun c => (ev_version c, (ev_keys c, (ev_iv c, (ev_encrypted c, (ev_tag c, tt))))))
    (then_codec (int_codec u32) (then_codec (vector_codec encrypted_key_codec) (then_codec octets_codec
      (then_codec octets_codec (then_codec octets_codec unit_codec))))).
Definition enveloped_content_codec : codec enveloped_content := seq_codec enveloped_content_fields.

#[export] Instance enveloped_content_fields_body : Body enveloped_content_fields.
Proof. apply iso_body; [by intros []|apply _]. Defined.
#[export] Instance enveloped_content_element : Element enveloped_content_codec.
Proof. unfold enveloped_content_codec. apply _. Defined.

(** ** What Botan promises *)

(** Diffie-Hellman on honest keys, ML-KEM (its failure probability of 2^-138 or
    less is neglected), and sizes. *)
Class KemLaw `{Kem} : Prop := {
  x_public_size s p a : parameters s = Ok p -> zlen a = sp_x_key_size p -> zlen (x_public s a) = sp_x_key_size p;
  x_agrees s p a b : parameters s = Ok p -> zlen a = sp_x_key_size p -> zlen b = sp_x_key_size p ->
    exists ss, x_derive s a (x_public s b) = Some ss /\ x_derive s b (x_public s a) = Some ss;
  ml_kem_agrees s p seed random : parameters s = Ok p -> zlen seed = sp_kem_seed_size p ->
    exists ct ss, ml_kem_encrypt s (ml_kem_public s seed) random = Some (ct, ss) /\ zlen ct = sp_kem_ciphertext_size p /\
      ml_kem_decrypt s seed ct = Some ss;
  hkdf_size n ikm info : 0 <= n <= 255 * 32 -> zlen (hkdf_sha3_256 n ikm info) = n
}.

Section holders.
Context `{Kem, Primitives, Aes}.

(** The private key belongs to the public key, as far as encryption goes. *)
Record holder (sk : private_key) (pk : public_key) : Prop := {
  ho_private : sk_is_valid sk = Ok true;
  ho_public : pk_is_valid pk = Ok true;
  ho_suite : pk_suite pk = sk_suite sk;
  ho_id : pk_id pk = sk_id sk;
  ho_x : pk_kem_x_pk pk = x_public (sk_suite sk) (sk_kem_x_sk sk);
  ho_pq : pk_kem_pq_pk pk = ml_kem_public (sk_suite sk) (sk_kem_pq_seed sk)
}.

Lemma suite_named s p : parameters s = Ok p -> exists name, suite_to_string s = Ok name.
Proof. unfold parameters, suite_to_string. destruct (s =? pq1); [eauto|]. destruct (s =? pq1_high); [eauto|done]. Qed.

Lemma private_sizes sk : sk_is_valid sk = Ok true -> exists p, parameters (sk_suite sk) = Ok p /\
  zlen (sk_kem_x_sk sk) = sp_x_key_size p /\ zlen (sk_kem_pq_seed sk) = sp_kem_seed_size p.
Proof.
  unfold sk_is_valid. destruct (parameters (sk_suite sk)) as [p|e]; [|done]. cbn.
  destruct (zlen (sk_sig_seed sk) =? sp_sig_seed_size p); [|done]. destruct (Z.eqb_spec (zlen (sk_kem_x_sk sk)) (sp_x_key_size p)); [|done].
  destruct (Z.eqb_spec (zlen (sk_kem_pq_seed sk)) (sp_kem_seed_size p)); [|done]. eauto.
Qed.

Lemma public_sizes pk p : pk_is_valid pk = Ok true -> parameters (pk_suite pk) = Ok p ->
  zlen (pk_kem_x_pk pk) = sp_x_key_size p /\ zlen (pk_kem_pq_pk pk) = sp_kem_public_size p.
Proof.
  unfold pk_is_valid. intros Hv E. rewrite E in Hv. cbn in Hv. injection Hv as Hv.
  apply andb_prop in Hv as [[_ ?%Z.eqb_eq]%andb_prop ?%Z.eqb_eq]. done.
Qed.

(** Both ends of the key encapsulation have the same key. *)
Lemma kem_agrees `{!KemLaw} sk pk r : holder sk pk -> zlen (er_eph r) = zlen (sk_kem_x_sk sk) ->
  exists p e, parameters (sk_suite sk) = Ok p /\
    kem_encapsulate (er_eph r) (er_pq r) (KemPublicKey (pk_suite pk) (pk_kem_x_pk pk) (pk_kem_pq_pk pk)) = Ok e /\
    zlen (ke_key e) = aes_gcm_key_size /\ zlen (ke_ct_x e) = sp_x_key_size p /\ zlen (ke_ct_pq e) = sp_kem_ciphertext_size p /\
    decapsulate sk (ke_ct_x e) (ke_ct_pq e) = Ok (ke_key e).
Proof.
  intros [Hsk Hpk Hs Hid Hx Hq] He. destruct (private_sizes sk Hsk) as (p & Ep & Ex & Eq).
  rewrite <- Hs in Ep. destruct (public_sizes pk p Hpk Ep) as [Epx Epq]. rewrite Hs in Ep.
  destruct (x_agrees _ p (er_eph r) (sk_kem_x_sk sk) Ep) as (ss_x & E1 & E2); [congruence|done|].
  destruct (ml_kem_agrees _ p (sk_kem_pq_seed sk) (er_pq r) Ep Eq) as (ct & ss & E3 & Hct & E4).
  destruct (suite_named _ _ Ep) as (name & En). pose proof (x_public_size _ p (er_eph r) Ep ltac:(congruence)) as Hxs.
  eexists p, _. split_and!; [done| | | | |].
  - unfold kem_encapsulate, combine_shared_secrets, check_public_sizes. cbn [kp_id kp_x_pk kp_pq_pk].
    rewrite Hs, Ep. cbn. rewrite Epx, Epq, !Z.eqb_refl. cbn. rewrite Hx, Hq, E1, E3. cbn. by rewrite En.
  - cbn. by rewrite hkdf_size.
  - done.
  - done.
  - unfold decapsulate, kem_decapsulate, combine_shared_secrets, check_private_sizes. cbn [ke_ct_x ke_ct_pq ke_key ks_id ks_x_sk ks_pq_seed].
    rewrite Hsk. cbn. rewrite Ep. cbn. rewrite Ex, Eq, Hxs, Hct, !Z.eqb_refl. cbn. rewrite E2, E4. cbn. by rewrite En.
Qed.

Lemma small_sizes s p : parameters s = Ok p -> is_known s = true /\
  sp_x_key_size p <= 4096 /\ sp_kem_ciphertext_size p <= 4096.
Proof.
  unfold parameters, is_known. destruct (Z.eqb_spec s pq1) as [->|]; [intros [= <-]; by vm_compute|].
  destruct (Z.eqb_spec s pq1_high) as [->|]; [intros [= <-]; by vm_compute|done].
Qed.

Definition small_ciphertext (c : hybrid_ciphertext) : Prop :=
  hc_version c = 1 /\ is_known (hc_id c) = true /\ zlen (hc_ct_x c) <= 4096 /\ zlen (hc_ct_pq c) <= 4096 /\
  zlen (hc_iv c) <= 4096 /\ zlen (hc_encrypted c) <= max_structure_size /\ zlen (hc_tag c) <= 4096.

Lemma hybrid_wire c : small_ciphertext c -> el_wf hybrid_codec c /\ el_depth hybrid_codec c <= max_structure_depth.
Proof.
  destruct c as [v s x q i e t]. unfold small_ciphertext. cbn [hc_version hc_id hc_ct_x hc_ct_pq hc_iv hc_encrypted hc_tag].
  intros (-> & Hs & Hx & Hq & Hi & He & Ht). assert (in_range u16 1) as Hv by ground. assert (4096 <= max_structure_size) as Hm by ground.
  split; [|ground]. split.
  - assert (forall b : octets, zlen b <= 4096 -> zlen b <= max_structure_size) as L by (intros; lia).
    exact (conj Hv (conj (known_suite_wf s Hs) (conj (L x Hx) (conj (L q Hq) (conj (L i Hi) (conj He (conj (L t Ht) I))))))).
  - cbn [bd_content hybrid_fields_body iso_body then_body unit_body fst snd hc_version hc_id hc_ct_x hc_ct_pq hc_iv hc_encrypted hc_tag].
    rewrite !zlen_app, (zlen_nil (A:=Z)). pose proof (int_octets_wf u16 _ Hv). pose proof (known_suite_octets s Hs).
    pose proof (octets_field x ltac:(lia)). pose proof (octets_field q ltac:(lia)). pose proof (octets_field i ltac:(lia)).
    pose proof (octets_field e He). pose proof (octets_field t ltac:(lia)).
    assert (max_structure_size + 20000 <= max_constructed_size) by ground. lia.
Qed.

(** The size of the text that the encoder still takes: a string of the codec. *)
Definition encryptable (plain : octets) : Prop := zlen plain <= max_structure_size.

Lemma encryptable_fits plain : encryptable plain -> zlen plain <= aes_gcm_max_data_size.
Proof. unfold encryptable. assert (max_structure_size <= aes_gcm_max_data_size) by ground. lia. Qed.

(** The cipher of a content. *)
Lemma run_encrypt `{!AesGcm} key iv data : zlen key = aes_gcm_key_size -> zlen iv = aes_gcm_iv_size -> zlen data <= aes_gcm_max_data_size ->
  exists out t, run_cipher (create_aes_gcm_stream_encryptor key iv) iv data = Ok (out, t) /\ zlen t = aes_gcm_tag_size /\
    zlen out = zlen data /\ gcm_seal key iv iv data = out ++ t.
Proof.
  intros Hk Hi Hd. destruct (two_pieces iv data) as [Ea Et].
  destruct (single_seals [Auth iv; Text data] key iv Hk Hi) as (c & out & t & c' & Ec & Em & Es & Ht); [unfold fits; by rewrite Et|].
  rewrite Ea, Et in Es. exists out, t. split_and!; [|done| |done].
  - unfold run_cipher, create_aes_gcm_stream_encryptor. rewrite Ec. cbn. by rewrite Em.
  - destruct (seal_is_ctr key iv iv data Hk Hi Hd) as (t' & Ht' & E). rewrite Es in E.
    apply app_same_size in E as [-> _]; [apply zlen_xor_at|by rewrite Ht, Ht'].
Qed.

Lemma run_decrypt `{!AesGcm} key iv text : zlen key = aes_gcm_key_size -> zlen iv = aes_gcm_iv_size -> zlen text <= aes_gcm_max_data_size ->
  exists out t, run_cipher (create_aes_gcm_stream_decryptor key iv) iv text = Ok (out, t) /\ zlen t = aes_gcm_tag_size /\
    forall t', zlen t' = aes_gcm_tag_size -> gcm_unseal key iv iv (text ++ t') = if tag_matches t t' then Some out else None.
Proof.
  intros Hk Hi Hd. destruct (two_pieces iv text) as [Ea Et].
  destruct (single_opens [Auth iv; Text text] key iv Hk Hi) as (c & out & t & c' & Ec & Em & Ht & Hu); [unfold fits; by rewrite Et|].
  rewrite Ea, Et in Hu. exists out, t. split_and!; [|done|done].
  unfold run_cipher, create_aes_gcm_stream_decryptor. rewrite Ec. cbn. by rewrite Em.
Qed.

(** Decrypting and comparing the tag is the one-shot decryption. *)
Definition opened (key iv text t : octets) : eres octets :=
  if zlen t =? aes_gcm_tag_size then match gcm_unseal key iv iv (text ++ t) with Some d => Ok d | None => Throw InvalidTag end
  else Throw InvalidTag.

Lemma checked_is_opened `{!AesGcm} key iv text t : zlen key = aes_gcm_key_size -> zlen iv = aes_gcm_iv_size ->
  zlen text <= aes_gcm_max_data_size ->
  ('(data, t') ← run_cipher (create_aes_gcm_stream_decryptor key iv) iv text; if negb (tag_matches t' t) then Throw InvalidTag else mret data) =
  opened key iv text t.
Proof.
  intros Hk Hi Hd. destruct (run_decrypt key iv text Hk Hi Hd) as (out & t' & E & Ht' & Hu). rewrite E. cbn -[gcm_unseal tag_matches].
  unfold opened. destruct (Z.eqb_spec (zlen t) aes_gcm_tag_size) as [Et|Hne].
  - rewrite (Hu t Et). by destruct (tag_matches t' t).
  - unfold tag_matches. rewrite Ht'. by destruct (Z.eqb_spec aes_gcm_tag_size (zlen t)).
Qed.

Lemma sealed_is_opened `{!AesGcm} key iv data text t : zlen key = aes_gcm_key_size -> zlen iv = aes_gcm_iv_size ->
  zlen data <= aes_gcm_max_data_size -> zlen t = aes_gcm_tag_size -> gcm_seal key iv iv data = text ++ t -> opened key iv text t = Ok data.
Proof.
  intros Hk Hi Hd Ht E. unfold opened. rewrite Ht, Z.eqb_refl. by rewrite (proj2 (unseal_iff key iv iv data (text ++ t) Hk Hi)).
Qed.

(** The generator fills what it is asked for: an ephemeral key and a nonce. *)
Definition random_fits (r : encryption_random) (pk : public_key) : Prop :=
  zlen (er_eph r) = zlen (pk_kem_x_pk pk) /\ zlen (er_iv r) = aes_gcm_iv_size.

Lemma holder_x_size sk pk : holder sk pk -> zlen (pk_kem_x_pk pk) = zlen (sk_kem_x_sk sk).
Proof.
  intros [Hsk Hpk Hs _ _ _]. destruct (private_sizes sk Hsk) as (p & Ep & -> & _). rewrite <- Hs in Ep. apply (public_sizes pk p Hpk Ep).
Qed.

Lemma encrypt_for_opens `{!KemLaw, !AesGcm} sk pk r plain : holder sk pk -> random_fits r pk -> encryptable plain ->
  exists c, encrypt_for r plain pk = Ok c /\ forall rest, sk_decrypt sk (c ++ rest) = Ok plain.
Proof.
  intros Hh [He Hi] Hp. rewrite (holder_x_size sk pk Hh) in He. destruct (kem_agrees sk pk r Hh He) as (p & e & Ep & Ee & Hk & Hx & Hq & Ed). destruct Hh as [_ Hv Hs Hid _ _].
  destruct (seal_is_ctr (ke_key e) (er_iv r) (pk_id pk) plain Hk Hi (encryptable_fits _ Hp)) as (t & Ht & Et).
  set (text := xor_at _ 0 plain) in *. assert (zlen text = zlen plain) as Hl by apply zlen_xor_at.
  set (ct := HybridCiphertext 1 (pk_suite pk) (ke_ct_x e) (ke_ct_pq e) (er_iv r) text t).
  destruct (small_sizes _ _ Ep) as (Hn & Hx' & Hq'). assert (small_ciphertext ct) as Hsmall.
  { unfold small_ciphertext, ct, encryptable in *. cbn. rewrite Hs. change aes_gcm_iv_size with 12 in *. change aes_gcm_tag_size with 16 in *.
    split_and!; done || lia. }
  destruct (hybrid_wire ct Hsmall) as [Hw Hd]. pose proof (serialise_element hybrid_codec ct Hw) as Es.
  pose proof (fun rest => deserialise_element hybrid_codec ct rest Hw Hd) as Er. revert Es Er.
  generalize (el_octets hybrid_codec None ct) as bs. intros bs Es Er. exists bs. split.
  - unfold encrypt_for. rewrite Hv. cbn. rewrite Ee. cbn -[asn_der_serialise aes_gcm_tag_size]. rewrite Et, zlen_app, Ht, Z.add_simpl_r, ztake_app, zdrop_app.
    fold ct. by rewrite Es.
  - intros rest. unfold sk_decrypt, parse_ciphertext. rewrite Er.
    cbn [ct hc_version hc_id hc_iv hc_tag]. rewrite Hs, Hi, Ht, !Z.eqb_refl. cbn -[gcm_unseal]. rewrite Ed. cbn.
    unfold open_sealed_text. cbn. rewrite (proj2 (unseal_iff (ke_key e) (er_iv r) (sk_id sk) plain _ Hk Hi)); [done|].
    split; [by apply encryptable_fits|]. by rewrite <- Hid, Et.
Qed.

(** What a valid key can come to. *)
Lemma decapsulate_total `{!KemLaw} sk ct_x ct_pq : sk_is_valid sk = Ok true ->
  decapsulate sk ct_x ct_pq = Throw BadCiphertext \/
  exists key, decapsulate sk ct_x ct_pq = Ok key /\ zlen key = aes_gcm_key_size.
Proof.
  intros Hv. destruct (private_sizes sk Hv) as (p & Ep & Ex & Eq). destruct (suite_named _ _ Ep) as (name & En).
  unfold decapsulate, kem_decapsulate, combine_shared_secrets, check_private_sizes. cbn [ks_id ks_x_sk ks_pq_seed].
  rewrite Hv. cbn. rewrite Ep. cbn. rewrite Ex, Eq, !Z.eqb_refl. cbn.
  destruct (_ || _); [by left|]. destruct (x_derive _ _ _) as [ss_x|]; [|by left]. destruct (ml_kem_decrypt _ _ _) as [ss|]; [|by left].
  rewrite En. cbn. right. eexists. split; [done|]. by rewrite hkdf_size.
Qed.

(** ** Envelopes *)

(** A recipient that can be sent to. *)
Definition reachable (rp : encryption_random * public_key) : Prop :=
  random_fits (fst rp) (snd rp) /\ exists sk, holder sk (snd rp).

Definition sent_to (sym_key : octets) (rp : encryption_random * public_key) (k : encrypted_key) : Prop :=
  encrypt_key (fst rp) (snd rp) sym_key = Ok k.

Lemma sym_key_encryptable (key : octets) : zlen key = aes_gcm_key_size -> encryptable key.
Proof. unfold encryptable. intros ->. ground. Qed.

Lemma encrypt_key_reachable `{!KemLaw, !AesGcm} sym rp : zlen sym = aes_gcm_key_size -> reachable rp -> exists k, sent_to sym rp k.
Proof.
  intros Hs [Hr [sk Hh]]. destruct (encrypt_for_opens sk (snd rp) (fst rp) sym Hh Hr (sym_key_encryptable _ Hs)) as (c & E & _).
  eexists. unfold sent_to, encrypt_key. by rewrite E.
Qed.

Lemma sent_id sym rp k : sent_to sym rp k -> ek_id k = pk_id (snd rp).
Proof. unfold sent_to, encrypt_key. destruct (encrypt_for (fst rp) sym (snd rp)); [|done]. cbn. by intros [= <-]. Qed.

Lemma sent_opens `{!KemLaw, !AesGcm} sym rp k sk : zlen sym = aes_gcm_key_size -> sent_to sym rp k -> holder sk (snd rp) ->
  random_fits (fst rp) (snd rp) -> decrypt_key sk k = Ok sym.
Proof.
  intros Hs Hk Hh Hr. destruct (encrypt_for_opens sk (snd rp) (fst rp) sym Hh Hr (sym_key_encryptable _ Hs)) as (c & E & Ed).
  unfold sent_to, encrypt_key in Hk. rewrite E in Hk. injection Hk as <-.
  unfold decrypt_key. cbn [ek_id ek_data]. rewrite (ho_id _ _ Hh), bool_decide_eq_true_2 by done. cbn -[sk_decrypt].
  specialize (Ed []). by rewrite app_nil_r in Ed.
Qed.

Lemma add_all_keys `{!KemLaw, !AesGcm} recs en : zlen (en_sym_key en) = aes_gcm_key_size -> Forall reachable recs ->
  exists ks, Forall2 (sent_to (en_sym_key en)) recs ks /\ add_all recs en = Ok (Enveloper (en_data en) (en_sym_key en) (en_keys en ++ ks)).
Proof.
  intros Hs Hr. revert en Hs. induction Hr as [|[r pk] recs Hrp _ IH]; intros en Hs.
  { exists []. split; [constructor|]. cbn. rewrite app_nil_r. by destruct en. }
  destruct (encrypt_key_reachable _ _ Hs Hrp) as [k Hk]. cbn [add_all]. unfold enveloper_add, enveloper_encrypt_key.
  unfold sent_to in Hk. cbn [fst snd] in Hk. rewrite Hk. cbn. destruct (IH (Enveloper (en_data en) (en_sym_key en) (en_keys en ++ [k])) Hs) as (ks & HF & E).
  exists (k :: ks). split; [by constructor|]. rewrite E. cbn. by rewrite <- app_assoc.
Qed.

Lemma find_sent `{!KemLaw, !AesGcm} sym recs ks sk : zlen sym = aes_gcm_key_size -> Forall2 (sent_to sym) recs ks ->
  Forall (fun rp => pk_id (snd rp) = sk_id sk -> random_fits (fst rp) (snd rp) /\ holder sk (snd rp)) recs ->
  match List.find (fun k => bool_decide (ek_id k = sk_id sk)) ks with
  | Some k => decrypt_key sk k = Ok sym /\ sk_id sk ∈ map (fun rp => pk_id (snd rp)) recs
  | None => sk_id sk ∉ map (fun rp => pk_id (snd rp)) recs
  end.
Proof.
  intros Hs HF. induction HF as [|rp k recs ks Hk _ IH]; intros Hf; [apply not_elem_of_nil|]. inversion_clear Hf as [|? ? Hrp Hf']. cbn [List.find map].
  pose proof (sent_id _ _ _ Hk) as Hid. destruct (bool_decide_reflect (ek_id k = sk_id sk)) as [E|Hne].
  - destruct (Hrp ltac:(congruence)) as [Hr Hh]. split; [by apply (sent_opens sym rp)|]. apply elem_of_cons. left. congruence.
  - specialize (IH Hf'). destruct (List.find _ ks); rewrite elem_of_cons; [tauto|]. intros [?|?]; [congruence|done].
Qed.

Lemma find_app_spec {A} (f : A -> bool) l l' :
  List.find f (l ++ l') = match List.find f l with Some x => Some x | None => List.find f l' end.
Proof. induction l as [|x l IH]; cbn; [done|]. by destruct (f x). Qed.

(** Once the key is found, the envelope opens like its content. *)
Lemma envelope_opens `{!AesGcm} e sk k sym : List.find (fun k => bool_decide (ek_id k = sk_id sk)) (ev_keys e) = Some k ->
  decrypt_key sk k = Ok sym -> zlen sym = aes_gcm_key_size -> zlen (ev_iv e) = aes_gcm_iv_size -> zlen (ev_encrypted e) <= aes_gcm_max_data_size ->
  envelope_decrypt e sk = opened sym (ev_iv e) (ev_encrypted e) (ev_tag e).
Proof.
  intros Hf Hk Hs Hi Hl. unfold envelope_decrypt. rewrite Hf, Hk. rewrite <- (checked_is_opened sym) by done. done.
Qed.
End holders.

Section generated.
Context `{Kem, SignatureLaw}.

Lemma new_public_key_ok s a x q k : new_public_key s a x q = Ok k ->
  exists i, k = PublicKey 2 s a x q [] (Signature 2 [] []) [] i /\ construct_id k = Ok i.
Proof.
  unfold new_public_key. cbv zeta. destruct (construct_id _) as [i|e] eqn:E; [|done]. cbn -[construct_id]. intros [= <-].
  exists i. by split.
Qed.

Lemma make_public_key_ok s seed kem k : make_public_key s seed kem = Ok k -> ks_id kem = s ->
  exists i, k = PublicKey 2 s (ml_dsa_public s seed) (x_public s (ks_x_sk kem)) (ml_kem_public s (ks_pq_seed kem)) [] (Signature 2 [] []) [] i /\
    construct_id k = Ok i.
Proof.
  unfold make_public_key, kem_public_part. intros E <-. destruct (parameters (ks_id kem)) as [p|e]; [|done]. cbn -[new_public_key] in E.
  destruct (zlen seed =? sp_sig_seed_size p); [|done]. cbn -[new_public_key] in E.
  destruct (check_private_sizes p kem); [|done]. cbn -[new_public_key] in E. by apply new_public_key_ok in E.
Qed.

(** The signature is not part of what it is over. *)
Lemma resigned sg k : construct_id (set_pk_sig sg k) = construct_id k /\ signature_content (set_pk_sig sg k) = signature_content k /\
  forall s d c, pk_verify (set_pk_sig sg k) s d c = pk_verify k s d c.
Proof. done. Qed.

Lemma signed_key sk nonce k : new_private_key nonce sk = Ok k -> exists sg content,
  k = PrivateKey (sk_suite sk) (set_pk_sig sg (sk_public sk)) (sk_sig_seed sk) (sk_kem_x_sk sk) (sk_kem_pq_seed sk) /\
  signature_content (sk_public sk) = Ok content /\ sk_sign sk nonce content self_signature_context = Ok sg /\ sk_is_valid sk = Ok true.
Proof.
  unfold new_private_key, pk_sign_me. destruct (signature_content (sk_public sk)) as [content|]; [|done]. cbn -[sk_sign].
  destruct (sk_sign sk nonce content self_signature_context) as [sg|] eqn:E; [|done]. cbn. intros [= <-]. exists sg, content. split_and!; [done..|].
  unfold sk_sign in E. destruct (frame_message _ _); [|done]. cbn -[sk_is_valid] in E. by destruct (sk_is_valid sk) as [[]|].
Qed.

Lemma valid_halves sk : sk_is_valid sk = Ok true -> pk_is_valid (sk_public sk) = Ok true /\ pk_suite (sk_public sk) = sk_suite sk.
Proof.
  unfold sk_is_valid. destruct (parameters (sk_suite sk)); [|done]. cbn -[pk_is_valid]. destruct (_ && _); [|done].
  destruct (pk_is_valid (sk_public sk)) as [[]|]; cbn; [|done..]. by intros [= ?%Z.eqb_eq].
Qed.
End generated.

(** ** Properties *)

(** C15: Whoever holds the private key decrypts what was encrypted to the public one:
    texts up to the limit of the wire format are encrypted, and the octets, also
    with others behind them, are decrypted to the text. *)
Theorem encrypted_text_decrypts `{KemLaw, Primitives, AesGcm} (sk : private_key) (pk : public_key) (r : encryption_random) (plain : octets)
  (Hh : holder sk pk) (Hr : random_fits r pk) (Hp : encryptable plain) :
  exists c, encrypt_for r plain pk = Ok c /\ forall rest, sk_decrypt sk (c ++ rest) = Ok plain.
Proof. by apply encrypt_for_opens. Qed.

(** C33: A generated key is complete: it signs for its public key, holds it, and the
    public key is self-authentic. *)
Theorem generated_keys_complete `{Kem, SignatureLaw} (sig_seed x pq_seed nonce : octets) (s : Z) (sk : private_key)
  (Hg : generate_private_key sig_seed x pq_seed nonce s = Ok sk) :
  key_pair sk /\ holder sk (sk_public sk) /\ pk_verify_me (sk_public sk) = Ok true.
Proof.
  unfold generate_private_key, generate_kem_private_key, new_private_key_impl in Hg. destruct (parameters s) as [p|]; [|done].
  cbn -[make_public_key new_private_key] in Hg. destruct (make_public_key _ _ _) as [pk|] eqn:Ek; [|done]. cbn -[new_private_key] in Hg.
  apply make_public_key_ok in Ek as (i & Epk & Ei); [|done]. apply signed_key in Hg as (sg & content & -> & Ec & Esg & Hv). cbn [sk_public] in *.
  destruct (valid_halves _ Hv) as [Hpv Hs]. cbn [sk_public sk_suite] in *. subst pk. cbn [ks_x_sk ks_pq_seed] in *.
  assert (key_pair (PrivateKey s _ sig_seed x pq_seed)) as Hkp by (split; [exact Hv|reflexivity]).
  destruct (sk_sign_verifies _ _ _ _ _ Hkp Esg) as (Hver & _ & _). split_and!.
  - by split.
  - by constructor.
  - unfold pk_verify_me. rewrite (proj1 (proj2 (resigned _ _))), Ec. cbn -[pk_verify construct_id].
    rewrite (proj2 (proj2 (resigned _ _))). cbn [sk_public] in Hver. rewrite Hver. cbn -[construct_id].
    rewrite (proj1 (resigned _ _)), Ei. cbn. by rewrite bool_decide_eq_true_2.
Qed.

(** C16: A valid private key decrypts or throws bad_ciphertext, nothing else; and
    what it decrypts was sealed with the encapsulated key, for its own id. *)
Theorem decrypts_or_bad_ciphertext `{KemLaw, Primitives, AesGcm} (sk : private_key) (c : octets) (Hv : sk_is_valid sk = Ok true) :
  sk_decrypt sk c = Throw BadCiphertext \/
  exists plain ct key, sk_decrypt sk c = Ok plain /\ asn_der_deserialise hybrid_codec c = Ok ct /\ hc_id ct = sk_suite sk /\
    decapsulate sk (hc_ct_x ct) (hc_ct_pq ct) = Ok key /\ zlen plain = zlen (hc_encrypted ct) /\
    hc_encrypted ct ++ hc_tag ct = gcm_seal key (hc_iv ct) (sk_id sk) plain.
Proof.
  unfold sk_decrypt, parse_ciphertext. destruct (asn_der_deserialise hybrid_codec c) as [ct|e]; [|by left].
  destruct (Z.eqb_spec (hc_version ct) 1); [|by left]. destruct (Z.eqb_spec (hc_id ct) (sk_suite sk)) as [Es|]; [|by left]. cbn [negb].
  destruct (Z.eqb_spec (zlen (hc_iv ct)) aes_gcm_iv_size) as [Hi|]; [|by left].
  destruct (Z.eqb_spec (zlen (hc_tag ct)) aes_gcm_tag_size) as [Ht|]; [|by left]. cbn -[decapsulate open_sealed_text].
  destruct (decapsulate_total sk (hc_ct_x ct) (hc_ct_pq ct) Hv) as [->|(key & Ed & Hk)]; [by left|]. rewrite Ed. cbn -[open_sealed_text].
  unfold open_sealed_text. destruct (gcm_unseal _ _ _ _) as [plain|] eqn:Eu; [right|by left].
  apply unseal_iff in Eu as [Hl Eu]; [|done..]. exists plain, ct, key. split_and!; try done.
  destruct (seal_is_ctr key (hc_iv ct) (sk_id sk) plain Hk Hi Hl) as (t & Htt & E). rewrite E in Eu.
  apply app_same_size in Eu as [-> _]; [by rewrite zlen_xor_at|by rewrite Ht, Htt].
Qed.

(** Contents: what was encrypted is decrypted, and decrypting is the one-shot
    AEAD's: data that was sealed under this key with this iv, or invalid_tag. *)
Theorem contents_open_exactly `{AesGcm} (sym_key : octets) (Hk : zlen sym_key = aes_gcm_key_size) :
  (forall iv data, zlen iv = aes_gcm_iv_size -> zlen data <= aes_gcm_max_data_size ->
     exists ec, encrypt iv data sym_key = Ok ec /\ decrypt ec sym_key = Ok data) /\
  (forall ec, zlen (ec_iv ec) = aes_gcm_iv_size -> zlen (ec_encrypted ec) <= aes_gcm_max_data_size ->
     decrypt ec sym_key = Throw InvalidTag \/
     exists data, decrypt ec sym_key = Ok data /\ ec_encrypted ec ++ ec_tag ec = gcm_seal sym_key (ec_iv ec) (ec_iv ec) data).
Proof.
  split.
  - intros iv data Hi Hd. destruct (run_encrypt sym_key iv data Hk Hi Hd) as (out & t & E & Ht & Hl & Es).
    exists (EncryptedContent 0 iv out t). split; [unfold encrypt; by rewrite E|].
    unfold decrypt. cbn [ec_iv ec_encrypted ec_tag]. rewrite checked_is_opened by (done || by rewrite Hl). by apply sealed_is_opened.
  - intros ec Hi Hd. unfold decrypt. rewrite checked_is_opened by done. unfold opened.
    destruct (_ =? _); [|by left]. destruct (gcm_unseal _ _ _ _) as [data|] eqn:Eu; [right|by left]. exists data. split; [done|].
    by apply unseal_iff in Eu as [_ Eu].
Qed.

(** C17: Envelopes: every recipient decrypts the data, nobody else finds a key, and a
    recipient added afterwards decrypts it too, the others as before. *)
Theorem recipients_decrypt `{KemLaw, Primitives, AesGcm} (sym_key iv data : octets) (recipients : list (encryption_random * public_key))
  (Hs : zlen sym_key = aes_gcm_key_size) (Hi : zlen iv = aes_gcm_iv_size) (Hd : zlen data <= aes_gcm_max_data_size)
  (Hr : Forall reachable recipients) :
  exists e, envelope sym_key iv recipients data = Ok e /\
    forall sk, Forall (fun rp => pk_id (snd rp) = sk_id sk -> holder sk (snd rp)) recipients ->
      (if decide (sk_id sk ∈ map (fun rp => pk_id (snd rp)) recipients)
       then envelope_decrypt e sk = Ok data /\ forall k, envelope_decrypt (envelope_add k e) sk = Ok data
       else envelope_decrypt e sk = Throw WrongKey /\
            forall r pk k, holder sk pk -> random_fits r pk -> encrypt_key r pk sym_key = Ok k ->
              envelope_decrypt (envelope_add k e) sk = Ok data).
Proof.
  destruct (add_all_keys recipients (new_enveloper sym_key data) Hs Hr) as (ks & HF & Ea). cbn [en_sym_key new_enveloper] in HF.
  destruct (run_encrypt sym_key iv data Hs Hi Hd) as (out & t & Ec & Ht & Hl & Es).
  exists (EnvelopedContent 0 ks iv out t). split.
  { unfold envelope. rewrite Ea. cbn -[run_cipher create_aes_gcm_stream_encryptor]. unfold enveloper_result. cbn [en_sym_key en_data en_keys]. by rewrite Ec. }
  intros sk Hsk. assert (Forall (fun rp => pk_id (snd rp) = sk_id sk -> random_fits (fst rp) (snd rp) /\ holder sk (snd rp)) recipients) as Hf.
  { rewrite Forall_forall in Hr, Hsk. apply Forall_forall. intros rp Hrp Hid. split; [apply Hr|apply Hsk]; done. }
  pose proof (find_sent sym_key recipients ks sk Hs HF Hf) as Hfind. rewrite <- Hl in Hd.
  assert (forall ks' k, List.find (fun k => bool_decide (ek_id k = sk_id sk)) ks' = Some k -> decrypt_key sk k = Ok sym_key ->
    envelope_decrypt (EnvelopedContent 0 ks' iv out t) sk = Ok data) as Hopen.
  { intros ks' k Ek Edk. rewrite (envelope_opens _ sk k sym_key) by done. apply sealed_is_opened; try done. by rewrite <- Hl. }
  destruct (List.find _ ks) as [k|] eqn:Ek; destruct (decide _); try tauto.
  - split; [by apply (Hopen _ k); [|apply Hfind]|]. intros k'. apply (Hopen _ k); [|apply Hfind]. cbn [ev_keys]. by rewrite find_app_spec, Ek.
  - split; [unfold envelope_decrypt; cbn [ev_keys]; by rewrite Ek|]. intros r pk k Hh Hrf Hk. apply (Hopen _ k).
    + cbn [ev_keys]. rewrite find_app_spec, Ek. cbn [List.find]. pose proof (sent_id sym_key (r, pk) k Hk) as ->. cbn [snd].
      by rewrite (ho_id _ _ Hh), bool_decide_eq_true_2.
    + by apply (sent_opens sym_key (r, pk) k sk Hs Hk Hh).
Qed.

Module EnvelopeSample.
Import GcmSample.
#[export] Existing Instance demo.
#[export] Existing Instance demo_law.

(** Functions that can be evaluated and agree as the real ones do. *)
Definition sample_kem_public (s : Z) (seed : octets) : octets :=
  match parameters s with Ok p => resize (sp_kem_public_size p) seed | Throw _ => [] end.

Definition sample_kem_key (ct seed : octets) : octets := be_digits 32 (be_val ct + be_val seed).

#[export] Instance sample_kem : Kem := {|
  x_public s a := a;
  x_derive s a b := Some (zip_with Z.add a b);
  ml_kem_public := sample_kem_public;
  ml_kem_encrypt s pk random :=
    match parameters s with
    | Ok p => let ct := resize (sp_kem_ciphertext_size p) random in Some (ct, sample_kem_key ct (ztake (sp_kem_seed_size p) pk))
    | Throw _ => None
    end;
  ml_kem_decrypt s seed ct := Some (sample_kem_key ct seed);
  hkdf_sha3_256 n ikm info := be_digits (Z.to_nat n) (be_val (ikm ++ info)) |}.

Lemma sample_sizes s p : parameters s = Ok p ->
  0 <= sp_kem_seed_size p <= sp_kem_public_size p /\ 0 <= sp_kem_ciphertext_size p.
Proof. unfold parameters. destruct (s =? pq1); [intros [= <-]; cbn; lia|]. destruct (s =? pq1_high); [intros [= <-]; cbn; lia|done]. Qed.

Lemma zip_add_comm (a b : octets) : zip_with Z.add a b = zip_with Z.add b a.
Proof. revert b. induction a as [|x a IH]; intros [|y b]; cbn; [done..|]. by rewrite IH, Z.add_comm. Qed.

#[export] Instance sample_kem_law : KemLaw.
Proof.
  split; cbn -[parameters be_digits be_val resize].
  - done.
  - intros s p a b _ _ _. eexists. split; [done|]. f_equal. apply zip_add_comm.
  - intros s p seed random Ep Es. destruct (sample_sizes s p Ep) as [? ?]. unfold sample_kem_public. rewrite Ep. do 2 eexists.
    split_and!; [done|by apply zlen_resize|]. do 2 f_equal. unfold resize. rewrite (ztake_ge (sp_kem_public_size p) seed) by lia.
    by rewrite <- Es, ztake_app.
  - intros n ikm info Hn. rewrite zlen_be_digits. lia.
Qed.

Definition sample_generated : cres private_key := generate_private_key (repeat 1 32) (repeat 3 32) (repeat 4 64) [7] pq1.
Definition no_private_key : private_key := PrivateKey pq1 (PublicKey 2 pq1 [] [] [] [] (Signature 2 [] []) [] []) [] [] [].
Definition sample_sk : private_key := match sample_generated with Ok sk => sk | Throw _ => no_private_key end.
Abbreviation sample_pk := (sk_public sample_sk).
Definition sample_random : encryption_random := EncryptionRandom (repeat 9 32) [1; 2; 3] (repeat 8 12).

Lemma sample_is_generated : generate_private_key (repeat 1 32) (repeat 3 32) (repeat 4 64) [7] pq1 = Ok sample_sk.
Proof. vm_compute. reflexivity. Qed.

Lemma sample_holds : holder sample_sk sample_pk.
Proof. constructor; vm_compute; reflexivity. Qed.

Lemma sample_random_fits : random_fits sample_random sample_pk.
Proof. split; vm_compute; reflexivity. Qed.

(** The last octet of the tag changed. *)
Example tampered_text :
  match encrypt_for sample_random [5; 6; 7] sample_pk with
  | Ok c => sk_decrypt sample_sk (ztake (zlen c - 1) c ++ [1 + List.last c 0]) = Throw BadCiphertext
  | Throw _ => False
  end.
Proof. vm_compute. reflexivity. Qed.
End EnvelopeSample.
Import GcmSample EnvelopeSample.

Lemma encrypted_text_decrypts_witness :
  exists c, encrypt_for sample_random [5; 6; 7] sample_pk = Ok c /\ sk_decrypt sample_sk (c ++ [0]) = Ok [5; 6; 7].
Proof.
  destruct (encrypted_text_decrypts sample_sk sample_pk sample_random [5; 6; 7] sample_holds sample_random_fits) as (c & E & Ed); [ground|].
  exists c. split; [exact E|apply Ed].
Defined.

Lemma generated_keys_complete_witness : key_pair sample_sk /\ pk_verify_me sample_pk = Ok true.
Proof.
  destruct (generated_keys_complete (repeat 1 32) (repeat 3 32) (repeat 4 64) [7] pq1 sample_sk sample_is_generated) as (Hk & _ & Hv).
  exact (conj Hk Hv).
Defined.

Lemma decrypts_or_bad_ciphertext_witness : sk_decrypt sample_sk [48; 0] = Throw BadCiphertext.
Proof.
  destruct (decrypts_or_bad_ciphertext sample_sk [48; 0] (ho_private _ _ sample_holds)) as [E|(p & ct & key & E & Ed & _)]; [exact E|].
  exfalso. revert Ed. vm_compute. discriminate.
Defined.

Lemma contents_open_exactly_witness :
  exists ec, encrypt sample_nonce [1; 2; 3] sample_key = Ok ec /\ decrypt ec sample_key = Ok [1; 2; 3].
Proof. apply (contents_open_exactly sample_key); [reflexivity|reflexivity|ground]. Defined.

Lemma recipients_decrypt_witness :
  exists e, envelope sample_key sample_nonce [(sample_random, sample_pk)] [1; 2; 3] = Ok e /\ envelope_decrypt e sample_sk = Ok [1; 2; 3].
Proof.
  destruct (recipients_decrypt sample_key sample_nonce [1; 2; 3] [(sample_random, sample_pk)]) as (e & E & Hsk).
  - reflexivity.
  - reflexivity.
  - ground.
  - constructor; [|constructor]. split; [exact sample_random_fits|exists sample_sk; exact sample_holds].
  - exists e. split; [exact E|]. specialize (Hsk sample_sk). destruct (decide _) as [_|Hn].
    + apply Hsk. constructor; [|constructor]. intros _. exact sample_holds.
    + exfalso. apply Hn. apply elem_of_cons. left. exact (eq_sym (ho_id _ _ sample_holds)).
Defined.
