(* ===== verification/KeyProtocol.v ===== *)
(** The messages of the key service: [key_server/protocol/protocol.hpp].

    The client and the server exchange DER choices, one in a frame
    ([KeyService] lets them exchange the values).  In the answers of the two
    lookups an optional sequence (the key, the certificate) is followed by
    another sequence (the error), so that the reader of an absent key begins to
    read the error as a key before it finds that it is none. *)

From stdpp Require Import base list numbers strings.
From Stdlib Require Import ZArith Lia.
From S2P Require Import Prelude Asn1Int Asn1Stream Asn1Encoder Asn1Decoder Serialise Errors PacketDeserialiser Crypto.
Open Scope Z_scope.

(** ** Messages *)

Inductive message : Type :=
| register_key_request (id : Z) (key : public_key)
| find_key_request (id : Z) (kid : octets)
| find_certificate_request (id : Z) (cid : octets)
| register_key_response (id : Z) (error : net_error)
| find_key_response (id : Z) (key : option public_key) (error : net_error)
| find_certificate_response (id : Z) (cert : option certificate) (error : net_error).

Section codecs.
Context `{Primitives}.

Definition register_request_codec : codec (Z * (public_key * unit)) :=
  seq_codec (then_codec (int_codec u32) (then_codec public_key_codec unit_codec)).
Definition find_request_codec : codec (Z * (octets * unit)) :=
  seq_codec (then_codec (int_codec u32) (then_codec id_codec unit_codec)).
Definition register_response_codec : codec (Z * (net_error * unit)) :=
  seq_codec (then_codec (int_codec u32) (then_codec net_error_codec unit_codec)).

(** [seq & id & key & error] with an optional [key]. *)
Definition found_fields {A} (c : codec A) : codec (Z * (option A * (net_error * unit))) :=
  then_codec (int_codec u32) (then_codec (optional_codec c) (then_codec net_error_codec unit_codec)).
Definition find_key_response_codec : codec (Z * (option public_key * (net_error * unit))) := seq_codec (found_fields public_key_codec).
Definition find_certificate_response_codec : codec (Z * (option certificate * (net_error * unit))) :=
  seq_codec (found_fields certificate_codec).

(** [types]: the tags of the choice. *)
Definition message_serialise (m : message) : ser unit :=
  match m with
  | register_key_request id key => ser_tagged implicit_tag 1 (c_ser register_request_codec (id, (key, tt)))
  | find_key_request id kid => ser_tagged implicit_tag 2 (c_ser find_request_codec (id, (kid, tt)))
  | find_certificate_request id cid => ser_tagged implicit_tag 3 (c_ser find_request_codec (id, (cid, tt)))
  | register_key_response id e => ser_tagged implicit_tag 4 (c_ser register_response_codec (id, (e, tt)))
  | find_key_response id key e => ser_tagged implicit_tag 5 (c_ser find_key_response_codec (id, (key, (e, tt))))
  | find_certificate_response id cert e =>
      ser_tagged implicit_tag 6 (c_ser find_certificate_response_codec (id, (cert, (e, tt))))
  end.

Definition message_octets (m : message) : result ser_exn octets :=
  match message_serialise m (Serialiser fresh_encoder None) with
  | (Ok _, s) => Ok (written (sr_enc s))
  | (Throw e, _) => Throw e
  end.

(** The alternatives, for a visitor of the messages. *)
Definition message_alternatives {R} (visit : message -> R) : list (Z * des R) :=
  [(1, (v ← c_des register_request_codec; mret (visit (register_key_request (fst v) (fst (snd v))))));
   (2, (v ← c_des find_request_codec; mret (visit (find_key_request (fst v) (fst (snd v))))));
   (3, (v ← c_des find_request_codec; mret (visit (find_certificate_request (fst v) (fst (snd v))))));
   (4, (v ← c_des register_response_codec; mret (visit (register_key_response (fst v) (fst (snd v))))));
   (5, (v ← c_des find_key_response_codec; mret (visit (find_key_response (fst v) (fst (snd v)) (fst (snd (snd v)))))));
   (6, (v ← c_des find_certificate_response_codec;
        mret (visit (find_certificate_response (fst v) (fst (snd v)) (fst (snd (snd v)))))))].

(** [deser_.handle] of a connection of the service. *)
Definition handle_message {W} (visit : message -> W -> W) (frame : octets) : sexn (packet_deserialiser W) ser_exn unit :=
  pd_handle (message_alternatives visit) frame.

(** ** An error read as a key *)

(** A reader that finds a string where it wants something else. *)
Definition not_a_string {A} (c : codec A) : Prop := forall h hi all p,
  header_readable h -> octets_at all p (header_octets h) -> h_class h = universal_c -> h_tag h = tag_t61string ->
  p + zlen (header_octets h) <= hi -> gives_up hi (before_end p) (c_des c) None all p.

Lemma int_not_a_string t : not_a_string (int_codec t).
Proof.
  intros h hi all p Hh Hat Hc Ht Hhi. apply gives_up_bind.
  assert (h_class h <> get_asn_class None \/ h_tag h <> get_tag None tag_integer) as Hne by (right; rewrite Ht; ground).
  destruct (it_signed t); by eapply gives_up_dec.
Qed.

Lemma suite_not_a_string : not_a_string suite_codec.
Proof.
  intros h hi all p Hh Hat Hc Ht Hhi. apply gives_up_bind, gives_up_bind, gives_up_amp.
  exact (int_not_a_string u16 h hi all p Hh Hat Hc Ht Hhi).
Qed.

(** The number of the error reads as the first field, its message is not the
    second. *)
Lemma net_error_fields_not_read {A B} t `{!IntWidth t} (c2 : codec A) (c3 : codec B) (e : net_error) all q :
  in_range t (ne_code e) -> not_a_string c2 -> bd_wf net_error_fields e -> octets_at all q (bd_content net_error_fields e) ->
  gives_up (q + zlen (bd_content net_error_fields e)) (inside (q + zlen (bd_content net_error_fields e)) 0)
    (c_des (then_codec (int_codec t) (then_codec c2 c3))) None all q.
Proof.
  intros Ht Hc2 (_ & Hm & _) Hq. change (bd_content net_error_fields e) with
    (el_octets (int_codec t) None (ne_code e) ++ (el_octets string_codec None (ne_message e) ++
      bd_content (then_codec string_codec (then_codec string_codec unit_codec)) (ne_category e, (ne_aux_message e, tt)))) in *.
  set (tail := bd_content _ _) in *. apply octets_at_app in Hq as [Hq1 Hq2].
  pose proof (zlen_el_octets (int_codec t) None (ne_code e) Ht I). pose proof (zlen_el_octets string_codec None (ne_message e) Hm I).
  pose proof (el_header_ok string_codec None (ne_message e) Hm I) as Hh. rewrite !zlen_app. pose proof (zlen_nonneg tail).
  unfold el_octets at 2 in Hq2. unfold tlv in Hq2. rewrite <- app_assoc in Hq2. apply octets_at_app in Hq2 as [Hq2 _].
  eapply (gives_up_after _ _ (before_end (q + zlen (el_octets (int_codec t) None (ne_code e)))) _ _ _ _ _ (ne_code e));
    [|apply gives_up_bind, gives_up_bind, gives_up_amp, (Hc2 _ _ _ _ Hh Hq2 eq_refl eq_refl)| |].
  - eapply sreads_weaken; [apply sreads_amp, (el_reads (c:=int_codec t)); [done|done|exact Hq1]|].
    intros l Hl. apply (inside_ctx _ 0 0 _ _ Hl); [lia|cbn; lia].
  - assert (zlen (el_octets string_codec None (ne_message e)) = zlen (header_octets _) + zlen (el_content string_codec (ne_message e)))
      as -> by apply zlen_app.
    pose proof (zlen_nonneg (el_content string_codec (ne_message e))). lia.
  - intros l [Hl _]. destruct l as [|e0 l]; [done|]. injection Hl as ->. unfold before_end. lia.
  - lia.
Qed.

Lemma net_error_not_read {A} (m : des A) (e : net_error) all p :
  (forall q, octets_at all q (bd_content net_error_fields e) ->
     gives_up (q + zlen (bd_content net_error_fields e)) (inside (q + zlen (bd_content net_error_fields e)) 0) m None all q) ->
  el_wf net_error_codec e -> octets_at all p (el_octets net_error_codec None e) ->
  gives_up (zlen all) (ctx p 1) (des_sequence m) None all p.
Proof.
  intros Hm [Hw Hz] Hp. pose proof Hp as (_ & Hall & _).
  assert (el_octets net_error_codec None e =
    tlv (get_asn_class None) (get_tag None tag_sequence) true (bd_content net_error_fields e)) as Hoct by reflexivity.
  rewrite Hoct in *. intros mark k seqs s Hs V.
  destruct (gives_up_sequence m None (bd_content net_error_fields e) all p 0 I Hz (Z.le_refl 0) Hp Hm mark k seqs s Hs V)
    as (msg & s' & p' & E & Hp' & V').
  exists msg, s', p'. split; [exact E|]. split; [lia|done].
Qed.

(** The fields of an answer to a lookup.  An absent value needs an error whose
    number its reader takes for its first field. *)
Lemma absent_before_error {A} (c : codec A) t
  (Hmiss : forall e all p, in_range t (ne_code e) -> el_wf net_error_codec e -> octets_at all p (el_octets net_error_codec None e) ->
     gives_up (zlen all) (ctx p 1) (c_des c) None all p) b all p e :
  bd_wf (then_codec net_error_codec unit_codec) b -> in_range t (ne_code (fst b)) ->
  octets_at all p (bd_content (then_codec net_error_codec unit_codec) b) ->
  p + zlen (bd_content (then_codec net_error_codec unit_codec) b) = e -> gives_up (zlen all) (inside e 1) (c_des c) None all p.
Proof.
  intros [Hw _] Ht Hp He.
  change (bd_content _ b) with (el_octets net_error_codec None (fst b) ++ []) in *. rewrite app_nil_r in *.
  eapply gives_up_weaken; [by apply (Hmiss (fst b))|].
  intros l Hl. apply (inside_ctx _ 1 1 _ _ Hl); [|lia]. pose proof (zlen_el_octets net_error_codec None (fst b) Hw I). lia.
Qed.

Lemma no_key_before_error e all p : in_range u16 (ne_code e) -> el_wf net_error_codec e ->
  octets_at all p (el_octets net_error_codec None e) -> gives_up (zlen all) (ctx p 1) (c_des public_key_codec) None all p.
Proof.
  intros Ht Hw Hp. apply gives_up_bind, (net_error_not_read _ e); [|done|done].
  intros q. apply (net_error_fields_not_read u16); [done|exact suite_not_a_string|apply Hw].
Qed.

Lemma no_certificate_before_error e all p : in_range i32 (ne_code e) -> el_wf net_error_codec e ->
  octets_at all p (el_octets net_error_codec None e) -> gives_up (zlen all) (ctx p 1) (c_des certificate_codec) None all p.
Proof.
  intros Ht Hw Hp. apply (net_error_not_read _ e); [|done|done].
  intros q Hq. apply gives_up_bind, (net_error_fields_not_read i32); [done|exact (int_not_a_string i32)|apply Hw|done].
Qed.

Definition found_body {A} (c : codec A) `{!Element c} t
  (Hmiss : forall e all p, in_range t (ne_code e) -> el_wf net_error_codec e -> octets_at all p (el_octets net_error_codec None e) ->
     gives_up (zlen all) (ctx p 1) (c_des c) None all p) : Body (found_fields c) :=
  @then_body _ _ (int_codec u32) _ _
    (optional_body_when c (then_codec net_error_codec unit_codec) (fun b => in_range t (ne_code (fst b))) 1 Z.le_0_1
      (absent_before_error c t Hmiss)).

#[export] Instance found_key_body : Body (found_fields public_key_codec) := found_body public_key_codec u16 no_key_before_error.
#[export] Instance found_certificate_body : Body (found_fields certificate_codec) :=
  found_body certificate_codec i32 no_certificate_before_error.
#[export] Instance register_request_element : Element register_request_codec.
Proof. unfold register_request_codec. apply _. Defined.
#[export] Instance find_request_element : Element find_request_codec.
Proof. unfold find_request_codec. apply _. Defined.
#[export] Instance register_response_element : Element register_response_codec.
Proof. unfold register_response_codec. apply _. Defined.
#[export] Instance find_key_response_element : Element find_key_response_codec := @seq_element _ _ found_key_body.
#[export] Instance find_certificate_response_element : Element find_certificate_response_codec :=
  @seq_element _ _ found_certificate_body.

(** ** A message arrives *)

(** [packet_deserialiser]'s default limit. *)
Definition buf_max_size : Z := 1024 * 1024.

(** A value the format can hold, that fits into the receiver's buffer. *)
Definition fits {A} (c : codec A) `{!Element c} (t : Z) (a : A) : Prop :=
  el_wf c a /\ el_depth c a <= max_structure_depth /\ zlen (el_octets c (Some (tag_of t)) a) <= buf_max_size.

Definition message_fits (m : message) : Prop :=
  match m with
  | register_key_request id key => fits register_request_codec 1 (id, (key, tt))
  | find_key_request id kid => fits find_request_codec 2 (id, (kid, tt))
  | find_certificate_request id cid => fits find_request_codec 3 (id, (cid, tt))
  | register_key_response id e => fits register_response_codec 4 (id, (e, tt))
  | find_key_response id key e => fits find_key_response_codec 5 (id, (key, (e, tt)))
  | find_certificate_response id cert e => fits find_certificate_response_codec 6 (id, (cert, (e, tt)))
  end.

(** One alternative, from its writer to the visitor. *)
Lemma alternative_arrives {A W} (alts : list (Z * des (W -> W))) t (c : codec A) `{!Element c} (f : A -> W -> W) a w m :
  NoDup (map fst alts) -> (t, (x ← c_des c; mret (f x))) ∈ alts -> 0 <= t < 2 ^ 64 -> fits c t a ->
  message_serialise m = ser_tagged implicit_tag t (c_ser c a) ->
  exists frame, message_octets m = Ok frame /\
    pd_handle alts frame (PacketDeserialiser buf_max_size [] w) = (Ok tt, PacketDeserialiser buf_max_size [] (f a w)).
Proof.
  intros Hn Hin Ht (Hw & Hd & Hs) Em. exists (el_octets c (Some (tag_of t)) a). split.
  - unfold message_octets. rewrite Em. rewrite (semits_implicit c t a None Hw Ht fresh_encoder eq_refl).
    unfold written, append_out, fresh_encoder. simpl. done.
  - by apply handle_one.
Qed.

Lemma message_tags {R} (visit : message -> R) : NoDup (map fst (message_alternatives visit)).
Proof. apply (bool_decide_unpack _). vm_compute. exact I. Qed.
End codecs.

(** C27: A message sent by one end of a connection reaches the visitor of the other
    as it was, when the receiver's buffer is empty, and leaves it empty. *)
Theorem message_arrives `{Primitives} {W} (visit : message -> W -> W) (m : message) (w : W) (Hm : message_fits m) :
  exists frame, message_octets m = Ok frame /\
    handle_message visit frame (PacketDeserialiser buf_max_size [] w) = (Ok tt, PacketDeserialiser buf_max_size [] (visit m w)).
Proof.
  pose proof (message_tags visit) as Hn. unfold handle_message.
  destruct m as [id key|id kid|id cid|id e|id key e|id cert e]; simpl in Hm.
  1: apply (alternative_arrives _ 1 _ (fun v => visit (register_key_request (fst v) (fst (snd v)))) (id, (key, tt))).
  6: apply (alternative_arrives _ 2 _ (fun v => visit (find_key_request (fst v) (fst (snd v)))) (id, (kid, tt))).
  11: apply (alternative_arrives _ 3 _ (fun v => visit (find_certificate_request (fst v) (fst (snd v)))) (id, (cid, tt))).
  16: apply (alternative_arrives _ 4 _ (fun v => visit (register_key_response (fst v) (fst (snd v)))) (id, (e, tt))).
  21: apply (alternative_arrives _ 5 _ (fun v => visit (find_key_response (fst v) (fst (snd v)) (fst (snd (snd v)))))
         (id, (key, (e, tt)))).
  26: apply (alternative_arrives _ 6 _ (fun v => visit (find_certificate_response (fst v) (fst (snd v)) (fst (snd (snd v)))))
         (id, (cert, (e, tt)))).
  all: try exact Hn; try exact Hm; try reflexivity; try lia.
  all: unfold message_alternatives; rewrite !elem_of_cons; tauto.
Qed.

Module SampleProtocol.
(** Botan as a function that can be evaluated. *)
#[export] Instance sample_primitives : Primitives := {|
  sha3_256 m := take 32 (m ++ repeat 0 32);
  ml_dsa_verify s pk m sg := bool_decide (sg = take 16 (pk ++ m));
  ml_dsa_public s seed := seed;
  ml_dsa_sign s seed nonce m := take 16 (seed ++ m) |}.

Definition sample_error : error := make_error (ErrorCode 7 crypto_category) (literal "public key already registered"%string).
End SampleProtocol.
Import SampleProtocol SampleCategories.

Lemma message_arrives_witness :
  exists frame, message_octets (find_key_response 7 None (net_error_of sample_error)) = Ok frame /\
    handle_message cons frame (PacketDeserialiser buf_max_size [] []) =
      (Ok tt, PacketDeserialiser buf_max_size [] [find_key_response 7 None (net_error_of sample_error)]).
Proof.
  apply (message_arrives cons (find_key_response 7 None (net_error_of sample_error)) []).
  vm_compute. repeat split; congruence.
Defined.
