(* ===== verification/TextUtil.v ===== *)
(** Text: [util/conversions.cpp] (hexadecimal) and [util/string_util.cpp]
    (UTF-8, wide strings, splitting).

    A [std::string] or [string_view] is the list of its octets, a [wstring] the
    list of its code units.  [wchar_t] has 16 bits on Windows and 32 elsewhere;
    the source selects the branches by [sizeof(wchar_t)], here the argument
    [w16].  A position that a function advances is passed and returned. *)

From stdpp Require Import base list numbers.
From Stdlib Require Import ZArith Lia.
From S2P Require Import Prelude ByteOrder.
Open Scope Z_scope.

(** ** Hexadecimal *)

Definition hex_values : octets := [48; 49; 50; 51; 52; 53; 54; 55; 56; 57; 65; 66; 67; 68; 69; 70].

Definition hex_value (i : Z) : Z := nth (Z.to_nat i) hex_values 0.

Definition to_hex (v : octets) : octets :=
  flat_map (fun e => [hex_value (Z.shiftr e 4); hex_value (Z.land e 15)]) v.

Inductive hex_error : Type := invalid_hex_string | invalid_hex_length.

Definition get_value (c : Z) : result hex_error Z :=
  if (48 <=? c) && (c <=? 57) then Ok (c - 48)
  else if (65 <=? c) && (c <=? 70) then Ok (c - 65 + 10)
  else if (97 <=? c) && (c <=? 102) then Ok (c - 97 + 10)
  else Throw invalid_hex_string.

Fixpoint from_hex_loop (s : octets) : result hex_error octets :=
  match s with
  | c1 :: c2 :: rest =>
      v1 ← get_value c1;
      v2 ← get_value c2;
      res ← from_hex_loop rest;
      mret (wrap 8 (Z.lor (Z.shiftl v1 4) v2) :: res)
  | _ => Ok []
  end.

Definition from_hex (s : octets) : result hex_error octets :=
  if zlen s mod 2 =? 0 then from_hex_loop s else Throw invalid_hex_length.

(** [to_hex(str, sep)] of [string_util.cpp]. *)
Definition to_hex_sep (str sep : octets) : octets :=
  fold_left (fun ret c =>
    (if (length ret =? 0)%nat then ret else ret ++ sep) ++ [hex_value (Z.shiftr (wrap 8 c) 4); hex_value (Z.land (wrap 8 c) 15)])
    str [].

(** ** UTF-8 *)

Definition replacement_char : Z := 65533.

Definition valid_code_point (cp : Z) : bool := (cp <=? 1114111) && ((cp <? 55296) || (57343 <? cp)).

(** [append_utf8] without the accumulated string. *)
Definition utf8 (cp0 : Z) : octets :=
  let cp := if valid_code_point cp0 then cp0 else replacement_char in
  if cp <? 128 then [cp]
  else if cp <? 2048 then
    [Z.lor 192 (Z.shiftr cp 6); Z.lor 128 (Z.land cp 63)]
  else if cp <? 65536 then
    [Z.lor 224 (Z.shiftr cp 12); Z.lor 128 (Z.land (Z.shiftr cp 6) 63); Z.lor 128 (Z.land cp 63)]
  else
    [Z.lor 240 (Z.shiftr cp 18); Z.lor 128 (Z.land (Z.shiftr cp 12) 63); Z.lor 128 (Z.land (Z.shiftr cp 6) 63);
     Z.lor 128 (Z.land cp 63)].

Definition append_utf8 (out : octets) (cp : Z) : octets := out ++ utf8 cp.

Definition utf8_len (c : Z) : nat :=
  if c <? 128 then 1 else if c <? 194 then 0 else if c <? 224 then 2 else if c <? 240 then 3
  else if c <? 245 then 4 else 0.

Definition min_for_len (len : nat) : Z := nth len [0; 0; 128; 2048; 65536] 0.

(** The loop over the [n] continuation octets left, the first at [i]; [None]
    when one is not a continuation. *)
Fixpoint utf8_continuation (str : octets) (i n : nat) (cp : Z) : option Z :=
  match n with
  | O => Some cp
  | S n' =>
      let cc := nth i str 0 in
      if Z.land cc 192 =? 128 then utf8_continuation str (S i) n' (Z.lor (Z.shiftl cp 6) (Z.land cc 63)) else None
  end.

Definition decode_utf8 (str : octets) (i : nat) : Z * nat :=
  let c := nth i str 0 in
  let len := utf8_len c in
  if ((len =? 0) || (length str <? i + len))%nat then (replacement_char, S i)
  else
    let cp := if (len =? 1)%nat then c else Z.land c (Z.shiftr 127 (Z.of_nat len)) in
    match utf8_continuation str (S i) (len - 1) cp with
    | None => (replacement_char, S i)
    | Some cp => (if valid_code_point cp && (min_for_len len <=? cp) then cp else replacement_char, (i + len)%nat)
    end.

(** ** Wide strings *)

Definition wide (w16 : bool) (cp : Z) : list Z :=
  if w16 then
    if 65536 <=? cp then
      [Z.lor 55296 (Z.shiftr (cp - 65536) 10); Z.lor 56320 (Z.land (cp - 65536) 1023)]
    else [cp]
  else [cp].

Definition append_wide (w16 : bool) (out : list Z) (cp : Z) : list Z := out ++ wide w16 cp.

Definition decode_wide (w16 : bool) (str : list Z) (i : nat) : Z * nat :=
  let cp := nth i str 0 in
  let i := S i in
  let single := (if valid_code_point cp then cp else replacement_char, i) in
  if w16 && (55296 <=? cp) && (cp <=? 56319) && (i <? length str)%nat then
    let lo := nth i str 0 in
    if (56320 <=? lo) && (lo <=? 57343) then (65536 + Z.shiftl (cp - 55296) 10 + (lo - 56320), S i) else single
  else single.

(** [for(i = 0; i < str.size();) append(ret, decode(str, i));] every turn
    advances [i], so as many turns as there are units left are enough. *)
Fixpoint convert_loop (decode : nat -> Z * nat) (append : list Z -> Z -> list Z) (size fuel i : nat) (ret : list Z) : list Z :=
  match fuel with
  | O => ret
  | S fuel =>
      if (i <? size)%nat then
        let '(cp, i) := decode i in convert_loop decode append size fuel i (append ret cp)
      else ret
  end.

Definition to_wstring (w16 : bool) (str : octets) : list Z :=
  convert_loop (decode_utf8 str) (append_wide w16) (length str) (length str) 0 [].

Definition to_string (w16 : bool) (str : list Z) : octets :=
  convert_loop (decode_wide w16 str) append_utf8 (length str) (length str) 0 [].

(** ** Splitting *)

(** [find_first_of(sep, start)]. *)
Fixpoint find_first_of (view sep : list Z) : option nat :=
  match view with
  | [] => None
  | c :: rest => if existsb (Z.eqb c) sep then Some 0%nat else option_map S (find_first_of rest sep)
  end.

(** The loops, on what is left of the view. *)
Fixpoint split_loop (fuel : nat) (view sep : list Z) : list (list Z) :=
  match fuel with
  | O => []
  | S fuel =>
      match find_first_of view sep with
      | None => [view]
      | Some n => take n view :: split_loop fuel (drop (S n) view) sep
      end
  end.

Definition split_view (view sep : list Z) : list (list Z) :=
  match view with [] => [] | _ => split_loop (S (length view)) view sep end.

Fixpoint tokenise_loop (fuel : nat) (view sep : list Z) : list (list Z) :=
  match fuel with
  | O => []
  | S fuel =>
      match find_first_of view sep with
      | None => [view]
      | Some n => (if (0 <? n)%nat then [take n view] else []) ++ tokenise_loop fuel (drop (S n) view) sep
      end
  end.

Definition tokenise_view (view sep : list Z) : list (list Z) :=
  match view with [] => [] | _ => tokenise_loop (S (length view)) view sep end.

Example tokenise_sample : tokenise_view [97; 32; 32; 98; 32] [32] = [[97]; [98]; []].
Proof. reflexivity. Qed.
Example decode_overlong : to_wstring false [224; 128; 128; 65] = [replacement_char; 65].
Proof. reflexivity. Qed.
Example decode_truncated : to_wstring false [226; 130; 65] = [replacement_char; replacement_char; 65].
Proof. reflexivity. Qed.
Example surrogates : to_wstring true [240; 159; 152; 128] = [55357; 56832] /\ to_string true [55357; 56832] = [240; 159; 152; 128].
Proof. split; reflexivity. Qed.

(** ** Arithmetic of the codecs *)

Lemma below_spec (n : nat) (P : Z -> bool) y :
  forallb P (map Z.of_nat (seq 0 n)) = true -> 0 <= y < Z.of_nat n -> P y = true.
Proof.
  rewrite forallb_forall. intros H Hy. apply H, in_map_iff. exists (Z.to_nat y).
  split; [lia|]. apply in_seq. lia.
Qed.

Lemma lor_base base k n x : base = k * 2 ^ n -> 0 <= n -> 0 <= k -> 0 <= x < 2 ^ n -> Z.lor base x = base + x.
Proof.
  intros -> Hn Hk Hx. rewrite Z.lor_comm, <- Z.shiftl_mul_pow2 by lia. rewrite lor_disjoint by lia.
  rewrite Z.shiftl_mul_pow2 by lia. lia.
Qed.

Lemma land_low x n m : m = 2 ^ n - 1 -> 0 <= n -> Z.land x m = x mod 2 ^ n.
Proof. intros -> Hn. rewrite <- Z.land_ones by lia. f_equal. rewrite Z.ones_equiv. lia. Qed.

Lemma land_63 x : Z.land x 63 = x mod 64.
Proof. by apply (land_low x 6). Qed.

Lemma continuation_octet y : 0 <= y < 64 -> Z.land (128 + y) 192 = 128 /\ Z.land (128 + y) 63 = y.
Proof.
  intros Hy. split.
  - apply Z.eqb_eq. apply (below_spec 64 (fun y => Z.land (128 + y) 192 =? 128)); [done|lia].
  - rewrite land_63.
    rewrite <- (Z.mod_small y 64) at 2 by lia. replace (128 + y) with (y + 2 * 64) by lia. apply Z.mod_add. lia.
Qed.

(** One turn of the continuation loop. *)
Lemma utf8_continuation_step str i n cp y :
  nth i str 0 = 128 + y -> 0 <= y < 64 -> 0 <= cp ->
  utf8_continuation str i (S n) cp = utf8_continuation str (S i) n (cp * 64 + y).
Proof.
  intros E Hy Hc. cbn [utf8_continuation]. rewrite E. destruct (continuation_octet y Hy) as [-> ->].
  change (128 =? 128) with true. cbn match. f_equal. rewrite Z.lor_comm, lor_disjoint by lia. change (2 ^ 6) with 64. lia.
Qed.

(** The encoding of a valid code point, by arithmetic. *)
Definition utf8_digits (cp : Z) : octets :=
  if cp <? 128 then [cp]
  else if cp <? 2048 then [192 + cp / 64; 128 + cp mod 64]
  else if cp <? 65536 then [224 + cp / 4096; 128 + (cp / 64) mod 64; 128 + cp mod 64]
  else [240 + cp / 262144; 128 + (cp / 4096) mod 64; 128 + (cp / 64) mod 64; 128 + cp mod 64].

Lemma shiftr_div x n : 0 <= n -> Z.shiftr x n = x / 2 ^ n.
Proof. apply Z.shiftr_div_pow2. Qed.

Lemma utf8_arith cp : 0 <= cp -> valid_code_point cp = true -> utf8 cp = utf8_digits cp.
Proof.
  intros H0 H. unfold utf8. rewrite H. cbv zeta. unfold valid_code_point in H. unfold utf8_digits.
  rewrite !(shiftr_div _ 6), !(shiftr_div _ 12), !(shiftr_div _ 18), !land_63 by done.
  change (2 ^ 6) with 64. change (2 ^ 12) with 4096. change (2 ^ 18) with 262144.
  pose proof (Z.mod_pos_bound cp 64). pose proof (Z.mod_pos_bound (cp / 64) 64). pose proof (Z.mod_pos_bound (cp / 4096) 64).
  assert (forall y, 0 <= y < 64 -> Z.lor 128 y = 128 + y) as L by (intros; by apply (lor_base _ 2 6); lia).
  repeat case_match; try done; rewrite ?L by lia.
  - rewrite (lor_base _ 6 5) by (Z.div_mod_to_equations; lia). done.
  - rewrite (lor_base _ 14 4) by (Z.div_mod_to_equations; lia). done.
  - rewrite (lor_base _ 30 3) by (Z.div_mod_to_equations; lia). done.
Qed.

Lemma nth_after {A} (pre l : list A) k d : nth (length pre + k) (pre ++ l) d = nth k l d.
Proof. apply app_nth2_plus. Qed.

Ltac leb_done := match goal with |- context [?a <=? ?b] => destruct (Z.leb_spec a b); [done|lia] end.

Lemma decode_utf8_ok pre cp post :
  0 <= cp -> valid_code_point cp = true ->
  decode_utf8 (pre ++ utf8 cp ++ post) (length pre) = (cp, length pre + length (utf8 cp))%nat.
Proof.
  intros H0 HV. rewrite (utf8_arith cp H0 HV). unfold decode_utf8, utf8_digits.
  pose proof HV as H. unfold valid_code_point in H.
  pose proof (Z.mod_pos_bound cp 64 ltac:(lia)). pose proof (Z.mod_pos_bound (cp / 64) 64 ltac:(lia)).
  pose proof (Z.mod_pos_bound (cp / 4096) 64 ltac:(lia)).
  set (str := pre ++ _ ++ post).
  assert (forall k, nth (length pre + k) str 0 = nth k ((utf8_digits cp) ++ post) 0) as Hn by (intros k; apply nth_after).
  assert (length str = length pre + (length (utf8_digits cp) + length post))%nat as Hl
    by (unfold str; rewrite !length_app; reflexivity).
  pose proof (Hn 0%nat) as N0. pose proof (Hn 1%nat) as N1. pose proof (Hn 2%nat) as N2. pose proof (Hn 3%nat) as N3.
  rewrite ?Nat.add_0_r, ?Nat.add_1_r in *. replace (length pre + 2)%nat with (S (S (length pre))) in N2 by lia.
  replace (length pre + 3)%nat with (S (S (S (length pre)))) in N3 by lia.
  clearbody str. unfold utf8_digits in *. rewrite N0.
  destruct (Z.ltb_spec cp 128); [|destruct (Z.ltb_spec cp 2048); [|destruct (Z.ltb_spec cp 65536)]];
    cbn [nth app length] in *.
  - assert (utf8_len cp = 1%nat) as -> by (unfold utf8_len; by case_match; [|lia]).
    destruct (Nat.ltb_spec (length str) (length pre + 1)); [lia|]. cbn -[Nat.add]. rewrite HV. leb_done.
  - assert (utf8_len (192 + cp / 64) = 2%nat) as -> by (unfold utf8_len; repeat case_match; Z.div_mod_to_equations; lia).
    destruct (Nat.ltb_spec (length str) (length pre + 2)); [lia|]. cbn -[Nat.add utf8_continuation Z.land].
    rewrite (land_low _ 5) by done. pose proof (Z.mod_pos_bound (192 + cp / 64) (2 ^ 5) ltac:(lia)).
    rewrite (utf8_continuation_step _ _ _ _ _ N1) by lia.
    replace ((192 + cp / 64) mod 2 ^ 5 * 64 + cp mod 64) with cp by (Z.div_mod_to_equations; lia).
    cbn -[Nat.add]. rewrite HV. leb_done.
  - assert (utf8_len (224 + cp / 4096) = 3%nat) as -> by (unfold utf8_len; repeat case_match; Z.div_mod_to_equations; lia).
    destruct (Nat.ltb_spec (length str) (length pre + 3)); [lia|]. cbn -[Nat.add utf8_continuation Z.land].
    rewrite (land_low _ 4) by done. pose proof (Z.mod_pos_bound (224 + cp / 4096) (2 ^ 4) ltac:(lia)).
    rewrite (utf8_continuation_step _ _ _ _ _ N1) by lia.
    rewrite (utf8_continuation_step _ _ _ _ _ N2) by lia.
    replace (((224 + cp / 4096) mod 2 ^ 4 * 64 + (cp / 64) mod 64) * 64 + cp mod 64) with cp by (Z.div_mod_to_equations; lia).
    cbn -[Nat.add]. rewrite HV. leb_done.
  - assert (utf8_len (240 + cp / 262144) = 4%nat) as -> by (unfold utf8_len; repeat case_match; Z.div_mod_to_equations; lia).
    destruct (Nat.ltb_spec (length str) (length pre + 4)); [lia|]. cbn -[Nat.add utf8_continuation Z.land].
    rewrite (land_low _ 3) by done. pose proof (Z.mod_pos_bound (240 + cp / 262144) (2 ^ 3) ltac:(lia)).
    rewrite (utf8_continuation_step _ _ _ _ _ N1) by lia.
    rewrite (utf8_continuation_step _ _ _ _ _ N2) by lia.
    rewrite (utf8_continuation_step _ _ _ _ _ N3) by lia.
    replace ((((240 + cp / 262144) mod 2 ^ 3 * 64 + (cp / 4096) mod 64) * 64 + (cp / 64) mod 64) * 64 + cp mod 64) with cp
      by (Z.div_mod_to_equations; lia).
    cbn -[Nat.add]. rewrite HV. leb_done.
Qed.

(** A code unit of a wide string. *)
Definition is_unit (w16 : bool) (u : Z) : Prop := 0 <= u < if w16 then 65536 else 2 ^ 32.

Definition is_code_point (cp : Z) : Prop := 0 <= cp /\ valid_code_point cp = true.

Lemma utf8_nonempty cp : (0 < length (utf8 cp))%nat.
Proof. unfold utf8. cbv zeta. repeat case_match; simpl; lia. Qed.

Lemma wide_nonempty w16 cp : (0 < length (wide w16 cp))%nat.
Proof. unfold wide. repeat case_match; simpl; lia. Qed.

Lemma decode_wide_ok w16 pre cp post :
  is_code_point cp ->
  decode_wide w16 (pre ++ wide w16 cp ++ post) (length pre) = (cp, length pre + length (wide w16 cp))%nat.
Proof.
  intros [H0 HV]. pose proof HV as H. unfold valid_code_point in H. unfold decode_wide.
  set (str := pre ++ _ ++ post).
  assert (forall k, nth (length pre + k) str 0 = nth k (wide w16 cp ++ post) 0) as Hn by (intros k; apply nth_after).
  assert (length str = length pre + (length (wide w16 cp) + length post))%nat as Hl by (unfold str; by rewrite !length_app).
  clearbody str. pose proof (Hn 0%nat) as N0. pose proof (Hn 1%nat) as N1. rewrite Nat.add_0_r in N0. rewrite Nat.add_1_r in N1.
  unfold wide in *. rewrite N0.
  destruct w16; [destruct (Z.leb_spec 65536 cp)|]; cbn [nth app length andb] in *.
  - rewrite N1. rewrite (land_low _ 10), (shiftr_div _ 10) by done. change (2 ^ 10) with 1024.
    pose proof (Z.mod_pos_bound (cp - 65536) 1024 ltac:(lia)).
    assert (0 <= (cp - 65536) / 1024 < 1024) by (Z.div_mod_to_equations; lia).
    rewrite (lor_base _ 54 10), (lor_base _ 55 10) by lia.
    assert ((S (length pre) <? length str)%nat = true) as -> by (apply Nat.ltb_lt; lia).
    repeat rewrite (proj2 (Z.leb_le _ _)) by lia. cbn [andb].
    rewrite Z.shiftl_mul_pow2 by lia. f_equal; [|lia]. change (2 ^ 10) with 1024. Z.div_mod_to_equations; lia.
  - rewrite HV. repeat case_match; f_equal; try lia.
  - rewrite HV. f_equal. lia.
Qed.

(** The positions of a decoder over the encoding of a sequence. *)
Section convert.
Context (encode out : Z -> list Z) (decode : list Z -> nat -> Z * nat) (good : Z -> Prop).
Context (decode_ok : forall pre cp post, good cp ->
  decode (pre ++ encode cp ++ post) (length pre) = (cp, length pre + length (encode cp))%nat).
Context (encode_nonempty : forall cp, (0 < length (encode cp))%nat).

Lemma convert_encoded cps : forall pre fuel ret, Forall good cps -> (length (flat_map encode cps) <= fuel)%nat ->
  convert_loop (decode (pre ++ flat_map encode cps)) (fun ret cp => ret ++ out cp)
    (length (pre ++ flat_map encode cps)) fuel (length pre) ret = ret ++ flat_map out cps.
Proof.
  induction cps as [|cp cps IH]; intros pre fuel ret Hg Hf; simpl in *.
  - rewrite !app_nil_r. destruct fuel; simpl; [done|]. by rewrite Nat.ltb_irrefl.
  - inversion Hg; subst. pose proof (encode_nonempty cp). rewrite length_app in Hf. destruct fuel; [lia|]. simpl.
    destruct (Nat.ltb_spec (length pre) (length (pre ++ encode cp ++ flat_map encode cps))) as [_|Hl];
      [|rewrite !length_app in Hl; lia].
    rewrite decode_ok by done. rewrite <- (length_app pre), app_assoc, IH by (done || lia). by rewrite app_assoc.
Qed.

Lemma convert_whole cps :
  Forall good cps ->
  convert_loop (decode (flat_map encode cps)) (fun ret cp => ret ++ out cp)
    (length (flat_map encode cps)) (length (flat_map encode cps)) 0 [] = flat_map out cps.
Proof. intros Hg. apply (convert_encoded cps [] _ [] Hg). done. Qed.
End convert.

(** What a loop appends when its decoder gives only good values. *)
Lemma convert_good (out : Z -> list Z) (decode : nat -> Z * nat) (good : Z -> Prop) (size : nat)
  (decode_good : forall i, (i < size)%nat -> good (decode i).1) fuel :
  forall i ret, exists cps, Forall good cps /\
    convert_loop decode (fun ret cp => ret ++ out cp) size fuel i ret = ret ++ flat_map out cps.
Proof.
  induction fuel as [|fuel IH]; intros i ret; simpl; [exists []; by rewrite app_nil_r|].
  destruct (Nat.ltb_spec i size); [|exists []; by rewrite app_nil_r].
  pose proof (decode_good i ltac:(lia)) as Hg. destruct (decode i) as [cp j]. destruct (IH j (ret ++ out cp)) as (cps & Hc & ->).
  exists (cp :: cps). rewrite <- app_assoc. auto.
Qed.

Lemma replacement_ok : is_code_point replacement_char.
Proof. split; [|done]. unfold replacement_char. lia. Qed.

Lemma sanitised cp (b : bool) : 0 <= cp -> is_code_point (if valid_code_point cp && b then cp else replacement_char).
Proof. intros H. destruct (valid_code_point cp) eqn:E, b; simpl; auto using replacement_ok. by split. Qed.

Lemma utf8_continuation_nonneg str n : forall i cp cp', 0 <= cp -> utf8_continuation str i n cp = Some cp' -> 0 <= cp'.
Proof.
  induction n as [|n IH]; intros i cp cp' H E; simpl in E; [by simplify_eq|]. case_match; [|done].
  refine (IH _ _ _ _ E). apply Z.lor_nonneg. split; [by apply Z.shiftl_nonneg|apply Z.land_nonneg; by right].
Qed.

Lemma nth_octet str i : Forall is_octet str -> 0 <= nth i str 0.
Proof.
  intros H. destruct (Nat.lt_ge_cases i (length str)) as [Hi|Hi].
  - rewrite Forall_nth in H. pose proof (H i 0 Hi) as []. done.
  - by rewrite nth_overflow.
Qed.

Lemma decode_utf8_good str i : Forall is_octet str -> is_code_point (decode_utf8 str i).1.
Proof.
  intros H. unfold decode_utf8. case_match; simpl; [apply replacement_ok|].
  destruct (utf8_continuation _ _ _ _) as [cp|] eqn:E; simpl; [|apply replacement_ok].
  apply sanitised. eapply utf8_continuation_nonneg; [|exact E].
  case_match; [by apply nth_octet|]. apply Z.land_nonneg. left. by apply nth_octet.
Qed.

Lemma decode_wide_good w16 str i : Forall (is_unit w16) str -> is_code_point (decode_wide w16 str i).1.
Proof.
  intros H. assert (forall j, 0 <= nth j str 0 < 2 ^ 32) as Hn.
  { intros j. destruct (Nat.lt_ge_cases j (length str)) as [Hj|Hj]; [|by rewrite nth_overflow].
    rewrite Forall_nth in H. pose proof (H j 0 Hj). unfold is_unit in *. destruct w16; lia. }
  pose proof (Hn i) as Hi. unfold decode_wide.
  pose proof (sanitised (nth i str 0) true ltac:(lia)) as Hs. rewrite andb_true_r in Hs.
  destruct (w16 && _ && _ && _) eqn:E1; [|exact Hs]. destruct ((56320 <=? _) && _) eqn:E2; [|exact Hs]. cbn [fst].
  rewrite Z.shiftl_mul_pow2 by lia. change (2 ^ 10) with 1024. unfold is_code_point, valid_code_point. lia.
Qed.

Lemma to_wstring_encoded w16 cps : Forall is_code_point cps -> to_wstring w16 (flat_map utf8 cps) = flat_map (wide w16) cps.
Proof.
  intros H. unfold to_wstring, append_wide.
  apply (convert_whole utf8 (wide w16) decode_utf8 is_code_point); [|apply utf8_nonempty|done].
  intros pre cp post []. by apply decode_utf8_ok.
Qed.

Lemma to_string_encoded w16 cps : Forall is_code_point cps -> to_string w16 (flat_map (wide w16) cps) = flat_map utf8 cps.
Proof.
  intros H. unfold to_string, append_utf8.
  apply (convert_whole (wide w16) utf8 (decode_wide w16) is_code_point); [|apply wide_nonempty|done].
  apply decode_wide_ok.
Qed.

Lemma to_wstring_text w16 str : Forall is_octet str ->
  exists cps, Forall is_code_point cps /\ to_wstring w16 str = flat_map (wide w16) cps.
Proof.
  intros H. apply (convert_good (wide w16) (decode_utf8 str) is_code_point (length str)). intros. by apply decode_utf8_good.
Qed.

Lemma to_string_text w16 str : Forall (is_unit w16) str ->
  exists cps, Forall is_code_point cps /\ to_string w16 str = flat_map utf8 cps.
Proof.
  intros H. apply (convert_good utf8 (decode_wide w16 str) is_code_point (length str)). intros. by apply decode_wide_good.
Qed.

(** ** Hexadecimal digits *)

Lemma hex_digit_ok v : 0 <= v < 16 -> get_value (hex_value v) = Ok v.
Proof.
  intros H. pose proof (below_spec 16 (fun v => match get_value (hex_value v) with Ok x => x =? v | _ => false end) v eq_refl H) as E.
  simpl in E. destruct (get_value (hex_value v)); [|done]. f_equal. lia.
Qed.

Lemma octet_nibbles e : is_octet e -> 0 <= Z.shiftr e 4 < 16 /\ 0 <= Z.land e 15 < 16 /\
  wrap 8 (Z.lor (Z.shiftl (Z.shiftr e 4) 4) (Z.land e 15)) = e.
Proof.
  unfold is_octet. intros H. rewrite (shiftr_div _ 4), (land_low _ 4) by done. change (2 ^ 4) with 16.
  pose proof (Z.mod_pos_bound e 16 ltac:(lia)). assert (0 <= e / 16 < 16) by (Z.div_mod_to_equations; lia).
  split_and!; try lia. rewrite Z.lor_comm, lor_disjoint by lia. change (2 ^ 4) with 16.
  rewrite wrap_small; Z.div_mod_to_equations; lia.
Qed.

Lemma from_hex_loop_to_hex v : Forall is_octet v -> from_hex_loop (to_hex v) = Ok v.
Proof.
  induction 1 as [|e v He _ IH]; [done|]. destruct (octet_nibbles e He) as (H1 & H2 & H3).
  cbn [to_hex flat_map app from_hex_loop]. rewrite !hex_digit_ok by done. fold (to_hex v). rewrite IH.
  unfold mbind, mret, result_bind, result_ret. by rewrite H3.
Qed.

Lemma zlen_to_hex v : zlen (to_hex v) = 2 * zlen v.
Proof. induction v as [|e v IH]; [done|]. unfold to_hex in *. cbn [flat_map]. rewrite zlen_app, IH, zlen_cons. unfold zlen. simpl. lia. Qed.

Lemma from_hex_to_hex v : Forall is_octet v -> from_hex (to_hex v) = Ok v.
Proof.
  intros H. unfold from_hex. rewrite zlen_to_hex, Z.mul_comm, Z.mod_mul by lia. by apply from_hex_loop_to_hex.
Qed.

(** Different octets have different hexadecimal texts: the key of a table row
    identifies the octets. *)
Lemma to_hex_inj v w : Forall is_octet v -> Forall is_octet w -> to_hex v = to_hex w -> v = w.
Proof. intros Hv Hw E. pose proof (from_hex_to_hex v Hv) as H. rewrite E, from_hex_to_hex in H by done. by simplify_eq. Qed.

Definition upper (c : Z) : Z := if (97 <=? c) && (c <=? 102) then c - 32 else c.

Lemma get_value_spec c v : get_value c = Ok v -> 0 <= v < 16 /\ hex_value v = upper c.
Proof.
  unfold get_value. intros H.
  assert (forall k, 0 <= k < 16 -> hex_value k = if k <? 10 then 48 + k else 55 + k) as Hh.
  { intros k Hk. apply Z.eqb_eq. exact (below_spec 16 (fun k => hex_value k =? if k <? 10 then 48 + k else 55 + k) k eq_refl Hk). }
  unfold upper. repeat case_match; simplify_eq; (split; [lia|]); rewrite Hh by lia; repeat case_match; lia.
Qed.

Lemma from_hex_loop_sound s : forall v, Nat.Even (length s) -> from_hex_loop s = Ok v -> Forall is_octet v /\ to_hex v = map upper s.
Proof.
  enough (forall n s v, (length s <= n)%nat -> Nat.Even (length s) -> from_hex_loop s = Ok v ->
    Forall is_octet v /\ to_hex v = map upper s) as H by (intros; by apply (H (length s))). clear s.
  induction n as [|n IH]; intros s v Hl He E; (destruct s as [|c1 [|c2 s]]; [simplify_eq/=; by split; [constructor|]| |]); [simpl in Hl; lia..| |].
  - destruct He as [k He]. simpl in He. lia.
  - cbn [from_hex_loop] in E. unfold mbind, result_bind, mret, result_ret in E.
    destruct (get_value c1) as [v1|] eqn:E1; [|done]. destruct (get_value c2) as [v2|] eqn:E2; [|done].
    destruct (from_hex_loop s) as [res|] eqn:E3; [|done]. simplify_eq.
    apply get_value_spec in E1 as [H1 U1]. apply get_value_spec in E2 as [H2 U2]. simpl in Hl.
    destruct (IH s res ltac:(lia)) as [Hr U3]; [destruct He as [k He]; simpl in He; exists (k - 1)%nat; lia|done|].
    rewrite Z.lor_comm, lor_disjoint by lia. change (2 ^ 4) with 16. rewrite wrap_small by lia.
    split; [constructor; [unfold is_octet; lia|done]|]. cbn [to_hex flat_map app map]. fold (to_hex res). rewrite U3.
    rewrite (shiftr_div _ 4), (land_low _ 4) by done. change (2 ^ 4) with 16.
    replace ((v2 + v1 * 16) / 16) with v1 by (Z.div_mod_to_equations; lia).
    replace ((v2 + v1 * 16) mod 16) with v2 by (Z.div_mod_to_equations; lia). by rewrite U1, U2.
Qed.

(** ** Splitting *)

Lemma find_first_of_spec view sep :
  match find_first_of view sep with
  | None => Forall (fun c => c ∉ sep) view
  | Some n => exists c, view = take n view ++ c :: drop (S n) view /\ c ∈ sep /\ Forall (fun c => c ∉ sep) (take n view)
  end.
Proof.
  induction view as [|c view IH]; simpl; [constructor|].
  assert (existsb (Z.eqb c) sep = true <-> c ∈ sep) as Hx.
  { rewrite existsb_exists. split; [intros (x & Hx & ->%Z.eqb_eq); by apply list_elem_of_In|].
    intros H. exists c. split; [by apply list_elem_of_In|apply Z.eqb_refl]. }
  destruct (existsb (Z.eqb c) sep); [exists c; split_and!; [done|by apply Hx|constructor]|].
  assert (c ∉ sep) by (intros H; by apply Hx in H). destruct (find_first_of view sep) as [n|]; simpl.
  - destruct IH as (d & E & Hd & Hf). exists d. split_and!; [by f_equal|done|by constructor].
  - by constructor.
Qed.

(** The pieces between separators: what is left of the view is the pieces put
    together again with the separators that stood between them. *)
Inductive pieces (sep : list Z) : list Z -> list (list Z) -> Prop :=
| pieces_last view : Forall (fun c => c ∉ sep) view -> pieces sep view [view]
| pieces_cons piece c view l : Forall (fun c => c ∉ sep) piece -> c ∈ sep -> pieces sep view l ->
    pieces sep (piece ++ c :: view) (piece :: l).

Lemma split_loop_pieces sep fuel : forall view, (length view < fuel)%nat -> pieces sep view (split_loop fuel view sep).
Proof.
  induction fuel as [|fuel IH]; intros view Hf; [lia|]. cbn [split_loop]. pose proof (find_first_of_spec view sep) as H.
  destruct (find_first_of view sep) as [n|]; [|by constructor]. destruct H as (c & E & Hc & Hp). rewrite E at 1.
  constructor; [done|done|]. apply IH. apply (f_equal length) in E. rewrite length_app in E. simpl in E. lia.
Qed.

(** ** Properties *)

(** hexadecimal text is read back as the octets it was written for, and
    whatever [from_hex] accepts is the text of the octets it gives, up to the
    case of the letters. *)
Theorem hex_round_trip (v : octets) (H : Forall is_octet v) :
  from_hex (to_hex v) = Ok v /\ forall s w, from_hex s = Ok w -> Forall is_octet w /\ to_hex w = map upper s.
Proof.
  split; [by apply from_hex_to_hex|]. intros s w E. unfold from_hex in E. case_match eqn:Em; [|done].
  apply (from_hex_loop_sound s w); [|done]. exists (Z.to_nat (zlen s / 2)). unfold zlen in *. Z.div_mod_to_equations. lia.
Qed.

Lemma hex_round_trip_witness : from_hex (to_hex [0; 171; 255]) = Ok [0; 171; 255].
Proof. apply (hex_round_trip [0; 171; 255]). ground. Defined.

(** C31: the two encodings of a sequence of code points are translated into each
    other exactly, whatever the size of [wchar_t]. *)
Theorem text_round_trip (w16 : bool) (cps : list Z) (H : Forall is_code_point cps) :
  to_wstring w16 (flat_map utf8 cps) = flat_map (wide w16) cps /\
  to_string w16 (flat_map (wide w16) cps) = flat_map utf8 cps.
Proof. split; [by apply to_wstring_encoded|by apply to_string_encoded]. Qed.

Lemma text_round_trip_witness :
  to_wstring true (flat_map utf8 [65; 228; 8364; 128512]) = flat_map (wide true) [65; 228; 8364; 128512] /\
  to_string true (flat_map (wide true) [65; 228; 8364; 128512]) = flat_map utf8 [65; 228; 8364; 128512].
Proof. apply (text_round_trip true [65; 228; 8364; 128512]). repeat constructor; discriminate. Defined.

(** C30: whatever octets or code units come in, what the translations give is the
    encoding of a sequence of valid code points, so that translating it once
    more changes nothing. *)
Theorem text_always_valid (w16 : bool) (str : octets) (wstr : list Z) (H : Forall is_octet str) (Hw : Forall (is_unit w16) wstr) :
  (exists cps, Forall is_code_point cps /\ to_wstring w16 str = flat_map (wide w16) cps) /\
  (exists cps, Forall is_code_point cps /\ to_string w16 wstr = flat_map utf8 cps) /\
  to_wstring w16 (to_string w16 (to_wstring w16 str)) = to_wstring w16 str.
Proof.
  split_and!; [by apply to_wstring_text|by apply to_string_text|].
  destruct (to_wstring_text w16 str H) as (cps & Hc & ->). rewrite to_string_encoded by done. by apply to_wstring_encoded.
Qed.

Lemma text_always_valid_witness :
  to_wstring false (to_string false (to_wstring false [237; 160; 128; 65; 255])) = to_wstring false [237; 160; 128; 65; 255].
Proof. apply (text_always_valid false [237; 160; 128; 65; 255] [55296]); repeat constructor; discriminate. Defined.

(** [split_view] gives the pieces between the separators, none lost and none
    containing a separator. *)
Theorem split_view_pieces (view sep : list Z) (H : view <> []) : pieces sep view (split_view view sep).
Proof. destruct view; [done|]. apply split_loop_pieces. lia. Qed.

Lemma split_view_pieces_witness : pieces [44] [97; 44; 44; 98] (split_view [97; 44; 44; 98] [44]).
Proof. apply split_view_pieces. discriminate. Defined.
