(* ===== verification/Stores.v ===== *)
(** The stores of keys, certificates, secrets and settings in a database:
    [database/sqlite/connection.cpp] (values), [crypto/*_database.cpp],
    [common/key_value_database.cpp], and the interface the stores have in
    common ([crypto/*_access.hpp], [common/key_value_access.hpp]).

    SQLite is the class [SqlTable]: one statement on one table either is
    carried out or fails and leaves the table as it was. *)

From stdpp Require Import base list numbers gmap strings.
From Stdlib Require Import ZArith Lia.
From S2P Require Import Prelude ByteOrder TextUtil Asn1Int Asn1Stream Asn1Encoder Asn1Decoder Serialise Crypto CertChain.
Open Scope Z_scope.

(** ** Errors *)

Inductive store_exn : Type :=
| DatabaseError                     (** [database_error] *)
| CryptoExn (e : crypto_exn)
| InvalidSecretKeySize.

(** A call on an object of class [B]. *)
Abbreviation store B A := (sexn B store_exn A).

Definition crypto_result {B A} (r : cres A) : store B A :=
  fun s => (match r with Ok a => Ok a | Throw e => Throw (CryptoExn e) end, s).

Definition ser_store {B A} (r : result ser_exn A) : store B A := crypto_result (ser_result r).

(** [throw error(errc::invalid_operation)] *)
Definition invalid_operation_exn : store_exn := CryptoExn (Error invalid_operation).

(** ** Tables *)

(** What the statements of this library do with a table: [SELECT ... WHERE p],
    [INSERT OR REPLACE], [DELETE ... WHERE p].  [None]: the statement failed. *)
Class SqlTable (T K R : Type) : Type := {
  sql_select : (K -> R -> bool) -> T -> option (list R);
  sql_replace : K -> R -> T -> option T;
  sql_delete : (K -> R -> bool) -> T -> option T
}.

Class SqlTableLaws (T K R : Type) `{Countable K, SqlTable T K R} : Type := {
  sql_rows : T -> gmap K R;
  sql_select_ok p t l : sql_select p t = Some l ->
    l ≡ₚ (map_to_list (filter (fun kr => p kr.1 kr.2 = true) (sql_rows t))).*2;
  sql_replace_ok k r t t' : sql_replace k r t = Some t' -> sql_rows t' = <[k := r]> (sql_rows t);
  sql_delete_ok p t t' : sql_delete p t = Some t' ->
    sql_rows t' = filter (fun kr => p kr.1 kr.2 = false) (sql_rows t)
}.

Section statements.
Context {T K R : Type} `{SqlTable T K R}.

Definition execute_select (p : K -> R -> bool) : store T (list R) :=
  fun t => match sql_select p t with Some l => (Ok l, t) | None => (Throw DatabaseError, t) end.

Definition execute_replace (k : K) (r : R) : store T unit :=
  fun t => match sql_replace k r t with Some t' => (Ok tt, t') | None => (Throw DatabaseError, t) end.

Definition execute_delete (p : K -> R -> bool) : store T unit :=
  fun t => match sql_delete p t with Some t' => (Ok tt, t') | None => (Throw DatabaseError, t) end.
End statements.

(** Binding and reading values.  A [uint64_t] is stored with an offset, so that
    the order of the column is that of the numbers. *)
Definition bind_uint64 (v : Z) : Z := cast i64 (wrap 64 (v + wrap 64 (- 2 ^ 63))).
Definition value_uint64 (sv : Z) : Z := wrap 64 (sv - (- 2 ^ 63)).

(** [value(column, octet_vector&)]: SQLite gives a null pointer for NULL and for
    a blob of no octets alike, so an empty vector reads back as no value. *)
Definition value_octets (column : octets) : option octets :=
  match column with [] => None | _ => Some column end.

(** ** The interface of the stores *)

Class Access (B A K V : Type) : Type := {
  acc_insert : A -> store B unit;
  acc_remove : K -> store B unit;
  acc_find : K -> store B (option V)
}.

(** What a store promises: the calls that return behave like those of a map.
    [acc_entry] is the entry an argument of [insert] makes, [acc_fits] whether a
    value can stand under a key, [acc_storable] the arguments that survive the
    way to the table and back. *)
Class AccessLaws (B A K V : Type) `{EqDecision K, Access B A K V} : Type := {
  acc_content : B -> K -> option V;
  acc_entry : A -> option (K * V);
  acc_storable : A -> Prop;
  acc_key_ok : K -> Prop;
  acc_fits : K -> V -> Prop;
  acc_inv : B -> Prop;
  acc_entry_ok a k v : acc_storable a -> acc_entry a = Some (k, v) -> acc_key_ok k /\ acc_fits k v;
  acc_content_fits b k v : acc_inv b -> acc_key_ok k -> acc_content b k = Some v -> acc_fits k v;
  acc_find_ok b k r b' : acc_inv b -> acc_key_ok k -> acc_find k b = (r, b') ->
    acc_inv b' /\ (forall k', acc_key_ok k' -> acc_content b' k' = acc_content b k') /\
    (forall x, r = Ok x -> x = acc_content b k);
  acc_insert_ok b a k v r b' : acc_inv b -> acc_storable a -> acc_entry a = Some (k, v) -> acc_insert a b = (r, b') ->
    acc_inv b' /\
    (r = Ok tt -> forall k', acc_key_ok k' -> acc_content b' k' = if decide (k' = k) then Some v else acc_content b k');
  acc_remove_ok b k r b' : acc_inv b -> acc_key_ok k -> acc_remove k b = (r, b') ->
    acc_inv b' /\
    (r = Ok tt -> forall k', acc_key_ok k' -> acc_content b' k' = if decide (k' = k) then None else acc_content b k')
}.

(** ** Public keys *)

Section databases.
Context {T : Type} `{Primitives}.

Section public_keys.
Context `{SqlTable T octets octets}.

Definition public_key_database_insert (key : public_key) : store T unit :=
  o ← ser_store (asn_der_serialise public_key_codec key);
  execute_replace (to_hex (pk_id key)) o.

Definition public_key_database_find (id : octets) : store T (option public_key) :=
  res ← execute_select (fun k _ => bool_decide (k = to_hex id));
  match res with
  | data :: _ =>
      match value_octets data with
      | Some o => v ← ser_store (asn_der_deserialise public_key_codec o); mret (Some v)
      | None => mret None
      end
  | [] => mret None
  end.

Definition public_key_database_remove (id : octets) : store T unit :=
  execute_delete (fun k _ => bool_decide (k = to_hex id)).

#[export] Instance public_key_database : Access T public_key octets public_key := {|
  acc_insert := public_key_database_insert;
  acc_remove := public_key_database_remove;
  acc_find := public_key_database_find |}.
End public_keys.

(** ** Certificates *)

Record certificate_row : Type := CertificateRow { cr_data : octets; cr_identifier : option octets; cr_revoked : Z }.

Section certificates.
Context `{SqlTable T octets certificate_row}.

Definition identifier_certificate_id : Z := 2.

Definition identifier_certificate_codec : codec (Z * (octets * unit)) :=
  seq_codec (then_codec (int_codec i32) (then_codec string_codec unit_codec)).

Definition extract_identifier (cert : certificate) : option octets :=
  if ct_type cert =? identifier_certificate_id then
    match asn_der_deserialise identifier_certificate_codec (ct_data cert) with
    | Ok v => Some (fst (snd v))
    | Throw _ => None
    end
  else None.

Definition certificate_database_is_revoked (id : octets) : store T bool :=
  res ← execute_select (fun k r => bool_decide (k = to_hex id) && (cr_revoked r =? 1));
  mret (negb (zlen res =? 0)).

Definition certificate_database_insert (cert : certificate) : store T unit :=
  id ← crypto_result (ct_id cert);
  revoked ← certificate_database_is_revoked id;
  if (revoked : bool) then throw invalid_operation_exn
  else
    let identifier := extract_identifier cert in
    o ← ser_store (asn_der_serialise certificate_codec cert);
    execute_replace (to_hex id)
      (CertificateRow o identifier (match ct_revocation cert with Some _ => 1 | None => 0 end)).

Definition certificate_database_remove (id : octets) : store T unit :=
  execute_delete (fun k _ => bool_decide (k = to_hex id)).

Definition certificate_database_find (cert_id : octets) : store T (option certificate) :=
  res ← execute_select (fun k _ => bool_decide (k = to_hex cert_id));
  match res with
  | row :: _ =>
      match value_octets (cr_data row) with
      | Some o => v ← ser_store (asn_der_deserialise certificate_codec o); mret (Some v)
      | None => mret None
      end
  | [] => mret None
  end.

(** The loop over the rows. *)
Fixpoint certificates_of (rows : list certificate_row) : store T (list certificate) :=
  match rows with
  | [] => mret []
  | row :: rows =>
      match value_octets (cr_data row) with
      | Some o => c ← ser_store (asn_der_deserialise certificate_codec o); vec ← certificates_of rows; mret (c :: vec)
      | None => certificates_of rows
      end
  end.

Definition certificate_database_search_identifier (identifier : octets) : store T (list certificate) :=
  res ← execute_select (fun _ r => bool_decide (cr_identifier r = Some identifier));
  certificates_of res.

#[export] Instance certificate_database : Access T certificate octets certificate := {|
  acc_insert := certificate_database_insert;
  acc_remove := certificate_database_remove;
  acc_find := certificate_database_find |}.
End certificates.

(** ** Shared secrets *)

Section secrets.
Context `{SqlTable T octets octets}.

Definition shared_secret_database_insert (k d : octets) : store T unit :=
  if zlen k =? 0 then throw InvalidSecretKeySize else execute_replace (to_hex k) d.

Definition shared_secret_database_remove (k : octets) : store T unit :=
  execute_delete (fun k' _ => bool_decide (k' = to_hex k)).

Definition shared_secret_database_find (k : octets) : store T (option octets) :=
  res ← execute_select (fun k' _ => bool_decide (k' = to_hex k));
  match res with
  | data :: _ => mret (Some (match value_octets data with Some o => o | None => [] end))
  | [] => mret None
  end.

Definition shared_secret_database : Access T (octets * octets) octets octets := {|
  acc_insert kd := shared_secret_database_insert (fst kd) (snd kd);
  acc_remove := shared_secret_database_remove;
  acc_find := shared_secret_database_find |}.
End secrets.

(** ** Own keys and other private data *)

(** [private_key_impl] as it is stored. *)
Record private_key_impl : Type := PrivateKeyImpl {
  pi_version : Z;
  pi_suite : Z;
  pi_public_key : public_key;
  pi_sig_seed : octets;
  pi_kem_x_sk : octets;
  pi_kem_pq_seed : octets;
  pi_metadata : list (octets * octets);   (** a [std::map]: in the order of its keys *)
  pi_trailing : octets
}.

Definition private_key_fields : codec private_key_impl :=
  iso_codec
    (fun v => let '(ver, (s, (pk, (a, (x, (q, (m, tr))))))) := v in PrivateKeyImpl ver s pk a x q m tr)
    (fun k => (pi_version k, (pi_suite k, (pi_public_key k, (pi_sig_seed k, (pi_kem_x_sk k, (pi_kem_pq_seed k,
       (pi_metadata k, pi_trailing k))))))))
    (then_codec (int_codec u16) (then_codec suite_codec (then_codec public_key_codec (then_codec octets_codec
      (then_codec octets_codec (then_codec octets_codec (then_codec (map_codec octets_lt string_codec octets_codec)
        trailing_codec))))))).
Definition private_key_codec : codec private_key_impl := seq_codec private_key_fields.

#[export] Instance private_key_fields_body : Body private_key_fields.
Proof. apply iso_body; [by intros []|apply _]. Defined.
#[export] Instance private_key_element : Element private_key_codec.
Proof. unfold private_key_codec. apply _. Defined.

(** "__private_key" and "__certificate_chain" *)
Definition private_key_name : octets := [95; 95; 112; 114; 105; 118; 97; 116; 101; 95; 107; 101; 121].
Definition certificate_chain_name : octets :=
  [95; 95; 99; 101; 114; 116; 105; 102; 105; 99; 97; 116; 101; 95; 99; 104; 97; 105; 110].

Section private_data.
Context `{SqlTable T octets octets}.

Definition private_data_database_insert (key data : octets) : store T unit := execute_replace key data.

Definition private_data_database_find (key : octets) : store T (option octets) :=
  res ← execute_select (fun k _ => bool_decide (k = key));
  match res with data :: _ => mret (value_octets data) | [] => mret None end.

Definition private_data_database_erase (key : octets) : store T unit :=
  execute_delete (fun k _ => bool_decide (k = key)).

(** [find<Data>] and [insert<Data>] of [private_data_access] *)
Definition find_typed {D} (c : codec D) (key : octets) : store T (option D) :=
  v ← private_data_database_find key;
  match v with
  | Some o => d ← ser_store (asn_der_deserialise c o); mret (Some d)
  | None => mret None
  end.

Definition insert_typed {D} (c : codec D) (key : octets) (d : D) : store T unit :=
  o ← ser_store (asn_der_serialise c d);
  private_data_database_insert key o.

Definition database_my_private_key : store T (option private_key_impl) := find_typed private_key_codec private_key_name.
Definition database_set_my_private_key (key : private_key_impl) : store T unit :=
  insert_typed private_key_codec private_key_name key.
Definition database_my_certificate_chain : store T (option certificate_chain) := find_typed chain_codec certificate_chain_name.
Definition database_set_my_certificate_chain (chain : certificate_chain) : store T unit :=
  insert_typed chain_codec certificate_chain_name chain.

Definition private_data_database : Access T (octets * octets) octets octets := {|
  acc_insert kd := private_data_database_insert (fst kd) (snd kd);
  acc_remove := private_data_database_erase;
  acc_find := private_data_database_find |}.
End private_data.

(** ** Settings: the rows of one selector of a table *)

Section key_values.
Context `{SqlTable T (octets * Z) octets} (selector : Z).

Definition key_value_database_insert (key data : octets) : store T unit :=
  execute_replace (key, bind_uint64 selector) data.

Definition key_value_database_find (key : octets) : store T (option octets) :=
  res ← execute_select (fun k _ => bool_decide (fst k = key) && (snd k =? bind_uint64 selector));
  match res with data :: _ => mret (value_octets data) | [] => mret None end.

Definition key_value_database_erase (key : octets) : store T unit :=
  execute_delete (fun k _ => bool_decide (fst k = key) && (snd k =? bind_uint64 selector)).

Definition key_value_database_clear : store T unit :=
  execute_delete (fun k _ => snd k =? bind_uint64 selector).

Definition key_value_database : Access T (octets * octets) octets octets := {|
  acc_insert kd := key_value_database_insert (fst kd) (snd kd);
  acc_remove := key_value_database_erase;
  acc_find := key_value_database_find |}.
End key_values.
End databases.

(** ** The databases keep their promise *)

Section table_lemmas.
Context {T K R : Type} `{Countable K, !SqlTable T K R, !SqlTableLaws T K R}.

(** A selection by primary key finds the row of the key, when it qualifies. *)
Lemma select_one (p : K -> R -> bool) (q : R -> bool) k t l :
  (forall k' r, p k' r = bool_decide (k' = k) && q r) -> sql_select p t = Some l ->
  l = match sql_rows t !! k with Some r => if q r then [r] else [] | None => [] end.
Proof.
  intros Hp E. apply sql_select_ok in E.
  assert (filter (fun kr => p kr.1 kr.2 = true) (sql_rows t) =
    match sql_rows t !! k with Some r => if q r then {[k := r]} else ∅ | None => ∅ end) as Ef.
  { apply map_eq. intros k'. rewrite map_lookup_filter. destruct (decide (k' = k)) as [->|Hk].
    - destruct (sql_rows t !! k) as [r|]; simpl; [|done]. rewrite Hp, bool_decide_eq_true_2 by done. simpl.
      destruct (q r); [by rewrite lookup_singleton_eq|done].
    - assert (forall r : R, p k' r = false) as Hf by (intros r; by rewrite Hp, bool_decide_eq_false_2).
      destruct (sql_rows t !! k') as [r|]; simpl.
      + rewrite option_guard_False by (by rewrite Hf). case_match; [case_match|]; by rewrite ?lookup_singleton_ne.
      + case_match; [case_match|]; by rewrite ?lookup_singleton_ne. }
  rewrite Ef in E. destruct (sql_rows t !! k) as [r|]; [destruct (q r)|].
  - rewrite map_to_list_singleton in E. by apply Permutation_singleton_r in E.
  - rewrite map_to_list_empty in E. by apply Permutation_nil_r in E.
  - rewrite map_to_list_empty in E. by apply Permutation_nil_r in E.
Qed.

Lemma delete_one (p : K -> R -> bool) k t t' :
  (forall k' r, p k' r = bool_decide (k' = k)) -> sql_delete p t = Some t' -> sql_rows t' = delete k (sql_rows t).
Proof.
  intros Hp E. apply sql_delete_ok in E as ->. apply map_eq. intros k'. rewrite map_lookup_filter.
  destruct (decide (k' = k)) as [->|Hk].
  - rewrite lookup_delete_eq. destruct (sql_rows t !! k); simpl; [|done].
    by rewrite Hp, bool_decide_eq_true_2.
  - rewrite lookup_delete_ne by done. destruct (sql_rows t !! k'); simpl; [|done].
    by rewrite Hp, bool_decide_eq_false_2.
Qed.

(** What a statement that returns did. *)
Lemma execute_select_ok p t r t' : execute_select p t = (r, t') ->
  t' = t /\ match r with Ok l => sql_select p t = Some l | Throw e => e = DatabaseError end.
Proof. unfold execute_select. intros. case_match; by simplify_eq. Qed.

Lemma execute_replace_ok k r t u t' : execute_replace k r t = (u, t') ->
  match u with Ok _ => sql_rows t' = <[k := r]> (sql_rows t) | Throw e => e = DatabaseError /\ t' = t end.
Proof. unfold execute_replace. intros. case_match eqn:E; simplify_eq; [by apply sql_replace_ok|done]. Qed.

Lemma execute_delete_ok p k t u t' : (forall k' r, p k' r = bool_decide (k' = k)) -> execute_delete p t = (u, t') ->
  match u with Ok _ => sql_rows t' = delete k (sql_rows t) | Throw e => e = DatabaseError /\ t' = t end.
Proof. unfold execute_delete. intros Hp. intros. case_match eqn:E; simplify_eq; [by eapply delete_one|done]. Qed.
End table_lemmas.

Lemma value_octets_some o : o <> [] -> value_octets o = Some o.
Proof. by destruct o. Qed.

Lemma serialise_nonempty {A} (c : codec A) `{!Element c} a o :
  el_wf c a -> asn_der_serialise c a = Ok o -> o <> [].
Proof.
  intros Hw E. rewrite (serialise_element c a Hw) in E. simplify_eq. intros E.
  destruct (el_header_ok c None a Hw I) as [Hh _].
  pose proof (zlen_tlv_pos (get_asn_class None) (get_tag None (el_tag c)) (el_constr c) (el_content c a)) as Hp.
  unfold el_octets in E. rewrite E in Hp. specialize (Hp ltac:(apply Hh)). unfold zlen in Hp. simpl in Hp. lia.
Qed.

(** A value of a codec survives the way to the table and back. *)
Definition codec_storable {A} (c : codec A) `{!Element c} (a : A) : Prop := el_wf c a /\ el_depth c a <= max_structure_depth.

Lemma stored_value {A} (c : codec A) `{!Element c} a o :
  codec_storable c a -> asn_der_serialise c a = Ok o -> value_octets o = Some o /\ asn_der_deserialise c o = Ok a.
Proof.
  intros [Hw Hd] E. split; [by eapply value_octets_some, serialise_nonempty|]. by eapply wire_element.
Qed.

Lemma same_hex k k' : Forall is_octet k -> Forall is_octet k' -> to_hex k = to_hex k' <-> k = k'.
Proof. intros. split; [by apply to_hex_inj|by intros ->]. Qed.

Lemma select_then {T K R B : Type} `{SqlTable T K R} (p : K -> R -> bool) (g : list R -> store T B) t r t' :
  (l ← execute_select p; g l) t = (r, t') ->
  (exists l, sql_select p t = Some l /\ g l t = (r, t')) \/ (r = Throw DatabaseError /\ t' = t).
Proof.
  unfold mbind, sexn_bind, execute_select. intros E. destruct (sql_select p t) as [l|]; [left; by exists l|right; by simplify_eq].
Qed.

(** A selection by key, and what is made of the row. *)
Lemma find_then {T R B : Type} `{!SqlTable T octets R, !SqlTableLaws T octets R} (k : octets) (g : list R -> store T B) t r t' :
  (l ← execute_select (fun k' _ => bool_decide (k' = k)); g l) t = (r, t') ->
  g (option_list (sql_rows t !! k)) t = (r, t') \/ (r = Throw DatabaseError /\ t' = t).
Proof.
  intros [(l & Es & E)|E]%select_then; [left|by right].
  apply (select_one _ (fun _ => true) k) in Es; [|intros; by rewrite andb_true_r]. subst l.
  by destruct (sql_rows t !! k).
Qed.

(** What a row of DER says. *)
Definition decoded {A} (c : codec A) (d : octets) : option A :=
  match value_octets d with
  | Some o => match asn_der_deserialise c o with Ok v => Some v | Throw _ => None end
  | None => None
  end.

Lemma decoded_stored {A} (c : codec A) `{!Element c} a o :
  codec_storable c a -> asn_der_serialise c a = Ok o -> decoded c o = Some a.
Proof. intros Ha E. unfold decoded. destruct (stored_value c a o Ha E) as [-> ->]. done. Qed.

Lemma decode_row {B A : Type} (c : codec A) (d : octets) (s s' : B) r :
  (match value_octets d with
   | Some o => v ← ser_store (asn_der_deserialise c o); mret (Some v)
   | None => mret None
   end : store B (option A)) s = (r, s') ->
  s' = s /\ (forall x, r = Ok x -> x = decoded c d).
Proof.
  unfold decoded, ser_store, crypto_result, ser_result, mbind, sexn_bind, mret, sexn_ret. intros E.
  destruct (value_octets d); [destruct (asn_der_deserialise c _)|]; simplify_eq/=; (split; [done|]); intros x Hx; by simplify_eq.
Qed.

(** The row of a key, decoded. *)
Lemma find_row {T R A : Type} `{!SqlTable T octets R, !SqlTableLaws T octets R} (c : codec A) (data : R -> octets) k t r t' :
  (l ← execute_select (fun k' _ => bool_decide (k' = k));
   match l with
   | row :: _ =>
       match value_octets (data row) with
       | Some o => v ← ser_store (asn_der_deserialise c o); mret (Some v)
       | None => mret None
       end
   | [] => mret None
   end : store T (option A)) t = (r, t') ->
  t' = t /\ (forall x, r = Ok x -> x = sql_rows t !! k ≫= fun row => decoded c (data row)).
Proof.
  intros [E|[-> ->]]%find_then; [|done]. destruct (sql_rows t !! k) as [row|]; simpl in *.
  - by apply decode_row in E.
  - unfold mret, sexn_ret in E. simplify_eq. split; [done|]. intros x Hx. by simplify_eq.
Qed.

Section laws.
Context {T : Type} `{Primitives}.

Section public_keys.
Context `{!SqlTable T octets octets, !SqlTableLaws T octets octets}.

Lemma public_key_database_find_ok k t r t' : public_key_database_find k t = (r, t') ->
  t' = t /\ (forall x, r = Ok x -> x = sql_rows t !! to_hex k ≫= decoded public_key_codec).
Proof. apply (find_row public_key_codec (fun d => d)). Qed.

Definition stored_key (t : T) (k : octets) : option public_key := sql_rows t !! to_hex k ≫= decoded public_key_codec.

#[export] Program Instance public_key_database_laws : AccessLaws T public_key octets public_key := {|
  acc_content := stored_key;
  acc_entry key := Some (pk_id key, key);
  acc_storable key := codec_storable public_key_codec key /\ Forall is_octet (pk_id key);
  acc_key_ok := Forall is_octet;
  acc_fits k key := pk_id key = k;
  acc_inv t := forall k key, Forall is_octet k -> stored_key t k = Some key -> pk_id key = k |}.
Next Obligation. by intros key k v [_ Hk] [= <- <-]. Qed.
Next Obligation. intros t k v Hi. apply Hi. Qed.
Next Obligation. by intros t k r t' Hi _ [-> E]%public_key_database_find_ok. Qed.
Next Obligation.
  intros t key k v r t' Hi [Hs Hk] [= <- <-] E. cbn [acc_insert public_key_database] in E.
  unfold public_key_database_insert, ser_store, crypto_result, ser_result, mbind, sexn_bind in E.
  destruct (asn_der_serialise public_key_codec key) as [o|e] eqn:Eo; [|by simplify_eq].
  apply execute_replace_ok in E. destruct r as [[]|e]; [|by destruct E as [_ ->]].
  assert (forall k', Forall is_octet k' -> stored_key t' k' = if decide (k' = pk_id key) then Some key else stored_key t k') as Ec.
  { intros k' Hk'. unfold stored_key. rewrite E. case_decide as Hd.
    - subst. rewrite lookup_insert_eq. simpl. by apply (decoded_stored public_key_codec).
    - by rewrite lookup_insert_ne by (rewrite same_hex; congruence). }
  split; [|done]. intros k' key' Hk'. rewrite Ec by done. case_decide; [congruence|by apply Hi].
Qed.
Next Obligation.
  intros t k r t' Hi Hk E. cbn [acc_remove public_key_database] in E.
  apply (execute_delete_ok _ (to_hex k)) in E; [|done]. destruct r as [[]|e]; [|by destruct E as [_ ->]].
  assert (forall k', Forall is_octet k' -> stored_key t' k' = if decide (k' = k) then None else stored_key t k') as Ec.
  { intros k' Hk'. unfold stored_key. rewrite E. case_decide as Hd; [by subst; rewrite lookup_delete_eq|].
    by rewrite lookup_delete_ne by (rewrite same_hex; congruence). }
  split; [|done]. intros k' key' Hk'. rewrite Ec by done. case_decide; [done|by apply Hi].
Qed.
End public_keys.

Section certificates.
Context `{!SqlTable T octets certificate_row, !SqlTableLaws T octets certificate_row}.

Definition stored_certificate (row : certificate_row) : option certificate := decoded certificate_codec (cr_data row).

Lemma certificate_database_find_ok k t r t' : certificate_database_find k t = (r, t') ->
  t' = t /\ (forall x, r = Ok x -> x = sql_rows t !! to_hex k ≫= stored_certificate).
Proof. apply (find_row certificate_codec cr_data). Qed.

(** The revocation check reads the flag of the row. *)
Lemma is_revoked_ok id t r t' : certificate_database_is_revoked id t = (r, t') ->
  t' = t /\ match r with
            | Ok b => b = match sql_rows t !! to_hex id with Some row => cr_revoked row =? 1 | None => false end
            | Throw e => e = DatabaseError
            end.
Proof.
  intros [(l & Es & E)|[-> ->]]%select_then; [|done].
  apply (select_one _ (fun row => cr_revoked row =? 1) (to_hex id)) in Es; [|done].
  injection E as <- <-. split; [done|]. rewrite Es.
  destruct (sql_rows t !! to_hex id) as [row|]; [by destruct (cr_revoked row =? 1)|done].
Qed.

Definition revoked_flag (c : certificate) : Z := match ct_revocation c with Some _ => 1 | None => 0 end.

(** [insert] on every branch. *)
Lemma certificate_database_insert_inv cert t r t' : certificate_database_insert cert t = (r, t') ->
  match r with
  | Ok _ => exists id o row, ct_id cert = Ok id /\ asn_der_serialise certificate_codec cert = Ok o /\
      (forall row, sql_rows t !! to_hex id = Some row -> cr_revoked row <> 1) /\
      row = CertificateRow o (extract_identifier cert) (revoked_flag cert) /\ sql_rows t' = <[to_hex id := row]> (sql_rows t)
  | Throw e => t' = t /\ (forall id row, ct_id cert = Ok id -> sql_rows t !! to_hex id = Some row -> cr_revoked row = 1 ->
      e = invalid_operation_exn \/ e = DatabaseError)
  end.
Proof.
  unfold certificate_database_insert, mbind at 1, sexn_bind at 1. unfold crypto_result at 1.
  destruct (ct_id cert) as [id|e] eqn:Ei; [|by intros [= <- <-]].
  unfold mbind at 1, sexn_bind at 1. destruct (certificate_database_is_revoked id t) as [[b|e] t1] eqn:Er; apply is_revoked_ok in Er as [-> Eb].
  - destruct b.
    + intros [= <- <-]. split; [done|]. intros. by left.
    + unfold ser_store, crypto_result, ser_result, mbind, sexn_bind.
      destruct (asn_der_serialise certificate_codec cert) as [o|e] eqn:Eo.
      * intros E. pose proof (execute_replace_ok _ _ _ _ _ E) as Ex. destruct r as [u|e].
        -- exists id, o, (CertificateRow o (extract_identifier cert) (revoked_flag cert)). split_and!; try done.
           intros row Hrow. rewrite Hrow in Eb. intros Hr. rewrite Hr in Eb. done.
        -- destruct Ex as [-> ->]. split; [done|]. intros. by right.
      * intros [= <- <-]. split; [done|]. intros id' row [= <-] Hrow Hr. rewrite Hrow, Hr in Eb. done.
  - intros [= <- <-]. split; [done|]. intros. by right.
Qed.

Definition certificate_at (t : T) (k : octets) : option certificate := sql_rows t !! to_hex k ≫= stored_certificate.

Definition certificate_entry (c : certificate) : option (octets * certificate) :=
  match ct_id c with Ok i => Some (i, c) | Throw _ => None end.

#[export] Program Instance certificate_database_laws : AccessLaws T certificate octets certificate := {|
  acc_content := certificate_at;
  acc_entry := certificate_entry;
  acc_storable c := codec_storable certificate_codec c /\ forall i, ct_id c = Ok i -> Forall is_octet i;
  acc_key_ok := Forall is_octet;
  acc_fits k c := ct_id c = Ok k;
  acc_inv t := forall k c, Forall is_octet k -> certificate_at t k = Some c -> ct_id c = Ok k |}.
Next Obligation. intros c k v [_ Hi] E. unfold certificate_entry in E. destruct (ct_id c) as [i|] eqn:Ec; [|done]. injection E as <- <-. auto. Qed.
Next Obligation. intros t k v Hi. apply Hi. Qed.
Next Obligation. by intros t k r t' Hi _ [-> E]%certificate_database_find_ok. Qed.
Next Obligation.
  intros t c k v r t' Hinv [Hs Hi] Hc E. apply certificate_database_insert_inv in E.
  destruct r as [[]|e]; [|by destruct E as [-> _]]. destruct E as (id & o & row & Eid & Eo & _ & -> & E).
  unfold certificate_entry in Hc. rewrite Eid in Hc. injection Hc as <- <-. specialize (Hi id Eid).
  assert (forall k', Forall is_octet k' -> certificate_at t' k' = if decide (k' = id) then Some c else certificate_at t k') as Ec.
  { intros k' Hk'. unfold certificate_at. rewrite E. case_decide as Hd.
    - subst. rewrite lookup_insert_eq. simpl. by apply (decoded_stored certificate_codec).
    - by rewrite lookup_insert_ne by (rewrite same_hex; congruence). }
  split; [|done]. intros k' c' Hk'. rewrite Ec by done. case_decide; [congruence|by apply Hinv].
Qed.
Next Obligation.
  intros t k r t' Hinv Hk E. cbn [acc_remove certificate_database] in E.
  apply (execute_delete_ok _ (to_hex k)) in E; [|done]. destruct r as [[]|e]; [|by destruct E as [_ ->]].
  assert (forall k', Forall is_octet k' -> certificate_at t' k' = if decide (k' = k) then None else certificate_at t k') as Ec.
  { intros k' Hk'. unfold certificate_at. rewrite E. case_decide as Hd; [by subst; rewrite lookup_delete_eq|].
    by rewrite lookup_delete_ne by (rewrite same_hex; congruence). }
  split; [|done]. intros k' c' Hk'. rewrite Ec by done. case_decide; [done|by apply Hinv].
Qed.
End certificates.

Section secrets.
Context `{!SqlTable T octets octets, !SqlTableLaws T octets octets}.

Program Definition shared_secret_database_laws :
  @AccessLaws T (octets * octets) octets octets _ shared_secret_database := {|
  acc_content t k := sql_rows t !! to_hex k;
  acc_entry kd := Some kd;
  acc_storable kd := Forall is_octet (fst kd);
  acc_key_ok := Forall is_octet;
  acc_fits _ _ := True;
  acc_inv _ := True |}.
Next Obligation. by intros [k d] k' v Hk [= <- <-]. Qed.
Next Obligation. done. Qed.
Next Obligation.
  intros t k r t' _ _ [E|[-> ->]]%find_then; [|done]. destruct (sql_rows t !! to_hex k) as [d|]; simpl in E;
    unfold mret, sexn_ret in E; simplify_eq; (split_and!; [done..|]); intros x [= <-]; [by destruct d|done].
Qed.
Next Obligation.
  intros t [k d] k' v r t' _ Hk [= <- <-] E. cbn in E, Hk. unfold shared_secret_database_insert in E.
  destruct (zlen k =? 0); [unfold throw in E; by simplify_eq|]. apply execute_replace_ok in E. split; [done|]. intros -> k' Hk'. rewrite E.
  case_decide as Hd; [by subst; rewrite lookup_insert_eq|]. by rewrite lookup_insert_ne by (rewrite same_hex; congruence).
Qed.
Next Obligation.
  intros t k r t' _ Hk E. apply (execute_delete_ok _ (to_hex k)) in E; [|done]. split; [done|]. intros -> k' Hk'. rewrite E.
  case_decide as Hd; [by subst; rewrite lookup_delete_eq|]. by rewrite lookup_delete_ne by (rewrite same_hex; congruence).
Qed.

(** Private data: an empty value is stored but never found again. *)
Program Definition private_data_database_laws :
  @AccessLaws T (octets * octets) octets octets _ private_data_database := {|
  acc_content t k := sql_rows t !! k ≫= value_octets;
  acc_entry kd := Some kd;
  acc_storable kd := snd kd <> [];
  acc_key_ok _ := True;
  acc_fits _ _ := True;
  acc_inv _ := True |}.
Next Obligation. done. Qed.
Next Obligation. done. Qed.
Next Obligation.
  intros t k r t' _ _ [E|[-> ->]]%find_then; [|done]. destruct (sql_rows t !! k) as [d|]; simpl in E;
    unfold mret, sexn_ret in E; simplify_eq; (split_and!; [done..|]); by intros x [= <-].
Qed.
Next Obligation.
  intros t [k d] k' v r t' _ Hk [= <- <-] E. apply execute_replace_ok in E. cbn [fst snd] in *.
  split; [done|]. intros -> k' _. rewrite E.
  case_decide as Hd; [subst; rewrite lookup_insert_eq; by apply value_octets_some|]. by rewrite lookup_insert_ne by congruence.
Qed.
Next Obligation.
  intros t k r t' _ Hk E. apply (execute_delete_ok _ k) in E; [|done]. split; [done|]. intros -> k' _. rewrite E.
  case_decide as Hd; [by subst; rewrite lookup_delete_eq|]. by rewrite lookup_delete_ne by congruence.
Qed.
End secrets.

Section key_values.
Context `{!SqlTable T (octets * Z) octets, !SqlTableLaws T (octets * Z) octets} (selector : Z).

Lemma key_of_selector (k key : octets) (s s0 : Z) :
  bool_decide (k = key) && (s =? s0) = bool_decide ((k, s) = (key, s0)).
Proof.
  destruct (decide (k = key)) as [->|Hk]; [rewrite bool_decide_eq_true_2 by done|rewrite bool_decide_eq_false_2 by done]; simpl.
  - destruct (Z.eqb_spec s s0) as [->|Hs]; symmetry; [by apply bool_decide_eq_true_2|apply bool_decide_eq_false_2; congruence].
  - symmetry. apply bool_decide_eq_false_2. congruence.
Qed.

Lemma key_value_find_inv k t r t' : key_value_database_find selector k t = (r, t') ->
  t' = t /\ (forall x, r = Ok x -> x = sql_rows t !! (k, bind_uint64 selector) ≫= value_octets).
Proof.
  intros [(l & Es & E)|[-> ->]]%select_then; [|done].
  apply (select_one _ (fun _ => true) (k, bind_uint64 selector)) in Es; [|intros [] ?; by rewrite andb_true_r, <- key_of_selector].
  subst l. destruct (sql_rows t !! (k, bind_uint64 selector)) as [d|]; simpl in E; unfold mret, sexn_ret in E; simplify_eq;
    (split; [done|]); intros x Hx; by simplify_eq.
Qed.

Program Definition key_value_database_laws :
  @AccessLaws T (octets * octets) octets octets _ (key_value_database selector) := {|
  acc_content t k := sql_rows t !! (k, bind_uint64 selector) ≫= value_octets;
  acc_entry kd := Some kd;
  acc_storable kd := snd kd <> [];
  acc_key_ok _ := True;
  acc_fits _ _ := True;
  acc_inv _ := True |}.
Next Obligation. done. Qed.
Next Obligation. done. Qed.
Next Obligation. by intros t k r t' _ _ [-> E]%key_value_find_inv. Qed.
Next Obligation.
  intros t [k d] k' v r t' _ Hk [= <- <-] E. apply execute_replace_ok in E. cbn [fst snd] in *.
  split; [done|]. intros -> k' _. rewrite E.
  case_decide as Hd; [subst; rewrite lookup_insert_eq; by apply value_octets_some|]. by rewrite lookup_insert_ne by congruence.
Qed.
Next Obligation.
  intros t k r t' _ Hk E. apply (execute_delete_ok _ (k, bind_uint64 selector)) in E; [|intros [] ?; by rewrite <- key_of_selector].
  split; [done|]. intros -> k' _. rewrite E.
  case_decide as Hd; [by subst; rewrite lookup_delete_eq|]. by rewrite lookup_delete_ne by congruence.
Qed.

(** [clear] empties its selector and leaves the other selectors' rows. *)
Lemma key_value_clear_ok t t' : key_value_database_clear selector t = (Ok tt, t') ->
  forall k s, sql_rows t' !! (k, s) = if decide (s = bind_uint64 selector) then None else sql_rows t !! (k, s).
Proof.
  unfold key_value_database_clear, execute_delete. intros E k s. case_match eqn:Ed; [|done]. injection E as ->.
  apply sql_delete_ok in Ed as ->. rewrite map_lookup_filter. destruct (sql_rows t !! (k, s)); simpl; [|by case_decide].
  case_decide as Hs.
  - rewrite option_guard_False; [done|]. simpl. subst. by rewrite Z.eqb_refl.
  - rewrite option_guard_True; [done|]. by apply Z.eqb_neq.
Qed.
End key_values.
End laws.

(** The column of a [uint64_t]: the value comes back, and columns compare as
    the values do. *)
Lemma uint64_column v w : in_range u64 v -> in_range u64 w ->
  in_range i64 (bind_uint64 v) /\ value_uint64 (bind_uint64 v) = v /\ (bind_uint64 v < bind_uint64 w <-> v < w).
Proof.
  unfold in_range, bind_uint64, value_uint64. simpl. change (it_bits u64) with 64. change (it_bits i64) with 64.
  intros Hv Hw.
  assert (forall x, 0 <= x < 2 ^ 64 -> cast i64 (wrap 64 (x + wrap 64 (- 2 ^ 63))) = x - 2 ^ 63) as E.
  { intros x Hx. change (wrap 64 (- 2 ^ 63)) with (2 ^ 63). unfold cast, swrap, wrap. simpl.
    change (it_bits i64) with 64. change (64 - 1) with 63. rewrite Zplus_mod_idemp_l.
    replace (x + 2 ^ 63 + 2 ^ 63) with (x + 1 * 2 ^ 64) by lia. rewrite Z.mod_add, Z.mod_small by lia. done. }
  rewrite !E by done. change (64 - 1) with 63. split; [lia|]. split; [|lia].
  unfold wrap. rewrite Z.mod_small; lia.
Qed.
