(* ===== verification/Caches.v ===== *)
(** The write-through caches: [crypto/certificate_cache.cpp],
    [crypto/public_key_cache.cpp], [crypto/shared_secret_cache.cpp],
    [crypto/private_data_cache.cpp], [common/key_value_cache.cpp].

    A cache holds a map and the stores behind it, in the order a [std::set] of
    pointers gives them.  Its calls take the cache's mutex, so a call is one
    step.  A cache is itself a store ([Access]) and can stand behind another. *)

From stdpp Require Import base list numbers gmap.
From Stdlib Require Import ZArith Lia.
From S2P Require Import Prelude ByteOrder TextUtil Asn1Int Asn1Stream Asn1Encoder Asn1Decoder Serialise Crypto CertChain Stores.
Open Scope Z_scope.

Record cache (V B : Type) : Type := Cache { ca_map : gmap octets V; ca_backends : list B }.
Arguments Cache {V B}.
Arguments ca_map {V B}.
Arguments ca_backends {V B}.

Definition new_cache {V B} : cache V B := Cache ∅ [].

(** ** The loops over the backends *)

Section loops.
Context {V B : Type}.

(** [for(auto&& b : backends_) b->f(...);] *)
Fixpoint each_backend (f : store B unit) (bs : list B) : result store_exn unit * list B :=
  match bs with
  | [] => (Ok tt, [])
  | b :: bs =>
      match f b with
      | (Ok _, b') => let '(r, bs') := each_backend f bs in (r, b' :: bs')
      | (Throw e, b') => (Throw e, b' :: bs)
      end
  end.

(** [for(auto i = begin(); i != end() && !(ret = i->find(id)); ++i) {}] *)
Fixpoint first_backend {X : Type} (f : store B (option X)) (bs : list B) : result store_exn (option X) * list B :=
  match bs with
  | [] => (Ok None, [])
  | b :: bs =>
      match f b with
      | (Ok (Some v), b') => (Ok (Some v), b' :: bs)
      | (Ok None, b') => let '(r, bs') := first_backend f bs in (r, b' :: bs')
      | (Throw e, b') => (Throw e, b' :: bs)
      end
  end.

Definition for_backends (f : store B unit) : store (cache V B) unit :=
  fun c => let '(r, bs) := each_backend f (ca_backends c) in (r, Cache (ca_map c) bs).

Definition find_backends (f : store B (option V)) : store (cache V B) (option V) :=
  fun c => let '(r, bs) := first_backend f (ca_backends c) in (r, Cache (ca_map c) bs).

Definition set_map (m : gmap octets V) : store (cache V B) unit := fun c => (Ok tt, Cache m (ca_backends c)).

(** [backends_.insert(access)]: the place in the set is that of the address. *)
Definition add_backend (place : nat) (b : B) : store (cache V B) unit :=
  fun c => (Ok tt, Cache (ca_map c) (take place (ca_backends c) ++ b :: drop place (ca_backends c))).
End loops.

Section caches.
Context {B : Type} `{Primitives}.

(** ** Certificates *)

Section certificates.
Context `{!Access B certificate octets certificate}.

Definition certificate_cache_insert (cert : certificate) : store (cache certificate B) unit :=
  id ← crypto_result (ct_id cert);
  c ← get_st;
  match ca_map c !! id with
  | Some (Certificate _ _ _ _ (Some _) _) => throw invalid_operation_exn
  | _ =>
      set_map (<[id := cert]> (ca_map c)) ;;
      for_backends (acc_insert cert)
  end.

Definition certificate_cache_remove (id : octets) : store (cache certificate B) unit :=
  c ← get_st;
  set_map (delete id (ca_map c)) ;;
  for_backends (acc_remove id).

Definition certificate_cache_find (cid : octets) : store (cache certificate B) (option certificate) :=
  c ← get_st;
  match ca_map c !! cid with
  | Some cert => mret (Some cert)
  | None =>
      ret ← find_backends (acc_find cid);
      match ret with
      | Some cert =>
          id ← crypto_result (ct_id cert);
          c ← get_st;
          set_map (<[id := cert]> (ca_map c)) ;;
          mret (Some cert)
      | None => mret None
      end
  end.

#[export] Instance certificate_cache : Access (cache certificate B) certificate octets certificate := {|
  acc_insert := certificate_cache_insert;
  acc_remove := certificate_cache_remove;
  acc_find := certificate_cache_find |}.
End certificates.

(** The search asks the backends only and keeps the first of each identifier. *)
Section search.
Context (search : octets -> store B (list certificate)).

Fixpoint collect (saved : gset octets) (l : list certificate) : cres (gset octets * list certificate) :=
  match l with
  | [] => mret (saved, [])
  | cert :: l =>
      id ← ct_id cert;
      if bool_decide (id ∈ saved) then collect saved l
      else
        r ← collect ({[id]} ∪ saved) l;
        mret (fst r, cert :: snd r)
  end.

Fixpoint search_backends (identifier : octets) (saved : gset octets) (bs : list B) : result store_exn (list certificate) * list B :=
  match bs with
  | [] => (Ok [], [])
  | b :: bs =>
      match search identifier b with
      | (Ok l, b') =>
          match collect saved l with
          | Ok (saved, res) =>
              let '(r, bs') := search_backends identifier saved bs in
              (match r with Ok more => Ok (res ++ more) | Throw e => Throw e end, b' :: bs')
          | Throw e => (Throw (CryptoExn e), b' :: bs)
          end
      | (Throw e, b') => (Throw e, b' :: bs)
      end
  end.

Definition certificate_cache_search_identifier (identifier : octets) : store (cache certificate B) (list certificate) :=
  fun c => let '(r, bs) := search_backends identifier ∅ (ca_backends c) in (r, Cache (ca_map c) bs).
End search.

(** ** Public keys *)

Section public_keys.
Context `{!Access B public_key octets public_key}.

Definition public_key_cache_insert (key : public_key) : store (cache public_key B) unit :=
  c ← get_st;
  set_map (<[pk_id key := key]> (ca_map c)) ;;
  for_backends (acc_insert key).

Definition public_key_cache_find (id : octets) : store (cache public_key B) (option public_key) :=
  c ← get_st;
  match ca_map c !! id with
  | Some key => mret (Some key)
  | None =>
      ret ← find_backends (acc_find id);
      match ret with
      | Some key =>
          c ← get_st;
          set_map (<[pk_id key := key]> (ca_map c)) ;;
          mret (Some key)
      | None => mret None
      end
  end.

Definition public_key_cache_remove (id : octets) : store (cache public_key B) unit :=
  c ← get_st;
  set_map (delete id (ca_map c)) ;;
  for_backends (acc_remove id).

#[export] Instance public_key_cache : Access (cache public_key B) public_key octets public_key := {|
  acc_insert := public_key_cache_insert;
  acc_remove := public_key_cache_remove;
  acc_find := public_key_cache_find |}.
End public_keys.

(** ** Shared secrets *)

Section secrets.
Context `{!Access B (octets * octets) octets octets}.

Definition shared_secret_cache_insert (key data : octets) : store (cache octets B) unit :=
  if zlen key =? 0 then throw InvalidSecretKeySize
  else
    c ← get_st;
    set_map (<[key := data]> (ca_map c)) ;;
    for_backends (acc_insert (key, data)).

Definition shared_secret_cache_remove (key : octets) : store (cache octets B) unit :=
  c ← get_st;
  set_map (delete key (ca_map c)) ;;
  for_backends (acc_remove key).

(** Also [private_data_cache] and [key_value_cache], whose [find] is written
    with a second test in place of the [else]. *)
Definition shared_secret_cache_find (key : octets) : store (cache octets B) (option octets) :=
  c ← get_st;
  match ca_map c !! key with
  | Some data => mret (Some data)
  | None =>
      res ← find_backends (acc_find key);
      match res with
      | Some data =>
          c ← get_st;
          set_map (<[key := data]> (ca_map c)) ;;
          mret (Some data)
      | None => mret None
      end
  end.

Definition shared_secret_cache : Access (cache octets B) (octets * octets) octets octets := {|
  acc_insert kd := shared_secret_cache_insert (fst kd) (snd kd);
  acc_remove := shared_secret_cache_remove;
  acc_find := shared_secret_cache_find |}.

(** ** Settings *)

Definition key_value_cache_insert (key data : octets) : store (cache octets B) unit :=
  c ← get_st;
  set_map (<[key := data]> (ca_map c)) ;;
  for_backends (acc_insert (key, data)).

Definition key_value_cache_find (key : octets) : store (cache octets B) (option octets) :=
  c ← get_st;
  let ret := ca_map c !! key in
  match ret with
  | Some data => mret ret
  | None =>
      ret ← find_backends (acc_find key);
      match ret with
      | Some data =>
          c ← get_st;
          set_map (<[key := data]> (ca_map c)) ;;
          mret ret
      | None => mret None
      end
  end.

Definition key_value_cache_erase (key : octets) : store (cache octets B) unit :=
  c ← get_st;
  set_map (delete key (ca_map c)) ;;
  for_backends (acc_remove key).

Definition key_value_cache_clear (backend_clear : store B unit) : store (cache octets B) unit :=
  set_map ∅ ;;
  for_backends backend_clear.

Definition key_value_cache : Access (cache octets B) (octets * octets) octets octets := {|
  acc_insert kd := key_value_cache_insert (fst kd) (snd kd);
  acc_remove := key_value_cache_erase;
  acc_find := key_value_cache_find |}.
End secrets.

(** ** Private data: the own key and chain besides the map *)

Section private_data.
Context (backend_key : store B (option private_key_impl)) (backend_set_key : private_key_impl -> store B unit).
Context (backend_chain : store B (option certificate_chain)) (backend_set_chain : certificate_chain -> store B unit).

Record private_data_cache : Type := PrivateDataCache {
  pd_key : option private_key_impl;
  pd_chain : option certificate_chain;
  pd_metadata : cache octets B
}.

Definition on_backends {X} (f : list B -> result store_exn X * list B) : store private_data_cache X :=
  fun c => let '(r, bs) := f (ca_backends (pd_metadata c)) in
    (r, PrivateDataCache (pd_key c) (pd_chain c) (Cache (ca_map (pd_metadata c)) bs)).

Definition set_key (k : option private_key_impl) : store private_data_cache unit :=
  fun c => (Ok tt, PrivateDataCache k (pd_chain c) (pd_metadata c)).
Definition set_chain (ch : option certificate_chain) : store private_data_cache unit :=
  fun c => (Ok tt, PrivateDataCache (pd_key c) ch (pd_metadata c)).

Definition my_private_key : store private_data_cache (option private_key_impl) :=
  c ← get_st;
  match pd_key c with
  | Some k => mret (Some k)
  | None => k ← on_backends (first_backend backend_key); set_key k ;; mret k
  end.

Definition set_my_private_key (key : private_key_impl) : store private_data_cache unit :=
  set_key (Some key) ;;
  on_backends (each_backend (backend_set_key key)).

Definition my_certificate_chain : store private_data_cache (option certificate_chain) :=
  c ← get_st;
  match pd_chain c with
  | Some ch => mret (Some ch)
  | None => ch ← on_backends (first_backend backend_chain); set_chain ch ;; mret ch
  end.

Definition set_my_certificate_chain (chain : certificate_chain) : store private_data_cache unit :=
  set_chain (Some chain) ;;
  on_backends (each_backend (backend_set_chain chain)).

(** [insert], [find] and [erase] are those of a cache over [metadata_]. *)
Definition on_metadata {X} (f : store (cache octets B) X) : store private_data_cache X :=
  fun c => let '(r, m) := f (pd_metadata c) in (r, PrivateDataCache (pd_key c) (pd_chain c) m).

Context `{!Access B (octets * octets) octets octets}.

Definition private_data_cache_insert (key data : octets) : store private_data_cache unit :=
  on_metadata (key_value_cache_insert key data).
Definition private_data_cache_find (key : octets) : store private_data_cache (option octets) :=
  on_metadata (key_value_cache_find key).
Definition private_data_cache_erase (key : octets) : store private_data_cache unit :=
  on_metadata (key_value_cache_erase key).
End private_data.
End caches.

(** ** What the backends hold together *)

Section backend_lemmas.
Context {B A V : Type} `{!Access B A octets V, L : !AccessLaws B A octets V}.

Fixpoint backends_content (bs : list B) (k : octets) : option V :=
  match bs with
  | [] => None
  | b :: bs => match acc_content b k with Some v => Some v | None => backends_content bs k end
  end.

(** The map in front, then the backends. *)
Definition cache_content (c : cache V B) (k : octets) : option V :=
  match ca_map c !! k with Some v => Some v | None => backends_content (ca_backends c) k end.

Definition cache_inv (c : cache V B) : Prop :=
  Forall acc_inv (ca_backends c) /\ forall k v, acc_key_ok k -> ca_map c !! k = Some v -> acc_fits k v.

Lemma backends_content_fits bs k v :
  Forall acc_inv bs -> acc_key_ok k -> backends_content bs k = Some v -> acc_fits k v.
Proof.
  intros Hi Hk. induction Hi as [|b bs Hb _ IH]; simpl; [done|].
  destruct (acc_content b k) as [x|] eqn:E; [intros [= <-]; by eapply acc_content_fits|done].
Qed.

Lemma each_insert bs a k v r bs' :
  Forall acc_inv bs -> acc_storable a -> acc_entry a = Some (k, v) -> each_backend (acc_insert a) bs = (r, bs') ->
  Forall acc_inv bs' /\ length bs' = length bs /\
  (r = Ok tt -> forall k', acc_key_ok k' ->
    backends_content bs' k' = if decide (k' = k) then match bs with [] => None | _ => Some v end else backends_content bs k').
Proof.
  intros Hi Ha He. revert r bs'. induction Hi as [|b bs Hb Hi IH]; intros r bs' E; simpl in E.
  - simplify_eq. split_and!; [constructor|done|]. intros. by case_decide.
  - destruct (acc_insert a b) as [r1 b1] eqn:Eb. apply (acc_insert_ok _ _ _ _ _ _ Hb Ha He) in Eb as [Hb1 Ec].
    destruct r1 as [[]|e]; [|simplify_eq; split_and!; by try constructor].
    destruct (each_backend (acc_insert a) bs) as [r2 bs1]. injection E as <- <-.
    destruct (IH r2 bs1 eq_refl) as (Hi1 & Hl & Hc). split_and!; [by constructor|simpl; by f_equal|].
    intros -> k' Hk'. simpl. rewrite Ec, Hc by done. by case_decide.
Qed.

Lemma each_remove bs k r bs' :
  Forall acc_inv bs -> acc_key_ok k -> each_backend (acc_remove k) bs = (r, bs') ->
  Forall acc_inv bs' /\ length bs' = length bs /\
  (r = Ok tt -> forall k', acc_key_ok k' -> backends_content bs' k' = if decide (k' = k) then None else backends_content bs k').
Proof.
  intros Hi Hk. revert r bs'. induction Hi as [|b bs Hb Hi IH]; intros r bs' E; simpl in E.
  - simplify_eq. split_and!; [constructor|done|]. intros. by case_decide.
  - destruct (acc_remove k b) as [r1 b1] eqn:Eb. apply (acc_remove_ok _ _ _ _ Hb Hk) in Eb as [Hb1 Ec].
    destruct r1 as [[]|e]; [|simplify_eq; split_and!; by try constructor].
    destruct (each_backend (acc_remove k) bs) as [r2 bs1]. injection E as <- <-.
    destruct (IH r2 bs1 eq_refl) as (Hi1 & Hl & Hc). split_and!; [by constructor|simpl; by f_equal|].
    intros -> k' Hk'. simpl. rewrite Ec, Hc by done. by case_decide.
Qed.

Lemma first_find bs k r bs' :
  Forall acc_inv bs -> acc_key_ok k -> first_backend (acc_find k) bs = (r, bs') ->
  Forall acc_inv bs' /\ length bs' = length bs /\
  (forall k', acc_key_ok k' -> backends_content bs' k' = backends_content bs k') /\
  (forall x, r = Ok x -> x = backends_content bs k).
Proof.
  intros Hi Hk. revert r bs'. induction Hi as [|b bs Hb Hi IH]; intros r bs' E; simpl in E.
  - simplify_eq. split_and!; [constructor|done|done|]. by intros x [= <-].
  - destruct (acc_find k b) as [r1 b1] eqn:Eb. apply (acc_find_ok _ _ _ _ Hb Hk) in Eb as (Hb1 & Ec & Ex).
    destruct r1 as [[v|]|e].
    + simplify_eq. split_and!; [by constructor|done|intros; simpl; by rewrite Ec|].
      intros x [= <-]. simpl. by rewrite <- (Ex _ eq_refl).
    + destruct (first_backend (acc_find k) bs) as [r2 bs1]. injection E as <- <-.
      destruct (IH r2 bs1 eq_refl) as (Hi1 & Hl & Hc & Hx). split_and!; [by constructor|simpl; by f_equal|intros; simpl; by rewrite Ec, Hc|].
      intros x Hr. simpl. rewrite <- (Ex _ eq_refl). by apply Hx.
    + simplify_eq. split_and!; [by constructor|done|intros; simpl; by rewrite Ec|done].
Qed.

(** Calls of a cache, by their effect on the map and the backends. *)
Definition insert_effect (c : cache V B) (a : A) (k : octets) (v : V) (r : result store_exn unit) (c' : cache V B) : Prop :=
  each_backend (acc_insert a) (ca_backends c) = (r, ca_backends c') /\ ca_map c' = <[k := v]> (ca_map c).
Definition remove_effect (c : cache V B) (k : octets) (r : result store_exn unit) (c' : cache V B) : Prop :=
  each_backend (acc_remove k) (ca_backends c) = (r, ca_backends c') /\ ca_map c' = delete k (ca_map c).
Definition find_effect (c : cache V B) (k : octets) (r : result store_exn (option V)) (c' : cache V B) : Prop :=
  match ca_map c !! k with
  | Some v => r = Ok (Some v) /\ c' = c
  | None => exists r1, first_backend (acc_find k) (ca_backends c) = (r1, ca_backends c') /\
      match r1 with
      | Ok (Some v) => acc_fits k v -> r = Ok (Some v) /\ ca_map c' = <[k := v]> (ca_map c)
      | _ => r = r1 /\ ca_map c' = ca_map c
      end
  end.

Lemma insert_effect_ok c a k v r c' :
  cache_inv c -> acc_storable a -> acc_entry a = Some (k, v) -> insert_effect c a k v r c' ->
  cache_inv c' /\
  (r = Ok tt -> forall k', acc_key_ok k' -> cache_content c' k' = if decide (k' = k) then Some v else cache_content c k').
Proof.
  intros [Hb Hm] Ha He [E1 E2]. destruct (each_insert _ _ _ _ _ _ Hb Ha He E1) as (Hb' & _ & Hc).
  destruct (acc_entry_ok _ _ _ Ha He) as [Hk Hf]. split.
  - split; [done|]. intros k' v' Hk'. rewrite E2, lookup_insert_Some. intros [[<- <-]|[_ ?]]; [done|by eapply Hm].
  - intros Hr k' Hk'. unfold cache_content. rewrite E2, Hc by done. case_decide as Hd.
    + subst. by rewrite lookup_insert_eq.
    + by rewrite lookup_insert_ne.
Qed.

Lemma remove_effect_ok c k r c' :
  cache_inv c -> acc_key_ok k -> remove_effect c k r c' ->
  cache_inv c' /\
  (r = Ok tt -> forall k', acc_key_ok k' -> cache_content c' k' = if decide (k' = k) then None else cache_content c k').
Proof.
  intros [Hb Hm] Hk [E1 E2]. destruct (each_remove _ _ _ _ Hb Hk E1) as (Hb' & _ & Hc). split.
  - split; [done|]. intros k' v' Hk'. rewrite E2, lookup_delete_Some. intros [_ ?]. by eapply Hm.
  - intros Hr k' Hk'. unfold cache_content. rewrite E2, Hc by done. case_decide as Hd.
    + subst. by rewrite lookup_delete_eq.
    + by rewrite lookup_delete_ne.
Qed.

Lemma find_effect_ok c k r c' :
  cache_inv c -> acc_key_ok k -> find_effect c k r c' ->
  cache_inv c' /\ (forall k', acc_key_ok k' -> cache_content c' k' = cache_content c k') /\
  (forall x, r = Ok x -> x = cache_content c k).
Proof.
  intros [Hb Hm] Hk E. unfold find_effect in E. destruct (ca_map c !! k) as [v|] eqn:Ek.
  - destruct E as [-> ->]. split; [done|]. split; [done|]. intros x [= <-]. unfold cache_content. by rewrite Ek.
  - destruct E as (r1 & E1 & E). destruct (first_find _ _ _ _ Hb Hk E1) as (Hb' & _ & Hc & Hx).
    assert (ca_map c' = ca_map c -> r = r1 -> cache_inv c' /\
      (forall k', acc_key_ok k' -> cache_content c' k' = cache_content c k') /\ (forall x, r = Ok x -> x = cache_content c k)) as Same.
    { intros E2 ->. split_and!.
      - split; [done|]. rewrite E2. apply Hm.
      - intros k' Hk'. unfold cache_content. by rewrite E2, Hc.
      - intros x Hr. unfold cache_content. rewrite Ek. by apply Hx. }
    destruct r1 as [[v|]|e]; [|by (destruct E; apply Same)..].
    specialize (Hx _ eq_refl). pose proof (backends_content_fits _ k v Hb Hk (eq_sym Hx)) as Hf.
    destruct (E Hf) as [-> E2]. split_and!.
    + split; [done|]. intros k' v' Hk'. rewrite E2, lookup_insert_Some. intros [[<- <-]|[_ ?]]; [done|by eapply Hm].
    + intros k' Hk'. unfold cache_content. rewrite E2, Hc by done. destruct (decide (k' = k)) as [->|Hd].
      * rewrite lookup_insert_eq, Ek. done.
      * by rewrite lookup_insert_ne.
    + intros x [= <-]. unfold cache_content. by rewrite Ek.
Qed.
End backend_lemmas.

(** ** Every cache is a store that keeps the promise *)

Section cache_laws.
Context {B A V : Type} `{!Access B A octets V, L : !AccessLaws B A octets V}.

(** What the four caches have in common. *)
Definition cache_effects (acc : Access (cache V B) A octets V) : Prop :=
  (forall c a k v r c', acc_entry a = Some (k, v) -> acc_insert a c = (r, c') ->
     insert_effect c a k v r c' \/ (c' = c /\ r <> Ok tt)) /\
  (forall c k r c', acc_remove k c = (r, c') -> remove_effect c k r c') /\
  (forall c k r c', acc_find k c = (r, c') -> find_effect c k r c').

Context (acc : Access (cache V B) A octets V) (effects : cache_effects acc).

Program Definition cache_laws : AccessLaws (cache V B) A octets V := {|
  acc_content := cache_content; acc_entry := acc_entry (B:=B); acc_storable := acc_storable (B:=B);
  acc_key_ok := acc_key_ok (B:=B); acc_fits := acc_fits (B:=B); acc_inv := cache_inv |}.
Next Obligation. intros a k v. apply acc_entry_ok. Qed.
Next Obligation.
  intros c k v [Hb Hm] Hk. unfold cache_content. destruct (ca_map c !! k) eqn:E; [intros [= <-]; by eapply Hm|].
  by apply backends_content_fits.
Qed.
Next Obligation. intros c k r c' Hi Hk E. apply find_effect_ok; [done|done|by apply effects]. Qed.
Next Obligation.
  intros c a k v r c' Hi Ha He E. apply effects with (2 := E) in He as He'. destruct He' as [He'|[-> ?]]; [|done].
  by eapply insert_effect_ok.
Qed.
Next Obligation. intros c k r c' Hi Hk E. apply remove_effect_ok; [done|done|by apply effects]. Qed.

(** The backends hold all the map holds. *)
Definition coherent (c : cache V B) : Prop :=
  ca_backends c <> [] /\ forall k v, acc_key_ok k -> ca_map c !! k = Some v -> backends_content (ca_backends c) k = Some v.

Lemma coherent_content c k : coherent c -> acc_key_ok k -> backends_content (ca_backends c) k = cache_content c k.
Proof. intros [_ Hc] Hk. unfold cache_content. destruct (ca_map c !! k) eqn:E; [by apply Hc|done]. Qed.

Lemma same_length_nonempty {X Y} (l : list X) (k : list Y) : length l = length k -> k <> [] -> l <> [].
Proof. by destruct l, k. Qed.

Lemma insert_coherent c a k v c' :
  cache_inv c -> coherent c -> acc_storable a -> acc_entry a = Some (k, v) -> insert_effect c a k v (Ok tt) c' -> coherent c'.
Proof.
  intros [Hb _] [Hn Hc] Ha He [E1 E2]. destruct (each_insert _ _ _ _ _ _ Hb Ha He E1) as (_ & Hl & Hc'). split; [by eapply same_length_nonempty|].
  intros k' v' Hk'. rewrite E2, Hc' by done. rewrite lookup_insert_Some. intros [[<- <-]|[Hne E]].
  - rewrite decide_True by done. by destruct (ca_backends c).
  - rewrite decide_False by done. by apply Hc.
Qed.

Lemma remove_coherent c k c' :
  cache_inv c -> coherent c -> acc_key_ok k -> remove_effect c k (Ok tt) c' -> coherent c'.
Proof.
  intros [Hb _] [Hn Hc] Hk [E1 E2]. destruct (each_remove _ _ _ _ Hb Hk E1) as (_ & Hl & Hc'). split; [by eapply same_length_nonempty|].
  intros k' v' Hk'. rewrite E2, Hc' by done. rewrite lookup_delete_Some. intros [Hne E]. rewrite decide_False by done. by apply Hc.
Qed.

Lemma find_coherent c k r c' :
  cache_inv c -> coherent c -> acc_key_ok k -> find_effect c k r c' -> coherent c'.
Proof.
  intros [Hb Hm] [Hn Hc] Hk E. unfold find_effect in E. destruct (ca_map c !! k) as [v|] eqn:Ek; [by destruct E as [_ ->]|].
  destruct E as (r1 & E1 & E). destruct (first_find _ _ _ _ Hb Hk E1) as (_ & Hl & Hc' & Hx).
  split; [by eapply same_length_nonempty|]. intros k' v' Hk'. rewrite Hc' by done.
  destruct r1 as [[v|]|e]; [|destruct E as [_ ->]; by apply Hc..].
  specialize (Hx _ eq_refl). destruct (E (backends_content_fits _ k v Hb Hk (eq_sym Hx))) as [_ ->].
  rewrite lookup_insert_Some. intros [[<- <-]|[_ ?]]; [done|by apply Hc].
Qed.
End cache_laws.

(** The four caches have these effects. *)
Ltac run_cache E :=
  unfold mbind, sexn_bind, get_st, set_map, mret, sexn_ret, throw, for_backends, find_backends in E; simpl in E.

Ltac remove_done E :=
  run_cache E; match type of E with context [each_backend ?f ?bs] => destruct (each_backend f bs) as [? ?] eqn:? end;
  simplify_eq; by split.

Section instances.
Context {B : Type} `{Primitives}.

Section certificates.
Context `{!Access B certificate octets certificate, !AccessLaws B certificate octets certificate}.
Context (fits_id : forall k c, acc_fits (V:=certificate) (K:=octets) (B:=B) k c <-> ct_id c = Ok k).
Context (entry_id : forall c k v, acc_entry (A:=certificate) (K:=octets) (B:=B) c = Some (k, v) -> ct_id c = Ok k /\ v = c).

Lemma certificate_cache_insert_effect c cert id r c' :
  ct_id cert = Ok id -> certificate_cache_insert cert c = (r, c') ->
  (exists old, ca_map c !! id = Some old /\ ct_revocation old <> None /\ r = Throw invalid_operation_exn /\ c' = c) \/
  (forall old, ca_map c !! id = Some old -> ct_revocation old = None) /\ insert_effect c cert id cert r c'.
Proof.
  intros Ei E. unfold certificate_cache_insert, crypto_result in E. rewrite Ei in E. run_cache E.
  assert ((let '(r, bs) := each_backend (acc_insert cert) (ca_backends c) in (r, Cache (<[id := cert]> (ca_map c)) bs)) = (r, c') ->
    insert_effect c cert id cert r c') as Hgo.
  { destruct (each_backend _ _) as [r1 bs]eqn:E1. intros [= <- <-]. by split. }
  destruct (ca_map c !! id) as [[? ? ? ? [rv|] ?]|]; [left|right..].
  - simplify_eq. by eexists.
  - split; [by intros ? [= <-]|by apply Hgo].
  - split; [done|by apply Hgo].
Qed.

Lemma certificate_cache_remove_effect c k r c' : certificate_cache_remove k c = (r, c') -> remove_effect c k r c'.
Proof. intros E. unfold certificate_cache_remove in E. remove_done E. Qed.

Lemma certificate_cache_find_effect c k r c' : certificate_cache_find k c = (r, c') -> find_effect c k r c'.
Proof.
  intros E. unfold certificate_cache_find in E. run_cache E. unfold find_effect. destruct (ca_map c !! k); [by simplify_eq|].
  destruct (first_backend (acc_find k) (ca_backends c)) as [[[v|]|e] bs]; simpl in E.
  - exists (Ok (Some v)). unfold crypto_result in E. destruct (ct_id v) as [i|e] eqn:Ei; simpl in E; simplify_eq; (split; [done|]).
    + intros Hf. apply fits_id in Hf. rewrite Hf in Ei. by simplify_eq.
    + intros Hf. apply fits_id in Hf. congruence.
  - simplify_eq. by exists (Ok None).
  - simplify_eq. by exists (Throw e).
Qed.

Lemma certificate_cache_effects : cache_effects certificate_cache.
Proof.
  split_and!; intros.
  - destruct (entry_id _ _ _ H0) as [Ei ->].
    destruct (certificate_cache_insert_effect _ _ _ _ _ Ei H1) as [(? & _ & _ & -> & ->)|[_ ?]]; [by right|by left].
  - by apply certificate_cache_remove_effect.
  - by apply certificate_cache_find_effect.
Qed.
End certificates.

Section public_keys.
Context `{!Access B public_key octets public_key, !AccessLaws B public_key octets public_key}.
Context (fits_id : forall k c, acc_fits (V:=public_key) (K:=octets) (B:=B) k c <-> pk_id c = k).
Context (entry_id : forall c k v, acc_entry (A:=public_key) (K:=octets) (B:=B) c = Some (k, v) -> pk_id c = k /\ v = c).

Lemma public_key_cache_effects : cache_effects public_key_cache.
Proof.
  split_and!.
  - intros c a k v r c' He E. left. destruct (entry_id _ _ _ He) as [<- ->]. cbn in E. unfold public_key_cache_insert in E. remove_done E.
  - intros c k r c' E. cbn in E. unfold public_key_cache_remove in E. remove_done E.
  - intros c k r c' E. cbn in E. unfold public_key_cache_find in E. run_cache E. unfold find_effect. destruct (ca_map c !! k); [by simplify_eq|].
    destruct (first_backend (acc_find k) (ca_backends c)) as [[[v|]|e] bs]; simpl in E; simplify_eq.
    + exists (Ok (Some v)). split; [done|]. intros Hf. apply fits_id in Hf. by subst.
    + by exists (Ok None).
    + by exists (Throw e).
Qed.
End public_keys.

Section octets_stores.
Context (acc : Access B (octets * octets) octets octets) (L : AccessLaws B (octets * octets) octets octets).
Context (entry_id : forall kd k v, acc_entry (A:=octets * octets) (B:=B) kd = Some (k, v) -> kd = (k, v)).

Lemma key_value_cache_find_effect c k r c' : key_value_cache_find k c = (r, c') -> find_effect (A:=octets * octets) c k r c'.
Proof.
  intros E. unfold key_value_cache_find in E. run_cache E. unfold find_effect. destruct (ca_map c !! k); [by simplify_eq|].
  destruct (first_backend (acc_find k) (ca_backends c)) as [[[v|]|e] bs]; simpl in E; simplify_eq.
  - by exists (Ok (Some v)).
  - by exists (Ok None).
  - by exists (Throw e).
Qed.

Lemma finds_agree k (c : cache octets B) : shared_secret_cache_find k c = key_value_cache_find k c.
Proof.
  unfold shared_secret_cache_find, key_value_cache_find, mbind, sexn_bind, get_st. simpl. destruct (ca_map c !! k); [done|].
  by destruct (find_backends _ c) as [[[v|]|e] c1].
Qed.

Lemma key_value_cache_effects : cache_effects (B:=B) (A:=octets * octets) key_value_cache.
Proof.
  split_and!.
  - intros c a k v r c' He E. left. pose proof (entry_id _ _ _ He) as ->. cbn in E. unfold key_value_cache_insert in E. remove_done E.
  - intros c k r c' E. cbn in E. unfold key_value_cache_erase in E. remove_done E.
  - intros c k r c' E. by apply key_value_cache_find_effect.
Qed.

Lemma shared_secret_cache_effects : cache_effects (B:=B) (A:=octets * octets) shared_secret_cache.
Proof.
  split_and!.
  - intros c a k v r c' He E. pose proof (entry_id _ _ _ He) as ->. cbn in E. unfold shared_secret_cache_insert in E.
    destruct (zlen k =? 0); [unfold throw in E; right; by simplify_eq|]. left. remove_done E.
  - intros c k r c' E. cbn in E. unfold shared_secret_cache_remove in E. remove_done E.
  - intros c k r c' E. cbn in E. rewrite finds_agree in E. by apply key_value_cache_find_effect.
Qed.
End octets_stores.
End instances.

(** ** Runs of calls *)

Inductive call (A : Type) : Type := CInsert (a : A) | CRemove (k : octets) | CFind (k : octets).
Arguments CInsert {A}.
Arguments CRemove {A}.
Arguments CFind {A}.

Section runs.
Context {B A V : Type} (acc : Access B A octets V).

(** One call: what [find] gave, or the exception. *)
Definition do_call (o : call A) : store B (option V) :=
  match o with
  | CInsert a => acc_insert a ;; mret None
  | CRemove k => acc_remove k ;; mret None
  | CFind k => acc_find k
  end.

(** A sequence of calls whose exceptions the callers catch. *)
Fixpoint do_calls (l : list (call A)) (s : B) : list (result store_exn (option V)) * B :=
  match l with
  | [] => ([], s)
  | o :: l => let '(r, s) := do_call o s in let '(rs, s) := do_calls l s in (r :: rs, s)
  end.
End runs.

(** The reference: a map. *)
Section reference.
Context {A V : Type} (entry : A -> option (octets * V)).

Definition map_call (o : call A) (m : octets -> option V) : option V * (octets -> option V) :=
  match o with
  | CInsert a =>
      (None, match entry a with Some (k, v) => fun k' => if decide (k' = k) then Some v else m k' | None => m end)
  | CRemove k => (None, fun k' => if decide (k' = k) then None else m k')
  | CFind k => (m k, m)
  end.

Fixpoint map_calls (l : list (call A)) (m : octets -> option V) : list (option V) * (octets -> option V) :=
  match l with
  | [] => ([], m)
  | o :: l => let '(r, m) := map_call o m in let '(rs, m) := map_calls l m in (r :: rs, m)
  end.

Definition call_ok (storable : A -> Prop) (key_ok : octets -> Prop) (o : call A) : Prop :=
  match o with CInsert a => storable a /\ is_Some (entry a) | CRemove k | CFind k => key_ok k end.
End reference.

Section refinement.
Context {B A V : Type} `{!Access B A octets V, L : !AccessLaws B A octets V}.
Context (acc : Access (cache V B) A octets V) (effects : cache_effects acc).

(** A run without exceptions answers as the map does, and all that the cache
    holds at the end is in the backends. *)
Lemma calls_refine l : forall c m rs c',
  cache_inv c -> coherent c -> (forall k, acc_key_ok k -> cache_content c k = m k) ->
  Forall (call_ok acc_entry acc_storable acc_key_ok) l -> do_calls acc l c = (rs, c') -> Forall (fun r => Prelude.is_ok r = true) rs ->
  rs = map Ok (map_calls acc_entry l m).1 /\
  (forall k, acc_key_ok k -> cache_content c' k = (map_calls acc_entry l m).2 k) /\
  (forall k, acc_key_ok k -> backends_content (ca_backends c') k = cache_content c' k).
Proof.
  destruct effects as (Fi & Fr & Ff).
  induction l as [|o l IH]; intros c m rs c' Hi Hc Hm Hl E Hr; simpl in E.
  - simplify_eq. split_and!; [done..|]. intros k Hk. by apply coherent_content.
  - apply Forall_cons in Hl as [Ho Hl]. destruct (do_call acc o c) as [r c1] eqn:E1.
    destruct (do_calls acc l c1) as [rs1 c2] eqn:E2. simplify_eq. apply Forall_cons in Hr as [Hr1 Hr].
    enough (exists x m1, map_call acc_entry o m = (x, m1) /\ r = Ok x /\ cache_inv c1 /\ coherent c1 /\
      (forall k, acc_key_ok k -> cache_content c1 k = m1 k)) as (x & m1 & Em & -> & Hi1 & Hc1 & Hm1).
    { cbn [map_calls]. rewrite Em. destruct (IH _ _ _ _ Hi1 Hc1 Hm1 Hl E2 Hr) as (-> & H2 & H3).
      by destruct (map_calls acc_entry l m1). }
    destruct o as [a|k|k]; simpl in E1, Ho.
    + destruct Ho as [Ha [[k v] He]]. unfold mbind, sexn_bind in E1. destruct (acc_insert a c) as [[[]|e] c3] eqn:Ei; [|by simplify_eq].
      unfold mret, sexn_ret in E1. simplify_eq. apply (Fi _ _ _ _ _ _ He) in Ei as [Ei|[_ ?]]; [|done].
      destruct (insert_effect_ok _ _ _ _ _ _ Hi Ha He Ei) as [Hi1 Hc1]. specialize (Hc1 eq_refl). do 2 eexists. split; [simpl; by rewrite He|].
      refine (conj _ (conj _ (conj _ _))); [done|done|by apply (insert_coherent c a k v)|]. intros k' Hk'. rewrite Hc1 by done. case_decide; [done|by apply Hm].
    + unfold mbind, sexn_bind in E1. destruct (acc_remove k c) as [[[]|e] c3] eqn:Ei; [|by simplify_eq].
      unfold mret, sexn_ret in E1. simplify_eq. apply Fr in Ei.
      destruct (remove_effect_ok _ _ _ _ Hi Ho Ei) as [Hi1 Hc1]. specialize (Hc1 eq_refl). do 2 eexists. split; [done|].
      refine (conj _ (conj _ (conj _ _))); [done|done|by apply (remove_coherent c k)|]. intros k' Hk'. rewrite Hc1 by done. case_decide; [done|by apply Hm].
    + apply Ff in E1. destruct (find_effect_ok _ _ _ _ Hi Ho E1) as (Hi1 & Hc1 & Hx). destruct r as [x|e]; [|done].
      do 2 eexists. split; [done|]. rewrite (Hx x eq_refl), Hm by done.
      refine (conj _ (conj _ (conj _ _))); [done|done|by apply (find_coherent c k (Ok x))|]. intros k' Hk'. rewrite Hc1 by done. by apply Hm.
Qed.
End refinement.

(** ** The stores of a server: caches over databases *)

Section deployment.
Context {T : Type} `{Primitives, !SqlTable T octets certificate_row, !SqlTableLaws T octets certificate_row}.

(** The rows of a table stand under the identifiers of their certificates. *)
Definition rows_under_their_id (t : T) : Prop :=
  forall k c, Forall is_octet k -> certificate_at t k = Some c -> ct_id c = Ok k.

Definition storable (c : certificate) : Prop :=
  codec_storable certificate_codec c /\ forall i, ct_id c = Ok i -> Forall is_octet i.

Lemma database_entry_id (c : certificate) k v : acc_entry (B:=T) c = Some (k, v) -> ct_id c = Ok k /\ v = c.
Proof. simpl. unfold certificate_entry. destruct (ct_id c); [intros E; by simplify_eq|done]. Qed.

Lemma database_cache_effects : cache_effects (B:=T) certificate_cache.
Proof. apply certificate_cache_effects; [done|apply database_entry_id]. Qed.

(** A certificate the map holds as revoked stays through every call but its
    removal. *)
Lemma calls_keep_revoked id r : Forall is_octet id -> ct_revocation r <> None ->
  forall l (c : cache certificate T) rs c', cache_inv c -> ca_map c !! id = Some r ->
  Forall (call_ok certificate_entry storable (Forall is_octet)) l -> (forall k, CRemove k ∈ l -> k <> id) ->
  do_calls certificate_cache l c = (rs, c') -> ca_map c' !! id = Some r.
Proof.
  intros Hid Hr. induction l as [|o l IH]; intros c rs c' Hi Hm Hl Hn E; simpl in E; [by simplify_eq|].
  apply Forall_cons in Hl as [Ho Hl]. destruct (do_call certificate_cache o c) as [r1 c1] eqn:E1.
  destruct (do_calls certificate_cache l c1) as [rs1 c2] eqn:E2. simplify_eq.
  enough (cache_inv c1 /\ ca_map c1 !! id = Some r) as [Hi1 Hm1].
  { eapply (IH c1); [done..|intros k Hk; apply Hn; by right|done]. }
  destruct o as [a|k|k]; simpl in E1, Ho.
  - destruct Ho as [Ha [[k v] He]]. unfold mbind, sexn_bind, mret, sexn_ret in E1. destruct (certificate_cache_insert a c) as [r3 c3] eqn:Ei.
    assert (c3 = c1) as -> by (by destruct r3; simplify_eq). destruct (database_entry_id a k v He) as [Ek ->].
    destruct (certificate_cache_insert_effect _ _ _ _ _ Ek Ei) as [(old & _ & _ & _ & ->)|[Hold Hef]]; [done|].
    split; [by eapply (insert_effect_ok (L:=certificate_database_laws) _ _ _ _ _ _ Hi Ha He Hef)|]. destruct Hef as [_ ->].
    destruct (decide (k = id)) as [->|Hk]; [by destruct Hr; apply Hold|by rewrite lookup_insert_ne].
  - unfold mbind, sexn_bind, mret, sexn_ret in E1. destruct (certificate_cache_remove k c) as [r3 c3] eqn:Ei.
    assert (c3 = c1) as -> by (by destruct r3; simplify_eq). apply certificate_cache_remove_effect in Ei.
    split; [by eapply (remove_effect_ok (L:=certificate_database_laws) _ _ _ _ Hi Ho Ei)|]. destruct Ei as [_ ->].
    rewrite lookup_delete_ne; [done|]. apply Hn. by left.
  - apply certificate_cache_find_effect in E1; [|done].
    destruct (find_effect_ok (L:=certificate_database_laws) _ _ _ _ Hi Ho E1) as [Hi1 _]. split; [done|].
    unfold find_effect in E1. destruct (ca_map c !! k) as [v|] eqn:Ek; [by destruct E1 as [_ ->]|].
    destruct E1 as (r2 & Ef & E1). destruct Hi as [Hb _].
    destruct (first_find (L:=certificate_database_laws) _ _ _ _ Hb Ho Ef) as (_ & _ & _ & Hx).
    destruct r2 as [[v|]|e]; [|by destruct E1 as [_ ->]..].
    destruct (E1 (backends_content_fits (L:=certificate_database_laws) _ k v Hb Ho (eq_sym (Hx _ eq_refl)))) as [_ ->].
    rewrite lookup_insert_ne; [done|congruence].
Qed.

(** A backend whose [insert] throws makes the loop throw. *)
Lemma each_backend_throws (f : store T unit) bs t :
  t ∈ bs -> (forall r t', f t = (r, t') -> Prelude.is_ok r = false) -> exists e bs', each_backend f bs = (Throw e, bs').
Proof.
  intros Hin Ht. induction bs as [|b bs IH]; [by apply elem_of_nil in Hin|]. simpl.
  destruct (f b) as [[u|e] b'] eqn:Eb; [|by do 2 eexists]. apply elem_of_cons in Hin as [->|Hin].
  - by specialize (Ht _ _ Eb).
  - destruct (IH Hin) as (e & bs' & ->). by do 2 eexists.
Qed.
End deployment.

(** A table kept in memory, which satisfies the laws. *)
Section memory_table.
Context {K R : Type} `{Countable K}.

#[export] Instance memory_table : SqlTable (gmap K R) K R := {|
  sql_select p t := Some (map_to_list (filter (fun kr => p kr.1 kr.2 = true) t)).*2;
  sql_replace k r t := Some (<[k := r]> t);
  sql_delete p t := Some (filter (fun kr => p kr.1 kr.2 = false) t) |}.

#[export] Program Instance memory_table_laws : SqlTableLaws (gmap K R) K R := {| sql_rows t := t |}.
Next Obligation. intros p t l [= <-]. done. Qed.
Next Obligation. intros k r t t' [= <-]. done. Qed.
Next Obligation. intros p t t' [= <-]. done. Qed.
End memory_table.

(** ** Properties *)

(** C28: the certificate store of a server is a map that lasts.  For a cache over
    databases whose rows stand under their identifiers, any sequence of inserts,
    removals and look-ups that meets no exception answers like a map keyed by
    the certificates' identifiers, starting from what the databases hold; and
    at the end the databases alone hold the same, so a restarted server finds
    what this one would. *)
Theorem certificate_store_refines_map {T} `{Primitives, !SqlTable T octets certificate_row, !SqlTableLaws T octets certificate_row}
  (dbs : list T) (l : list (call certificate)) rs c'
  (Hn : dbs <> []) (Hi : Forall rows_under_their_id dbs)
  (Hl : Forall (call_ok certificate_entry storable (Forall is_octet)) l)
  (E : do_calls certificate_cache l (Cache ∅ dbs) = (rs, c')) (Hr : Forall (fun r => Prelude.is_ok r = true) rs) :
  let m := map_calls certificate_entry l (backends_content dbs) in
  rs = map Ok m.1 /\
  forall k, Forall is_octet k -> cache_content c' k = m.2 k /\ cache_content (Cache ∅ (ca_backends c')) k = m.2 k.
Proof.
  intros m.
  assert (cache_inv (Cache (∅ : gmap octets certificate) dbs)) as Hci by (by split).
  assert (coherent (Cache (∅ : gmap octets certificate) dbs)) as Hco by (by split).
  destruct (calls_refine certificate_cache database_cache_effects l _ (backends_content dbs) rs c' Hci Hco
    (fun k _ => eq_refl) Hl E Hr) as (E1 & E2 & E3).
  split; [exact E1|]. intros k Hk. split; [exact (E2 k Hk)|exact (eq_trans (E3 k Hk) (E2 k Hk))].
Qed.

(** C29: a revocation a certificate cache has seen is not undone: once the map
    holds a certificate with its revocation, no insert, look-up or failure of a
    database replaces it; only the removal of that identifier does. *)
Theorem seen_revocation_stays {T} `{Primitives, !SqlTable T octets certificate_row, !SqlTableLaws T octets certificate_row}
  (id : octets) (r : certificate) (l : list (call certificate)) (c c' : cache certificate T) rs
  (Hid : Forall is_octet id) (Hr : ct_revocation r <> None) (Hm : ca_map c !! id = Some r) (Hi : cache_inv c)
  (Hl : Forall (call_ok certificate_entry storable (Forall is_octet)) l) (Hn : forall k, CRemove k ∈ l -> k <> id)
  (E : do_calls certificate_cache l c = (rs, c')) :
  (certificate_cache_find id c').1 = Ok (Some r) /\
  (forall cert, ct_id cert = Ok id -> certificate_cache_insert cert c' = (Throw invalid_operation_exn, c')).
Proof.
  pose proof (calls_keep_revoked id r Hid Hr l c rs c' Hi Hm Hl Hn E) as Hm'. split.
  - unfold certificate_cache_find, mbind, sexn_bind, get_st. by rewrite Hm'.
  - intros cert Ei. destruct (certificate_cache_insert cert c') as [x c2] eqn:E2.
    destruct (certificate_cache_insert_effect _ _ _ _ _ Ei E2) as [(old & _ & _ & -> & ->)|[Hold _]]; [done|].
    by destruct Hr; apply Hold.
Qed.

(** a revocation it has not seen is undone in memory: when the map does not
    hold an identifier that a database has as revoked, inserting a copy without
    the revocation throws, but the copy is in the map before the database is
    asked, so look-ups give the copy from then on. *)
Theorem unseen_revocation_lost {T} `{Primitives, !SqlTable T octets certificate_row, !SqlTableLaws T octets certificate_row}
  (c : cache certificate T) (t : T) (id : octets) (row : certificate_row) (cert : certificate)
  (Hin : t ∈ ca_backends c) (Hrow : sql_rows t !! to_hex id = Some row) (Hrev : cr_revoked row = 1)
  (Hcold : ca_map c !! id = None) (Hid : ct_id cert = Ok id) :
  exists e c', certificate_cache_insert cert c = (Throw e, c') /\ (certificate_cache_find id c').1 = Ok (Some cert).
Proof.
  destruct (each_backend_throws (acc_insert cert) (ca_backends c) t Hin) as (e & bs' & E).
  { intros r t' E. apply certificate_database_insert_inv in E. destruct r as [u|e]; [|done].
    destruct E as (id' & o & row' & Ei & _ & Hne & _). rewrite Hid in Ei. injection Ei as <-. by destruct (Hne row Hrow). }
  exists e, (Cache (<[id := cert]> (ca_map c)) bs'). split.
  - unfold certificate_cache_insert, crypto_result, mbind, sexn_bind, get_st, set_map, for_backends. simpl. rewrite Hid. simpl.
    rewrite Hcold. simpl. simpl in E. by rewrite E.
  - unfold certificate_cache_find, mbind, sexn_bind, get_st. simpl. by rewrite lookup_insert_eq.
Qed.

(** the settings of a selector are a map that lasts: a settings cache over
    databases answers a run without exceptions like a map and leaves it all in
    the databases, as long as no value is empty (an empty blob reads back as no
    value, see [empty_setting_forgotten]). *)
Theorem settings_refine_map {T} `{!SqlTable T (octets * Z) octets, !SqlTableLaws T (octets * Z) octets}
  (selector : Z) (dbs : list T) (l : list (call (octets * octets))) rs c'
  (Hn : dbs <> []) (Hl : Forall (call_ok Some (fun kd => snd kd <> []) (fun _ => True)) l)
  (E : do_calls (@key_value_cache T (key_value_database selector)) l (Cache ∅ dbs) = (rs, c'))
  (Hr : Forall (fun r => Prelude.is_ok r = true) rs) :
  let content bs := @backends_content T _ _ _ (key_value_database_laws selector) bs in
  let m := map_calls Some l (content dbs) in
  rs = map Ok m.1 /\ forall k, content (ca_backends c') k = m.2 k.
Proof.
  intros content m.
  pose proof (key_value_cache_effects (key_value_database selector) (key_value_database_laws selector)
    ltac:(by intros kd k v [= ->])) as Hf.
  assert (@cache_inv T _ _ _ (key_value_database_laws selector) (Cache ∅ dbs)) as Hci.
  { split; [|done]. clear. induction dbs; by constructor. }
  assert (@coherent T _ _ _ (key_value_database_laws selector) (Cache ∅ dbs)) as Hco by (by split).
  destruct (@calls_refine T _ _ _ (key_value_database_laws selector) key_value_cache Hf l _ (content dbs) rs c' Hci Hco
    (fun k _ => eq_refl) Hl E Hr) as (E1 & E2 & E3).
  split; [exact E1|]. intros k. exact (eq_trans (E3 k I) (E2 k I)).
Qed.

(** ** The properties at work *)

Module CacheSample.
#[local] Existing Instance demo.

Abbreviation table := (gmap octets certificate_row).

Definition plain : certificate := new_certificate 0 [1; 2].
Definition revoked : certificate := set_revocation (Revocation 1 [9] (Signature 2 [] []) []) plain.
Definition plain_id : octets := match ct_id plain with Ok i => i | Throw _ => [] end.

Definition calls : list (call certificate) := [CFind plain_id; CInsert revoked; CFind plain_id; CInsert plain].

(** Closes the well-formedness of a closed value. *)
Ltac wf_ground := cbn; split_and!; first [exact I | by left | vm_compute; discriminate | vm_compute; reflexivity].

Lemma plain_id_octets : Forall is_octet plain_id.
Proof. apply (bool_decide_unpack _). vm_compute. exact I. Qed.

Lemma plain_storable : storable plain.
Proof.
  split; [split; [wf_ground|vm_compute; discriminate]|]. intros i Hi.
  assert (i = plain_id) as -> by (unfold plain_id; by rewrite Hi). exact plain_id_octets.
Qed.

Lemma revoked_storable : storable revoked.
Proof.
  split; [split; [wf_ground|vm_compute; discriminate]|]. intros i Hi. change (ct_id plain = Ok i) in Hi.
  assert (i = plain_id) as -> by (unfold plain_id; by rewrite Hi). exact plain_id_octets.
Qed.

(** The database of a server that was restarted after a revocation. *)
Definition with_revoked : table := match (certificate_database_insert revoked ∅).2 with t => t end.

Definition sample_database : Access table certificate octets certificate := certificate_database.
Definition sample_store : Access (cache certificate table) certificate octets certificate := certificate_cache.
Definition no_rows : table := ∅.

(** Before the restart the revocation holds; after it, inserting the old copy
    makes the store answer that the certificate is not revoked. *)
Example restart_forgets :
  let c := (do_calls certificate_cache [CInsert plain; CFind plain_id] (Cache ∅ [with_revoked])) in
  c.1 = [Throw invalid_operation_exn; Ok (Some plain)].
Proof. vm_compute. reflexivity. Qed.

(** Settings: an empty value is found until the restart only. *)
Example empty_setting_forgotten :
  let store := @key_value_cache _ (key_value_database 0) in
  let '(r, c) := do_calls store [CInsert ([107], []); CFind [107]] (Cache ∅ [∅ : gmap (octets * Z) octets]) in
  r = [Ok None; Ok (Some [])] /\ (do_calls store [CFind [107]] (Cache ∅ (ca_backends c))).1 = [Ok None].
Proof. vm_compute. split; reflexivity. Qed.
End CacheSample.

Import CacheSample.

Lemma certificate_store_refines_map_witness :
  (do_calls sample_store [CInsert revoked; CFind plain_id] (Cache ∅ [no_rows])).1 =
  map Ok (map_calls (@certificate_entry demo) [CInsert revoked; CFind plain_id]
    (@backends_content table certificate certificate sample_database (@certificate_database_laws table demo memory_table memory_table_laws) [no_rows])).1.
Proof.
  refine (proj1 (@certificate_store_refines_map table demo memory_table memory_table_laws [no_rows] [CInsert revoked; CFind plain_id] _ _ _ _ _ (surjective_pairing _) _)).
  - discriminate.
  - constructor; [intros k c _; discriminate|constructor].
  - constructor; [split; [exact revoked_storable|exists (plain_id, revoked); vm_compute; reflexivity]|constructor; [exact plain_id_octets|constructor]].
  - vm_compute. repeat constructor.
Defined.

Lemma seen_revocation_stays_witness :
  (@certificate_cache_find table demo sample_database plain_id
    (do_calls sample_store [CInsert plain; CFind plain_id] (Cache {[plain_id := revoked]} [no_rows])).2).1 =
  Ok (Some revoked).
Proof.
  refine (proj1 (@seen_revocation_stays table demo memory_table memory_table_laws plain_id revoked [CInsert plain; CFind plain_id] _ _ _ _ _ _ _ _ _ (surjective_pairing _))).
  - exact plain_id_octets.
  - discriminate.
  - vm_compute. reflexivity.
  - split; [constructor; [intros k c _; discriminate|constructor]|]. intros k v _.
    cbn [ca_map]. rewrite lookup_singleton_Some. intros [<- <-]. vm_compute. reflexivity.
  - constructor; [split; [exact plain_storable|exists (plain_id, plain); vm_compute; reflexivity]|constructor; [exact plain_id_octets|constructor]].
  - intros k. rewrite !elem_of_cons, elem_of_nil. naive_solver.
Defined.

Lemma unseen_revocation_lost_witness :
  exists e c', @certificate_cache_insert table demo sample_database plain (Cache ∅ [with_revoked]) = (Throw e, c') /\
    (@certificate_cache_find table demo sample_database plain_id c').1 = Ok (Some plain).
Proof.
  apply (@unseen_revocation_lost table demo memory_table memory_table_laws (Cache ∅ [with_revoked]) with_revoked plain_id
    (match with_revoked !! to_hex plain_id with Some row => row | None => CertificateRow [] None 0 end) plain).
  - by left.
  - vm_compute. reflexivity.
  - vm_compute. reflexivity.
  - reflexivity.
  - vm_compute. reflexivity.
Defined.

Lemma settings_refine_map_witness :
  (do_calls (@key_value_cache _ (key_value_database 7)) [CInsert ([1], [2]); CFind [1]; CRemove [1]; CFind [1]]
    (Cache ∅ [∅ : gmap (octets * Z) octets])).1 = map Ok [None; Some [2]; None; None].
Proof.
  refine (proj1 (settings_refine_map 7 [∅] [CInsert ([1], [2]); CFind [1]; CRemove [1]; CFind [1]] _ _ _ _ (surjective_pairing _) _)).
  - discriminate.
  - repeat constructor; try discriminate; by eexists.
  - vm_compute. repeat constructor.
Defined.
