(* ===== verification/KeyService.v ===== *)
(** The key service: [key_server/server_lib/{key_store,key_server_connection}.cpp]
    and [key_client/key_client.cpp], with the links between them.

    Many clients call one server.  A step of the world is what one thread does
    between two points where another may run: one of the two halves of an
    [async_] call (the promise is put away under the mutex, the request is sent
    after it), a handler of a received message, one part of [fail_all]; at the
    server a handler, where [register_key] looks and inserts in two calls of the
    key store.  Connections of the server run on different threads, so the steps
    of two registrations may alternate.  A link delivers in order until one end
    is closed or lost.  What travels are the values that [KeyProtocol] carries;
    the connections are those of [Connection.v] with an anonymous client. *)

From stdpp Require Import base list numbers strings gmap.
From Stdlib Require Import ZArith Lia.
From S2P Require Import Prelude Errors Crypto Stores KeyProtocol.
Open Scope Z_scope.

(** ** The key store *)

(** What a call of the store throws: an error of its own, or what the stores
    behind it threw. *)
Inductive key_exn : Type :=
| Rejected (msg : octets)            (** [invalid_public_key] with this text *)
| Failed (e : store_exn).

Definition crypto_errc_value (e : crypto_errc) : Z :=
  match e with
  | no_such_root_key => 1 | no_such_key => 2 | invalid_certificate_chain => 3 | invalid_certificate_chain_ca_level => 4
  | invalid_data => 5 | invalid_operation => 6 | invalid_public_key => 7 | invalid_certificate => 8
  | signature_not_authentic => 9
  end.

Definition crypto_error (e : crypto_errc) (msg : octets) : error :=
  make_error (ErrorCode (crypto_errc_value e) crypto_category) msg.

(** A call of a store behind the key store. *)
Definition on_store {B A} (m : store B A) : sexn B key_exn A := fun b =>
  match m b with (Ok a, b') => (Ok a, b') | (Throw e, b') => (Throw (Failed e), b') end.

Section key_store.
Context {B C : Type} `{Primitives}.
Context `{!Access B public_key octets public_key, !Access C certificate octets certificate}.

(** [register_key] up to the insertion, and the insertion. *)
Definition register_check (key : public_key) : sexn B key_exn unit :=
  ok ← on_store (crypto_result (pk_verify_me key));
  if negb ok then throw (Rejected (literal "public key is not self-authentic"))
  else
    found ← on_store (acc_find (pk_id key));
    match found with
    | Some _ => throw (Rejected (literal "public key already registered"))
    | None => mret tt
    end.

Definition register_insert (key : public_key) : sexn B key_exn unit := on_store (acc_insert key).

Definition register_key (key : public_key) : sexn B key_exn unit := register_check key ;; register_insert key.

Definition find_key (kid : octets) : sexn B key_exn (option public_key) := on_store (acc_find kid).

Definition find_certificate (cid : octets) : sexn C key_exn (option certificate) := on_store (acc_find cid).
End key_store.

(** ** Calls and answers *)

Inductive request : Type :=
| RegisterKey (key : public_key)
| FindKey (kid : octets)
| FindCertificate (cid : octets).

(** How a future completes. *)
Inductive outcome : Type :=
| Registered
| KeyFound (key : option public_key)
| CertificateFound (cert : option certificate)
| CallFailed (e : error).

(** The client keeps a map of promises for each kind of call. *)
Inductive kind : Type := register_pending | find_key_pending | find_cert_pending.

#[export] Instance kind_eq_dec : EqDecision kind.
Proof. solve_decision. Defined.

Definition kind_of (r : request) : kind :=
  match r with RegisterKey _ => register_pending | FindKey _ => find_key_pending | FindCertificate _ => find_cert_pending end.

Definition request_message (id : Z) (r : request) : message :=
  match r with
  | RegisterKey key => register_key_request id key
  | FindKey kid => find_key_request id kid
  | FindCertificate cid => find_certificate_request id cid
  end.

(** What the client's visitor makes of an answer: whose promise it completes,
    and how. *)
Definition answer (m : message) : option (kind * Z * outcome) :=
  match m with
  | register_key_response id e =>
      Some (register_pending, id, if is_net_error e then CallFailed (client_error e) else Registered)
  | find_key_response id key e =>
      Some (find_key_pending, id, if is_net_error e then CallFailed (client_error e) else KeyFound key)
  | find_certificate_response id cert e =>
      Some (find_cert_pending, id, if is_net_error e then CallFailed (client_error e) else CertificateFound cert)
  | _ => None
  end.

(** ** The world *)

(** A link: the messages on their way in both directions, and the registration
    the server's handler is in the middle of.  [ln_open] until the server's end
    is closed, [ln_live] while the client's end is. *)
Record link : Type := Link {
  ln_client : nat;
  ln_up : list message;
  ln_down : list message;
  ln_task : option (Z * public_key);
  ln_open : bool;
  ln_live : bool
}.

(** The connection of a client with its queue of messages not yet sent.
    [Failing]: [on_disconnected] runs; the kinds whose promises it has not taken
    yet, the promises it has. *)
Inductive conn : Type :=
| NotConnected (queue : list message)
| Connecting (queue : list message)
| Connected (l : nat)
| Failing (kinds : list kind) (taken : list nat) (e : error)
| Closed.

(** A promise is the number of its call. *)
Record client : Type := Client {
  cl_next_id : Z;
  cl_pending : kind -> gmap Z nat;
  cl_calling : list (nat * message);
  cl_conn : conn
}.

Definition new_client : client := Client 0 (fun _ => ∅) [] (NotConnected []).

(** For the record: a call was made (its request has this id), its request was
    given to a connection that is over, the server's handler of a request gave an
    answer, a future completed; a client's connection was closed by its owner or
    lost. *)
Inductive event : Type :=
| Called (c n : nat) (id : Z) (r : request)
| Unsent (c n : nat)
| Served (c : nat) (id : Z) (r : request) (answer : message)
| Done (c n : nat) (o : outcome)
| CloseCalled (c : nat)
| Lost (c : nat) (e : error).

Record world (B C : Type) : Type := World {
  w_keys : B;
  w_certs : C;
  w_links : gmap nat link;
  w_clients : gmap nat client;
  w_calls : nat;
  w_log : list event
}.
Arguments World {B C}. Arguments w_keys {B C}. Arguments w_certs {B C}. Arguments w_links {B C}.
Arguments w_clients {B C}. Arguments w_calls {B C}. Arguments w_log {B C}.

Section steps.
Context {B C : Type} `{Primitives} `{ForeignCategories}.
Context `{!Access B public_key octets public_key, !Access C certificate octets certificate}.

(** The text of an exception that is not a [securepath::error]. *)
Context (what : store_exn -> octets).

#[local] Abbreviation world := (world B C).

Definition start_world (keys : B) (certs : C) : world := World keys certs ∅ ∅ 0 [].

Definition client_of (c : nat) (w : world) : client := default new_client (w_clients w !! c).
Definition put_client (c : nat) (x : client) (w : world) : world :=
  World (w_keys w) (w_certs w) (w_links w) (<[c := x]> (w_clients w)) (w_calls w) (w_log w).
Definition put_link (l : nat) (x : link) (w : world) : world :=
  World (w_keys w) (w_certs w) (<[l := x]> (w_links w)) (w_clients w) (w_calls w) (w_log w).
Definition put_keys (k : B) (w : world) : world :=
  World k (w_certs w) (w_links w) (w_clients w) (w_calls w) (w_log w).
Definition put_certs (k : C) (w : world) : world :=
  World (w_keys w) k (w_links w) (w_clients w) (w_calls w) (w_log w).
Definition note (e : event) (w : world) : world :=
  World (w_keys w) (w_certs w) (w_links w) (w_clients w) (w_calls w) (w_log w ++ [e]).

(** ** The server's connection *)

(** [catch(securepath::error const&)] *)
Definition caught (e : key_exn) : option error :=
  match e with
  | Rejected msg => Some (crypto_error invalid_public_key msg)
  | Failed (CryptoExn (Error c)) => Some (crypto_error c [])
  | Failed _ => None
  end.

(** The handler of [register_key_request] catches everything. *)
Definition register_error (e : key_exn) : error :=
  match caught e, e with
  | Some err, _ => err
  | None, Failed s => make_error unknown_error (what s)
  | None, Rejected msg => crypto_error invalid_public_key msg
  end.

Definition set_up (v : list message) (x : link) : link := Link (ln_client x) v (ln_down x) (ln_task x) (ln_open x) (ln_live x).
Definition set_down (v : list message) (x : link) : link := Link (ln_client x) (ln_up x) v (ln_task x) (ln_open x) (ln_live x).
Definition set_task (v : option (Z * public_key)) (x : link) : link :=
  Link (ln_client x) (ln_up x) (ln_down x) v (ln_open x) (ln_live x).

(** [close] of the server's end: nothing is received or sent any more. *)
Definition shut (x : link) : link := Link (ln_client x) [] (ln_down x) (ln_task x) false (ln_live x).

(** [send_response] *)
Definition respond (l : nat) (x : link) (id : Z) (r : request) (m : message) (w : world) : world :=
  note (Served (ln_client x) id r m)
    (put_link l (if ln_open x && ln_live x then set_down (ln_down x ++ [m]) x else x) w).

Definition answer_find {A} (l : nat) (x : link) (id : Z) (r : request) (found : option A -> net_error -> message)
  (res : result key_exn (option A)) (w : world) : world :=
  match res with
  | Ok v => respond l x id r (found v no_net_error) w
  | Throw e =>
      match caught e with
      | Some err => respond l x id r (found None (net_error_of err)) w
      | None => put_link l (shut x) w       (** [on_received] closes *)
      end
  end.

(** [operator()] for the message that arrived. *)
Definition server_handle (l : nat) (x : link) (m : message) (w : world) : world :=
  match m with
  | register_key_request id key =>
      match register_check key (w_keys w) with
      | (Ok _, k) => put_link l (set_task (Some (id, key)) x) (put_keys k w)
      | (Throw e, k) =>
          respond l x id (RegisterKey key) (register_key_response id (net_error_of (register_error e))) (put_keys k w)
      end
  | find_key_request id kid =>
      let '(res, k) := find_key kid (w_keys w) in
      answer_find l x id (FindKey kid) (find_key_response id) res (put_keys k w)
  | find_certificate_request id cid =>
      let '(res, k) := find_certificate cid (w_certs w) in
      answer_find l x id (FindCertificate cid) (find_certificate_response id) res (put_certs k w)
  | _ => put_link l (shut x) w
  end.

Definition server_receive (l : nat) (w : world) : option world :=
  match w_links w !! l with
  | Some x =>
      match ln_open x, ln_task x, ln_up x with
      | true, None, m :: rest => Some (server_handle l (set_up rest x) m w)
      | _, _, _ => None
      end
  | None => None
  end.

(** The rest of the handler of [register_key_request]. *)
Definition server_task (l : nat) (w : world) : option world :=
  match w_links w !! l with
  | Some x =>
      match ln_task x with
      | Some (id, key) =>
          let '(res, k) := register_insert key (w_keys w) in
          let e := match res with Ok _ => no_net_error | Throw e => net_error_of (register_error e) end in
          Some (respond l (set_task None x) id (RegisterKey key) (register_key_response id e) (put_keys k w))
      | None => None
      end
  | None => None
  end.

(** ** The client *)

Definition set_conn (v : conn) (x : client) : client := Client (cl_next_id x) (cl_pending x) (cl_calling x) v.
Definition set_pending (k : kind) (m : gmap Z nat) (x : client) : client :=
  Client (cl_next_id x) (fun k' => if decide (k' = k) then m else cl_pending x k') (cl_calling x) (cl_conn x).
Definition set_calling (v : list (nat * message)) (x : client) : client :=
  Client (cl_next_id x) (cl_pending x) v (cl_conn x).

Definition next_id (x : client) : Z := wrap 32 (cl_next_id x + 1).

(** [std::map::emplace]: an entry that exists stays. *)
Definition emplace (id : Z) (n : nat) (m : gmap Z nat) : gmap Z nat :=
  match m !! id with Some _ => m | None => <[id := n]> m end.

(** [async_register_key], [async_find_key], [async_find_certificate]: the id is
    taken and the promise kept under the mutex. *)
Definition call (c : nat) (r : request) (w : world) : world :=
  let x := client_of c w in
  let id := next_id x in
  let n := w_calls w in
  let m := emplace id n (cl_pending x (kind_of r)) in
  let x' := Client id (cl_pending x) (cl_calling x ++ [(n, request_message id r)]) (cl_conn x) in
  let w' := note (Called c n id r) (put_client c (set_pending (kind_of r) m x') w) in
  World (w_keys w') (w_certs w') (w_links w') (w_clients w') (S n) (w_log w').

(** [send_request]: [encrypted_connection::send]. *)
Definition send_request (c : nat) (i : nat) (w : world) : option world :=
  let x := client_of c w in
  match cl_calling x !! i with
  | Some (n, m) =>
      let x := set_calling (delete i (cl_calling x)) x in
      match cl_conn x with
      | NotConnected q => Some (put_client c (set_conn (NotConnected (q ++ [m])) x) w)
      | Connecting q => Some (put_client c (set_conn (Connecting (q ++ [m])) x) w)
      | Connected l =>
          match w_links w !! l with
          | Some y => Some (put_link l (if ln_open y then set_up (ln_up y ++ [m]) y else y) (put_client c x w))
          | None => None
          end
      | Failing _ _ _ | Closed => Some (note (Unsent c n) (put_client c x w))
      end
  | None => None
  end.

(** [client::connect]; a connection that is not fresh throws. *)
Definition connect (c : nat) (w : world) : world :=
  let x := client_of c w in
  match cl_conn x with
  | NotConnected q => put_client c (set_conn (Connecting q) x) w
  | Closed => put_client c (set_conn (Connecting []) x) w
  | Connecting _ | Connected _ | Failing _ _ _ => w
  end.

(** The connection is up: the queue goes out. *)
Definition become_connected (c l : nat) (w : world) : option world :=
  let x := client_of c w in
  match cl_conn x, w_links w !! l with
  | Connecting q, None =>
      Some (put_link l (Link c q [] None true true) (put_client c (set_conn (Connected l) x) w))
  | _, _ => None
  end.

(** The client's end of its link, if any, is over. *)
Definition drop_link (x : client) (w : world) : world :=
  match cl_conn x with
  | Connected l =>
      match w_links w !! l with
      | Some y => put_link l (Link (ln_client y) (ln_up y) [] (ln_task y) (ln_open y) false) w
      | None => w
      end
  | _ => w
  end.

Definition all_kinds : list kind := [register_pending; find_key_pending; find_cert_pending].

(** [make_error(errc::connection_closed)] of the network library *)
Definition connection_closed_error : error := make_error (ErrorCode 2 network_category) [].

(** [on_disconnected] begins: [fail_all]. *)
Definition disconnected (c : nat) (e : error) (w : world) : option world :=
  let x := client_of c w in
  match cl_conn x with
  | Connecting _ | Connected _ =>
      Some (note (Lost c e) (drop_link x
        (put_client c (set_conn (Failing all_kinds [] (if is_error e then e else connection_closed_error)) x) w)))
  | _ => None
  end.

(** One part of [fail_all]: [take_all] of a map, or [set_exception] of a promise
    taken; in the end the connection counts as closed. *)
Definition fail_step (c : nat) (w : world) : option world :=
  let x := client_of c w in
  match cl_conn x with
  | Failing (k :: ks) taken e =>
      Some (put_client c (set_conn (Failing ks (taken ++ (map_to_list (cl_pending x k)).*2) e) (set_pending k ∅ x)) w)
  | Failing [] (n :: taken) e => Some (note (Done c n (CallFailed e)) (put_client c (set_conn (Failing [] taken e) x) w))
  | Failing [] [] e => Some (put_client c (set_conn Closed x) w)
  | _ => None
  end.

(** [client::close]: the callbacks are let go first, so [on_disconnected] does
    not run. *)
Definition close (c : nat) (w : world) : world :=
  let x := client_of c w in
  match cl_conn x with
  | NotConnected _ | Connecting _ | Connected _ =>
      note (CloseCalled c) (drop_link x (put_client c (set_conn Closed x) w))
  | Failing _ _ _ | Closed => w
  end.

(** [take], and the promise is completed. *)
Definition complete (c : nat) (k : kind) (id : Z) (o : outcome) (w : world) : world :=
  let x := client_of c w in
  match cl_pending x k !! id with
  | Some n => note (Done c n o) (put_client c (set_pending k (delete id (cl_pending x k)) x) w)
  | None => w
  end.

Definition client_handle (c : nat) (m : message) (w : world) : world :=
  match answer m with Some (k, id, o) => complete c k id o w | None => w end.

Definition client_receive (c : nat) (w : world) : option world :=
  match cl_conn (client_of c w) with
  | Connected l =>
      match w_links w !! l with
      | Some y => match ln_down y with
                  | m :: rest => Some (client_handle c m (put_link l (set_down rest y) w))
                  | [] => None
                  end
      | None => None
      end
  | _ => None
  end.

(** ** Steps *)

Inductive label : Type :=
| LCall (c : nat) (r : request)
| LSend (c i : nat)
| LConnect (c : nat)
| LUp (c l : nat)
| LLost (c : nat) (e : error)
| LFail (c : nat)
| LClose (c : nat)
| LReceive (c : nat)
| LServe (l : nat)
| LTask (l : nat)
| LShut (l : nat).                 (** the server's end is closed or lost *)

Definition step (a : label) (w : world) : option world :=
  match a with
  | LCall c r => Some (call c r w)
  | LSend c i => send_request c i w
  | LConnect c => Some (connect c w)
  | LUp c l => become_connected c l w
  | LLost c e => disconnected c e w
  | LFail c => fail_step c w
  | LClose c => Some (close c w)
  | LReceive c => client_receive c w
  | LServe l => server_receive l w
  | LTask l => server_task l w
  | LShut l => match w_links w !! l with Some x => Some (put_link l (shut x) w) | None => None end
  end.

Fixpoint run (ls : list label) (w : world) : option world :=
  match ls with
  | [] => Some w
  | a :: ls => match step a w with Some w => run ls w | None => None end
  end.
End steps.
