(* ===== verification/KeyServiceSafety.v ===== *)
(** What the key service promises the callers of its client: an answer belongs
    to its request, a call completes once, a quiet connection leaves no call
    open, a lost one none, and the keys found are the keys registered. *)

From stdpp Require Import base list numbers strings gmap.
From Stdlib Require Import ZArith Lia.
From S2P Require Import Prelude Errors Crypto Stores Caches KeyProtocol KeyService.
Open Scope Z_scope.

(** ** The record of a run *)

Definition done_call (e : event) : option nat := match e with Done _ n _ => Some n | _ => None end.
Definition dones (log : list event) : list nat := omap done_call log.

(** One event, then another. *)
Definition before (x y : event) (log : list event) : Prop := exists l1 l2 l3, log = l1 ++ x :: l2 ++ y :: l3.

Lemma dones_app l l' : dones (l ++ l') = dones l ++ dones l'.
Proof. apply omap_app. Qed.

Lemma dones_in log n : n ∈ dones log <-> exists c o, Done c n o ∈ log.
Proof.
  unfold dones. rewrite list_elem_of_omap. split.
  - intros (e & He & Hn). destruct e; simplify_eq/=. eauto.
  - intros (c & o & H). by exists (Done c n o).
Qed.

Lemma before_app x y log log' : before x y log -> before x y (log ++ log').
Proof. intros (l1 & l2 & l3 & ->). exists l1, l2, (l3 ++ log'). by rewrite <- !app_assoc, !app_comm_cons, <- !app_assoc. Qed.

Lemma before_last x y log : x ∈ log -> before x y (log ++ [y]).
Proof. intros (l1 & l2 & ->)%list_elem_of_split. exists l1, l2, []. by rewrite <- app_assoc. Qed.

Lemma before_in x y log : before x y log -> x ∈ log /\ y ∈ log.
Proof. intros (l1 & l2 & l3 & ->). split; set_solver. Qed.

(** An event that is neither a call nor the end of one. *)
Definition quiet (e : event) : Prop := match e with Called _ _ _ _ | Done _ _ _ => False | _ => True end.

Lemma quiet_called e log c n id r : quiet e -> Called c n id r ∈ log ++ [e] <-> Called c n id r ∈ log.
Proof.
  intros Hq. rewrite elem_of_app, list_elem_of_singleton. split; [intros [?|<-]; [done|by destruct Hq]|by left].
Qed.

Lemma quiet_dones e log : quiet e -> dones (log ++ [e]) = dones log.
Proof. intros Hq. rewrite dones_app. destruct e; try done; by rewrite app_nil_r. Qed.

Lemma answer_request id r : answer (request_message id r) = None.
Proof. by destruct r. Qed.

(** ** The invariant *)

Definition queue_of (k : conn) : list message := match k with NotConnected q | Connecting q => q | _ => [] end.
Definition taken_of (k : conn) : list nat := match k with Failing _ taken _ => taken | _ => [] end.
Definition kinds_of (k : conn) : list kind := match k with Failing ks _ _ => ks | _ => [] end.

(** The error [on_disconnected] gives the promises. *)
Definition fail_error (e : error) : error := if is_error e then e else connection_closed_error.

(** A message that is the request of a call of [c]. *)
Definition requested (log : list event) (c : nat) (m : message) : Prop :=
  exists n id r, Called c n id r ∈ log /\ m = request_message id r.

(** An answer the server gave to a request of [c]. *)
Definition served (log : list event) (c : nat) (m : message) : Prop :=
  exists n id r o, before (Called c n id r) (Served c id r m) log /\ answer m = Some (kind_of r, id, o).

(** The client still has the promise of call [n]. *)
Definition holds (x : client) (n : nat) : Prop :=
  (exists k id, cl_pending x k !! id = Some n) \/ n ∈ taken_of (cl_conn x).

Record client_ok (log : list event) (c : nat) (x : client) : Prop := {
  k_next : 0 <= cl_next_id x;
  k_id n id r : Called c n id r ∈ log -> 0 < id <= cl_next_id x;
  k_pending k id n : cl_pending x k !! id = Some n -> exists r, Called c n id r ∈ log /\ kind_of r = k;
  k_taken n : n ∈ taken_of (cl_conn x) -> (exists id r, Called c n id r ∈ log) /\ forall k id, cl_pending x k !! id <> Some n;
  k_taken_once : NoDup (taken_of (cl_conn x));
  k_held n : holds x n -> n ∉ dones log;
  k_lost ks taken e : cl_conn x = Failing ks taken e -> exists e0, Lost c e0 ∈ log /\ e = fail_error e0;
  k_calling n m : (n, m) ∈ cl_calling x -> exists id r, Called c n id r ∈ log /\ m = request_message id r;
  k_queue m : m ∈ queue_of (cl_conn x) -> requested log c m;
  k_kept n id r : Called c n id r ∈ log ->
    n ∈ dones log \/ cl_pending x (kind_of r) !! id = Some n \/ n ∈ taken_of (cl_conn x)
}.

Record link_ok (log : list event) (y : link) : Prop := {
  l_up m : m ∈ ln_up y -> requested log (ln_client y) m;
  l_down m : m ∈ ln_down y -> served log (ln_client y) m;
  l_task id key : ln_task y = Some (id, key) -> requested log (ln_client y) (register_key_request id key)
}.

(** Call numbers and ids are given once. *)
Record calls_ok (calls : nat) (log : list event) : Prop := {
  n_called c n id r : Called c n id r ∈ log -> (n < calls)%nat;
  n_once c n id r c' id' r' : Called c n id r ∈ log -> Called c' n id' r' ∈ log -> c = c' /\ id = id' /\ r = r';
  n_id c n id r n' r' : Called c n id r ∈ log -> Called c n' id r' ∈ log -> n = n'
}.

(** Why call [n] completed with [o]: the server answered its request after it
    was made, or the connection was lost. *)
Definition explained (log : list event) (c n : nat) (o : outcome) : Prop :=
  exists id r, Called c n id r ∈ log /\
    ((exists m, before (Called c n id r) (Served c id r m) log /\ answer m = Some (kind_of r, id, o)) \/
     (exists e, Lost c e ∈ log /\ o = CallFailed (fail_error e))).

Definition done_ok (log : list event) : Prop :=
  NoDup (dones log) /\ forall l1 l2 c n o, log = l1 ++ Done c n o :: l2 -> explained l1 c n o.

(** ** How the record grows *)

Lemma requested_app log log' c m : requested log c m -> requested (log ++ log') c m.
Proof. intros (n & id & r & Hc & ->). exists n, id, r. split; [by apply elem_of_app; left|done]. Qed.

Lemma served_app log log' c m : served log c m -> served (log ++ log') c m.
Proof. intros (n & id & r & o & Hb & Ha). exists n, id, r, o. split; [by apply before_app|done]. Qed.

Lemma link_ok_app log log' y : link_ok log y -> link_ok (log ++ log') y.
Proof. intros [Hu Hd Ht]. constructor; eauto using requested_app, served_app. Qed.

Lemma client_ok_quiet log c x e : quiet e -> client_ok log c x -> client_ok (log ++ [e]) c x.
Proof.
  intros Hq []. constructor; rewrite ?quiet_dones by done; auto.
  - intros n id r. rewrite quiet_called by done. apply k_id0.
  - intros k id n Hn. destruct (k_pending0 k id n Hn) as (r & Hr). exists r. by rewrite quiet_called.
  - intros n Hn. destruct (k_taken0 n Hn) as [(id & r & Hr) Hp]. split; [|done]. exists id, r. by rewrite quiet_called.
  - intros ks taken e0 He. destruct (k_lost0 _ _ _ He) as (e1 & H1 & ->). exists e1. split; [|done]. rewrite elem_of_app. by left.
  - intros n m Hn. destruct (k_calling0 n m Hn) as (id & r & Hr). exists id, r. by rewrite quiet_called.
  - intros m Hm. by apply requested_app, k_queue0.
  - intros n id r. rewrite quiet_called by done. apply k_kept0.
Qed.

Lemma calls_ok_quiet calls log e : quiet e -> calls_ok calls log -> calls_ok calls (log ++ [e]).
Proof.
  intros Hq []. constructor; intros *; rewrite !quiet_called by done; eauto.
Qed.

Lemma done_ok_other log e : done_call e = None -> done_ok log -> done_ok (log ++ [e]).
Proof.
  intros He [Hn Hd]. split; [rewrite dones_app; unfold dones at 2; cbn; rewrite He, app_nil_r; done|].
  intros l1 l2 c n o E. destruct l2 as [|x l2 _] using rev_ind.
  - apply app_inj_tail in E as [_ ->]. done.
  - rewrite app_comm_cons, app_assoc in E. apply app_inj_tail in E as [-> _]. by eapply Hd.
Qed.

Lemma done_ok_done log c n o : done_ok log -> n ∉ dones log -> explained log c n o -> done_ok (log ++ [Done c n o]).
Proof.
  intros [Hn Hd] Hnew Hx. split.
  - rewrite dones_app. apply NoDup_app. split; [done|]. cbn. split; [|apply NoDup_singleton].
    intros n' Hn' ->%list_elem_of_singleton. done.
  - intros l1 l2 c' n' o' E. destruct l2 as [|x l2 _] using rev_ind.
    + apply app_inj_tail in E as [-> E]. injection E as -> -> ->. done.
    + rewrite app_comm_cons, app_assoc in E. apply app_inj_tail in E as [-> _]. by eapply Hd.
Qed.

Lemma called_last log c n id r c' n' id' r' : Called c' n' id' r' ∈ log ++ [Called c n id r] <->
  Called c' n' id' r' ∈ log \/ (c' = c /\ n' = n /\ id' = id /\ r' = r).
Proof. rewrite elem_of_app, list_elem_of_singleton. intuition congruence. Qed.

Lemma dones_called log c n id r : dones (log ++ [Called c n id r]) = dones log.
Proof. rewrite dones_app. apply app_nil_r. Qed.

(** A call is made: at its client. *)
Definition called_client (n : nat) (r : request) (x : client) : client :=
  set_pending (kind_of r) (<[next_id x := n]> (cl_pending x (kind_of r)))
    (Client (next_id x) (cl_pending x) (cl_calling x ++ [(n, request_message (next_id x) r)]) (cl_conn x)).

Lemma client_ok_called log c n r x : client_ok log c x -> next_id x = cl_next_id x + 1 ->
  (forall id r, Called c n id r ∉ log) -> n ∉ dones log -> client_ok (log ++ [Called c n (next_id x) r]) c (called_client n r x).
Proof.
  intros [] Eid Hnew Hnd. unfold called_client. set (id := next_id x) in *.
  constructor; cbn; rewrite ?dones_called; auto.
  - lia.
  - intros n' id' r'. rewrite called_last. intros [Hin|(_ & -> & -> & ->)]; [specialize (k_id0 _ _ _ Hin)|]; lia.
  - intros k id' n'. case_decide as Hk; [rewrite lookup_insert_Some; intros [[<- <-]|[_ Hp]]|intros Hp].
    + exists r. rewrite called_last. split; [by right|done].
    + destruct (k_pending0 _ _ _ Hp) as (r' & Hr' & Ek). exists r'. rewrite called_last. split; [tauto|congruence].
    + destruct (k_pending0 _ _ _ Hp) as (r' & Hr' & Ek). exists r'. rewrite called_last. tauto.
  - intros n' Hn'. destruct (k_taken0 n' Hn') as [(id' & r' & Hr') Hp]. split; [exists id', r'; rewrite called_last; tauto|].
    intros k id''. case_decide; [|apply Hp]. rewrite lookup_insert_Some. intros [[_ <-]|[_ Hp']]; [by eapply Hnew|by eapply Hp].
  - intros n' [(k & id' & Hn')|Hn']; [|apply k_held0; by right]. cbn in Hn'. case_decide; [|apply k_held0; left; eauto].
    apply lookup_insert_Some in Hn' as [[_ <-]|[_ Hp]]; [done|apply k_held0; left; eauto].
  - intros ks taken e0 He. destruct (k_lost0 _ _ _ He) as (e1 & H1' & ->). exists e1. split; [|done]. apply elem_of_app. by left.
  - intros n' m. rewrite elem_of_app, list_elem_of_singleton. intros [Hm|[= -> ->]].
    + destruct (k_calling0 _ _ Hm) as (id' & r' & Hr' & ->). exists id', r'. rewrite called_last. tauto.
    + exists id, r. rewrite called_last. tauto.
  - intros m Hm. by apply requested_app, k_queue0.
  - intros n' id' r'. rewrite called_last. intros [Hin|(_ & -> & -> & ->)].
    + destruct (k_kept0 _ _ _ Hin) as [?|[Hp|?]]; [by left| |by right; right]. right; left. case_decide as Hk; [|done].
      rewrite lookup_insert_ne; [by rewrite <- Hk|]. intros ->. specialize (k_id0 _ _ _ Hin). lia.
    + right; left. rewrite decide_True by done. by rewrite lookup_insert_eq.
Qed.

(** ... and at another. *)
Lemma client_ok_other_called log c x c0 n id r : client_ok log c x -> c <> c0 -> client_ok (log ++ [Called c0 n id r]) c x.
Proof.
  intros [] Hne. constructor; rewrite ?dones_called; auto.
  - intros n' id' r'. rewrite called_last. intros [Hin|(-> & _)]; [eauto|done].
  - intros k id' n' Hp. destruct (k_pending0 _ _ _ Hp) as (r' & Hr' & Ek). exists r'. rewrite called_last. tauto.
  - intros n' Hn'. destruct (k_taken0 n' Hn') as [(id' & r' & Hr') Hp]. split; [exists id', r'; rewrite called_last; tauto|done].
  - intros ks taken e0 He. destruct (k_lost0 _ _ _ He) as (e1 & H1' & ->). exists e1. split; [|done]. apply elem_of_app. by left.
  - intros n' m Hm. destruct (k_calling0 _ _ Hm) as (id' & r' & Hr' & ->). exists id', r'. rewrite called_last. tauto.
  - intros m Hm. by apply requested_app, k_queue0.
  - intros n' id' r'. rewrite called_last. intros [Hin|(-> & _)]; [eauto|done].
Qed.

Lemma calls_ok_called log c n id r : calls_ok n log -> (forall n' r', Called c n' id r' ∉ log) ->
  calls_ok (S n) (log ++ [Called c n id r]).
Proof.
  intros [] Hnew. constructor; intros *; rewrite !called_last.
  - intros [Hin|(-> & -> & -> & ->)]; [specialize (n_called0 _ _ _ _ Hin)|]; lia.
  - intros [Hin|(-> & -> & -> & ->)] [Hin'|(E1 & E2 & E3 & E4)]; subst; [by eapply n_once0| | |done]; exfalso;
      [specialize (n_called0 _ _ _ _ Hin)|specialize (n_called0 _ _ _ _ Hin')]; lia.
  - intros [Hin|(-> & -> & -> & ->)] [Hin'|(E1 & E2 & E3 & E4)]; subst; [by eapply n_id0| | |done]; exfalso; by eapply Hnew.
Qed.

Section safety.
Context {B C : Type} `{Primitives} `{ForeignCategories}.
Context `{!Access B public_key octets public_key, !Access C certificate octets certificate}.
Context (what : store_exn -> octets).

#[local] Abbreviation world := (world B C).
#[local] Abbreviation step := (step what).
#[local] Abbreviation run := (run what).
Implicit Types (w : world).

Record inv w : Prop := {
  v_client c : client_ok (w_log w) c (client_of c w);
  v_link l y : w_links w !! l = Some y -> link_ok (w_log w) y;
  v_conn c l : cl_conn (client_of c w) = Connected l ->
    exists y, w_links w !! l = Some y /\ ln_client y = c /\ ln_live y = true;
  v_calls : calls_ok (w_calls w) (w_log w);
  v_next c : cl_next_id (client_of c w) <= Z.of_nat (w_calls w);
  v_done : done_ok (w_log w)
}.

Lemma client_after_put c c' x w : client_of c (put_client c' x w) = if decide (c = c') then x else client_of c w.
Proof.
  unfold client_of, put_client. cbn. case_decide; [subst; by rewrite lookup_insert_eq|by rewrite lookup_insert_ne by done].
Qed.

Lemma link_of_put l l' y w : w_links (put_link l' y w) !! l = if decide (l = l') then Some y else w_links w !! l.
Proof. unfold put_link. cbn. case_decide; [subst; by rewrite lookup_insert_eq|by rewrite lookup_insert_ne by done]. Qed.

Lemma inv_start keys certs : inv (start_world keys certs).
Proof.
  assert (forall e : event, e ∈ [] -> False) as Hno by (intros e; by rewrite elem_of_nil).
  constructor; cbn.
  - intros c. change (client_of c (start_world keys certs)) with new_client.
    constructor; cbn; try done; try (intros; exfalso; by eapply Hno); try (by intros; exfalso; eapply elem_of_nil).
    + constructor.
    + intros n _. apply not_elem_of_nil.
  - intros l y. by rewrite lookup_empty.
  - intros c l. change (client_of c (start_world keys certs)) with new_client. done.
  - constructor; intros *; by intros ?%elem_of_nil.
  - done.
  - split; [constructor|]. intros [] ?; done.
Qed.

Lemma inv_note w e : quiet e -> inv w -> inv (note e w).
Proof.
  intros Hq []. constructor; cbn; auto.
  - intros c. by apply client_ok_quiet.
  - intros l y Hy. by apply link_ok_app, (v_link0 l).
  - by apply calls_ok_quiet.
  - apply done_ok_other; [by destruct e|done].
Qed.

(** What the stores hold does not matter here. *)
Lemma inv_put_keys k w : inv w -> inv (put_keys k w).
Proof. intros []. by constructor. Qed.
Lemma inv_put_certs k w : inv w -> inv (put_certs k w).
Proof. intros []. by constructor. Qed.

Lemma inv_put_link l y y0 w : inv w -> w_links w !! l = Some y0 -> ln_client y = ln_client y0 -> ln_live y = ln_live y0 ->
  link_ok (w_log w) y -> inv (put_link l y w).
Proof.
  intros [] Ey Ec El Hy. constructor; auto.
  - intros l' y'. rewrite link_of_put. case_decide; [intros [= <-]; done|apply v_link0].
  - intros c l' Hc. destruct (v_conn0 c l' Hc) as (y1 & E1 & <- & Hl). rewrite link_of_put. case_decide; [|eauto].
    subst l'. exists y. rewrite Ey in E1. injection E1 as <-. split_and!; congruence.
Qed.

Lemma inv_put_client c x w : inv w -> client_ok (w_log w) c x -> cl_next_id x = cl_next_id (client_of c w) ->
  (forall l, cl_conn x = Connected l -> exists y, w_links w !! l = Some y /\ ln_client y = c /\ ln_live y = true) -> inv (put_client c x w).
Proof.
  intros [] Hx En Hl. constructor; auto.
  - intros c'. rewrite client_after_put. case_decide; [by subst|apply v_client0].
  - intros c' l. rewrite client_after_put. case_decide; [subst; apply Hl|apply v_conn0].
  - intros c'. rewrite client_after_put. case_decide; [subst; rewrite En; apply v_next0|apply v_next0].
Qed.

(** The connection of a client changes; nothing is taken. *)
Lemma client_ok_conn log c x k : client_ok log c x -> (forall m, m ∈ queue_of k -> requested log c m) ->
  taken_of k = taken_of (cl_conn x) -> (forall ks taken e, k = Failing ks taken e -> exists e0, Lost c e0 ∈ log /\ e = fail_error e0) ->
  client_ok log c (set_conn k x).
Proof.
  intros [] Hq Ht Hl. constructor; cbn; auto; unfold holds; cbn; rewrite ?Ht; auto.
Qed.

(** The messages between the two halves of a call. *)
Lemma client_ok_calling log c x v : client_ok log c x -> v ⊆ cl_calling x -> client_ok log c (set_calling v x).
Proof. intros [] Hv. constructor; cbn; auto. Qed.

(** A promise leaves the client with its completion. *)
Lemma client_ok_other_done log c x c' n o : client_ok log c x -> (forall n', holds x n' -> n' <> n) ->
  client_ok (log ++ [Done c' n o]) c x.
Proof.
  intros [] Hne. assert (forall c n' id r, Called c n' id r ∈ log ++ [Done c' n o] <-> Called c n' id r ∈ log) as Hc.
  { intros. rewrite elem_of_app, list_elem_of_singleton. intuition discriminate. }
  assert (forall n', n' ∈ dones (log ++ [Done c' n o]) <-> n' ∈ dones log \/ n' = n) as Hd.
  { intros. rewrite dones_app, elem_of_app. cbn. by rewrite list_elem_of_singleton. }
  constructor; auto.
  - intros n' id r. rewrite Hc. apply k_id0.
  - intros k id n' Hn'. destruct (k_pending0 k id n' Hn') as (r & Hr). exists r. by rewrite Hc.
  - intros n' Hn'. destruct (k_taken0 n' Hn') as [(id & r & Hr) Hp]. split; [|done]. exists id, r. by rewrite Hc.
  - intros n' Hn'. rewrite Hd. intros [Hn|Hn]; [by apply (k_held0 n')|by apply (Hne n')].
  - intros ks taken e0 He. destruct (k_lost0 _ _ _ He) as (e1 & H1 & ->). exists e1. split; [|done]. rewrite elem_of_app. by left.
  - intros n' m Hn'. destruct (k_calling0 n' m Hn') as (id & r & Hr). exists id, r. by rewrite Hc.
  - intros m Hm. by apply requested_app, k_queue0.
  - intros n' id r. rewrite Hc, Hd. intros Hn'. destruct (k_kept0 n' id r Hn') as [?|?]; [by left; left|by right].
Qed.

(** Whoever holds a promise made the call. *)
Lemma holds_called log c x n : client_ok log c x -> holds x n -> exists id r, Called c n id r ∈ log.
Proof.
  intros [] [(k & id & Hn)|Hn].
  - destruct (k_pending0 k id n Hn) as (r & Hr & _). eauto.
  - by destruct (k_taken0 n Hn).
Qed.

(** A step that completes a promise of [c]. *)
Lemma inv_complete c n o x w : inv w -> holds (client_of c w) n -> explained (w_log w) c n o ->
  client_ok (w_log w ++ [Done c n o]) c x -> cl_next_id x = cl_next_id (client_of c w) ->
  (forall l, cl_conn x = Connected l -> cl_conn (client_of c w) = Connected l) ->
  inv (note (Done c n o) (put_client c x w)).
Proof.
  intros Hi Hh Hx Hc En Hl. pose proof Hi as []. destruct (holds_called _ _ _ _ (v_client0 c) Hh) as (id & r & Hcalled).
  assert (forall c' n' id r, Called c' n' id r ∈ w_log w ++ [Done c n o] <-> Called c' n' id r ∈ w_log w) as Hcd.
  { intros. rewrite elem_of_app, list_elem_of_singleton. intuition discriminate. }
  constructor; cbn.
  - intros c'. change (client_of c' (note _ ?w')) with (client_of c' w'). rewrite client_after_put. case_decide as Hd; [by subst|].
    apply client_ok_other_done; [done|]. intros n' Hn' ->.
    destruct (holds_called _ _ _ _ (v_client0 c') Hn') as (id' & r' & Hc').
    by destruct (n_once _ _ v_calls0 _ _ _ _ _ _ _ Hcalled Hc').
  - intros l y Hy. by apply link_ok_app, (v_link0 l).
  - intros c' l. change (client_of c' (note _ ?w')) with (client_of c' w'). rewrite client_after_put. case_decide as Hd; [|apply v_conn0].
    subst. intros Hconn. by apply v_conn0, Hl.
  - destruct v_calls0. constructor; intros *; rewrite !Hcd; eauto.
  - intros c'. change (client_of c' (note _ ?w')) with (client_of c' w'). rewrite client_after_put. case_decide; [subst; rewrite En|]; apply v_next0.
  - apply done_ok_done; [done| |done]. by apply (v_client0 c).
Qed.

(** ** Every step keeps the invariant *)

Lemma next_id_fresh x c log calls : client_ok log c x -> cl_next_id x <= Z.of_nat calls -> Z.of_nat calls + 1 < 2 ^ 32 ->
  next_id x = cl_next_id x + 1.
Proof. intros [Hn] Hc Hb. unfold next_id, wrap. rewrite Z.mod_small; lia. Qed.

Lemma inv_call c r w : inv w -> Z.of_nat (w_calls w) + 1 < 2 ^ 32 -> inv (call c r w).
Proof.
  intros Hi Hb. pose proof Hi as []. pose proof (v_client0 c) as Hc.
  pose proof (next_id_fresh _ _ _ _ Hc (v_next0 c) Hb) as Eid. pose proof (v_next0 c) as Hnext.
  set (x := client_of c w) in *. set (n := w_calls w) in *.
  assert (forall id' r', Called c n id' r' ∉ w_log w) as Hnew.
  { intros id' r' Hin. pose proof (n_called _ _ v_calls0 _ _ _ _ Hin). unfold n in *. lia. }
  assert (n ∉ dones (w_log w)) as Hnd.
  { intros (c' & o & (l1 & l2 & El)%list_elem_of_split)%dones_in. destruct v_done0 as [_ Hdo].
    destruct (Hdo _ _ _ _ _ El) as (id0 & r0 & Hc0 & _).
    assert (Called c' n id0 r0 ∈ w_log w) as Hc1 by (rewrite El; apply elem_of_app; by left).
    pose proof (n_called _ _ v_calls0 _ _ _ _ Hc1). unfold n in *. lia. }
  assert (cl_pending x (kind_of r) !! next_id x = None) as Hfree.
  { destruct (cl_pending x (kind_of r) !! next_id x) as [n'|] eqn:E; [|done]. exfalso.
    destruct (k_pending _ _ _ Hc _ _ _ E) as (r' & Hr' & _). pose proof (k_id _ _ _ Hc _ _ _ Hr'). lia. }
  assert (forall c', client_of c' (call c r w) = if decide (c' = c) then called_client n r x else client_of c' w) as Ecl.
  { intros c'. unfold call. fold x n. unfold emplace. rewrite Hfree. apply client_after_put. }
  constructor; cbn.
  - intros c'. rewrite Ecl. case_decide; [subst; by apply client_ok_called|by apply client_ok_other_called].
  - intros l y Hy. by apply link_ok_app, (v_link0 l).
  - intros c' l. rewrite Ecl. case_decide; [subst|]; apply v_conn0.
  - apply calls_ok_called; [done|]. intros n' r' Hin. change (Called c n' (next_id x) r' ∈ w_log w) in Hin. pose proof (k_id _ _ _ Hc _ _ _ Hin). lia.
  - intros c'. rewrite Ecl. case_decide; [|specialize (v_next0 c'); unfold n in *; lia]. cbn. unfold n in *. lia.
  - by apply done_ok_other.
Qed.

(** The link of a connected client. *)
Lemma connected_link w c l y : inv w -> cl_conn (client_of c w) = Connected l -> w_links w !! l = Some y ->
  ln_client y = c /\ ln_live y = true.
Proof. intros [] Hc Hy. destruct (v_conn0 c l Hc) as (y' & Hy' & ?). rewrite Hy in Hy'. by injection Hy' as <-. Qed.

Lemma inv_send_request c i w w' : inv w -> send_request c i w = Some w' -> inv w'.
Proof.
  intros Hi. pose proof (v_client w Hi c) as Hc. unfold send_request. set (x := client_of c w) in *.
  destruct (cl_calling x !! i) as [[n m]|] eqn:Ei; [|done].
  assert (requested (w_log w) c m) as Hm.
  { destruct (k_calling _ _ _ Hc n m) as (id & r & Hr & ->); [by eapply list_elem_of_lookup_2|]. by exists n, id, r. }
  set (x1 := set_calling (delete i (cl_calling x)) x).
  assert (client_ok (w_log w) c x1) as Hc1.
  { apply client_ok_calling; [done|]. apply sublist_subseteq, sublist_delete. }
  assert (forall q, (forall m', m' ∈ q -> m' ∈ queue_of (cl_conn x) \/ m' = m) ->
    forall k, queue_of k = q -> taken_of k = [] -> taken_of (cl_conn x) = [] -> (forall ks taken e, k <> Failing ks taken e) ->
    (forall l, k <> Connected l) -> inv (put_client c (set_conn k x1) w)) as Hq.
  { intros q Hq k <- Hk Hk' Hf Hl. apply inv_put_client; [done| |done|by intros l Hl'; destruct (Hl l)].
    apply client_ok_conn; [done| |cbn; congruence|by intros ? ? ? ?; exfalso; eapply Hf].
    intros m' Hm'. destruct (Hq m' Hm') as [?| ->]; [by apply (k_queue _ _ _ Hc)|done]. }
  change (cl_conn x1) with (cl_conn x).
  destruct (cl_conn x) as [q|q|l|ks taken e|] eqn:Ek; cbn in *.
  - intros [= <-]. apply (Hq (q ++ [m])); try done. intros m' [?|?%list_elem_of_singleton]%elem_of_app; auto.
  - intros [= <-]. apply (Hq (q ++ [m])); try done. intros m' [?|?%list_elem_of_singleton]%elem_of_app; auto.
  - destruct (w_links w !! l) as [y|] eqn:Ey; [|done]. intros [= <-].
    destruct (connected_link w c l y Hi Ek Ey) as [Ec El]. pose proof (v_link w Hi l y Ey) as [Hu Hd Ht].
    assert (inv (put_client c x1 w)) as Hi1.
    { apply inv_put_client; try done. intros l' Hl'. apply (v_conn w Hi). cbn in Hl'. fold x. congruence. }
    apply (inv_put_link l _ y); [done|done|by destruct (ln_open y)|by destruct (ln_open y)|].
    destruct (ln_open y); [|by apply (v_link w Hi l)]. constructor; cbn; [|done|done].
    intros m' [?| ->%list_elem_of_singleton]%elem_of_app; [auto|by rewrite Ec].
  - intros [= <-]. apply inv_note; [done|]. apply inv_put_client; try done. cbn. by rewrite Ek.
  - intros [= <-]. apply inv_note; [done|]. apply inv_put_client; try done. cbn. by rewrite Ek.
Qed.

Lemma inv_connect c w : inv w -> inv (connect c w).
Proof.
  intros Hi. pose proof (v_client w Hi c) as Hc. unfold connect. destruct (cl_conn (client_of c w)) as [q|q|l|ks taken e|] eqn:Ek; try done.
  - apply inv_put_client; try done. apply client_ok_conn; try done; [|by rewrite Ek].
    intros m Hm. apply (k_queue _ _ _ Hc). by rewrite Ek.
  - apply inv_put_client; try done. apply client_ok_conn; try done; [|by rewrite Ek]. intros m Hm. by apply elem_of_nil in Hm.
Qed.

Lemma inv_become_connected c l w w' : inv w -> become_connected c l w = Some w' -> inv w'.
Proof.
  intros Hi. pose proof (v_client w Hi c) as Hc. unfold become_connected.
  destruct (cl_conn (client_of c w)) as [q|q|l0|ks taken e|] eqn:Ek; try done.
  destruct (w_links w !! l) as [y|] eqn:Ey; [done|]. intros [= <-]. pose proof Hi as [].
  assert (client_ok (w_log w) c (set_conn (Connected l) (client_of c w))) as Hc1.
  { apply client_ok_conn; try done; [by intros m Hm%elem_of_nil|by rewrite Ek]. }
  constructor; cbn.
  - intros c'. change (client_of c' (put_link _ _ ?w')) with (client_of c' w'). rewrite client_after_put. case_decide; [by subst|done].
  - intros l' y'. rewrite lookup_insert_Some. intros [[<- <-]|[_ Hy]]; [|by eapply v_link0].
    constructor; cbn; [|by intros m ?%elem_of_nil|done]. intros m Hm. apply (k_queue _ _ _ Hc). by rewrite Ek.
  - intros c' l'. change (client_of c' (put_link _ _ ?w')) with (client_of c' w'). rewrite client_after_put. case_decide as Hd.
    + cbn. intros [= <-]. subst. eexists. by rewrite lookup_insert_eq.
    + intros Hl. destruct (v_conn0 c' l' Hl) as (y' & Hy' & ?). exists y'. rewrite lookup_insert_ne; [done|congruence].
  - done.
  - intros c'. change (client_of c' (put_link _ _ ?w')) with (client_of c' w'). rewrite client_after_put. case_decide; [subst|]; apply v_next0.
  - done.
Qed.

(** A client lets go of its link. *)
Lemma inv_drop_link c x k w : inv w -> x = client_of c w -> client_ok (w_log w) c (set_conn k x) -> (forall l, k <> Connected l) ->
  inv (drop_link x (put_client c (set_conn k x) w)).
Proof.
  intros Hi -> Hk Hn.
  assert (inv (put_client c (set_conn k (client_of c w)) w)) as Hi1.
  { apply inv_put_client; try done. intros l Hl. by destruct (Hn l). }
  unfold drop_link. destruct (cl_conn (client_of c w)) as [q|q|l|ks taken e|] eqn:Ek; try done. cbn.
  destruct (w_links w !! l) as [y|] eqn:Ey; [|done]. pose proof Hi1 as [].
  destruct (connected_link w c l y Hi Ek Ey) as [Ec _]. destruct (v_link w Hi l y Ey) as [Hu Hd Ht].
  constructor; cbn; auto.
  - intros l' y'. rewrite lookup_insert_Some. intros [[<- <-]|[_ Hy]]; [|by eapply v_link0].
    constructor; cbn; [done|by intros m ?%elem_of_nil|done].
  - intros c' l' Hl. change (client_of c' (put_link _ _ ?w')) with (client_of c' w') in Hl.
    destruct (v_conn0 c' l' Hl) as (y' & Hy' & E1 & E2). cbn in Hy'. exists y'. rewrite lookup_insert_ne; [done|]. intros <-.
    rewrite Ey in Hy'. injection Hy' as <-. rewrite Ec in E1. subst c'. rewrite client_after_put, decide_True in Hl by done. by destruct (Hn l).
Qed.

Lemma inv_disconnected c e w w' : inv w -> disconnected c e w = Some w' -> inv w'.
Proof.
  intros Hi. pose proof (v_client w Hi c) as Hc. unfold disconnected. set (x := client_of c w) in *.
  assert (forall q l, cl_conn x = Connecting q \/ cl_conn x = Connected l ->
    inv (note (Lost c e) (drop_link x (put_client c (set_conn (Failing all_kinds [] (fail_error e)) x) w)))) as Hgo.
  { intros q l Hk. pose proof (inv_note w (Lost c e) I Hi) as Hi1.
    change (note (Lost c e) (drop_link ?x (put_client c ?y w))) with (note (Lost c e) (drop_link x (put_client c y w))).
    assert (note (Lost c e) (drop_link x (put_client c (set_conn (Failing all_kinds [] (fail_error e)) x) w)) =
      drop_link x (put_client c (set_conn (Failing all_kinds [] (fail_error e)) x) (note (Lost c e) w))) as ->.
    { unfold drop_link. destruct (cl_conn x); try done. cbn. by destruct (w_links w !! _). }
    apply inv_drop_link; try done. apply client_ok_conn; [apply (v_client _ Hi1 c)|by intros m Hm%elem_of_nil| |].
    - by destruct Hk as [-> | ->].
    - intros ks taken e0 [= <- <- <-]. exists e. split; [|done]. apply elem_of_app. right. by apply list_elem_of_singleton. }
  destruct (cl_conn x) as [q|q|l|ks taken e0|] eqn:Ek; try done; intros [= <-].
  - apply (Hgo q 0%nat). by left.
  - apply (Hgo [] l). by right.
Qed.

Lemma inv_client_close c w : inv w -> inv (close c w).
Proof.
  intros Hi. pose proof (v_client w Hi c) as Hc. unfold close. set (x := client_of c w) in *.
  assert (taken_of (cl_conn x) = [] -> inv (note (CloseCalled c) (drop_link x (put_client c (set_conn Closed x) w)))) as Hgo.
  { intros Ht. apply inv_note; [done|]. apply inv_drop_link; try done. apply client_ok_conn; try done. by intros m Hm%elem_of_nil. }
  destruct (cl_conn x); by try apply Hgo.
Qed.

(** The promises of a map change their place. *)
Lemma in_values (m : gmap Z nat) n : n ∈ (map_to_list m).*2 <-> exists id, m !! id = Some n.
Proof.
  rewrite list_elem_of_fmap. split.
  - intros ([id n'] & -> & Hn). apply elem_of_map_to_list in Hn. eauto.
  - intros (id & Hn). exists (id, n). split; [done|by apply elem_of_map_to_list].
Qed.

(** A call is in one place of its client only. *)
Lemma pending_place w c k id k' id' n : inv w -> cl_pending (client_of c w) k !! id = Some n ->
  cl_pending (client_of c w) k' !! id' = Some n -> k = k' /\ id = id'.
Proof.
  intros Hi H1 H2. pose proof (v_client w Hi c) as Hc.
  destruct (k_pending _ _ _ Hc _ _ _ H1) as (r & Hr & <-), (k_pending _ _ _ Hc _ _ _ H2) as (r' & Hr' & <-).
  by destruct (n_once _ _ (v_calls w Hi) _ _ _ _ _ _ _ Hr Hr') as (_ & -> & ->).
Qed.

Lemma values_once w c k : inv w -> NoDup (map_to_list (cl_pending (client_of c w) k)).*2.
Proof.
  intros Hi. apply NoDup_fmap_fst_snd || idtac.
  eapply (NoDup_fmap_2_strong snd); [|apply NoDup_map_to_list].
  intros [id n] [id' n'] Hn Hn' E. cbn in E. subst n'. apply elem_of_map_to_list in Hn, Hn'.
  by destruct (pending_place w c _ _ _ _ _ Hi Hn Hn') as [_ ->].
Qed.

Lemma inv_fail_step c w w' : inv w -> fail_step c w = Some w' -> inv w'.
Proof.
  intros Hi. pose proof (v_client w Hi c) as Hc. unfold fail_step. set (x := client_of c w) in *.
  destruct (cl_conn x) as [q|q|l|[|k ks] taken e|] eqn:Ek; try done.
  - destruct taken as [|n taken]; intros [= <-].
    + apply inv_put_client; try done. apply client_ok_conn; try done; [by intros m Hm%elem_of_nil|by rewrite Ek].
    + destruct (k_lost _ _ _ Hc _ _ _ Ek) as (e0 & He0 & ->).
      pose proof (k_taken_once _ _ _ Hc) as Hnd. rewrite Ek in Hnd. cbn in Hnd. apply NoDup_cons in Hnd as [Hnot Hnd].
      destruct (k_taken _ _ _ Hc n) as [(id & r & Hr) Hp]; [rewrite Ek; apply list_elem_of_here|].
      apply inv_complete; [done|right; fold x; rewrite Ek; apply list_elem_of_here| | |done|done].
      * exists id, r. split; [done|]. right. by exists e0.
      * destruct Hc. rewrite Ek in *. constructor; cbn.
        -- done.
        -- intros n' id' r'. rewrite elem_of_app, list_elem_of_singleton. intros [?|?]; [eauto|done].
        -- intros k id' n' Hn'. destruct (k_pending0 _ _ _ Hn') as (r' & ? & ?). exists r'. rewrite elem_of_app. tauto.
        -- intros n' Hn'. destruct (k_taken0 n') as [(id' & r' & ?) ?]; [by apply list_elem_of_further|]. split; [|done].
           exists id', r'. rewrite elem_of_app. tauto.
        -- done.
        -- intros n' Hn'. rewrite dones_app, elem_of_app. cbn. rewrite list_elem_of_singleton. intros [Hd|Hd].
           ++ apply (k_held0 n'); [|done]. destruct Hn' as [?|Hn']; [by left|right; rewrite Ek; by apply list_elem_of_further].
           ++ subst n'. destruct Hn' as [(k & id' & Hn')|Hn']; [by eapply Hp|done].
        -- intros ks' taken' e' [= <- <- <-]. exists e0. rewrite elem_of_app. tauto.
        -- intros n' m Hm. destruct (k_calling0 _ _ Hm) as (id' & r' & ? & ?). exists id', r'. rewrite elem_of_app. tauto.
        -- by intros m Hm%elem_of_nil.
        -- intros n' id' r'. rewrite elem_of_app, list_elem_of_singleton, dones_app, elem_of_app. cbn. rewrite list_elem_of_singleton.
           intros [Hin|?]; [|done]. specialize (k_kept0 _ _ _ Hin). cbn in k_kept0. rewrite elem_of_cons in k_kept0. tauto.
  - intros [= <-]. apply inv_put_client; try done. pose proof Hc as []. rewrite Ek in *. cbn in *. constructor; cbn; auto.
    + intros k' id n. case_decide; [by rewrite lookup_empty|apply k_pending0].
    + intros n [Hn|(id & Hn)%in_values]%elem_of_app.
      * destruct (k_taken0 n Hn) as [? Hp]. split; [done|]. intros k' id'. case_decide; [by rewrite lookup_empty|done].
      * destruct (k_pending0 _ _ _ Hn) as (r & Hr & _). split; [eauto|]. intros k' id'. case_decide as Hk; [by rewrite lookup_empty|].
        intros Hn'. by destruct (pending_place w c _ _ _ _ _ Hi Hn Hn').
    + apply NoDup_app. split; [done|]. split; [|by apply values_once].
      intros n Hn (id & Hn')%in_values. destruct (k_taken0 n Hn) as [_ Hp]. by eapply Hp.
    + intros n [(k' & id & Hn)|Hn]; apply k_held0; cbn in Hn.
      * left. case_decide; [by rewrite lookup_empty in Hn|eauto].
      * apply elem_of_app in Hn as [Hn|(id & Hn)%in_values]; [right; fold x; by rewrite Ek|left; eauto].
    + intros ks' taken' e' [= <- <- <-]. by eapply k_lost0.
    + intros n id r Hr. destruct (k_kept0 _ _ _ Hr) as [?|[Hp|?]]; [by left| |right; right; by apply elem_of_app; left].
      right. case_decide as Hk; [|by left]. right. apply elem_of_app. right. apply in_values. exists id. by rewrite <- Hk.
Qed.

(** A promise is completed by an answer. *)
Lemma client_ok_complete w c k id n o : inv w -> cl_pending (client_of c w) k !! id = Some n ->
  client_ok (w_log w ++ [Done c n o]) c (set_pending k (delete id (cl_pending (client_of c w) k)) (client_of c w)).
Proof.
  intros Hi Hn. pose proof (v_client w Hi c) as Hc. set (x := client_of c w) in *.
  assert (forall k' id' n', cl_pending (set_pending k (delete id (cl_pending x k)) x) k' !! id' = Some n' ->
    cl_pending x k' !! id' = Some n' /\ n' <> n) as Hsub.
  { intros k' id' n' Hn'. cbn in Hn'. case_decide as Hk.
    - apply lookup_delete_Some in Hn' as [Hne Hn']. subst k'. split; [done|]. intros ->.
      by destruct (pending_place w c _ _ _ _ _ Hi Hn Hn').
    - split; [done|]. intros ->. by destruct (pending_place w c _ _ _ _ _ Hi Hn Hn'). }
  destruct (k_pending _ _ _ Hc _ _ _ Hn) as (r & Hr & Hkr).
  pose proof Hc as []. constructor; cbn [cl_next_id cl_conn cl_calling set_pending]; auto.
  - intros n' id' r'. rewrite elem_of_app, list_elem_of_singleton. intros [?|?]; [eauto|done].
  - intros k' id' n' [Hn' _]%Hsub. destruct (k_pending0 _ _ _ Hn') as (r' & ? & ?). exists r'. rewrite elem_of_app. tauto.
  - intros n' Hn'. destruct (k_taken0 n' Hn') as [(id' & r' & ?) Hp]. split; [exists id', r'; rewrite elem_of_app; tauto|].
    intros k' id'' [Hn'' _]%Hsub. by eapply Hp.
  - intros n' Hn'. rewrite dones_app, elem_of_app. cbn. rewrite list_elem_of_singleton. intros [Hd|Hd].
    + apply (k_held0 n'); [|done]. destruct Hn' as [(k' & id' & [Hn' _]%Hsub)|Hn']; [left; eauto|by right].
    + subst n'. destruct Hn' as [(k' & id' & [_ Hn']%Hsub)|Hn']; [done|]. by destruct (k_taken0 n Hn') as [_ Hp]; eapply Hp.
  - intros ks taken e He. destruct (k_lost0 _ _ _ He) as (e0 & ? & ?). exists e0. rewrite elem_of_app. tauto.
  - intros n' m Hm. destruct (k_calling0 _ _ Hm) as (id' & r' & ? & ?). exists id', r'. rewrite elem_of_app. tauto.
  - intros m Hm. by apply requested_app, k_queue0.
  - intros n' id' r'. rewrite elem_of_app, list_elem_of_singleton, dones_app, elem_of_app. cbn. rewrite list_elem_of_singleton.
    intros [Hin|?]; [|done]. destruct (k_kept0 _ _ _ Hin) as [?|[Hp|?]]; [by left; left| |by right; right].
    case_decide as Hk; [|by right; left]. destruct (decide (id' = id)) as [->|Hid].
    + left; right. rewrite Hk, Hn in Hp. by injection Hp.
    + right; left. rewrite lookup_delete_ne by done. by rewrite <- Hk.
Qed.

Lemma inv_client_handle c m w : inv w -> served (w_log w) c m -> inv (client_handle c m w).
Proof.
  intros Hi (n & id & r & o & Hb & Ha). unfold client_handle. rewrite Ha. unfold complete.
  destruct (cl_pending (client_of c w) (kind_of r) !! id) as [n'|] eqn:En; [|done].
  pose proof (v_client w Hi c) as Hc. destruct (k_pending _ _ _ Hc _ _ _ En) as (r' & Hr' & _).
  destruct (before_in _ _ _ Hb) as [Hr _]. pose proof (n_id _ _ (v_calls w Hi) _ _ _ _ _ _ Hr Hr') as <-.
  apply inv_complete; [done|left; eauto| |by apply client_ok_complete|done|done].
  exists id, r. split; [done|]. left. by exists m.
Qed.

Lemma inv_client_receive c w w' : inv w -> client_receive c w = Some w' -> inv w'.
Proof.
  intros Hi. unfold client_receive. destruct (cl_conn (client_of c w)) as [q|q|l|ks taken e|] eqn:Ek; try done.
  destruct (w_links w !! l) as [y|] eqn:Ey; [|done]. destruct (ln_down y) as [|m rest] eqn:Ed; [done|]. intros [= <-].
  destruct (connected_link w c l y Hi Ek Ey) as [<- El]. pose proof (v_link w Hi l y Ey) as [Hu Hd Ht].
  apply inv_client_handle; [|apply Hd; rewrite Ed; apply list_elem_of_here].
  apply (inv_put_link l _ y); try done. constructor; cbn; [done| |done]. intros m' Hm'. apply Hd. rewrite Ed. by apply list_elem_of_further.
Qed.

(** ** The server *)

Lemma inv_respond l x x0 id r m w : inv w -> w_links w !! l = Some x0 -> ln_client x = ln_client x0 -> ln_live x = ln_live x0 ->
  link_ok (w_log w) x -> requested (w_log w) (ln_client x) (request_message id r) ->
  (exists o, answer m = Some (kind_of r, id, o)) -> inv (respond l x id r m w).
Proof.
  intros Hi Ex Ec El Hx (n & id' & r' & Hr & Em) (o & Ho).
  assert (id' = id /\ r' = r) as [-> ->] by (destruct r, r'; by simplify_eq/=).
  unfold respond. assert (forall y, note (Served (ln_client x) id r m) (put_link l y w) =
    put_link l y (note (Served (ln_client x) id r m) w)) as -> by done.
  assert (link_ok (w_log w ++ [Served (ln_client x) id r m]) x) as Hx' by by apply link_ok_app.
  assert (inv (note (Served (ln_client x) id r m) w)) as Hi' by by apply inv_note.
  apply (inv_put_link l _ x0); [done|done|by destruct (_ && _)|by destruct (_ && _)|].
  destruct (ln_open x && ln_live x); [|done]. destruct Hx' as [Hu Hd Ht]. constructor; cbn; [done| |done].
  intros m' [?| ->%list_elem_of_singleton]%elem_of_app; [by apply Hd|].
  exists n, id, r, o. split; [by apply before_last|done].
Qed.

Lemma inv_put_stores w k k' : inv w -> inv (World k k' (w_links w) (w_clients w) (w_calls w) (w_log w)).
Proof. intros []. by constructor. Qed.

Lemma inv_answer_find {A} l x x0 id r (found : option A -> net_error -> message) res w : inv w -> w_links w !! l = Some x0 ->
  ln_client x = ln_client x0 -> ln_live x = ln_live x0 -> link_ok (w_log w) x -> requested (w_log w) (ln_client x) (request_message id r) ->
  (forall v e, exists o, answer (found v e) = Some (kind_of r, id, o)) -> inv (answer_find l x id r found res w).
Proof.
  intros Hi Ex Ec El Hx Hr Ho. unfold answer_find. destruct res as [v|e]; [by eapply inv_respond|].
  destruct (caught e); [by eapply inv_respond|]. apply (inv_put_link l _ x0); try done.
  destruct Hx as [Hu Hd Ht]. constructor; cbn; [by intros m ?%elem_of_nil|done|done].
Qed.

Lemma inv_server_receive l w w' : inv w -> server_receive what l w = Some w' -> inv w'.
Proof.
  intros Hi. unfold server_receive. destruct (w_links w !! l) as [x|] eqn:Ex; [|done].
  destruct (ln_open x) eqn:Eo; [|done]. destruct (ln_task x) eqn:Et; [done|]. destruct (ln_up x) as [|m rest] eqn:Eu; [done|].
  intros [= <-]. pose proof (v_link w Hi l x Ex) as [Hu Hd Ht].
  assert (requested (w_log w) (ln_client x) m) as Hm by (apply Hu; rewrite Eu; apply list_elem_of_here).
  assert (link_ok (w_log w) (set_up rest x)) as Hx.
  { constructor; cbn; [|done|done]. intros m' Hm'. apply Hu. rewrite Eu. by apply list_elem_of_further. }
  unfold server_handle. destruct m as [id key|id kid|id cid|id e|id key e|id cert e].
  - destruct (register_check key (w_keys w)) as [[[]|e] k].
    + apply (inv_put_link l _ x); try done; [by apply inv_put_keys|]. destruct Hx as [Hu' Hd' Ht']. constructor; cbn; [done|done|].
      by intros ? ? [= <- <-].
    + apply (inv_respond l _ x); try done; [by apply inv_put_keys|]. by eexists.
  - destruct (find_key kid (w_keys w)) as [res k]. apply (inv_answer_find l _ x); try done; [by apply inv_put_keys|]. by eexists.
  - destruct (find_certificate cid (w_certs w)) as [res k]. apply (inv_answer_find l _ x); try done; [by apply inv_put_certs|]. by eexists.
  - destruct Hm as (? & ? & [] & ? & ?); done.
  - destruct Hm as (? & ? & [] & ? & ?); done.
  - destruct Hm as (? & ? & [] & ? & ?); done.
Qed.

Lemma inv_server_task l w w' : inv w -> server_task what l w = Some w' -> inv w'.
Proof.
  intros Hi. unfold server_task. destruct (w_links w !! l) as [x|] eqn:Ex; [|done].
  destruct (ln_task x) as [[id key]|] eqn:Et; [|done]. destruct (register_insert key (w_keys w)) as [res k]. intros [= <-].
  pose proof (v_link w Hi l x Ex) as [Hu Hd Ht].
  apply (inv_respond l _ x); try done; [by apply inv_put_keys|by apply Ht|by eexists].
Qed.

(** Only a call counts. *)
Lemma calls_drop_link x w : w_calls (drop_link x w) = w_calls w.
Proof. unfold drop_link. by repeat case_match. Qed.

Lemma calls_answer_find {A} l x id r (found : option A -> net_error -> message) res w :
  w_calls (answer_find l x id r found res w) = w_calls w.
Proof. unfold answer_find, respond. by repeat case_match. Qed.

Lemma step_calls a w w' : step a w = Some w' -> (w_calls w <= w_calls w')%nat.
Proof.
  destruct a as [c r|c i|c|c l|c e|c|c|c|l|l|l]; cbn [KeyService.step]; intros E.
  - injection E as <-. cbn. lia.
  - unfold send_request in E. by repeat case_match; simplify_eq.
  - injection E as <-. unfold connect. by repeat case_match.
  - unfold become_connected in E. by repeat case_match; simplify_eq.
  - unfold disconnected in E. repeat case_match; simplify_eq; cbn; by rewrite calls_drop_link.
  - unfold fail_step in E. by repeat case_match; simplify_eq.
  - injection E as <-. unfold close. repeat case_match; cbn; by rewrite ?calls_drop_link.
  - unfold client_receive, client_handle, complete in E. by repeat case_match; simplify_eq.
  - unfold server_receive, server_handle in E. repeat case_match; simplify_eq; cbn; by rewrite ?calls_answer_find.
  - unfold server_task in E. by repeat case_match; simplify_eq.
  - by repeat case_match; simplify_eq.
Qed.

Lemma run_calls ls w w' : run ls w = Some w' -> (w_calls w <= w_calls w')%nat.
Proof.
  revert w. induction ls as [|a ls IH]; intros w E; cbn in E; [by injection E as ->|].
  destruct (step a w) as [w1|] eqn:Es; [|done]. apply step_calls in Es. apply IH in E. lia.
Qed.

Lemma inv_service_step a w w' : inv w -> Z.of_nat (w_calls w') < 2 ^ 32 -> step a w = Some w' -> inv w'.
Proof.
  intros Hi Hb. destruct a as [c r|c i|c|c l|c e|c|c|c|l|l|l]; cbn [KeyService.step].
  - intros [= <-]. apply inv_call; [done|]. cbn in Hb. lia.
  - by apply inv_send_request.
  - intros [= <-]. by apply inv_connect.
  - by apply inv_become_connected.
  - by apply inv_disconnected.
  - by apply inv_fail_step.
  - intros [= <-]. by apply inv_client_close.
  - by apply inv_client_receive.
  - by apply inv_server_receive.
  - by apply inv_server_task.
  - destruct (w_links w !! l) as [x|] eqn:Ex; [|done]. intros [= <-]. pose proof (v_link w Hi l x Ex) as [Hu Hd Ht].
    apply (inv_put_link l _ x); try done. constructor; cbn; [by intros m ?%elem_of_nil|done|done].
Qed.

Lemma inv_service_run ls w w' : inv w -> Z.of_nat (w_calls w') < 2 ^ 32 -> run ls w = Some w' -> inv w'.
Proof.
  revert w. induction ls as [|a ls IH]; intros w Hi Hb E; cbn in E; [by injection E as <-|].
  destruct (step a w) as [w1|] eqn:Es; [|done]. pose proof (run_calls _ _ _ E).
  apply (IH w1); try done. apply (inv_service_step a w); try done. lia.
Qed.

(** ** Where an open call is *)

(** On its link: the request goes up, the handler is at it, or the answer comes
    down; or the server's end is closed. *)
Definition on_link (y : link) (id : Z) (r : request) : Prop :=
  ln_open y = false \/ request_message id r ∈ ln_up y \/ (exists key, ln_task y = Some (id, key) /\ r = RegisterKey key) \/
  exists m o, m ∈ ln_down y /\ answer m = Some (kind_of r, id, o).

(** The connection has the request. *)
Definition under_way w (k : conn) (id : Z) (r : request) : Prop :=
  match k with
  | NotConnected q | Connecting q => request_message id r ∈ q
  | Connected l => exists y, w_links w !! l = Some y /\ on_link y id r
  | Failing ks _ _ => kind_of r ∈ ks
  | Closed => False
  end.

(** The request waits to be sent, was given to a connection that is over, is
    older than a [close], or is under way. *)
Definition in_transit w (c n : nat) (id : Z) (r : request) : Prop :=
  (n, request_message id r) ∈ cl_calling (client_of c w) \/ Unsent c n ∈ w_log w \/
  before (Called c n id r) (CloseCalled c) (w_log w) \/ under_way w (cl_conn (client_of c w)) id r.

Definition tracked w (c : nat) : Prop := forall n id r,
  Called c n id r ∈ w_log w -> cl_pending (client_of c w) (kind_of r) !! id = Some n -> in_transit w c n id r.

(** The link of [c] changes so that nothing on it is lost. *)
Definition link_kept w w' (c : nat) : Prop := forall l, cl_conn (client_of c w) = Connected l ->
  forall y, w_links w !! l = Some y -> exists y', w_links w' !! l = Some y' /\ forall id r, on_link y id r -> on_link y' id r.

Lemma transit_kept w w' es c n id r : cl_conn (client_of c w') = cl_conn (client_of c w) ->
  cl_calling (client_of c w) ⊆ cl_calling (client_of c w') -> w_log w' = w_log w ++ es -> link_kept w w' c ->
  in_transit w c n id r -> in_transit w' c n id r.
Proof.
  intros Ec Ecl El Hl. unfold in_transit. rewrite Ec, El.
  intros [?|[?|[?|Hc]]]; [left; by apply Ecl|right; left; by apply elem_of_app; left| |].
  - right; right; left. by apply before_app.
  - right; right; right. destruct (cl_conn (client_of c w)) as [q|q|l|ks taken e|] eqn:Ek; try done.
    destruct Hc as (y & Hy & Hon). destruct (Hl l Ek y Hy) as (y' & Hy' & Hk). exists y'. auto.
Qed.

Lemma tracked_kept w w' es c : client_of c w' = client_of c w -> w_log w' = w_log w ++ es -> link_kept w w' c ->
  (forall n id r, Called c n id r ∉ es) -> tracked w c -> tracked w' c.
Proof.
  intros Ec El Hl Hn Ht n id r Hc Hp. rewrite El, elem_of_app in Hc. destruct Hc as [Hc|Hc]; [|by destruct (Hn n id r)].
  rewrite Ec in Hp. by eapply transit_kept, Ht; rewrite ?Ec.
Qed.

Lemma link_kept_refl w w' c : w_links w' = w_links w -> link_kept w w' c.
Proof. intros E l _ y Hy. exists y. rewrite E. by split. Qed.

(** A link changes that is not the one of [c]. *)
Lemma link_kept_other w w' c c0 l y y' : inv w -> w_links w !! l = Some y -> ln_client y = c0 -> c <> c0 ->
  w_links w' = <[l := y']> (w_links w) -> link_kept w w' c.
Proof.
  intros Hi Hy Hc Hne E l' Hl' y1 Hy1. exists y1. rewrite E. rewrite lookup_insert_ne; [by split|]. intros <-.
  rewrite Hy in Hy1. injection Hy1 as <-. destruct (connected_link w c l y Hi Hl' Hy). congruence.
Qed.

(** A live link changes and keeps what is on it. *)
Lemma link_kept_put w w' c l y y' : inv w -> w_links w !! l = Some y -> w_links w' = <[l := y']> (w_links w) ->
  (ln_live y = true -> forall id r, on_link y id r -> on_link y' id r) -> link_kept w w' c.
Proof.
  intros Hi Hy E Hk l' Hl' y1 Hy1. rewrite E. destruct (decide (l' = l)) as [->|Hne].
  - rewrite Hy in Hy1. injection Hy1 as <-. exists y'. rewrite lookup_insert_eq. split; [done|].
    apply Hk. by destruct (connected_link w c l y Hi Hl' Hy).
  - exists y1. rewrite lookup_insert_ne by done. by split.
Qed.

(** The server's steps. *)
Lemma tracked_put_link w w' es l y y' : inv w -> (forall c, tracked w c) -> w_links w !! l = Some y -> w_clients w' = w_clients w ->
  w_links w' = <[l := y']> (w_links w) -> w_log w' = w_log w ++ es -> (forall c n id r, Called c n id r ∉ es) ->
  (ln_live y = true -> forall id r, on_link y id r -> on_link y' id r) -> forall c, tracked w' c.
Proof.
  intros Hi Ht Hy Ec El Elog Hes Hk c. apply (tracked_kept w w' es c); [unfold client_of; by rewrite Ec|done|by eapply link_kept_put|apply Hes|apply Ht].
Qed.

Lemma tracked_respond l x x0 id r m w w0 : inv w0 -> (forall c, tracked w0 c) -> w_links w0 !! l = Some x0 ->
  w_links w = w_links w0 -> w_clients w = w_clients w0 -> w_log w = w_log w0 -> ln_live x = ln_live x0 ->
  (forall id' r', on_link x0 id' r' -> on_link x id' r' \/ id' = id /\ r' = r) -> (exists o, answer m = Some (kind_of r, id, o)) ->
  forall c, tracked (respond l x id r m w) c.
Proof.
  intros Hi Ht Hx El Ec Elog Hl Hon (o & Ho).
  apply (tracked_put_link w0 _ [Served (ln_client x) id r m] l x0 (if ln_open x && ln_live x then set_down (ln_down x ++ [m]) x else x));
    try done; cbn; [by rewrite El|by rewrite Elog|by intros c n id' r' ?%list_elem_of_singleton|].
  rewrite <- Hl. intros Hlive id' r' H'. rewrite Hlive, andb_true_r. destruct (ln_open x) eqn:Eo; [|by left].
  destruct (Hon id' r' H') as [[?|[?|[?|(m' & o' & Hm & Ha)]]]|[-> ->]].
  - congruence.
  - by right; left.
  - by right; right; left.
  - right; right; right. exists m', o'. split; [apply elem_of_app; by left|done].
  - right; right; right. exists m, o. split; [apply elem_of_app; right; by apply list_elem_of_singleton|done].
Qed.

Lemma request_message_inj id r id' r' : request_message id r = request_message id' r' -> id = id' /\ r = r'.
Proof. destruct r, r'; intros E; by simplify_eq/=. Qed.

(** The request at the head of the queue is taken off. *)
Lemma on_link_pop x m rest : ln_up x = m :: rest -> ln_task x = None -> forall id r,
  on_link x id r -> on_link (set_up rest x) id r \/ m = request_message id r.
Proof.
  intros Eu Et id r [?|[Hm|[(key & Hk & _)|?]]]; [by left; left| |congruence|by left; right; right; right].
  rewrite Eu in Hm. apply elem_of_cons in Hm as [<-|Hm]; [by right|by left; right; left].
Qed.

Lemma tracked_server_receive l w w' : inv w -> (forall c, tracked w c) -> server_receive what l w = Some w' -> forall c, tracked w' c.
Proof.
  intros Hi Ht. unfold server_receive. destruct (w_links w !! l) as [x|] eqn:Ex; [|done].
  destruct (ln_open x) eqn:Eo; [|done]. destruct (ln_task x) eqn:Et; [done|]. destruct (ln_up x) as [|m rest] eqn:Eu; [done|].
  intros [= <-]. pose proof (on_link_pop x m rest Eu Et) as Hpop.
  assert (forall id r, m = request_message id r -> forall id' r',
    on_link x id' r' -> on_link (set_up rest x) id' r' \/ id' = id /\ r' = r) as Hp.
  { intros id r -> id' r' H'. destruct (Hpop id' r' H') as [?|E]; [by left|right]. by apply request_message_inj in E as [-> ->]. }
  assert (forall y, ln_open y = false -> forall w1, w_links w1 = <[l := y]> (w_links w) -> w_clients w1 = w_clients w ->
    w_log w1 = w_log w -> forall c, tracked w1 c) as Hshut.
  { intros y Hy w1 El Ec Elog. apply (tracked_put_link w w1 [] l x y); try done; [by rewrite Elog, app_nil_r|by intros c n id r ?%elem_of_nil|].
    intros _ id r _. by left. }
  assert (forall (A : Type) id r (found : option A -> net_error -> message) res w1, m = request_message id r ->
    w_links w1 = w_links w -> w_clients w1 = w_clients w -> w_log w1 = w_log w ->
    (forall v e, exists o, answer (found v e) = Some (kind_of r, id, o)) ->
    forall c, tracked (answer_find l (set_up rest x) id r found res w1) c) as Hfind.
  { intros A id r found res w1 Em El Ec Elog Ha. unfold answer_find.
    destruct res as [v|e]; [by apply (tracked_respond l _ x _ _ _ w1 w); auto|].
    destruct (caught e); [by apply (tracked_respond l _ x _ _ _ w1 w); auto|].
    apply (Hshut (shut (set_up rest x))); [done| |done|done]. cbn. by rewrite El. }
  unfold server_handle. destruct m as [id key|id kid|id cid|id e|id key e|id cert e];
    try (by apply (Hshut (shut (set_up rest x)))).
  - destruct (register_check key (w_keys w)) as [[[]|e] k].
    + apply (tracked_put_link w _ [] l x (set_task (Some (id, key)) (set_up rest x))); try done;
        [cbn; by rewrite app_nil_r|by intros c n id' r' ?%elem_of_nil|].
      intros _ id' r' H'. destruct (Hp id (RegisterKey key) eq_refl id' r' H') as [[Hf|[?|[(key' & Hk & _)|?]]]|[-> ->]].
      * cbn in Hf. congruence.
      * by right; left.
      * cbn in Hk. congruence.
      * by right; right; right.
      * right; right; left. by exists key.
    + apply (tracked_respond l _ x _ _ _ (put_keys k w) w); try done; [|by eexists]. by apply Hp.
  - destruct (find_key kid (w_keys w)) as [res k]. apply (Hfind _ id (FindKey kid)); try done. by eexists.
  - destruct (find_certificate cid (w_certs w)) as [res k]. apply (Hfind _ id (FindCertificate cid)); try done. by eexists.
Qed.

Lemma tracked_server_task l w w' : inv w -> (forall c, tracked w c) -> server_task what l w = Some w' -> forall c, tracked w' c.
Proof.
  intros Hi Ht. unfold server_task. destruct (w_links w !! l) as [x|] eqn:Ex; [|done].
  destruct (ln_task x) as [[id key]|] eqn:Et; [|done]. destruct (register_insert key (w_keys w)) as [res k]. intros [= <-].
  apply (tracked_respond l (set_task None x) x _ _ _ (put_keys k w) w); try done; [|by eexists].
  intros id' r' [?|[?|[(key' & Hk & ->)|?]]]; [by left; left|by left; right; left| |by left; right; right; right].
  right. rewrite Et in Hk. by injection Hk as <- <-.
Qed.

(** The clients' steps: at the other clients nothing changes. *)
Lemma clients_insert w w' c x : w_clients w' = <[c := x]> (w_clients w) ->
  forall c', client_of c' w' = if decide (c' = c) then x else client_of c' w.
Proof.
  intros E c'. unfold client_of. rewrite E. case_decide; [subst; by rewrite lookup_insert_eq|by rewrite lookup_insert_ne].
Qed.

Lemma tracked_client w w' es c x : (forall c', tracked w c') ->
  (forall c', client_of c' w' = if decide (c' = c) then x else client_of c' w) -> w_log w' = w_log w ++ es ->
  (forall c' n id r, c' <> c -> Called c' n id r ∉ es) -> (forall c', c' <> c -> link_kept w w' c') ->
  (client_of c w' = x -> tracked w' c) -> forall c', tracked w' c'.
Proof.
  intros Ht Ec El Hes Hl Hc c'. destruct (decide (c' = c)) as [->|Hne].
  - apply Hc. by rewrite Ec, decide_True.
  - apply (tracked_kept w w' es c'); auto. by rewrite Ec, decide_False.
Qed.

(** What is left to show of the client that moved. *)
Lemma tracked_self w w' es c x : client_of c w' = x -> w_log w' = w_log w ++ es -> (forall n id r, Called c n id r ∉ es) ->
  tracked w c ->
  (forall k id n, cl_pending x k !! id = Some n -> cl_pending (client_of c w) k !! id = Some n) ->
  (forall n id r, Called c n id r ∈ w_log w -> cl_pending x (kind_of r) !! id = Some n -> (n, request_message id r) ∈ cl_calling (client_of c w) ->
     in_transit w' c n id r) ->
  (forall n id r, Called c n id r ∈ w_log w -> cl_pending x (kind_of r) !! id = Some n -> under_way w (cl_conn (client_of c w)) id r ->
     in_transit w' c n id r) -> tracked w' c.
Proof.
  intros Ex El Hes Ht Hpen Hcall Hway n id r Hc Hp. rewrite Ex in Hp. rewrite El, elem_of_app in Hc. destruct Hc as [Hc|Hc]; [|by destruct (Hes n id r)].
  destruct (Ht n id r Hc (Hpen _ _ _ Hp)) as [?|[Hu|[Hb|?]]]; [auto| | |auto].
  - right; left. rewrite El. apply elem_of_app. by left.
  - right; right; left. rewrite El. by apply before_app.
Qed.

Lemma tracked_call c r w : inv w -> inv (call c r w) -> (forall c', tracked w c') -> forall c', tracked (call c r w) c'.
Proof.
  intros Hi Hi' Ht. set (w' := call c r w) in *. set (x := client_of c w).
  assert (w_log w' = w_log w ++ [Called c (w_calls w) (next_id x) r]) as El by done.
  assert (w_clients w' = <[c := client_of c w']> (w_clients w)) as Ecl.
  { unfold client_of. unfold w', call. cbn. by rewrite lookup_insert_eq. }
  assert (cl_calling (client_of c w') = cl_calling x ++ [(w_calls w, request_message (next_id x) r)]) as Ecall.
  { unfold w', call, client_of. cbn. by rewrite lookup_insert_eq. }
  assert (cl_conn (client_of c w') = cl_conn x) as Econn.
  { unfold w', call, client_of. cbn. by rewrite lookup_insert_eq. }
  apply (tracked_client w w' _ c _ Ht (clients_insert _ _ _ _ Ecl) El).
  - intros c' n id r' Hne E%list_elem_of_singleton. congruence.
  - intros c' _. by apply link_kept_refl.
  - intros _ n id r' Hc Hp. rewrite El in Hc. apply called_last in Hc as [Hc|(_ & -> & -> & ->)].
    + apply (transit_kept w w' _ c n id r' Econn) with (2 := El); [|by apply link_kept_refl|].
      * fold x. rewrite Ecall. intros y Hy. apply elem_of_app. by left.
      * apply Ht; [done|]. destruct (k_kept _ _ _ (v_client w Hi c) _ _ _ Hc) as [Hd|[?|Hn]]; [exfalso|done|exfalso].
        -- eapply (k_held _ _ _ (v_client w' Hi' c)); [left; eauto|]. by rewrite El, dones_called.
        -- fold x in Hn. rewrite <- Econn in Hn. destruct (k_taken _ _ _ (v_client w' Hi' c) n Hn) as [_ Hno]. by eapply Hno.
    + left. rewrite Ecall. apply elem_of_app. right. by apply list_elem_of_singleton.
Qed.

Lemma elem_of_delete_or {X} (l : list X) i x y : l !! i = Some y -> x ∈ l -> x ∈ delete i l \/ x = y.
Proof.
  intros Hi Hx. rewrite <- (take_drop_middle l i y Hi) in Hx. rewrite delete_take_drop.
  rewrite elem_of_app, elem_of_cons in Hx. rewrite elem_of_app. tauto.
Qed.

(** A request leaves the caller for the connection, which becomes [k]. *)
Lemma tracked_sent c i n0 m0 k w w1 es : (forall c', tracked w c') -> cl_calling (client_of c w) !! i = Some (n0, m0) ->
  w_clients w1 = <[c := set_conn k (set_calling (delete i (cl_calling (client_of c w))) (client_of c w))]> (w_clients w) ->
  w_log w1 = w_log w ++ es -> (forall c n id r, Called c n id r ∉ es) -> (forall c', c' <> c -> link_kept w w1 c') ->
  (forall id r, m0 = request_message id r -> Unsent c n0 ∈ es \/ under_way w1 k id r) ->
  (forall id r, under_way w (cl_conn (client_of c w)) id r -> under_way w1 k id r) -> forall c', tracked w1 c'.
Proof.
  intros Ht Hi Ec El Hes Hl Hnew Hold. apply (tracked_client w w1 es c _ Ht (clients_insert _ _ _ _ Ec) El); [intros; apply Hes|done|].
  intros E. apply (tracked_self w w1 es c _ E El (Hes c) (Ht c)); [done| |].
  - intros n id r _ _ Hin. destruct (elem_of_delete_or _ _ _ _ Hi Hin) as [?|[= -> Em]]; [left; by rewrite E|].
    destruct (Hnew id r (eq_sym Em)); [right; left; rewrite El; apply elem_of_app; by right|right; right; right; by rewrite E].
  - intros n id r _ _ Hw. right; right; right. rewrite E. by apply Hold.
Qed.

Lemma tracked_send_request c i w w' : inv w -> (forall c', tracked w c') -> send_request c i w = Some w' -> forall c', tracked w' c'.
Proof.
  intros Hi Ht. unfold send_request. destruct (cl_calling (client_of c w) !! i) as [[n0 m0]|] eqn:Ei; [|done].
  change (cl_conn (set_calling ?v ?x)) with (cl_conn x).
  assert (forall k w1, (forall id r, m0 = request_message id r -> under_way w1 k id r) ->
    (forall id r, under_way w (cl_conn (client_of c w)) id r -> under_way w1 k id r) ->
    w1 = put_client c (set_conn k (set_calling (delete i (cl_calling (client_of c w))) (client_of c w))) w -> forall c', tracked w1 c') as Hq.
  { intros k w1 Hn Ho ->. apply (tracked_sent c i n0 m0 k w _ [] Ht Ei); try done; cbn; [by rewrite app_nil_r|by intros ? ? ? ? ?%elem_of_nil| |auto].
    intros c' _. by apply link_kept_refl. }
  destruct (cl_conn (client_of c w)) as [q|q|l|ks taken e|] eqn:Ek.
  - intros [= <-]. apply (Hq (NotConnected (q ++ [m0]))); try done; cbn; intros id r; rewrite elem_of_app, list_elem_of_singleton; auto.
  - intros [= <-]. apply (Hq (Connecting (q ++ [m0]))); try done; cbn; intros id r; rewrite elem_of_app, list_elem_of_singleton; auto.
  - destruct (w_links w !! l) as [y|] eqn:Ey; [|done]. intros [= <-]. destruct (connected_link w c l y Hi Ek Ey) as [Ec El].
    set (y' := if ln_open y then set_up (ln_up y ++ [m0]) y else y).
    assert (forall id r, on_link y id r -> on_link y' id r) as Hon.
    { intros id r Hy. unfold y'. destruct (ln_open y); [|done]. destruct Hy as [?|[?|[?|?]]]; [by left| |by right; right; left|by right; right; right].
      right; left. cbn. apply elem_of_app. by left. }
    apply (tracked_sent c i n0 m0 (Connected l) w _ [] Ht Ei); try done; cbn; [|by rewrite app_nil_r|by intros ? ? ? ? ?%elem_of_nil| | |].
    + f_equal. unfold set_conn. cbn. by rewrite <- Ek.
    + intros c' Hne. by apply (link_kept_other w _ c' c l y y' Hi Ey).
    + intros id r ->. right. exists y'. split; [by rewrite lookup_insert_eq|]. unfold y'. destruct (ln_open y) eqn:Eo; [|by left].
      right; left. cbn. apply elem_of_app. right. by apply list_elem_of_singleton.
    + rewrite Ek. intros id r (y1 & Hy1 & Hy1'). exists y'. split; [by rewrite lookup_insert_eq|]. apply Hon. congruence.
  - intros [= <-]. apply (tracked_sent c i n0 m0 (Failing ks taken e) w _ [Unsent c n0] Ht Ei); try done; cbn.
    + f_equal. unfold set_conn. cbn. by rewrite <- Ek.
    + by intros ? ? ? ? ?%list_elem_of_singleton.
    + intros c' _. by apply link_kept_refl.
    + intros id r _. left. by apply list_elem_of_singleton.
    + by rewrite Ek.
  - intros [= <-]. apply (tracked_sent c i n0 m0 Closed w _ [Unsent c n0] Ht Ei); try done; cbn.
    + f_equal. unfold set_conn. cbn. by rewrite <- Ek.
    + by intros ? ? ? ? ?%list_elem_of_singleton.
    + intros c' _. by apply link_kept_refl.
    + intros id r _. left. by apply list_elem_of_singleton.
    + by rewrite Ek.
Qed.

(** The connection of a client changes; what was under way is still in transit. *)
Lemma tracked_conn c k w w1 es : (forall c', tracked w c') -> w_clients w1 = <[c := set_conn k (client_of c w)]> (w_clients w) ->
  w_log w1 = w_log w ++ es -> (forall c n id r, Called c n id r ∉ es) -> (forall c', c' <> c -> link_kept w w1 c') ->
  (forall n id r, Called c n id r ∈ w_log w -> under_way w (cl_conn (client_of c w)) id r -> in_transit w1 c n id r) ->
  forall c', tracked w1 c'.
Proof.
  intros Ht Ec El Hes Hl Hold. apply (tracked_client w w1 es c _ Ht (clients_insert _ _ _ _ Ec) El); [intros; apply Hes|done|].
  intros E. apply (tracked_self w w1 es c _ E El (Hes c) (Ht c)); [done| |].
  - intros n id r _ _ Hin. left. by rewrite E.
  - intros n id r Hc _. by apply Hold.
Qed.

Lemma under_way_transit w c n id r : under_way w (cl_conn (client_of c w)) id r -> in_transit w c n id r.
Proof. by right; right; right. Qed.

Lemma tracked_connect c w : (forall c', tracked w c') -> forall c', tracked (connect c w) c'.
Proof.
  intros Ht. unfold connect. destruct (cl_conn (client_of c w)) as [q|q|l|ks taken e|] eqn:Ek; try done.
  - apply (tracked_conn c (Connecting q) w _ [] Ht); try done; cbn; [by rewrite app_nil_r|by intros ? ? ? ? ?%elem_of_nil| |].
    + intros c' _. by apply link_kept_refl.
    + intros n id r _ Hw. apply under_way_transit. rewrite Ek in Hw. rewrite client_after_put, decide_True by done. exact Hw.
  - apply (tracked_conn c (Connecting []) w _ [] Ht); try done; cbn; [by rewrite app_nil_r|by intros ? ? ? ? ?%elem_of_nil| |].
    + intros c' _. by apply link_kept_refl.
    + rewrite Ek. done.
Qed.

Lemma tracked_become_connected c l w w' : inv w -> (forall c', tracked w c') -> become_connected c l w = Some w' -> forall c', tracked w' c'.
Proof.
  intros Hi Ht. unfold become_connected. destruct (cl_conn (client_of c w)) as [q|q|l0|ks taken e|] eqn:Ek; try done.
  destruct (w_links w !! l) as [y|] eqn:Ey; [done|]. intros [= <-].
  apply (tracked_conn c (Connected l) w _ [] Ht); try done; cbn; [by rewrite app_nil_r|by intros ? ? ? ? ?%elem_of_nil| |].
  - intros c' _ l' Hl' y' Hy'. exists y'. cbn. rewrite lookup_insert_ne by congruence. by split.
  - intros n id r _ Hw. apply under_way_transit. change (client_of c (put_link _ _ ?w')) with (client_of c w').
    rewrite client_after_put, decide_True by done. cbn. eexists. rewrite lookup_insert_eq. split; [done|]. right; left. cbn. by rewrite Ek in Hw.
Qed.

Lemma link_kept_drop w w1 c c' : inv w -> c' <> c -> w_links w1 = w_links (drop_link (client_of c w) w) -> link_kept w w1 c'.
Proof.
  intros Hi Hne El. unfold drop_link in El. destruct (cl_conn (client_of c w)) as [q|q|l|ks taken e|] eqn:Ek; try by apply link_kept_refl.
  destruct (w_links w !! l) as [y|] eqn:Ey; [|by apply link_kept_refl]. destruct (connected_link w c l y Hi Ek Ey) as [<- _].
  eapply (link_kept_other w w1 c' _ l y _ Hi Ey eq_refl Hne). exact El.
Qed.

Lemma drop_link_rest x w : w_clients (drop_link x w) = w_clients w /\ w_log (drop_link x w) = w_log w.
Proof. unfold drop_link. by repeat case_match. Qed.

Lemma drop_link_put x c y w : w_links (drop_link x (put_client c y w)) = w_links (drop_link x w).
Proof. unfold drop_link. cbn. by repeat case_match. Qed.

(** A client lets go of its link and goes on as [k]. *)
Lemma tracked_let_go c k ev w : inv w -> (forall c', tracked w c') -> quiet ev ->
  (forall n id r, Called c n id r ∈ w_log w ->
     before (Called c n id r) (CloseCalled c) (w_log w ++ [ev]) \/ kind_of r ∈ kinds_of k) ->
  forall c', tracked (note ev (drop_link (client_of c w) (put_client c (set_conn k (client_of c w)) w))) c'.
Proof.
  intros Hi Ht Hq Hk. set (w1 := note ev _).
  destruct (drop_link_rest (client_of c w) (put_client c (set_conn k (client_of c w)) w)) as [Ec El].
  assert (w_clients w1 = <[c := set_conn k (client_of c w)]> (w_clients w)) as Ec1 by exact Ec.
  assert (w_log w1 = w_log w ++ [ev]) as El1 by exact (f_equal (fun l => l ++ [ev]) El).
  apply (tracked_conn c k w w1 [ev] Ht Ec1 El1).
  - intros c0 n id r E%list_elem_of_singleton. by rewrite <- E in Hq.
  - intros c' Hne. apply (link_kept_drop w _ c c' Hi Hne). apply drop_link_put.
  - intros n id r Hc _. destruct (Hk n id r Hc) as [Hb|Hr]; [right; right; left; by rewrite El1|].
    apply under_way_transit. rewrite (clients_insert _ _ _ _ Ec1), decide_True by done. cbn. destruct k; try by apply elem_of_nil in Hr.
    exact Hr.
Qed.

Lemma in_all_kinds k : k ∈ all_kinds.
Proof. destruct k; repeat first [apply list_elem_of_here|apply list_elem_of_further]. Qed.

Lemma tracked_disconnected c e w w' : inv w -> (forall c', tracked w c') -> disconnected c e w = Some w' -> forall c', tracked w' c'.
Proof.
  intros Hi Ht E.
  assert (w' = note (Lost c e) (drop_link (client_of c w) (put_client c (set_conn (Failing all_kinds [] (fail_error e)) (client_of c w)) w))) as ->.
  { unfold disconnected in E. by destruct (cl_conn (client_of c w)); simplify_eq. }
  apply tracked_let_go; try done. intros n id r _. right. apply in_all_kinds.
Qed.

Lemma tracked_close c w : inv w -> (forall c', tracked w c') -> forall c', tracked (close c w) c'.
Proof.
  intros Hi Ht. unfold close.
  assert (forall c', tracked (note (CloseCalled c) (drop_link (client_of c w) (put_client c (set_conn Closed (client_of c w)) w))) c') as Hgo.
  { apply tracked_let_go; try done. intros n id r Hc. left. by apply before_last. }
  by destruct (cl_conn (client_of c w)).
Qed.

Lemma tracked_fail_step c w w' : (forall c', tracked w c') -> fail_step c w = Some w' -> forall c', tracked w' c'.
Proof.
  intros Ht. unfold fail_step. destruct (cl_conn (client_of c w)) as [q|q|l|[|k ks] taken e|] eqn:Ek; try done.
  - destruct taken as [|n0 taken]; intros [= <-].
    + apply (tracked_conn c Closed w _ [] Ht); try done; cbn; [by rewrite app_nil_r|by intros ? ? ? ? ?%elem_of_nil| |].
      * intros c' _. by apply link_kept_refl.
      * rewrite Ek. intros n id r _ Hw. cbn in Hw. by apply elem_of_nil in Hw.
    + apply (tracked_conn c (Failing [] taken e) w _ [Done c n0 (CallFailed e)] Ht); try done; cbn; [by intros ? ? ? ? ?%list_elem_of_singleton| |].
      * intros c' _. by apply link_kept_refl.
      * rewrite Ek. intros n id r _ Hw. cbn in Hw. by apply elem_of_nil in Hw.
  - intros [= <-]. set (x := set_conn _ _). apply (tracked_client w _ [] c x Ht); [by apply clients_insert|cbn; by rewrite app_nil_r|by intros ? ? ? ? ? ?%elem_of_nil| |].
    + intros c' _. by apply link_kept_refl.
    + intros E. apply (tracked_self w _ [] c x E); try done; [cbn; by rewrite app_nil_r|by intros ? ? ? ?%elem_of_nil| | |].
      * intros k' id n. cbn. case_decide; [by rewrite lookup_empty|done].
      * intros n id r _ _ Hin. left. by rewrite E.
      * intros n id r _ Hp Hw. apply under_way_transit. rewrite E. rewrite Ek in Hw. cbn in *. case_decide as Hd; [by rewrite lookup_empty in Hp|].
        apply elem_of_cons in Hw as [?|?]; [done|done].
Qed.

Lemma tracked_client_receive c w w' : inv w -> (forall c', tracked w c') -> client_receive c w = Some w' -> forall c', tracked w' c'.
Proof.
  intros Hi Ht. unfold client_receive. destruct (cl_conn (client_of c w)) as [q|q|l|ks taken e|] eqn:Ek; try done.
  destruct (w_links w !! l) as [y|] eqn:Ey; [|done]. destruct (ln_down y) as [|m rest] eqn:Ed; [done|]. intros [= <-].
  destruct (connected_link w c l y Hi Ek Ey) as [Ecl Elive]. pose proof (v_link w Hi l y Ey) as [_ Hd _].
  destruct (Hd m) as (n0 & id0 & r0 & o0 & Hb & Ha); [rewrite Ed; apply list_elem_of_here|]. rewrite Ecl in Hb.
  set (y' := set_down rest y). set (w1 := put_link l y' w).
  assert (forall id r, on_link y id r -> on_link y' id r \/ kind_of r = kind_of r0 /\ id = id0) as Hon.
  { intros id r [?|[?|[?|(m' & o & Hm & Ho)]]]; [by left; left|by left; right; left|by left; right; right; left|].
    rewrite Ed in Hm. apply elem_of_cons in Hm as [->|Hm]; [right; rewrite Ha in Ho; by injection Ho|left; right; right; right; by exists m', o]. }
  assert (forall x es w2, (forall c n id r, Called c n id r ∉ es) -> cl_conn x = Connected l -> cl_calling x = cl_calling (client_of c w) ->
    (forall k id n, cl_pending x k !! id = Some n -> cl_pending (client_of c w) k !! id = Some n /\ ~ (k = kind_of r0 /\ id = id0)) ->
    (forall c', client_of c' w2 = if decide (c' = c) then x else client_of c' w) -> w_links w2 = <[l:=y']> (w_links w) ->
    w_log w2 = w_log w ++ es -> forall c', tracked w2 c') as Hgo.
  { intros x es w2 Hes Ex Ecall Hpen Ec2 El2 Elog. apply (tracked_client w _ es c x Ht Ec2 Elog); [intros ? ? ? ? _; apply Hes| |].
    - intros c' Hne. by apply (link_kept_other w _ c' c l y y' Hi Ey).
    - intros E. apply (tracked_self w _ es c x E Elog (Hes c) (Ht c)); [intros k id n Hn; apply (Hpen _ _ _ Hn)| |].
      + intros n id r _ _ Hin. left. by rewrite E, Ecall.
      + intros n id r _ [_ Hno]%Hpen Hw. apply under_way_transit. rewrite E, Ex. rewrite Ek in Hw. destruct Hw as (y1 & Hy1 & Hy1').
        exists y'. rewrite El2. split; [by rewrite lookup_insert_eq|]. rewrite Ey in Hy1. injection Hy1 as <-.
        destruct (Hon id r Hy1') as [?|?]; [done|by destruct Hno]. }
  unfold client_handle. rewrite Ha. unfold complete. change (client_of c w1) with (client_of c w).
  destruct (cl_pending (client_of c w) (kind_of r0) !! id0) as [n|] eqn:En.
  - apply (Hgo (set_pending (kind_of r0) (delete id0 (cl_pending (client_of c w) (kind_of r0))) (client_of c w)) [Done c n o0]); try done.
    + by intros ? ? ? ? ?%list_elem_of_singleton.
    + intros k id n'. cbn. case_decide as Hk.
      * subst. rewrite lookup_delete_Some. intros [Hid Hn']. split; [done|]. by intros [_ ->].
      * intros Hn'. split; [done|]. by intros [? _].
    + by apply clients_insert.
  - apply (Hgo (client_of c w) []); try done.
    + by intros ? ? ? ? ?%elem_of_nil.
    + intros k id n Hn. split; [done|]. intros [-> ->]. congruence.
    + intros c'. change (client_of c' w1) with (client_of c' w). case_decide; by subst.
    + cbn. by rewrite app_nil_r.
Qed.

Lemma tracked_step a w w' : inv w -> inv w' -> (forall c, tracked w c) -> step a w = Some w' -> forall c, tracked w' c.
Proof.
  intros Hi Hi' Ht. destruct a as [c r|c i|c|c l|c e|c|c|c|l|l|l]; cbn [KeyService.step].
  - intros [= <-]. by apply tracked_call.
  - by apply tracked_send_request.
  - intros [= <-]. by apply tracked_connect.
  - by apply tracked_become_connected.
  - by apply tracked_disconnected.
  - by apply tracked_fail_step.
  - intros [= <-]. by apply tracked_close.
  - by apply tracked_client_receive.
  - by apply tracked_server_receive.
  - by apply tracked_server_task.
  - destruct (w_links w !! l) as [x|] eqn:Ex; [|done]. intros [= <-].
    apply (tracked_put_link w _ [] l x (shut x)); try done; [cbn; by rewrite app_nil_r|by intros ? ? ? ? ?%elem_of_nil|].
    intros _ id r _. by left.
Qed.

(** ** Calls older than the loss of the connection *)

Lemma before_snoc x y log es : before x y (log ++ es) -> before x y log \/ y ∈ es.
Proof.
  induction es as [|e es IH] using rev_ind; [rewrite app_nil_r; by left|].
  intros (l1 & l2 & l3 & E). destruct l3 as [|e' l3 _] using rev_ind.
  - rewrite app_assoc, app_comm_cons, app_assoc in E. apply app_inj_tail in E as [_ ->].
    right. apply elem_of_app. right. by apply list_elem_of_singleton.
  - rewrite app_assoc in E. replace (l1 ++ x :: l2 ++ y :: l3 ++ [e']) with ((l1 ++ x :: l2 ++ y :: l3) ++ [e']) in E
      by (by rewrite <- !app_assoc, !app_comm_cons, <- !app_assoc).
    apply app_inj_tail in E as [E _]. destruct IH as [?|?]; [by exists l1, l2, l3|by left|right; apply elem_of_app; by left].
Qed.

Definition lost_ok w (c : nat) : Prop := forall n id r e, before (Called c n id r) (Lost c e) (w_log w) ->
  cl_pending (client_of c w) (kind_of r) !! id = Some n -> kind_of r ∈ kinds_of (cl_conn (client_of c w)).

Lemma lost_ok_kept w w' es c : w_log w' = w_log w ++ es -> (forall e, Lost c e ∉ es) ->
  (forall k id n r, Called c n id r ∈ w_log w -> cl_pending (client_of c w') k !! id = Some n -> cl_pending (client_of c w) k !! id = Some n) ->
  (forall k id n, cl_pending (client_of c w') k !! id = Some n -> k ∈ kinds_of (cl_conn (client_of c w)) ->
     k ∈ kinds_of (cl_conn (client_of c w'))) ->
  lost_ok w c -> lost_ok w' c.
Proof.
  intros El Hes Hp Hk Hl n id r e Hb Hn. rewrite El in Hb. apply before_snoc in Hb as [Hb|Hb]; [|by destruct (Hes e)].
  apply (Hk _ id n Hn), (Hl n id r e Hb), (Hp _ _ _ r); [|done]. by apply before_in in Hb as [? _].
Qed.

(** A client that is not touched. *)
Lemma lost_ok_same w w' es c : w_log w' = w_log w ++ es -> (forall e, Lost c e ∉ es) -> client_of c w' = client_of c w ->
  lost_ok w c -> lost_ok w' c.
Proof. intros El Hes Ec. apply (lost_ok_kept w w' es c El Hes); by rewrite Ec. Qed.

Definition no_loss (es : list event) : Prop := forall c e, Lost c e ∉ es.

Lemma no_loss_nil : no_loss [].
Proof. by intros c e ?%elem_of_nil. Qed.

Lemma no_loss_one ev : (forall c e, ev <> Lost c e) -> no_loss [ev].
Proof. intros Hno c e E%list_elem_of_singleton. by apply (Hno c e). Qed.

Definition servings (es : list event) : Prop := forall e, e ∈ es -> exists c id r m, e = Served c id r m.

Lemma servings_no_loss es : servings es -> no_loss es.
Proof. intros Hs c e He. destruct (Hs _ He) as (? & ? & ? & ? & E). done. Qed.

(** The server's steps leave the clients alone. *)
Lemma respond_frame l x id r m w : w_clients (respond l x id r m w) = w_clients w /\
  exists es, w_log (respond l x id r m w) = w_log w ++ es /\ servings es.
Proof. split; [done|]. eexists. split; [reflexivity|]. intros e ->%list_elem_of_singleton. eauto. Qed.

Lemma server_frame w w' : (exists l, server_receive what l w = Some w') \/ (exists l, server_task what l w = Some w') ->
  w_clients w' = w_clients w /\ exists es, w_log w' = w_log w ++ es /\ servings es.
Proof.
  assert (forall w1 : world, w_clients w1 = w_clients w -> w_log w1 = w_log w ->
    w_clients w1 = w_clients w /\ exists es, w_log w1 = w_log w ++ es /\ servings es) as Hsame.
  { intros w1 Ec El. split; [done|]. exists []. split; [by rewrite app_nil_r|by intros e ?%elem_of_nil]. }
  intros [(l & E)|(l & E)].
  - unfold server_receive in E. destruct (w_links w !! l) as [x|]; [|done].
    destruct (ln_open x), (ln_task x), (ln_up x) as [|m rest]; try done. injection E as <-.
    destruct m as [id key|id kid|id cid|id e|id key e|id cert e]; cbn [server_handle]; try by apply Hsame.
    + destruct (register_check key (w_keys w)) as [[u|e] k]; [by apply Hsame|exact (respond_frame _ _ _ _ _ (put_keys k w))].
    + destruct (find_key kid (w_keys w)) as [[v|e] k]; cbn [answer_find]; [exact (respond_frame _ _ _ _ _ (put_keys k w))|].
      destruct (caught e); [exact (respond_frame _ _ _ _ _ (put_keys k w))|by apply Hsame].
    + destruct (find_certificate cid (w_certs w)) as [[v|e] k]; cbn [answer_find]; [exact (respond_frame _ _ _ _ _ (put_certs k w))|].
      destruct (caught e); [exact (respond_frame _ _ _ _ _ (put_certs k w))|by apply Hsame].
  - unfold server_task in E. destruct (w_links w !! l) as [x|]; [|done]. destruct (ln_task x) as [[id key]|]; [|done].
    destruct (register_insert key (w_keys w)) as [res k]. injection E as <-. exact (respond_frame _ _ _ _ _ (put_keys k w)).
Qed.

(** One client moves, and nothing is lost. *)
Lemma lost_ok_client w w' es c x : (forall c', lost_ok w c') -> w_clients w' = <[c := x]> (w_clients w) -> w_log w' = w_log w ++ es -> no_loss es ->
  (forall k id n r, Called c n id r ∈ w_log w -> cl_pending x k !! id = Some n -> cl_pending (client_of c w) k !! id = Some n) ->
  (forall k id n, cl_pending x k !! id = Some n -> k ∈ kinds_of (cl_conn (client_of c w)) -> k ∈ kinds_of (cl_conn x)) ->
  forall c', lost_ok w' c'.
Proof.
  intros Hl Ec El Hes Hp Hk c'. destruct (decide (c' = c)) as [->|Hne].
  - apply (lost_ok_kept w w' es c El (Hes c)); rewrite ?(clients_insert _ _ _ _ Ec), ?decide_True by done; auto.
  - apply (lost_ok_same w w' es c' El (Hes c')); [|done]. by rewrite (clients_insert _ _ _ _ Ec), decide_False by done.
Qed.

Lemma lost_ok_call c r w : inv w -> (forall c', lost_ok w c') -> forall c', lost_ok (call c r w) c'.
Proof.
  intros Hi Hl. eapply (lost_ok_client w _ [Called c (w_calls w) (next_id (client_of c w)) r] c _ Hl); [done|done|by apply no_loss_one| |done].
  intros k id n r' Hc. cbn. case_decide as Hk; [|done]. subst k. unfold emplace.
  destruct (cl_pending (client_of c w) (kind_of r) !! next_id (client_of c w)); [done|].
  rewrite lookup_insert_Some. intros [[_ <-]|[_ ?]]; [|done]. pose proof (n_called _ _ (v_calls w Hi) _ _ _ _ Hc). lia.
Qed.

Lemma lost_ok_send_request c i w w' : (forall c', lost_ok w c') -> send_request c i w = Some w' -> forall c', lost_ok w' c'.
Proof.
  intros Hl. unfold send_request. destruct (cl_calling (client_of c w) !! i) as [[n m]|]; [|done]. change (cl_conn (set_calling ?v ?x)) with (cl_conn x).
  assert (forall w1 k es, w_clients w1 = <[c := set_conn k (set_calling (delete i (cl_calling (client_of c w))) (client_of c w))]> (w_clients w) ->
    w_log w1 = w_log w ++ es -> no_loss es -> kinds_of (cl_conn (client_of c w)) = kinds_of k -> forall c', lost_ok w1 c') as Hgo.
  { intros w1 k es Ec El Hes Hk. apply (lost_ok_client w w1 es c _ Hl Ec El Hes); [done|]. intros k' id n'. cbn. by rewrite Hk. }
  destruct (cl_conn (client_of c w)) as [q|q|l|ks taken e|] eqn:Ek.
  - intros [= <-]. apply (Hgo _ (NotConnected (q ++ [m])) []); [done|by rewrite app_nil_r|apply no_loss_nil|done].
  - intros [= <-]. apply (Hgo _ (Connecting (q ++ [m])) []); [done|by rewrite app_nil_r|apply no_loss_nil|done].
  - destruct (w_links w !! l) as [y|]; [|done]. intros [= <-].
    apply (Hgo _ (Connected l) []); [|by rewrite app_nil_r|apply no_loss_nil|done]. cbn. unfold set_conn. cbn. by rewrite <- Ek.
  - intros [= <-]. apply (Hgo _ (Failing ks taken e) [Unsent c n]); [|done|by apply no_loss_one|done]. cbn. unfold set_conn. cbn. by rewrite <- Ek.
  - intros [= <-]. apply (Hgo _ Closed [Unsent c n]); [|done|by apply no_loss_one|done]. cbn. unfold set_conn. cbn. by rewrite <- Ek.
Qed.

(** A client's connection changes, without promises that had been left to take. *)
Lemma lost_ok_conn c k w w' es : (forall c', lost_ok w c') -> kinds_of (cl_conn (client_of c w)) = [] ->
  w_clients w' = <[c := set_conn k (client_of c w)]> (w_clients w) -> w_log w' = w_log w ++ es -> no_loss es -> forall c', lost_ok w' c'.
Proof.
  intros Hl Hk Ec El Hes. apply (lost_ok_client w w' es c _ Hl Ec El Hes); [done|]. rewrite Hk. by intros ? ? ? _ ?%elem_of_nil.
Qed.

Lemma lost_ok_connect c w : (forall c', lost_ok w c') -> forall c', lost_ok (connect c w) c'.
Proof.
  intros Hl. unfold connect. destruct (cl_conn (client_of c w)) as [q|q|l|ks taken e|] eqn:Ek; try done.
  - apply (lost_ok_conn c (Connecting q) w _ [] Hl); [by rewrite Ek|done|by rewrite app_nil_r|apply no_loss_nil].
  - apply (lost_ok_conn c (Connecting []) w _ [] Hl); [by rewrite Ek|done|by rewrite app_nil_r|apply no_loss_nil].
Qed.

Lemma lost_ok_become_connected c l w w' : (forall c', lost_ok w c') -> become_connected c l w = Some w' -> forall c', lost_ok w' c'.
Proof.
  intros Hl. unfold become_connected. destruct (cl_conn (client_of c w)) as [q|q|l0|ks taken e|] eqn:Ek; try done.
  destruct (w_links w !! l); [done|]. intros [= <-].
  apply (lost_ok_conn c (Connected l) w _ [] Hl); [by rewrite Ek|done|by rewrite app_nil_r|apply no_loss_nil].
Qed.

Lemma lost_ok_disconnected c e w w' : (forall c', lost_ok w c') -> disconnected c e w = Some w' -> forall c', lost_ok w' c'.
Proof.
  intros Hl E.
  assert (w' = note (Lost c e) (drop_link (client_of c w) (put_client c (set_conn (Failing all_kinds [] (fail_error e)) (client_of c w)) w))) as ->.
  { unfold disconnected in E. by destruct (cl_conn (client_of c w)); simplify_eq. }
  destruct (drop_link_rest (client_of c w) (put_client c (set_conn (Failing all_kinds [] (fail_error e)) (client_of c w)) w)) as [Ec El].
  set (w1 := note _ _). assert (w_clients w1 = <[c := set_conn (Failing all_kinds [] (fail_error e)) (client_of c w)]> (w_clients w)) as Ec1 by exact Ec.
  assert (w_log w1 = w_log w ++ [Lost c e]) as El1 by exact (f_equal (fun l => l ++ [Lost c e]) El).
  intros c'. destruct (decide (c' = c)) as [->|Hne].
  - intros n id r e0 _ _. rewrite (clients_insert _ _ _ _ Ec1), decide_True by done. apply in_all_kinds.
  - apply (lost_ok_same w w1 _ c' El1); [|by rewrite (clients_insert _ _ _ _ Ec1), decide_False by done|done].
    intros e0 [=]%list_elem_of_singleton. done.
Qed.

Lemma lost_ok_fail_step c w w' : (forall c', lost_ok w c') -> fail_step c w = Some w' -> forall c', lost_ok w' c'.
Proof.
  intros Hl. unfold fail_step. destruct (cl_conn (client_of c w)) as [q|q|l|[|k ks] taken e|] eqn:Ek; try done.
  - destruct taken as [|n taken]; intros [= <-].
    + apply (lost_ok_conn c Closed w _ [] Hl); [by rewrite Ek|done|by rewrite app_nil_r|apply no_loss_nil].
    + apply (lost_ok_conn c (Failing [] taken e) w _ [Done c n (CallFailed e)] Hl); [by rewrite Ek|done|done|by apply no_loss_one].
  - intros [= <-]. eapply (lost_ok_client w _ [] c _ Hl); [done|by rewrite app_nil_r|apply no_loss_nil| |].
    + intros k' id n r _. cbn. case_decide; [by rewrite lookup_empty|done].
    + intros k' id n. cbn. rewrite Ek. cbn. case_decide; [by rewrite lookup_empty|]. intros _ [?|?]%elem_of_cons; done.
Qed.

Lemma lost_ok_close c w : (forall c', lost_ok w c') -> forall c', lost_ok (close c w) c'.
Proof.
  intros Hl. unfold close.
  assert (kinds_of (cl_conn (client_of c w)) = [] ->
    forall c', lost_ok (note (CloseCalled c) (drop_link (client_of c w) (put_client c (set_conn Closed (client_of c w)) w))) c') as Hgo.
  { destruct (drop_link_rest (client_of c w) (put_client c (set_conn Closed (client_of c w)) w)) as [Ec El]. intros Hk.
    apply (lost_ok_conn c Closed w _ [CloseCalled c] Hl Hk); [exact Ec|exact (f_equal (fun l => l ++ _) El)|by apply no_loss_one]. }
  destruct (cl_conn (client_of c w)); auto.
Qed.

Lemma lost_ok_client_receive c w w' : (forall c', lost_ok w c') -> client_receive c w = Some w' -> forall c', lost_ok w' c'.
Proof.
  intros Hl. unfold client_receive. destruct (cl_conn (client_of c w)) as [q|q|l|ks taken e|] eqn:Ek; try done.
  destruct (w_links w !! l) as [y|]; [|done]. destruct (ln_down y) as [|m rest]; [done|]. intros [= <-].
  unfold client_handle. destruct (answer m) as [[[k id] o]|]; [|done]. unfold complete. change (client_of c (put_link _ _ w)) with (client_of c w).
  destruct (cl_pending (client_of c w) k !! id) as [n|]; [|done].
  eapply (lost_ok_client w _ [Done c n o] c _ Hl); [done|done|by apply no_loss_one| |done].
  intros k' id' n' r _. cbn. case_decide; [subst; by intros [_ ?]%lookup_delete_Some|done].
Qed.

Lemma lost_ok_server w w' : (exists l, server_receive what l w = Some w') \/ (exists l, server_task what l w = Some w') ->
  (forall c, lost_ok w c) -> forall c, lost_ok w' c.
Proof.
  intros (Ec & es & El & Hes%servings_no_loss)%server_frame Hl c. apply (lost_ok_same w w' es c El (Hes c)); [|done]. unfold client_of. by rewrite Ec.
Qed.

Lemma lost_ok_step a w w' : inv w -> (forall c, lost_ok w c) -> step a w = Some w' -> forall c, lost_ok w' c.
Proof.
  intros Hi Hl. destruct a as [c r|c i|c|c l|c e|c|c|c|l|l|l]; cbn [KeyService.step].
  - intros [= <-]. by apply lost_ok_call.
  - by apply lost_ok_send_request.
  - intros [= <-]. by apply lost_ok_connect.
  - by apply lost_ok_become_connected.
  - by apply lost_ok_disconnected.
  - by apply lost_ok_fail_step.
  - intros [= <-]. by apply lost_ok_close.
  - by apply lost_ok_client_receive.
  - intros E. apply (lost_ok_server w); [left; by exists l|done].
  - intros E. apply (lost_ok_server w); [right; by exists l|done].
  - destruct (w_links w !! l) as [x|]; [|done]. by intros [= <-].
Qed.

(** ** Runs from the start *)

Lemma safe_run ls w w' : inv w -> (forall c, tracked w c /\ lost_ok w c) -> Z.of_nat (w_calls w') < 2 ^ 32 -> run ls w = Some w' ->
  inv w' /\ forall c, tracked w' c /\ lost_ok w' c.
Proof.
  revert w. induction ls as [|a ls IH]; intros w Hi Ht Hb E; cbn in E; [by injection E as <-|].
  destruct (step a w) as [w1|] eqn:Es; [|done]. pose proof (run_calls _ _ _ E).
  assert (inv w1) as Hi1 by (apply (inv_service_step a w); [done|lia|done]).
  apply (IH w1); try done. intros c. split; [apply (tracked_step a w w1)|apply (lost_ok_step a w w1)]; try done; intros; apply Ht.
Qed.

Lemma start_tracked keys certs c : tracked (start_world keys certs) c /\ lost_ok (start_world keys certs) c.
Proof. split; intros n id r; [by intros ?%elem_of_nil|]. by intros e [[]%elem_of_nil _]%before_in. Qed.

Lemma safe_start ls keys certs w : Z.of_nat (w_calls w) < 2 ^ 32 -> run ls (start_world keys certs) = Some w ->
  inv w /\ forall c, tracked w c /\ lost_ok w c.
Proof. apply safe_run; [apply inv_start|apply start_tracked]. Qed.

(** ** A client that is closed *)

Definition closed w (c : nat) : Prop := cl_conn (client_of c w) = Closed.

(** No call of [c] completes. *)
Definition silent (c : nat) (es : list event) : Prop := forall n o, Done c n o ∉ es.

Lemma silent_nil c : silent c [].
Proof. by intros n o ?%elem_of_nil. Qed.

Lemma silent_one c e : (forall n o, e <> Done c n o) -> silent c [e].
Proof. intros Hno n o E%list_elem_of_singleton. by apply (Hno n o). Qed.

Lemma silent_app c es es' : silent c es -> silent c es' -> silent c (es ++ es').
Proof. intros He He' n o [?|?]%elem_of_app; [by apply (He n o)|by apply (He' n o)]. Qed.

Definition stays_closed w w' (c : nat) : Prop := closed w' c /\ exists es, w_log w' = w_log w ++ es /\ silent c es.

Lemma stays_closed_same w w' es c : closed w c -> w_clients w' = w_clients w -> w_log w' = w_log w ++ es -> silent c es -> stays_closed w w' c.
Proof. intros Hc Ec El Hs. split; [|eauto]. unfold closed, client_of. by rewrite Ec. Qed.

Lemma stays_closed_client c' x w w' es c : closed w c -> w_clients w' = <[c' := x]> (w_clients w) -> w_log w' = w_log w ++ es ->
  (c' = c -> cl_conn x = Closed) -> silent c es -> stays_closed w w' c.
Proof.
  intros Hc Ec El Hx Hs. split; [|eauto]. unfold closed. rewrite (clients_insert _ _ _ _ Ec). case_decide; [by apply Hx|done].
Qed.

(** A step that [c] takes itself only if it is not closed. *)
Lemma stays_closed_own c' x w w' es c : closed w c -> cl_conn (client_of c' w) <> Closed ->
  w_clients w' = <[c' := x]> (w_clients w) -> w_log w' = w_log w ++ es -> (c' <> c -> silent c es) -> stays_closed w w' c.
Proof.
  intros Hc Hn Ec El Hs. assert (c' <> c) by (by intros ->). eapply (stays_closed_client c' x); eauto. by intros ->.
Qed.

Lemma closed_send_request c' i w w' c : closed w c -> send_request c' i w = Some w' -> stays_closed w w' c.
Proof.
  intros Hc. unfold send_request. destruct (cl_calling (client_of c' w) !! i) as [[n m]|]; [|done]. change (cl_conn (set_calling ?v ?x)) with (cl_conn x).
  destruct (cl_conn (client_of c' w)) as [q|q|l|ks taken e|] eqn:Ek.
  - intros [= <-]. eapply (stays_closed_own c' _ _ _ []); [done|by rewrite Ek|done|by rewrite app_nil_r|intros _; apply silent_nil].
  - intros [= <-]. eapply (stays_closed_own c' _ _ _ []); [done|by rewrite Ek|done|by rewrite app_nil_r|intros _; apply silent_nil].
  - destruct (w_links w !! l); [|done]. intros [= <-].
    eapply (stays_closed_own c' _ _ _ []); [done|by rewrite Ek|done|by rewrite app_nil_r|intros _; apply silent_nil].
  - intros [= <-]. eapply (stays_closed_own c' _ _ _ [_]); [done|by rewrite Ek|done|done|intros _; by apply silent_one].
  - intros [= <-]. eapply (stays_closed_client c' _ _ _ [_]); [done|done|done|done|by apply silent_one].
Qed.

Lemma closed_connect c' w c : closed w c -> c' <> c -> stays_closed w (connect c' w) c.
Proof.
  intros Hc Hne. unfold connect.
  destruct (cl_conn (client_of c' w)); try (apply (stays_closed_same _ _ []); [done|done|by rewrite app_nil_r|apply silent_nil]).
  all: eapply (stays_closed_client c' _ _ _ []); [done|done|by rewrite app_nil_r|done|apply silent_nil].
Qed.

Lemma closed_become_connected c' l w w' c : closed w c -> become_connected c' l w = Some w' -> stays_closed w w' c.
Proof.
  intros Hc. unfold become_connected. destruct (cl_conn (client_of c' w)) eqn:Ek; try done. destruct (w_links w !! l); [done|]. intros [= <-].
  eapply (stays_closed_own c' _ _ _ []); [done|by rewrite Ek|done|by rewrite app_nil_r|intros _; apply silent_nil].
Qed.

Lemma closed_disconnected c' e w w' c : closed w c -> disconnected c' e w = Some w' -> stays_closed w w' c.
Proof.
  intros Hc E. set (x := set_conn (Failing all_kinds [] (fail_error e)) (client_of c' w)).
  assert (cl_conn (client_of c' w) <> Closed /\ w' = note (Lost c' e) (drop_link (client_of c' w) (put_client c' x w))) as [Hn ->].
  { unfold disconnected in E. by destruct (cl_conn (client_of c' w)); simplify_eq. }
  destruct (drop_link_rest (client_of c' w) (put_client c' x w)) as [Ec El].
  pose proof (f_equal (fun l => l ++ [Lost c' e]) El) as El1.
  apply (stays_closed_own c' x w (note _ _) [Lost c' e] c Hc Hn Ec El1). intros _. by apply silent_one.
Qed.

Lemma closed_fail_step c' w w' c : closed w c -> fail_step c' w = Some w' -> stays_closed w w' c.
Proof.
  intros Hc. unfold fail_step. destruct (cl_conn (client_of c' w)) as [q|q|l|[|k ks] [|n taken] e|] eqn:Ek; try done; intros [= <-].
  2: eapply (stays_closed_own c' _ _ _ [_]); [done|by rewrite Ek|done|done|intros Hne; apply silent_one; intros ? ? [= ]; done].
  all: eapply (stays_closed_own c' _ _ _ []); [done|by rewrite Ek|done|by rewrite app_nil_r|intros _; apply silent_nil].
Qed.

Lemma closed_close c' w c : closed w c -> stays_closed w (close c' w) c.
Proof.
  intros Hc. unfold close. destruct (drop_link_rest (client_of c' w) (put_client c' (set_conn Closed (client_of c' w)) w)) as [Ec El].
  pose proof (f_equal (fun l => l ++ [CloseCalled c']) El) as El1.
  destruct (cl_conn (client_of c' w)) eqn:Ek; try (apply (stays_closed_same _ _ []); [done|done|by rewrite app_nil_r|apply silent_nil]).
  all: apply (stays_closed_client c' _ w (note _ _) _ c Hc Ec El1); [done|by apply silent_one].
Qed.

Lemma closed_client_receive c' w w' c : closed w c -> client_receive c' w = Some w' -> stays_closed w w' c.
Proof.
  intros Hc. unfold client_receive. destruct (cl_conn (client_of c' w)) as [q|q|l|ks taken e|] eqn:Ek; try done.
  assert (c' <> c) as Hne by (intros ->; by rewrite Hc in Ek).
  destruct (w_links w !! l) as [y|]; [|done]. destruct (ln_down y) as [|m rest]; [done|]. intros [= <-]. unfold client_handle.
  destruct (answer m) as [[[k id] o]|]; [|apply (stays_closed_same _ _ []); [done|done|by rewrite app_nil_r|apply silent_nil]].
  unfold complete. change (client_of c' (put_link _ _ w)) with (client_of c' w).
  destruct (cl_pending (client_of c' w) k !! id) as [n|]; [|apply (stays_closed_same _ _ []); [done|done|by rewrite app_nil_r|apply silent_nil]].
  eapply (stays_closed_client c' _ _ _ [_]); [done|done|done|done|]. apply silent_one. by intros ? ? [= ].
Qed.

Lemma closed_step a w w' c : closed w c -> a <> LConnect c -> step a w = Some w' -> stays_closed w w' c.
Proof.
  intros Hc Hne. destruct a as [c' r|c' i|c'|c' l|c' e|c'|c'|c'|l|l|l]; cbn [KeyService.step].
  - intros [= <-]. eapply (stays_closed_client c' _ _ _ [_]); [done|done|done|by intros ->|by apply silent_one].
  - by apply closed_send_request.
  - intros [= <-]. apply closed_connect; [done|]. by intros ->.
  - by apply closed_become_connected.
  - by apply closed_disconnected.
  - by apply closed_fail_step.
  - intros [= <-]. by apply closed_close.
  - by apply closed_client_receive.
  - intros E. destruct (server_frame w w') as (Ec & es & El & Hs); [left; by exists l|].
    apply (stays_closed_same w w' es c Hc Ec El). intros n o Hin. by destruct (Hs _ Hin) as (? & ? & ? & ? & ?).
  - intros E. destruct (server_frame w w') as (Ec & es & El & Hs); [right; by exists l|].
    apply (stays_closed_same w w' es c Hc Ec El). intros n o Hin. by destruct (Hs _ Hin) as (? & ? & ? & ? & ?).
  - destruct (w_links w !! l) as [x|]; [|done]. intros [= <-].
    apply (stays_closed_same _ _ []); [done|done|by rewrite app_nil_r|apply silent_nil].
Qed.

Lemma closed_run ls w w' c : closed w c -> LConnect c ∉ ls -> run ls w = Some w' -> stays_closed w w' c.
Proof.
  revert w. induction ls as [|a ls IH]; intros w Hc Hn E; cbn in E.
  - injection E as <-. apply (stays_closed_same _ _ []); [done|done|by rewrite app_nil_r|apply silent_nil].
  - destruct (step a w) as [w1|] eqn:Es; [|done]. apply not_elem_of_cons in Hn as [Hna Hn].
    destruct (closed_step a w w1 c Hc) as (Hc1 & es & El & Hs); [by intros ->|done|].
    destruct (IH w1 Hc1 Hn E) as (Hc2 & es' & El' & Hs'). split; [done|].
    exists (es ++ es'). split; [by rewrite El', El, app_assoc|by apply silent_app].
Qed.

(** ** Properties *)

(** C6: An answer belongs to its request: when a future completes, the server has
    answered this call's request, after the call was made, in this way, or the
    client's connection was lost and the future got that error; and a future
    completes once.  As long as the 32-bit ids have not come round. *)
Theorem answers_match_requests ls keys certs w l1 l2 c n o (Hb : Z.of_nat (w_calls w) < 2 ^ 32)
  (E : run ls (start_world keys certs) = Some w) (El : w_log w = l1 ++ Done c n o :: l2) :
  explained l1 c n o /\ n ∉ dones (l1 ++ l2).
Proof.
  destruct (safe_start ls keys certs w Hb E) as [[_ _ _ _ _ [Hn Hd]] _]. split; [by apply (Hd l1 l2)|].
  rewrite El, dones_app in Hn. change (dones (Done c n o :: l2)) with (n :: dones l2) in Hn.
  rewrite dones_app, elem_of_app. apply NoDup_app in Hn as (_ & H1 & [H2 _]%NoDup_cons).
  intros [?|?]; [|done]. apply (H1 n); [done|by left].
Qed.

(** C7: The service answers: when a connected client and its link have nothing left
    to do, every call was completed, unless its request was given to a connection
    that was over or the connection was closed by its owner after the call. *)
Theorem quiet_calls_answered ls keys certs w c l y (Hb : Z.of_nat (w_calls w) < 2 ^ 32)
  (E : run ls (start_world keys certs) = Some w) (Hc : cl_conn (client_of c w) = Connected l)
  (Hl : w_links w !! l = Some y) (Ho : ln_open y = true) (Hsend : forall i, send_request c i w = None)
  (Hserve : server_receive what l w = None) (Htask : server_task what l w = None) (Hrecv : client_receive c w = None) :
  forall n id r, Called c n id r ∈ w_log w ->
    n ∈ dones (w_log w) \/ Unsent c n ∈ w_log w \/ before (Called c n id r) (CloseCalled c) (w_log w).
Proof.
  destruct (safe_start ls keys certs w Hb E) as [Hi Ht]. destruct (Ht c) as [Htr _]. intros n id r Hn.
  assert (cl_calling (client_of c w) = []) as Ecall.
  { specialize (Hsend 0%nat). unfold send_request in Hsend. destruct (cl_calling (client_of c w)) as [|[n0 m] rest]; [done|]. cbn in Hsend.
    rewrite Hc, Hl in Hsend. done. }
  assert (ln_task y = None) as Et.
  { unfold server_task in Htask. rewrite Hl in Htask. destruct (ln_task y) as [[id0 key]|]; [|done]. by destruct (register_insert key (w_keys w)). }
  assert (ln_up y = []) as Eup by (unfold server_receive in Hserve; rewrite Hl, Ho, Et in Hserve; by destruct (ln_up y)).
  assert (ln_down y = []) as Ed by (unfold client_receive in Hrecv; rewrite Hc, Hl in Hrecv; by destruct (ln_down y)).
  destruct (k_kept _ _ _ (v_client w Hi c) n id r Hn) as [?|[Hp|Htk]]; [by left| |rewrite Hc in Htk; by apply elem_of_nil in Htk].
  right. destruct (Htr n id r Hn Hp) as [Hin|[?|[?|Hw]]]; [|by left|by right|].
  - rewrite Ecall in Hin. by apply elem_of_nil in Hin.
  - rewrite Hc in Hw. destruct Hw as (y' & Hy' & Hw). rewrite Hl in Hy'. injection Hy' as <-.
    unfold on_link in Hw. rewrite Ho, Eup, Ed, Et in Hw.
    destruct Hw as [?|[?%elem_of_nil|[(key & ? & _)|(m & o & ?%elem_of_nil & _)]]]; done.
Qed.

(** C26: A connection that was lost leaves no call open: once [on_disconnected] has
    run, the futures of all calls made before it are complete. *)
Theorem lost_connection_fails_calls ls keys certs w c n id r e (Hb : Z.of_nat (w_calls w) < 2 ^ 32)
  (E : run ls (start_world keys certs) = Some w) (Hl : before (Called c n id r) (Lost c e) (w_log w))
  (Hf : forall ks taken e', cl_conn (client_of c w) <> Failing ks taken e') :
  exists o, Done c n o ∈ w_log w.
Proof.
  destruct (safe_start ls keys certs w Hb E) as [Hi Ht]. destruct (Ht c) as [_ Hlost].
  assert (n ∈ dones (w_log w)) as Hd.
  { destruct (before_in _ _ _ Hl) as [Hn _].
    destruct (k_kept _ _ _ (v_client w Hi c) n id r Hn) as [?|[Hp|Htk]]; [done| |]; exfalso.
    - pose proof (Hlost n id r e Hl Hp) as Hk. destruct (cl_conn (client_of c w)); try (by apply elem_of_nil in Hk). by eapply Hf.
    - destruct (cl_conn (client_of c w)); try (by apply elem_of_nil in Htk). by eapply Hf. }
  apply dones_in in Hd as (c' & o & Hin). exists o.
  assert (c' = c) as ->; [|done]. apply list_elem_of_split in Hin as (l1 & l2 & El).
  destruct (v_done w Hi) as [_ Hd]. destruct (Hd l1 l2 c' n o El) as (id' & r' & Hin & _).
  apply before_in in Hl as [Hc _]. assert (Called c' n id' r' ∈ w_log w) as Hin' by (rewrite El; apply elem_of_app; by left).
  by destruct (n_once _ _ (v_calls w Hi) _ _ _ _ _ _ _ Hin' Hc).
Qed.

(** [close] lets the callbacks go before the connection ends, so [fail_all] does
    not run: whatever happens afterwards, no call that was open completes unless
    the client is connected again. *)
Theorem close_abandons_calls ls c w w' (Hf : forall ks taken e, cl_conn (client_of c w) <> Failing ks taken e)
  (Hn : LConnect c ∉ ls) (E : run ls (close c w) = Some w') :
  forall n o, Done c n o ∈ w_log w' <-> Done c n o ∈ w_log w.
Proof.
  assert (stays_closed w (close c w) c \/ closed (close c w) c /\ w_log (close c w) = w_log w ++ [CloseCalled c]) as Hc.
  { unfold close. destruct (drop_link_rest (client_of c w) (put_client c (set_conn Closed (client_of c w)) w)) as [Ec El].
    pose proof (f_equal (fun l => l ++ [CloseCalled c]) El) as El1. set (w1 := drop_link _ _) in *.
    assert (closed (note (CloseCalled c) w1) c) as Hc by (unfold closed; rewrite (clients_insert w (note _ w1) c _ Ec), decide_True by done; done).
    destruct (cl_conn (client_of c w)) eqn:Ek; [by right|by right|by right|by destruct (Hf kinds taken e)|].
    left. apply (stays_closed_same w w []); [done|done|by rewrite app_nil_r|apply silent_nil]. }
  assert (exists es, w_log w' = w_log w ++ es /\ silent c es) as (es & El & Hs).
  { destruct Hc as [(Hc & es & El & Hs)|[Hc El]]; destruct (closed_run ls (close c w) w' c Hc Hn E) as (_ & es' & El' & Hs').
    - exists (es ++ es'). split; [by rewrite El', El, app_assoc|by apply silent_app].
    - exists ([CloseCalled c] ++ es'). split; [by rewrite El', El, app_assoc|by apply silent_app; [apply silent_one|]]. }
  intros n o. rewrite El, elem_of_app. split; [intros [?|?]; [done|by destruct (Hs n o)]|by left].
Qed.
End safety.

Module SampleService.
Export SampleProtocol SampleCategories.

(** A server with empty tables kept in memory. *)
Definition sample_world : world (gmap octets octets) (gmap octets certificate_row) := start_world ∅ ∅.
Definition no_text (e : store_exn) : octets := [].
Definition after (ls : list label) := default sample_world (run no_text ls sample_world).

(** One lookup, answered. *)
Definition asked : list label := [LConnect 0; LCall 0 (FindKey [1]); LUp 0 5; LSend 0 0].
Definition answered : list label := asked ++ [LServe 5; LReceive 0].

(** The connection is lost before the answer. *)
Definition lost : list label := asked ++ [LLost 0 no_error; LFail 0; LFail 0; LFail 0; LFail 0; LFail 0].

Example answered_log : w_log (after answered) =
  [Called 0 0 1 (FindKey [1])] ++ Served 0 1 (FindKey [1]) (find_key_response 1 None no_net_error) :: [Done 0 0 (KeyFound None)].
Proof. vm_compute. reflexivity. Qed.

Example lost_log : w_log (after lost) =
  [Called 0 0 1 (FindKey [1]); Lost 0 no_error; Done 0 0 (CallFailed connection_closed_error)].
Proof. vm_compute. reflexivity. Qed.

(** The caller of a lookup waits in [get] for a future that nobody holds any
    more. *)
Example closed_log : (after (asked ++ [LClose 0; LServe 5])).(w_log) =
  [Called 0 0 1 (FindKey [1]); CloseCalled 0; Served 0 1 (FindKey [1]) (find_key_response 1 None no_net_error)].
Proof. vm_compute. reflexivity. Qed.

(** A call made after the loss is given to the dead connection. *)
Example called_too_late : (after (lost ++ [LCall 0 (FindKey [1]); LSend 0 0])).(w_log) =
  w_log (after lost) ++ [Called 0 1 2 (FindKey [1]); Unsent 0 1].
Proof. vm_compute. reflexivity. Qed.
End SampleService.
Import SampleService.

Lemma answers_match_requests_witness :
  explained [Called 0 0 1 (FindKey [1]); Served 0 1 (FindKey [1]) (find_key_response 1 None no_net_error)] 0 0 (KeyFound None).
Proof.
  refine (proj1 (answers_match_requests no_text answered ∅ ∅ (after answered) _ [] 0 0 (KeyFound None) _ _ _)); vm_compute; reflexivity.
Defined.

Lemma quiet_calls_answered_witness : 0%nat ∈ dones (w_log (after answered)).
Proof.
  destruct (quiet_calls_answered no_text answered ∅ ∅ (after answered) 0 5 (Link 0 [] [] None true true)) with (n := 0%nat) (id := 1) (r := FindKey [1])
    as [?|[H|H]]; try (vm_compute; reflexivity).
  - vm_compute. by left.
  - done.
  - rewrite answered_log in H. cbn in H. rewrite !elem_of_cons, elem_of_nil in H. destruct H as [H|[H|[H|[]]]]; discriminate H.
  - apply before_in in H as [_ H]. rewrite answered_log in H. cbn in H. rewrite !elem_of_cons, elem_of_nil in H. destruct H as [H|[H|[H|[]]]]; discriminate H.
Defined.

Lemma lost_connection_fails_calls_witness : exists o, Done 0 0 o ∈ w_log (after lost).
Proof.
  apply (lost_connection_fails_calls no_text lost ∅ ∅ (after lost) 0 0 1 (FindKey [1]) no_error); [reflexivity|vm_compute; reflexivity| |].
  - exists [], [], [Done 0 0 (CallFailed connection_closed_error)]. vm_compute. reflexivity.
  - intros ks taken e. vm_compute. discriminate.
Defined.

Lemma close_abandons_calls_witness :
  ~ exists o, Done 0 0 o ∈ w_log (after (asked ++ [LClose 0; LServe 5])).
Proof.
  intros (o & H).
  apply (close_abandons_calls no_text [LServe 5] 0 (after asked)) in H.
  - assert (w_log (after asked) = [Called 0 0 1 (FindKey [1])]) as El by (vm_compute; reflexivity).
    rewrite El, elem_of_cons, elem_of_nil in H. destruct H as [H|[]]. discriminate H.
  - intros ks taken e. vm_compute. discriminate.
  - rewrite elem_of_cons, elem_of_nil. intros [H1|[]]. discriminate H1.
  - vm_compute. reflexivity.
Defined.
