(* ===== verification/KeyDirectory.v ===== *)
(** The key service as a directory: a key that a client finds is the one it asked
    for, and it is a key the server started with or one that a client registered
    and that its own signature authenticates.

    [KeyHolding] is what the server needs of its store for this, whatever the
    store's calls return or throw; the database and the cache over any stores
    that provide it do. *)

From stdpp Require Import base list numbers strings gmap.
From Stdlib Require Import ZArith Lia.
From S2P Require Import Prelude Serialise Errors Crypto CertChain Stores Caches KeyProtocol KeyService KeyServiceSafety.
Open Scope Z_scope.

(** ** Stores that hold only certain keys *)

Definition key_storable `{Primitives} (key : public_key) : Prop :=
  codec_storable public_key_codec key /\ Forall is_octet (pk_id key).

Class KeyHolding (B : Type) `{Primitives, !Access B public_key octets public_key} : Type := {
  holds_only : (public_key -> Prop) -> B -> Prop;
  held_mono (P Q : public_key -> Prop) b : (forall key, P key -> Q key) -> holds_only P b -> holds_only Q b;
  held_insert (P : public_key -> Prop) key b : key_storable key -> P key -> holds_only P b -> holds_only P (acc_insert key b).2;
  held_find (P : public_key -> Prop) id b : Forall is_octet id -> holds_only P b ->
    holds_only P (acc_find id b).2 /\ forall key, (acc_find id b).1 = Ok (Some key) -> pk_id key = id /\ P key
}.

(** Stores that keep what they took: after a call of [insert] that returns, no
    call of [find] returns that there is nothing. *)
Class KeyKeeping (B : Type) `{Primitives, !Access B public_key octets public_key} : Type := {
  present : octets -> B -> Prop;
  present_inserted key b u b' : key_storable key -> acc_insert key b = (Ok u, b') -> present (pk_id key) b';
  present_insert id key b : Forall is_octet id -> key_storable key -> present id b -> present id (acc_insert key b).2;
  present_find id id' b : present id b -> present id (acc_find id' b).2;
  present_found id b : present id b -> (acc_find id b).1 <> Ok None
}.

(** The database. *)
Section database.
Context `{Primitives} {T : Type} `{!SqlTable T octets octets, !SqlTableLaws T octets octets}.

Lemma database_inserted key t u t' : key_storable key -> public_key_database_insert key t = (Ok u, t') ->
  forall k, Forall is_octet k -> stored_key t' k = if decide (k = pk_id key) then Some key else stored_key t k.
Proof.
  intros [Hs Hk] E k' Hk'. unfold public_key_database_insert, ser_store, crypto_result, ser_result, mbind, sexn_bind in E.
  destruct (asn_der_serialise public_key_codec key) as [o|e] eqn:Eo; [|by simplify_eq].
  apply execute_replace_ok in E. unfold stored_key. rewrite E. case_decide as Hd.
  - subst. rewrite lookup_insert_eq. simpl. by apply (decoded_stored public_key_codec).
  - by rewrite lookup_insert_ne by (rewrite same_hex; congruence).
Qed.

Lemma database_insert_throws key t e t' : public_key_database_insert key t = (Throw e, t') -> t' = t.
Proof.
  unfold public_key_database_insert, ser_store, crypto_result, ser_result, mbind, sexn_bind.
  destruct (asn_der_serialise public_key_codec key) as [o|e']; [|by intros [= _ <-]]. by intros [_ ?]%execute_replace_ok.
Qed.

Definition database_holds (P : public_key -> Prop) (t : T) : Prop :=
  forall k key, Forall is_octet k -> stored_key t k = Some key -> pk_id key = k /\ P key.

#[export] Program Instance database_holding : KeyHolding T := {| holds_only := database_holds |}.
Next Obligation. intros P Q t Himp Ht k key Hk E. destruct (Ht k key Hk E). auto. Qed.
Next Obligation.
  intros P key t Hs Hp Ht. cbn [acc_insert public_key_database].
  destruct (public_key_database_insert key t) as [[u|e] t'] eqn:E; cbn; [|by apply database_insert_throws in E as ->].
  intros k' key' Hk'. rewrite (database_inserted key t u t' Hs E) by done. case_decide; [by intros [= <-]|by apply Ht].
Qed.
Next Obligation.
  intros P id t Hid Ht. cbn [acc_find public_key_database]. destruct (public_key_database_find id t) as [r t'] eqn:E.
  apply public_key_database_find_ok in E as [-> E]. split; [done|]. cbn. intros key ->. apply Ht; [done|]. symmetry. exact (E _ eq_refl).
Qed.

Definition database_present (id : octets) (t : T) : Prop := is_Some (stored_key t id).

#[export] Program Instance database_keeping : KeyKeeping T := {| present := database_present |}.
Next Obligation.
  intros key t u t' Hs E. unfold database_present. rewrite (database_inserted key t u t' Hs E) by apply Hs. by rewrite decide_True.
Qed.
Next Obligation.
  intros id key t Hid Hs Ht. cbn [acc_insert public_key_database].
  destruct (public_key_database_insert key t) as [[u|e] t'] eqn:E; cbn; [|by apply database_insert_throws in E as ->].
  unfold database_present. rewrite (database_inserted key t u t' Hs E) by done. by case_decide.
Qed.
Next Obligation.
  intros id id' t Ht. cbn [acc_find public_key_database]. destruct (public_key_database_find id' t) as [r t'] eqn:E.
  by apply public_key_database_find_ok in E as [-> _].
Qed.
Next Obligation.
  intros id t [key Hk]. cbn [acc_find public_key_database]. destruct (public_key_database_find id t) as [r t'] eqn:E. cbn.
  apply public_key_database_find_ok in E as [_ E]. intros ->. specialize (E None eq_refl). unfold stored_key in Hk. congruence.
Qed.
End database.

(** The cache. *)
Section caches.
Context `{Primitives} {B : Type} `{!Access B public_key octets public_key, !KeyHolding B}.

Definition cache_holds (P : public_key -> Prop) (c : cache public_key B) : Prop :=
  (forall k key, Forall is_octet k -> ca_map c !! k = Some key -> pk_id key = k /\ P key) /\ Forall (holds_only P) (ca_backends c).

Lemma each_insert_holds P key bs : key_storable key -> P key -> Forall (holds_only P) bs ->
  Forall (holds_only P) (each_backend (acc_insert key) bs).2.
Proof.
  intros Hs Hp. induction 1 as [|b bs Hb Hbs IH]; [constructor|]. cbn. pose proof (held_insert P key b Hs Hp Hb) as Hb'.
  destruct (acc_insert key b) as [[u|e] b']; cbn in *; [|by constructor].
  destruct (each_backend (acc_insert key) bs) as [r bs']. by constructor.
Qed.

Lemma first_find_holds P id bs : Forall is_octet id -> Forall (holds_only P) bs ->
  Forall (holds_only P) (first_backend (acc_find id) bs).2 /\
  forall key, (first_backend (acc_find id) bs).1 = Ok (Some key) -> pk_id key = id /\ P key.
Proof.
  intros Hid. induction 1 as [|b bs Hb Hbs IH]; [split; [constructor|done]|]. cbn.
  destruct (held_find P id b Hid Hb) as [Hb' Hv].
  destruct (acc_find id b) as [[[key|]|e] b']; cbn in *; [split; [by constructor|by intros key' [= <-]; apply Hv]| |split; [by constructor|done]].
  destruct (first_backend (acc_find id) bs) as [r bs']. destruct IH as [IH IHv]. split; [by constructor|done].
Qed.

Lemma cache_map_insert P key c bs : P key -> cache_holds P c -> Forall (holds_only P) bs ->
  cache_holds P (Cache (<[pk_id key := key]> (ca_map c)) bs).
Proof.
  intros Hp [Hm _] Hbs. split; [|done]. intros k key' Hk. cbn. rewrite lookup_insert_Some. intros [[<- <-]|[_ ?]]; [done|by apply Hm].
Qed.

#[export] Program Instance cache_holding : KeyHolding (cache public_key B) := {| holds_only := cache_holds |}.
Next Obligation.
  intros P Q c Himp [Hm Hb]. split; [|eapply Forall_impl; [exact Hb|]; intros b; by apply held_mono].
  intros k key Hk E. destruct (Hm k key Hk E). auto.
Qed.
Next Obligation.
  intros P key c Hs Hp Hc. cbn [acc_insert public_key_cache].
  unfold public_key_cache_insert, get_st, set_map, for_backends, mbind, sexn_bind. cbn.
  pose proof (each_insert_holds P key (ca_backends c) Hs Hp (proj2 Hc)) as Hbs.
  destruct (each_backend (acc_insert key) (ca_backends c)) as [r bs]. by apply cache_map_insert.
Qed.
Next Obligation.
  intros P id c Hid Hc. cbn [acc_find public_key_cache].
  unfold public_key_cache_find, get_st, set_map, find_backends, mbind, sexn_bind, mret, sexn_ret. cbn.
  destruct (ca_map c !! id) as [key|] eqn:E; [split; [done|]; cbn; intros key' [= <-]; by apply (proj1 Hc)|].
  destruct (first_find_holds P id (ca_backends c) Hid (proj2 Hc)) as [Hbs Hv].
  destruct (first_backend (acc_find id) (ca_backends c)) as [[[key|]|e] bs]; cbn in *.
  - destruct (Hv key eq_refl) as [Hk Hp]. split; [by apply cache_map_insert|by intros key' [= <-]].
  - split; [split; [exact (proj1 Hc)|done]|done].
  - split; [split; [exact (proj1 Hc)|done]|done].
Qed.

(** What the cache has seen. *)
Definition cache_present (id : octets) (c : cache public_key B) : Prop := is_Some (ca_map c !! id).

Lemma cache_insert_map key (c : cache public_key B) : ca_map (public_key_cache_insert key c).2 = <[pk_id key := key]> (ca_map c).
Proof.
  unfold public_key_cache_insert, get_st, set_map, for_backends, mbind, sexn_bind. cbn. by destruct (each_backend _ _).
Qed.

Lemma present_in_map (id : octets) (key : public_key) (m : gmap octets public_key) : is_Some (m !! id) -> is_Some (<[pk_id key := key]> m !! id).
Proof. rewrite lookup_insert_is_Some'. by right. Qed.

#[export] Program Instance cache_keeping : KeyKeeping (cache public_key B) := {| present := cache_present |}.
Next Obligation.
  intros key c u c' _ E. unfold cache_present. pose proof (cache_insert_map key c) as Em. cbn [acc_insert public_key_cache] in E.
  rewrite E in Em. cbn in Em. rewrite Em, lookup_insert_eq. eauto.
Qed.
Next Obligation.
  intros id key c _ _ Hc. unfold cache_present. cbn [acc_insert public_key_cache]. rewrite cache_insert_map. by apply present_in_map.
Qed.
Next Obligation.
  intros id id' c Hc. cbn [acc_find public_key_cache].
  unfold public_key_cache_find, get_st, set_map, find_backends, mbind, sexn_bind, mret, sexn_ret. cbn.
  destruct (ca_map c !! id') as [key|]; [done|]. destruct (first_backend _ _) as [[[key|]|e] bs]; try done. by apply present_in_map.
Qed.
Next Obligation.
  intros id c [key Hk]. cbn [acc_find public_key_cache].
  unfold public_key_cache_find, get_st, mbind, sexn_bind, mret, sexn_ret. cbn. by rewrite Hk.
Qed.
End caches.

(** ** Keys in a run *)

(** A request the wire can carry: the key can be stored, an id is octets. *)
Definition request_ok `{Primitives} (r : request) : Prop :=
  match r with RegisterKey key => key_storable key | FindKey kid => Forall is_octet kid | FindCertificate _ => True end.

Definition label_ok `{Primitives} (a : label) : Prop := match a with LCall _ r => request_ok r | _ => True end.

(** ** What the steps leave alone *)

Section frames.
Context {B C : Type} `{Primitives} `{ForeignCategories}.
Context `{!Access B public_key octets public_key, !Access C certificate octets certificate}.

#[local] Abbreviation world := (world B C).
Implicit Types (w : world).

(** The handlers of the server take no new task. *)
Definition tasks_kept w w' : Prop := forall l y', w_links w' !! l = Some y' ->
  ln_task y' = None \/ exists y, w_links w !! l = Some y /\ ln_task y' = ln_task y.

Lemma tasks_same w w' : w_links w' = w_links w -> tasks_kept w w'.
Proof. intros E l y Hy. right. exists y. by rewrite <- E. Qed.

Lemma tasks_put w w' l y : w_links w' = <[l := y]> (w_links w) ->
  (ln_task y = None \/ exists y0, w_links w !! l = Some y0 /\ ln_task y = ln_task y0) -> tasks_kept w w'.
Proof.
  intros E Hy l' y'. rewrite E, lookup_insert_Some. intros [[<- <-]|[_ Hy']]; [done|]. right. by exists y'.
Qed.

Lemma tasks_drop x w w' : w_links w' = w_links (drop_link x w) -> tasks_kept w w'.
Proof.
  intros E. unfold drop_link in E. destruct (cl_conn x) as [| |l| |]; try by apply tasks_same.
  destruct (w_links w !! l) as [y|] eqn:Ey; [|by apply tasks_same]. eapply tasks_put; [exact E|]. right. by exists y.
Qed.

(** A step of the clients: nothing is served, the store is not touched, and a
    call has a new number. *)
Definition event_ok (calls : nat) (e : event) : Prop :=
  match e with Served _ _ _ _ => False | Called _ n _ r => n = calls /\ request_ok r | _ => True end.

Definition framed w w' : Prop := w_keys w' = w_keys w /\
  (exists oe, w_log w' = w_log w ++ option_list oe /\ from_option (event_ok (w_calls w)) True oe) /\ tasks_kept w w'.

Lemma framed_silent w w' : w_keys w' = w_keys w -> w_log w' = w_log w -> tasks_kept w w' -> framed w w'.
Proof. intros Ek El Ht. split_and!; [done| |done]. exists None. split; [by rewrite app_nil_r|done]. Qed.

Lemma framed_event e w w' : w_keys w' = w_keys w -> w_log w' = w_log w ++ [e] -> event_ok (w_calls w) e -> tasks_kept w w' -> framed w w'.
Proof. intros Ek El He Ht. split_and!; [done| |done]. by exists (Some e). Qed.

Lemma framed_call c r w : request_ok r -> framed w (call c r w).
Proof. intros Hr. by eapply framed_event; [done|done|split|apply tasks_same]. Qed.

Lemma framed_send_request c i w w' : send_request c i w = Some w' -> framed w w'.
Proof.
  unfold send_request. destruct (cl_calling (client_of c w) !! i) as [[n m]|]; [|done].
  destruct (cl_conn (set_calling _ _)) as [q|q|l|ks taken e|].
  - intros [= <-]. by apply framed_silent; [done|done|apply tasks_same].
  - intros [= <-]. by apply framed_silent; [done|done|apply tasks_same].
  - destruct (w_links w !! l) as [y|] eqn:Ey; [|done]. intros [= <-]. apply framed_silent; [done|done|].
    eapply tasks_put; [reflexivity|]. right. exists y. split; [done|]. by destruct (ln_open y).
  - intros [= <-]. by eapply framed_event; [done|done|done|apply tasks_same].
  - intros [= <-]. by eapply framed_event; [done|done|done|apply tasks_same].
Qed.

Lemma framed_connect c w : framed w (connect c w).
Proof. unfold connect. destruct (cl_conn (client_of c w)); by apply framed_silent; [done|done|apply tasks_same]. Qed.

Lemma framed_become_connected c l w w' : become_connected c l w = Some w' -> framed w w'.
Proof.
  unfold become_connected. destruct (cl_conn (client_of c w)); try done. destruct (w_links w !! l); [done|].
  intros [= <-]. apply framed_silent; [done|done|]. eapply tasks_put; [reflexivity|by left].
Qed.

(** A client lets its link go. *)
Lemma framed_drop c x y ev w : event_ok (w_calls w) ev -> framed w (note ev (drop_link y (put_client c x w))).
Proof.
  intros Hev. assert (w_keys (drop_link y (put_client c x w)) = w_keys w) as Ek by (unfold drop_link; by repeat case_match).
  assert (w_log (note ev (drop_link y (put_client c x w))) = w_log w ++ [ev]) as El.
  { cbn. f_equal. unfold drop_link. by repeat case_match. }
  apply (framed_event ev w (note ev _) Ek El Hev). apply (tasks_drop y). cbn. apply drop_link_put.
Qed.

Lemma framed_disconnected c e w w' : disconnected c e w = Some w' -> framed w w'.
Proof. unfold disconnected. destruct (cl_conn (client_of c w)); try done; intros [= <-]; by apply framed_drop. Qed.

Lemma framed_close c w : framed w (close c w).
Proof.
  unfold close. destruct (cl_conn (client_of c w)); try (by apply framed_drop); by apply framed_silent; [done|done|apply tasks_same].
Qed.

Lemma framed_fail_step c w w' : fail_step c w = Some w' -> framed w w'.
Proof.
  unfold fail_step. destruct (cl_conn (client_of c w)) as [| | |[|k ks] [|n taken] e|]; try done; intros [= <-].
  2: by eapply framed_event; [done|done|done|apply tasks_same].
  all: by apply framed_silent; [done|done|apply tasks_same].
Qed.

Lemma framed_client_receive c w w' : client_receive c w = Some w' -> framed w w'.
Proof.
  unfold client_receive. destruct (cl_conn (client_of c w)) as [| |l| |]; try done.
  destruct (w_links w !! l) as [y|] eqn:Ey; [|done]. destruct (ln_down y) as [|m rest]; [done|]. intros [= <-].
  assert (forall w1, w_links w1 = <[l := set_down rest y]> (w_links w) -> tasks_kept w w1) as Ht.
  { intros w1 E. apply (tasks_put w w1 l (set_down rest y) E). right. by exists y. }
  unfold client_handle. destruct (answer m) as [[[k id] o]|]; [|apply framed_silent; [done|done|by apply Ht]].
  unfold complete. destruct (_ !! id); [|apply framed_silent; [done|done|by apply Ht]].
  eapply framed_event; [done|done|done|by apply Ht].
Qed.

Lemma framed_shut l w w' : match w_links w !! l with Some x => Some (put_link l (shut x) w) | None => None end = Some w' -> framed w w'.
Proof.
  destruct (w_links w !! l) as [x|] eqn:Ex; [|done]. intros [= <-]. apply framed_silent; [done|done|].
  eapply tasks_put; [reflexivity|]. right. by exists x.
Qed.

(** Only the server's steps do more. *)
Lemma step_framed (what : store_exn -> octets) a w w' : label_ok a -> step what a w = Some w' ->
  framed w w' \/ (exists l, server_receive what l w = Some w') \/ (exists l, server_task what l w = Some w').
Proof.
  intros Ha. destruct a as [c r|c i|c|c l|c e|c|c|c|l|l|l]; cbn [KeyService.step]; intros E.
  - injection E as <-. left. by apply framed_call.
  - left. by apply framed_send_request in E.
  - injection E as <-. left. apply framed_connect.
  - left. by apply framed_become_connected in E.
  - left. by apply framed_disconnected in E.
  - left. by apply framed_fail_step in E.
  - injection E as <-. left. apply framed_close.
  - left. by apply framed_client_receive in E.
  - right; left. by exists l.
  - right; right. by exists l.
  - left. by apply framed_shut in E.
Qed.
End frames.

(** ** Keys found were registered *)

Section directory.
Context {B C : Type} `{Primitives} `{ForeignCategories}.
Context `{!Access B public_key octets public_key, !Access C certificate octets certificate, !KeyHolding B}.
Context (what : store_exn -> octets).

(** What the store held before. *)
Context (P0 : public_key -> Prop).

#[local] Abbreviation world := (world B C).
#[local] Abbreviation step := (step what).
#[local] Abbreviation run := (run what).
Implicit Types (w : world).

Definition registered (log : list event) (key : public_key) : Prop :=
  P0 key \/ (pk_verify_me key = Ok true /\ exists c n id, Called c n id (RegisterKey key) ∈ log).

Record directory w : Prop := {
  d_keys : holds_only (registered (w_log w)) (w_keys w);
  d_task l y id key : w_links w !! l = Some y -> ln_task y = Some (id, key) -> key_storable key /\ registered (w_log w) key;
  d_calls c n id r : Called c n id r ∈ w_log w -> request_ok r;
  d_served c id kid m k i key : Served c id (FindKey kid) m ∈ w_log w -> answer m = Some (k, i, KeyFound (Some key)) ->
    pk_id key = kid /\ registered (w_log w) key
}.

Lemma registered_app log es key : registered log key -> registered (log ++ es) key.
Proof. intros [?|(? & c & n & id & ?)]; [by left|right]. split; [done|]. exists c, n, id. apply elem_of_app. by left. Qed.

Lemma directory_framed w w' : framed w w' -> directory w -> directory w'.
Proof.
  intros (Ek & (oe & El & He) & Ht) []. constructor; rewrite ?Ek, ?El.
  - eapply held_mono; [|done]. intros key. apply registered_app.
  - intros l y id key Hy E. destruct (Ht l y Hy) as [?|(y0 & Hy0 & E0)]; [congruence|].
    destruct (d_task0 l y0 id key Hy0) as [? ?]; [congruence|]. split; [done|by apply registered_app].
  - intros c n id r [?|Hin]%elem_of_app; [eauto|]. destruct oe as [e|]; [|by apply elem_of_nil in Hin].
    apply list_elem_of_singleton in Hin as <-. apply He.
  - intros c id kid m k i key [Hin|Hin]%elem_of_app E.
    + destruct (d_served0 _ _ _ _ _ _ _ Hin E). split; [done|by apply registered_app].
    + destruct oe as [e|]; [|by apply elem_of_nil in Hin]. by apply list_elem_of_singleton in Hin as <-.
Qed.

(** ** The server's store *)

Lemma register_check_holds (P : public_key -> Prop) key (b : B) res b' : key_storable key -> holds_only P b ->
  register_check key b = (res, b') -> holds_only P b' /\ (forall u, res = Ok u -> pk_verify_me key = Ok true).
Proof.
  intros [_ Hk] Hb. unfold register_check, mbind, sexn_bind, on_store, crypto_result.
  destruct (pk_verify_me key) as [[]|e]; cbn; [|by intros [= <- <-]|by intros [= <- <-]].
  destruct (held_find P (pk_id key) b Hk Hb) as [Hb1 _]. destruct (acc_find (pk_id key) b) as [[[v|]|e] b1]; by intros [= <- <-].
Qed.

Lemma register_insert_holds (P : public_key -> Prop) key (b : B) : key_storable key -> P key -> holds_only P b ->
  holds_only P (register_insert key b).2.
Proof.
  intros Hs Hp Hb. unfold register_insert, on_store. pose proof (held_insert P key b Hs Hp Hb).
  by destruct (acc_insert key b) as [[]].
Qed.

Lemma find_key_holds (P : public_key -> Prop) kid (b : B) : Forall is_octet kid -> holds_only P b ->
  holds_only P (find_key kid b).2 /\ forall key, (find_key kid b).1 = Ok (Some key) -> pk_id key = kid /\ P key.
Proof.
  intros Hk Hb. unfold find_key, on_store. destruct (held_find P kid b Hk Hb) as [Hb' Hv].
  destruct (acc_find kid b) as [[v|e] b']; cbn in *; [|done]. split; [done|]. intros key [= ->]. by apply Hv.
Qed.

(** ** The server's steps *)

Lemma directory_put l y (k : B) w : holds_only (registered (w_log w)) k ->
  (forall id key, ln_task y = Some (id, key) -> key_storable key /\ registered (w_log w) key) ->
  directory w -> directory (put_link l y (put_keys k w)).
Proof.
  intros Hk Ht []. constructor; auto.
  intros l' y' id key. cbn. rewrite lookup_insert_Some. intros [[_ <-]|[_ Hy]] E; [by eapply Ht|by eapply d_task0].
Qed.

Lemma directory_served c id r m w : (forall kid k i key, r = FindKey kid -> answer m = Some (k, i, KeyFound (Some key)) ->
    pk_id key = kid /\ registered (w_log w) key) -> directory w -> directory (note (Served c id r m) w).
Proof.
  intros Hm []. constructor; cbn.
  - eapply held_mono; [|done]. intros key. apply registered_app.
  - intros l y id' key Hy E. destruct (d_task0 l y id' key Hy E). split; [done|by apply registered_app].
  - intros c' n id' r' [?|?%list_elem_of_singleton]%elem_of_app; [eauto|done].
  - intros c' id' kid m' k i key [Hin|[= -> -> <- ->]%list_elem_of_singleton]%elem_of_app E.
    + destruct (d_served0 _ _ _ _ _ _ _ Hin E). split; [done|by apply registered_app].
    + destruct (Hm kid k i key eq_refl E). split; [done|by apply registered_app].
Qed.

Lemma directory_respond l x id r m (k : B) w : holds_only (registered (w_log w)) k -> ln_task x = None ->
  (forall kid k i key, r = FindKey kid -> answer m = Some (k, i, KeyFound (Some key)) -> pk_id key = kid /\ registered (w_log w) key) ->
  directory w -> directory (respond l x id r m (put_keys k w)).
Proof.
  intros Hk Ht Hm Hd. apply directory_served; [exact Hm|]. apply directory_put; [done| |done].
  intros id' key. by destruct (ln_open x && ln_live x); cbn; rewrite Ht.
Qed.

Lemma directory_find l x id kid w : ln_task x = None -> Forall is_octet kid -> directory w ->
  directory (let '(res, k) := find_key kid (w_keys w) in answer_find l x id (FindKey kid) (find_key_response id) res (put_keys k w)).
Proof.
  intros Ht Hk Hd. destruct (find_key_holds _ kid (w_keys w) Hk (d_keys w Hd)) as [Hb Hv].
  destruct (find_key kid (w_keys w)) as [[v|e] k]; cbn in *.
  - apply directory_respond; [done|done| |done]. intros kid' k' i key [= <-]. cbn. intros [= _ _ ->]. by apply Hv.
  - destruct (caught e); [|apply directory_put; [done|by cbn; rewrite Ht|done]].
    apply directory_respond; [done|done| |done]. intros kid' k' i key [= <-]. cbn. by destruct (is_net_error _).
Qed.

(** Certificates are none of this. *)
Lemma directory_put_certs (k : C) w : directory w -> directory (put_certs k w).
Proof. intros []. by constructor. Qed.

Lemma directory_put_same l y w : (forall id key, ln_task y = Some (id, key) -> key_storable key /\ registered (w_log w) key) ->
  directory w -> directory (put_link l y w).
Proof. intros Hy Hd. apply (directory_put l y (w_keys w) w); [apply Hd|done|done]. Qed.

Lemma directory_find_certificate l x id cid w : ln_task x = None -> directory w ->
  directory (let '(res, k) := find_certificate cid (w_certs w) in
             answer_find l x id (FindCertificate cid) (find_certificate_response id) res (put_certs k w)).
Proof.
  intros Ht Hd. destruct (find_certificate cid (w_certs w)) as [res k]. apply (directory_put_certs k) in Hd.
  assert (forall m, directory (respond l x id (FindCertificate cid) m (put_certs k w))) as Hr.
  { intros m. apply directory_served; [done|]. apply directory_put_same; [|done].
    intros id' key. by destruct (ln_open x && ln_live x); cbn; rewrite Ht. }
  destruct res as [v|e]; cbn; [done|]. destruct (caught e); [done|]. apply directory_put_same; [by cbn; rewrite Ht|done].
Qed.

Lemma requested_register log c m : requested log c m -> forall id key, m = register_key_request id key ->
  exists n, Called c n id (RegisterKey key) ∈ log.
Proof. intros (n & id & r & Hc & ->) id' key E. destruct r; cbn in E; simplify_eq. eauto. Qed.

Lemma requested_find log c m : requested log c m -> forall id kid, m = find_key_request id kid ->
  exists n, Called c n id (FindKey kid) ∈ log.
Proof. intros (n & id & r & Hc & ->) id' kid E. destruct r; cbn in E; simplify_eq. eauto. Qed.

Lemma directory_server_receive l w w' : inv w -> server_receive what l w = Some w' -> directory w -> directory w'.
Proof.
  intros Hi. unfold server_receive. destruct (w_links w !! l) as [x|] eqn:Ex; [|done].
  destruct (ln_open x), (ln_task x) eqn:Et, (ln_up x) as [|m rest] eqn:Eu; try done. intros [= <-] Hd.
  assert (requested (w_log w) (ln_client x) m) as Hm by (apply (l_up _ _ (v_link w Hi l x Ex)); rewrite Eu; by left).
  assert (ln_task (set_up rest x) = None) as Ht by done.
  assert (directory (put_link l (shut (set_up rest x)) w)) as Hshut by (apply directory_put_same; [by cbn; rewrite Et|done]).
  destruct m as [id key|id kid|id cid|id e|id key e|id cert e]; cbn [server_handle]; try done.
  - destruct (requested_register _ _ _ Hm id key eq_refl) as [n Hc]. pose proof (d_calls w Hd _ _ _ _ Hc) as Hs.
    destruct (register_check key (w_keys w)) as [res k] eqn:E.
    apply (register_check_holds (registered (w_log w)) key (w_keys w) res k Hs (d_keys w Hd)) in E as [Hk Hv].
    destruct res as [u|e]; [|by apply directory_respond].
    apply directory_put; [done| |done]. intros id' key' [= <- <-]. split; [done|]. right. split; [by eapply Hv|eauto].
  - destruct (requested_find _ _ _ Hm id kid eq_refl) as [n Hc]. by apply directory_find; [|apply (d_calls w Hd _ _ _ _ Hc)|].
  - by apply directory_find_certificate.
Qed.

Lemma directory_server_task l w w' : server_task what l w = Some w' -> directory w -> directory w'.
Proof.
  unfold server_task. destruct (w_links w !! l) as [x|] eqn:Ex; [|done]. destruct (ln_task x) as [[id key]|] eqn:Et; [|done].
  intros E Hd. destruct (d_task w Hd l x id key Ex Et) as [Hs Hr].
  pose proof (register_insert_holds _ key (w_keys w) Hs Hr (d_keys w Hd)) as Hk.
  destruct (register_insert key (w_keys w)) as [res k]. injection E as <-. by apply directory_respond.
Qed.

Lemma directory_step a w w' : label_ok a -> inv w -> step a w = Some w' -> directory w -> directory w'.
Proof.
  intros Ha Hi [Hf|[[l E]|[l E]]]%step_framed; [by apply directory_framed|by apply (directory_server_receive l)| |done].
  by apply (directory_server_task l).
Qed.

Lemma directory_run ls w w' : Forall label_ok ls -> inv w -> Z.of_nat (w_calls w') < 2 ^ 32 -> run ls w = Some w' ->
  directory w -> directory w'.
Proof.
  revert w. induction ls as [|a ls IH]; intros w Hl Hi Hb E Hd; cbn in E; [by injection E as <-|].
  destruct (step a w) as [w1|] eqn:Es; [|done]. pose proof (run_calls _ _ _ _ E). apply Forall_cons in Hl as [Ha Hl].
  apply (IH w1); try done; [|by apply (directory_step a w)]. apply (inv_service_step what a w); [done|lia|done].
Qed.

Lemma directory_start keys certs : holds_only P0 keys -> directory (start_world keys certs).
Proof.
  intros Hk. constructor; cbn; try (by intros * ?%elem_of_nil).
  - eapply held_mono; [|exact Hk]. intros key. by left.
  - intros l y id key. by rewrite lookup_empty.
Qed.
End directory.

(** ** Keys registered are found *)

(** An error of the store never travels as none. *)
Lemma crypto_error_travels `{ForeignCategories} c m : is_net_error (net_error_of (crypto_error c m)) = true.
Proof. by destruct c. Qed.

Lemma caught_travels `{ForeignCategories} e err : caught e = Some err -> is_net_error (net_error_of err) = true.
Proof.
  destruct e as [msg|[ |x| ]]; cbn; try done; [|destruct x; try done]; intros [= <-]; apply crypto_error_travels.
Qed.

Lemma register_error_travels `{ForeignCategories} what e : is_net_error (net_error_of (register_error what e)) = true.
Proof.
  unfold register_error. destruct (caught e) as [err|] eqn:E; [by eapply caught_travels|]. by destruct e.
Qed.

Definition call_number (e : event) : option nat := match e with Called _ n _ _ => Some n | _ => None end.

(** A call is made once. *)
Lemma same_call log l1 x l2 l3 y l4 n : NoDup (omap call_number log) -> call_number x = Some n -> call_number y = Some n ->
  log = l1 ++ x :: l2 -> log = l3 ++ y :: l4 -> l1 = l3.
Proof.
  intros Hn Hx Hy -> E. revert l3 E. induction l1 as [|a l1 IH]; intros [|b l3] E; cbn in E; [done| | |].
  - injection E as -> ->. cbn in Hn. rewrite Hx in Hn. apply NoDup_cons in Hn as [Hn _]. destruct Hn.
    apply list_elem_of_omap. exists y. split; [|done]. apply elem_of_app. right. by left.
  - injection E as -> <-. cbn in Hn. rewrite Hy in Hn. apply NoDup_cons in Hn as [Hn _]. destruct Hn.
    apply list_elem_of_omap. exists x. split; [|done]. apply elem_of_app. right. by left.
  - injection E as -> E. f_equal. apply IH; [|done]. cbn in Hn. destruct (call_number b); [by apply NoDup_cons in Hn as [_ ?]|done].
Qed.

(** The server told a client that the key with this id is registered. *)
Definition told_registered (log : list event) (kid : octets) : Prop :=
  exists c id key m k i, Served c id (RegisterKey key) m ∈ log /\ answer m = Some (k, i, Registered) /\ pk_id key = kid.

Lemma told_app log es kid : told_registered log kid -> told_registered (log ++ es) kid.
Proof. intros (c & id & key & m & k & i & Hs & Hr). exists c, id, key, m, k, i. split; [apply elem_of_app; by left|done]. Qed.

(** A lookup for which there was nothing. *)
Definition found_nothing (kid : octets) (e : event) : Prop :=
  exists c id m k i, e = Served c id (FindKey kid) m /\ answer m = Some (k, i, KeyFound None).

Section keeping.
Context {B C : Type} `{Primitives} `{ForeignCategories}.
Context `{!Access B public_key octets public_key, !Access C certificate octets certificate, !KeyKeeping B}.
Context (what : store_exn -> octets).

#[local] Abbreviation world := (world B C).
#[local] Abbreviation step := (step what).
#[local] Abbreviation run := (run what).
Implicit Types (w : world).

Record keeping w : Prop := {
  p_present kid : told_registered (w_log w) kid -> Forall is_octet kid /\ present kid (w_keys w);
  p_found l1 e l2 kid : w_log w = l1 ++ e :: l2 -> found_nothing kid e -> ~ told_registered l1 kid;
  p_calls c n id r : Called c n id r ∈ w_log w -> request_ok r;
  p_once : NoDup (omap call_number (w_log w))
}.

(** The record grows by an event that tells nothing of the kind. *)
Lemma told_last log e kid : told_registered (log ++ [e]) kid -> told_registered log kid \/
  exists c id key m k i, e = Served c id (RegisterKey key) m /\ answer m = Some (k, i, Registered) /\ pk_id key = kid.
Proof.
  intros (c & id & key & m & k & i & [Hs|<-%list_elem_of_singleton]%elem_of_app & Hr); [left|right]; by exists c, id, key, m, k, i.
Qed.

Lemma found_last log e l1 x l2 kid : (forall l1 e' l2, log = l1 ++ e' :: l2 -> found_nothing kid e' -> ~ told_registered l1 kid) ->
  log ++ [e] = l1 ++ x :: l2 -> found_nothing kid x -> (found_nothing kid e -> ~ told_registered log kid) -> ~ told_registered l1 kid.
Proof.
  intros Hold E Hx He. destruct l2 as [|y l2 _] using rev_ind.
  - apply app_inj_tail in E as [<- ->]. auto.
  - rewrite app_comm_cons, app_assoc in E. apply app_inj_tail in E as [-> _]. by eapply Hold.
Qed.

Lemma keeping_framed w w' : calls_ok (w_calls w) (w_log w) -> framed w w' -> keeping w -> keeping w'.
Proof.
  intros Hc (Ek & (oe & El & He) & _) []. destruct oe as [e|]; cbn in El; [|rewrite app_nil_r in El; by constructor; rewrite ?Ek, ?El].
  assert (forall c id r m, e <> Served c id r m) as Hne by (by intros c id r m ->).
  constructor; rewrite ?Ek, ?El.
  - intros kid [?|(c & id & key & m & k & i & ? & _)]%told_last; [auto|]. by destruct (Hne c id (RegisterKey key) m).
  - intros l1 x l2 kid E Hx. apply (found_last (w_log w) e l1 x l2 kid); [by eauto|done|done|].
    intros (c & id & m & k & i & ? & _). by destruct (Hne c id (FindKey kid) m).
  - intros c n id r [?|<-%list_elem_of_singleton]%elem_of_app; [eauto|apply He].
  - rewrite omap_app. destruct e as [c n id r| | | | |]; cbn; rewrite ?app_nil_r; try done.
    apply NoDup_app. split; [done|]. split; [|apply NoDup_singleton].
    intros n' (x & Hx & Hn)%list_elem_of_omap ->%list_elem_of_singleton. destruct x; simplify_eq/=.
    pose proof (n_called _ _ Hc _ _ _ _ Hx). destruct He as [-> _]. lia.
Qed.

(** An answer is given, the store has changed. *)
Lemma keeping_respond l x id r m (k : B) w : (forall kid, Forall is_octet kid -> present kid (w_keys w) -> present kid k) ->
  (forall key kk i, r = RegisterKey key -> answer m = Some (kk, i, Registered) -> Forall is_octet (pk_id key) /\ present (pk_id key) k) ->
  (forall kid kk i, r = FindKey kid -> answer m = Some (kk, i, KeyFound None) -> ~ present kid (w_keys w)) ->
  keeping w -> keeping (respond l x id r m (put_keys k w)).
Proof.
  intros Hk Hr Hf []. unfold respond. constructor; cbn.
  - intros kid [Ht|(c & id' & key & m' & kk & i & [= _ _ -> ->] & Ha & <-)]%told_last; [|by eapply Hr].
    destruct (p_present0 kid Ht). auto.
  - intros l1 e l2 kid E He. apply (found_last (w_log w) _ l1 e l2 kid) in E; [done|by eauto|done|].
    intros (c & id' & m' & kk & i & [= _ _ -> ->] & Ha) Ht. destruct (p_present0 kid Ht). by eapply Hf.
  - intros c n id' r' [?|?%list_elem_of_singleton]%elem_of_app; [eauto|done].
  - rewrite omap_app. cbn. by rewrite app_nil_r.
Qed.

Lemma keeping_put l y (k : B) w : (forall kid, Forall is_octet kid -> present kid (w_keys w) -> present kid k) ->
  keeping w -> keeping (put_link l y (put_keys k w)).
Proof. intros Hk []. constructor; auto. intros kid Ht. destruct (p_present0 kid Ht). auto. Qed.

Lemma keeping_put_certs (k : C) w : keeping w -> keeping (put_certs k w).
Proof. intros []. by constructor. Qed.

Lemma register_check_keeps kid key (b : B) : present kid b -> present kid (register_check key b).2.
Proof.
  intros Hb. unfold register_check, mbind, sexn_bind, on_store, crypto_result.
  destruct (pk_verify_me key) as [[]|e]; cbn; try done.
  pose proof (present_find kid (pk_id key) b Hb). by destruct (acc_find (pk_id key) b) as [[[v|]|e] b1].
Qed.

Lemma find_key_keeps kid id (b : B) : present kid b -> present kid (find_key id b).2.
Proof.
  intros Hb. unfold find_key, on_store. pose proof (present_find kid id b Hb). by destruct (acc_find id b) as [[v|e] b1].
Qed.

Lemma keeping_find l x id kid w : keeping w ->
  keeping (let '(res, k) := find_key kid (w_keys w) in answer_find l x id (FindKey kid) (find_key_response id) res (put_keys k w)).
Proof.
  intros Hp. pose proof (fun kid' => find_key_keeps kid' kid (w_keys w)) as Hk.
  assert (forall kid', kid' = kid -> (find_key kid (w_keys w)).1 = Ok None -> ~ present kid' (w_keys w)) as Hf.
  { intros kid' -> E Hin. apply (present_found kid (w_keys w) Hin). unfold find_key, on_store in E.
    destruct (acc_find kid (w_keys w)) as [[v|e] b1]; cbn in *; [congruence|done]. }
  destruct (find_key kid (w_keys w)) as [[v|e] k]; cbn in *.
  - apply keeping_respond; [by auto|done| |done]. intros kid' kk i [= <-]. cbn. intros [= _ _ ->]. by apply Hf.
  - destruct (caught e) as [err|] eqn:Ec; [|apply keeping_put; auto].
    apply keeping_respond; [by auto|done| |done]. intros kid' kk i _. cbn. by rewrite (caught_travels e err Ec).
Qed.

Lemma keeping_find_certificate l x id cid w : keeping w ->
  keeping (let '(res, k) := find_certificate cid (w_certs w) in
             answer_find l x id (FindCertificate cid) (find_certificate_response id) res (put_certs k w)).
Proof.
  intros Hd. destruct (find_certificate cid (w_certs w)) as [res k]. apply (keeping_put_certs k) in Hd.
  assert (forall m, keeping (respond l x id (FindCertificate cid) m (put_certs k w))) as Hr.
  { intros m. by apply (keeping_respond l x id (FindCertificate cid) m (w_keys w) (put_certs k w)). }
  destruct res as [v|e]; cbn; [done|]. destruct (caught e); [done|]. by apply (keeping_put _ _ (w_keys w)).
Qed.

Lemma keeping_server_receive l w w' : inv w -> server_receive what l w = Some w' -> keeping w -> keeping w'.
Proof.
  intros Hi. unfold server_receive. destruct (w_links w !! l) as [x|] eqn:Ex; [|done].
  destruct (ln_open x), (ln_task x) eqn:Et, (ln_up x) as [|m rest] eqn:Eu; try done. intros [= <-] Hd.
  assert (keeping (put_link l (shut (set_up rest x)) w)) as Hshut by (by apply (keeping_put _ _ (w_keys w))).
  destruct m as [id key|id kid|id cid|id e|id key e|id cert e]; cbn [server_handle]; try done.
  - pose proof (fun kid => register_check_keeps kid key (w_keys w)) as Hk.
    destruct (register_check key (w_keys w)) as [[u|e] k]; cbn in Hk; [apply keeping_put; auto|].
    apply keeping_respond; [by auto| |done|done]. intros key' kk i _. cbn. by rewrite register_error_travels.
  - by apply keeping_find.
  - by apply keeping_find_certificate.
Qed.

Lemma keeping_server_task l w w' : inv w -> server_task what l w = Some w' -> keeping w -> keeping w'.
Proof.
  intros Hi. unfold server_task. destruct (w_links w !! l) as [x|] eqn:Ex; [|done].
  destruct (ln_task x) as [[id key]|] eqn:Et; [|done]. intros E Hd.
  destruct (requested_register _ _ _ (l_task _ _ (v_link w Hi l x Ex) id key Et) id key eq_refl) as [n Hc].
  pose proof (p_calls w Hd _ _ _ _ Hc) as Hs. cbn in Hs.
  pose proof (fun kid Hkid => present_insert kid key (w_keys w) Hkid Hs) as Hk.
  unfold register_insert, on_store in E. destruct (acc_insert key (w_keys w)) as [[u|e] k] eqn:Ei; injection E as <-; cbn in Hk.
  - apply keeping_respond; [by auto| |done|done]. intros key' kk i [= <-] _. split; [apply Hs|by eapply present_inserted].
  - apply keeping_respond; [by auto| |done|done]. intros key' kk i _. cbn. by rewrite register_error_travels.
Qed.

Lemma keeping_step a w w' : label_ok a -> inv w -> step a w = Some w' -> keeping w -> keeping w'.
Proof.
  intros Ha Hi [Hf|[[l E]|[l E]]]%step_framed; [by apply keeping_framed; [apply Hi|]|by apply (keeping_server_receive l)| |done].
  by apply (keeping_server_task l).
Qed.

Lemma keeping_run ls w w' : Forall label_ok ls -> inv w -> Z.of_nat (w_calls w') < 2 ^ 32 -> run ls w = Some w' ->
  keeping w -> keeping w'.
Proof.
  revert w. induction ls as [|a ls IH]; intros w Hl Hi Hb E Hd; cbn in E; [by injection E as <-|].
  destruct (step a w) as [w1|] eqn:Es; [|done]. pose proof (run_calls _ _ _ _ E). apply Forall_cons in Hl as [Ha Hl].
  apply (IH w1); try done; [|by apply (keeping_step a w)]. apply (inv_service_step what a w); [done|lia|done].
Qed.

Lemma keeping_start keys certs : keeping (start_world keys certs).
Proof.
  constructor; cbn.
  - by intros kid (c & id & key & m & k & i & ?%elem_of_nil & _).
  - intros l1 x l2 kid E. by destruct l1.
  - by intros * ?%elem_of_nil.
  - constructor.
Qed.
End keeping.

(** ** Properties *)

(** C5: Every key that a client finds has the id it asked for, and was in the
    server's store from the start or was registered by a client and carries its
    own valid signature, whatever the store's calls throw. *)
Theorem found_keys_are_registered {B C} `{Primitives, ForeignCategories, !Access B public_key octets public_key}
  `{!Access C certificate octets certificate, !KeyHolding B} (what : store_exn -> octets) (P0 : public_key -> Prop) ls (keys : B) (certs : C) w c n id kid key
  (Hk : holds_only P0 keys) (Hl : Forall label_ok ls) (Hb : Z.of_nat (w_calls w) < 2 ^ 32)
  (E : run what ls (start_world keys certs) = Some w)
  (Hc : Called c n id (FindKey kid) ∈ w_log w) (Hd : Done c n (KeyFound (Some key)) ∈ w_log w) :
  pk_id key = kid /\
  (P0 key \/ (pk_verify_me key = Ok true /\ exists c' n' id', Called c' n' id' (RegisterKey key) ∈ w_log w)).
Proof.
  destruct (safe_start what ls keys certs w Hb E) as [Hi _].
  assert (directory P0 w) as Hdir.
  { apply (directory_run what P0 ls (start_world keys certs)); [done|apply inv_start|done|done|by apply directory_start]. }
  apply list_elem_of_split in Hd as (l1 & l2 & El). destruct (v_done w Hi) as [_ Hdone].
  destruct (Hdone l1 l2 c n _ El) as (id' & r & Hc' & [(m & Hs & Ha)|(e & _ & ?)]); [|done].
  assert (forall e, e ∈ l1 -> e ∈ w_log w) as Hin by (intros e He; rewrite El; apply elem_of_app; by left).
  destruct (n_once _ _ (v_calls w Hi) _ _ _ _ _ _ _ (Hin _ Hc') Hc) as (_ & _ & ->).
  apply before_in in Hs as [_ Hs]. exact (d_served P0 w Hdir _ _ _ _ _ _ _ (Hin _ Hs) Ha).
Qed.

(** C8: A key that the server said is registered is found by every lookup that is
    made afterwards and answered, by whichever client. *)
Theorem registered_keys_are_found {B C} `{Primitives, ForeignCategories, !Access B public_key octets public_key}
  `{!Access C certificate octets certificate, !KeyKeeping B} (what : store_exn -> octets) ls (keys : B) (certs : C) w c n id key c' n' id'
  (Hl : Forall label_ok ls) (Hb : Z.of_nat (w_calls w) < 2 ^ 32) (E : run what ls (start_world keys certs) = Some w)
  (Hc : Called c n id (RegisterKey key) ∈ w_log w)
  (Ho : before (Done c n Registered) (Called c' n' id' (FindKey (pk_id key))) (w_log w)) :
  Done c' n' (KeyFound None) ∉ w_log w.
Proof.
  destruct (safe_start what ls keys certs w Hb E) as [Hi _]. destruct (v_done w Hi) as [_ Hdone].
  assert (keeping w) as Hkeep.
  { apply (keeping_run what ls (start_world keys certs)); [done|apply inv_start|done|done|apply keeping_start]. }
  destruct Ho as (l1 & l2 & l3 & El). intros Hd. apply list_elem_of_split in Hd as (k1 & k2 & Ek).
  destruct (Hdone l1 _ c n _ El) as (i & r & Hc1 & [(m & Hs & Ha)|(e & _ & ?)]); [|done].
  destruct (Hdone k1 k2 c' n' _ Ek) as (i' & r' & Hc2 & [(m' & Hs' & Ha')|(e & _ & ?)]); [|done].
  assert (Called c n i r ∈ w_log w) as Hin1 by (rewrite El; apply elem_of_app; by left).
  destruct (n_once _ _ (v_calls w Hi) _ _ _ _ _ _ _ Hin1 Hc) as (_ & _ & ->).
  destruct Hs' as (j1 & j2 & j3 & Ej). rewrite Ej in Ek.
  assert (Called c' n' i' r' ∈ w_log w) as Hin2 by (rewrite Ek; set_solver+).
  assert (Called c' n' id' (FindKey (pk_id key)) ∈ w_log w) as Hin3 by (rewrite El; set_solver+).
  destruct (n_once _ _ (v_calls w Hi) _ _ _ _ _ _ _ Hin2 Hin3) as (_ & -> & ->).
  assert (l1 ++ Done c n Registered :: l2 = j1) as <-.
  { apply (same_call (w_log w) _ (Called c' n' id' (FindKey (pk_id key))) l3 _ (Called c' n' id' (FindKey (pk_id key)))
      (j2 ++ Served c' id' (FindKey (pk_id key)) m' :: j3 ++ Done c' n' (KeyFound None) :: k2) n' (p_once w Hkeep)); try done.
    - by rewrite El, <- app_assoc.
    - rewrite Ek, <- !app_assoc. cbn. by rewrite <- !app_assoc. }
  eapply (p_found w Hkeep ((l1 ++ Done c n Registered :: l2) ++ Called c' n' id' (FindKey (pk_id key)) :: j2) _ (j3 ++ Done c' n' (KeyFound None) :: k2)
    (pk_id key)).
  - rewrite Ek, <- !app_assoc. cbn. by rewrite <- !app_assoc.
  - by exists c', id', m', (kind_of (FindKey (pk_id key))), id'.
  - apply before_in in Hs as [_ Hs]. exists c, i, key, m, register_pending, i. split; [|done].
    apply elem_of_app; left. apply elem_of_app; by left.
Qed.

Module SampleDirectory.
Import CacheSample SampleCategories.
#[local] Existing Instance demo.

(** A key that its signature authenticates. *)
Definition sample_key : public_key := kp_subject demo_link1.

Abbreviation tables := (cache public_key (gmap octets octets)).
Definition empty_tables : tables := Cache ∅ [∅].
Definition no_certificates : gmap octets certificate_row := ∅.
Definition quietly (e : store_exn) : octets := [].

(** One client registers it, then another looks it up. *)
Definition registering : list label :=
  [LConnect 0; LUp 0 5; LCall 0 (RegisterKey sample_key); LSend 0 0; LServe 5; LTask 5; LReceive 0].
Definition looking_up : list label :=
  [LConnect 1; LUp 1 6; LCall 1 (FindKey (pk_id sample_key)); LSend 1 0; LServe 6; LReceive 1].
Definition reached ls := default (start_world empty_tables no_certificates) (run quietly ls (start_world empty_tables no_certificates)).

Lemma sample_key_storable : key_storable sample_key.
Proof.
  split; [split; [wf_ground|vm_compute; discriminate]|]. apply (bool_decide_unpack _). vm_compute. exact I.
Qed.

Lemma sample_labels_ok : Forall label_ok (registering ++ looking_up).
Proof.
  repeat (constructor; [first [exact I|exact sample_key_storable|exact (proj2 sample_key_storable)]|]). constructor.
Qed.

Definition runs ls : bool := match run quietly ls (start_world empty_tables no_certificates) with Some _ => true | None => false end.

Lemma sample_run ls : runs ls = true ->
  run quietly ls (start_world empty_tables no_certificates) = Some (reached ls).
Proof. unfold runs, reached. by destruct (run quietly ls _). Qed.

(** Two registrations of one id at once: both clients are told that theirs is
    the registered one. *)
Definition both_register : list label :=
  [LConnect 0; LUp 0 5; LConnect 1; LUp 1 6; LCall 0 (RegisterKey sample_key); LSend 0 0; LCall 1 (RegisterKey sample_key); LSend 1 0;
   LServe 5; LServe 6; LTask 5; LTask 6; LReceive 0; LReceive 1].

Definition outcomes ls : list (nat * outcome) :=
  omap (fun e => match e with Done _ n o => Some (n, o) | _ => None end) (w_log (reached ls)).

Example registration_race : outcomes both_register = [(0%nat, Registered); (1%nat, Registered)].
Proof. vm_compute. reflexivity. Qed.

(** One after the other, the second is refused. *)
Example registered_once :
  map (fun no => match no.2 with CallFailed e => error_what e | _ => [] end)
    (outcomes (registering ++ [LConnect 1; LUp 1 6; LCall 1 (RegisterKey sample_key); LSend 1 0; LServe 6; LReceive 1])) =
  [[]; literal "unknown error: invalid public key: public key already registered"].
Proof. vm_compute. reflexivity. Qed.
End SampleDirectory.
Import SampleDirectory.

Lemma found_keys_are_registered_witness :
  pk_id sample_key = pk_id sample_key /\
  (False \/ (@pk_verify_me demo sample_key = Ok true /\
             exists c n id, Called c n id (RegisterKey sample_key) ∈ w_log (reached (registering ++ looking_up)))).
Proof.
  apply (@found_keys_are_registered tables _ demo SampleCategories.generic_categories (@public_key_cache _ public_key_database)
    (@certificate_database _ demo _) (@cache_holding demo _ _ (@database_holding demo _ _ memory_table_laws))
    quietly (fun _ => False) (registering ++ looking_up) empty_tables no_certificates _ 1 1 1 (pk_id sample_key) sample_key).
  - split; [by intros k key _ ?|]. constructor; [by intros k key _ ?|constructor].
  - exact sample_labels_ok.
  - vm_compute. reflexivity.
  - apply sample_run. vm_compute. reflexivity.
  - apply (list_elem_of_lookup_2 _ 3). vm_compute. reflexivity.
  - apply (list_elem_of_lookup_2 _ 5). vm_compute. reflexivity.
Defined.

Lemma registered_keys_are_found_witness : Done 1 1 (KeyFound None) ∉ w_log (reached (registering ++ looking_up)).
Proof.
  apply (@registered_keys_are_found tables _ demo SampleCategories.generic_categories (@public_key_cache _ (@public_key_database _ demo _))
    (@certificate_database _ demo _) (@cache_keeping demo _ (@public_key_database _ demo _))
    quietly (registering ++ looking_up) empty_tables no_certificates _ 0 0 1 sample_key 1 1 1).
  - exact sample_labels_ok.
  - vm_compute. reflexivity.
  - apply sample_run. vm_compute. reflexivity.
  - apply (list_elem_of_lookup_2 _ 0). vm_compute. reflexivity.
  - exists (take 2 (w_log (reached (registering ++ looking_up)))), [], (drop 4 (w_log (reached (registering ++ looking_up)))).
    vm_compute. reflexivity.
Defined.
