(* ===== verification/Framing.v ===== *)
(** Record framing on top of the TLS stream: [network/encryption/framing.cpp].

    [frame_reader] is a state machine driven by the completions of
    [tls_stream::async_read_some]; a step returns the new state and what the
    code does next.  The stream is the environment: it delivers between one and
    as many octets as were asked for. *)

From stdpp Require Import base list numbers strings.
From Stdlib Require Import ZArith Lia.
From S2P Require Import Prelude ByteOrder Asn1Int.
Open Scope Z_scope.

(** ** Errors of the network layer ([network/encryption/error.hpp]) *)

Inductive net_errc : Type :=
| init_network_failed | connection_closed | authentication_failure | invalid_record
| no_such_handshake | handshake_failed | invalid_data | key_not_authentic
| bad_version | already_connected | tls_failure.

(** A [std::error_code] that is set: one of ours, of [std::errc], or of asio. *)
Inductive error_code : Type :=
| NetErrc (e : net_errc)
| OperationInProgress
| TimedOut
| OperationAborted
| NotAnError
| EndOfFile
| ConnectionReset
| OtherCode (n : Z).

#[export] Instance net_errc_eq_dec : EqDecision net_errc.
Proof. solve_decision. Defined.
#[export] Instance error_code_eq_dec : EqDecision error_code.
Proof. solve_decision. Defined.

(** ** Frames *)

Definition max_frame_size : Z := 16 * 1024 * 1024.
Definition max_handshake_frame_size : Z := 256 * 1024.
Definition frame_header_size : Z := 4.

Definition encode_frame (payload : octets) : octets :=
  let size := wrap 32 (zlen payload) in
  [wrap 8 (Z.shiftr size 24); wrap 8 (Z.shiftr size 16); wrap 8 (Z.shiftr size 8); wrap 8 size] ++ payload.

Definition decode_frame_length (header : octets) : Z :=
  Z.lor (Z.lor (Z.lor (wrap 32 (Z.shiftl (nth 0 header 0) 24)) (wrap 32 (Z.shiftl (nth 1 header 0) 16)))
               (wrap 32 (Z.shiftl (nth 2 header 0) 8))) (nth 3 header 0).

(** [async_send_frame]: refuse, or write these octets. *)
Definition async_send_frame (payload : octets) : result error_code octets :=
  if max_frame_size <? zlen payload then Throw (NetErrc invalid_data) else Ok (encode_frame payload).

(** ** frame_reader *)

Record frame_reader : Type := FrameReader {
  fr_buffer : octets;
  fr_received : Z;
  fr_expected : Z;
  fr_max_payload : Z;
  fr_header_done : bool;
  fr_busy : bool
}.

Definition new_reader : frame_reader :=
  FrameReader (repeat 0 (Z.to_nat frame_header_size)) 0 frame_header_size max_frame_size false false.

Definition set_max_frame_size (m : Z) (r : frame_reader) : frame_reader :=
  FrameReader (fr_buffer r) (fr_received r) (fr_expected r) m (fr_header_done r) (fr_busy r).

(** What a step leads to: a read of so many octets, the handler called inline,
    or the handler posted with an error. *)
Inductive reader_action : Type :=
| ReadSome (n : Z)
| Complete (ec : option error_code) (payload : octets)
| PostError (ec : error_code).

Definition read_more (r : frame_reader) : reader_action := ReadSome (fr_expected r - fr_received r).

Definition async_receive_frame (r : frame_reader) : frame_reader * reader_action :=
  if fr_busy r then (r, PostError OperationInProgress)
  else
    let r' := FrameReader (resize frame_header_size (fr_buffer r)) 0 frame_header_size
                (fr_max_payload r) false true in
    (r', read_more r').

Definition complete (ec : option error_code) (r : frame_reader) : frame_reader * reader_action :=
  match ec with
  | None => (FrameReader [] (fr_received r) (fr_expected r) (fr_max_payload r) (fr_header_done r) false,
             Complete None (fr_buffer r))
  | Some e => (FrameReader (fr_buffer r) (fr_received r) (fr_expected r) (fr_max_payload r) (fr_header_done r) false,
               Complete (Some e) [])
  end.

(** The part of [on_read] after the expected octets arrived. *)
Definition on_full (r : frame_reader) : frame_reader * reader_action :=
  if fr_header_done r then complete None r
  else
    let length := decode_frame_length (fr_buffer r) in
    if fr_max_payload r <? length then complete (Some (NetErrc invalid_record)) r
    else
      let r := FrameReader (resize length (fr_buffer r)) 0 length (fr_max_payload r) true (fr_busy r) in
      if length =? 0 then complete None r else (r, read_more r).

(** [on_read]: the octets the stream delivered lie in the buffer at
    [received_], where [read_more] pointed it. *)
Definition on_read (ec : option error_code) (bytes : octets) (r : frame_reader) : frame_reader * reader_action :=
  match ec with
  | Some e => complete (Some e) r
  | None =>
      let r := FrameReader (write_at (fr_received r) bytes (fr_buffer r)) (fr_received r + zlen bytes)
                 (fr_expected r) (fr_max_payload r) (fr_header_done r) (fr_busy r) in
      if fr_received r <? fr_expected r then (r, read_more r) else on_full r
  end.

(** ** A reader on a stream *)

(** [deliver sizes src r a]: the stream holds [src] and answers each read with
    as many octets as the next entry of [sizes] says, at least one and at most
    what was asked for.  The result is the first action that is not a read,
    with the octets left on the stream, or [None] when the stream or the
    schedule ran dry. *)
Fixpoint deliver (sizes : list Z) (src : octets) (r : frame_reader) (a : reader_action) :
  option (frame_reader * reader_action * octets) :=
  match a with
  | ReadSome n =>
      match sizes with
      | [] => None
      | k :: ks =>
          let m := Z.min (Z.min (Z.max 1 k) n) (zlen src) in
          if m <=? 0 then None
          else let '(r', a') := on_read None (ztake m src) r in deliver ks (zdrop m src) r' a'
      end
  | _ => Some (r, a, src)
  end.

Definition receive (sizes : list Z) (src : octets) (r : frame_reader) :
  option (frame_reader * reader_action * octets) :=
  let '(r', a) := async_receive_frame r in deliver sizes src r' a.

(** ** Lemmas *)

Lemma decode_frame_length_digits a b c d rest :
  is_octet a -> is_octet b -> is_octet c -> is_octet d ->
  decode_frame_length (a :: b :: c :: d :: rest) = be_val [a; b; c; d].
Proof.
  unfold is_octet. intros Ha Hb Hc Hd. unfold decode_frame_length. cbn [nth].
  rewrite !(wrap_small 32) by (rewrite Z.shiftl_mul_pow2; lia).
  rewrite (Z.lor_comm _ d), (Z.lor_comm _ (Z.shiftl c 8)), (Z.lor_comm _ (Z.shiftl b 16)), !Z.lor_assoc.
  rewrite (lor_disjoint d c 8) by lia. rewrite (lor_disjoint _ b 16) by lia.
  rewrite (lor_disjoint _ a 24) by lia. unfold be_val. cbn [fold_left]. lia.
Qed.

Lemma encode_frame_header payload :
  encode_frame payload = be_digits 4 (zlen payload) ++ payload.
Proof.
  unfold encode_frame. f_equal. cbn [be_digits app].
  rewrite !Z.shiftr_div_pow2 by lia. unfold wrap. pose proof (zlen_nonneg payload).
  rewrite !Z.div_div by lia. set (n := zlen payload) in *.
  assert (forall k, 0 <= k <= 24 -> (n mod 2 ^ 32 / 2 ^ k) mod 2 ^ 8 = (n / 2 ^ k) mod 2 ^ 8) as G.
  { intros k Hk. rewrite <- !Z.land_ones by lia. rewrite <- !Z.shiftr_div_pow2 by lia.
    apply Z.bits_inj'. intros i Hi. rewrite !Z.land_spec, !Z.shiftr_spec, Z.land_spec by lia.
    destruct (Z.lt_ge_cases i 8); [|rewrite (Z.ones_spec_high 8 i) by lia; by rewrite !andb_false_r].
    rewrite (Z.ones_spec_low 32 (i + k)) by lia. by rewrite andb_true_r. }
  pose proof (G 0 ltac:(lia)) as G0. rewrite Z.pow_0_r, !Z.div_1_r in G0.
  f_equal; [by rewrite G by lia|]. f_equal; [by rewrite G by lia|]. f_equal; [by rewrite G by lia|].
  by rewrite G0.
Qed.

Lemma decode_encode_length payload rest :
  zlen payload < 2 ^ 32 ->
  decode_frame_length (ztake 4 (encode_frame payload ++ rest)) = zlen payload.
Proof.
  intros Hs. rewrite encode_frame_header, <- app_assoc. pose proof (zlen_be_digits 4 (zlen payload)) as Hz.
  change (Z.of_nat 4) with 4 in Hz. rewrite <- Hz. rewrite ztake_app.
  pose proof (be_digits_octets 4 (zlen payload)) as Ho. pose proof (be_val_digits 4 (zlen payload)) as Hv.
  rewrite Z.mod_small in Hv by (pose proof (zlen_nonneg payload); change (8 * Z.of_nat 4) with 32; lia).
  destruct (be_digits 4 (zlen payload)) as [|a [|b [|c [|d [|? ?]]]]] eqn:E; try (unfold zlen in Hz; simpl in Hz; lia).
  rewrite <- Hv. inversion Ho as [|? ? H1 Ho1]; subst. inversion Ho1 as [|? ? H2 Ho2]; subst.
  inversion Ho2 as [|? ? H3 Ho3]; subst. inversion Ho3 as [|? ? H4 Ho4]; subst.
  by apply decode_frame_length_digits.
Qed.

(** Reading until the expected octets are there. *)
Lemma deliver_fill need rest sizes r :
  0 <= fr_received r -> zlen (fr_buffer r) = fr_expected r ->
  0 < zlen need -> zlen need = fr_expected r - fr_received r -> (length need <= length sizes)%nat ->
  exists ks, (length sizes - length need <= length ks)%nat /\
    deliver sizes (need ++ rest) r (read_more r) =
    let '(r', a') := on_full (FrameReader (ztake (fr_received r) (fr_buffer r) ++ need) (fr_expected r)
                       (fr_expected r) (fr_max_payload r) (fr_header_done r) (fr_busy r)) in
    deliver ks rest r' a'.
Proof.
  revert need r. induction sizes as [|k ks IH]; intros need r Hr Hb Hn Hneed Hs.
  { destruct need; [done|simpl in Hs; lia]. }
  unfold read_more. cbn [deliver]. pose proof (zlen_nonneg rest).
  set (m := Z.min (Z.min (Z.max 1 k) (fr_expected r - fr_received r)) (zlen (need ++ rest))).
  assert (1 <= m <= zlen need) as Hm by (unfold m; rewrite zlen_app; lia).
  destruct (Z.leb_spec m 0); [lia|].
  assert (ztake m (need ++ rest) = ztake m need) as -> by (unfold ztake; rewrite take_app_le; [done|unfold zlen in *; lia]).
  assert (zdrop m (need ++ rest) = zdrop m need ++ rest) as -> by (unfold zdrop; rewrite drop_app_le; [done|unfold zlen in *; lia]).
  unfold on_read. cbn [fr_received fr_expected fr_buffer fr_max_payload fr_header_done fr_busy].
  rewrite zlen_ztake by lia. unfold write_at. rewrite zlen_ztake by lia.
  destruct (Z.ltb_spec (fr_received r + m) (fr_expected r)) as [Hlt|Hge].
  - set (r' := FrameReader _ _ _ _ _ _).
    destruct (IH (zdrop m need) r') as (ks' & Hks & E); cbn [r' fr_received fr_expected fr_buffer].
    + lia.
    + rewrite !zlen_app, !zlen_ztake, zlen_zdrop by lia. lia.
    + rewrite zlen_zdrop; lia.
    + rewrite zlen_zdrop; lia.
    + unfold zdrop. rewrite length_drop. simpl in Hs. lia.
    + exists ks'. split; [unfold zdrop in Hks; rewrite length_drop in Hks; unfold zlen in Hm; simpl; lia|].
      rewrite E. cbn [r' fr_received fr_expected fr_buffer fr_max_payload fr_header_done fr_busy].
      assert (ztake (fr_received r + m) (ztake (fr_received r) (fr_buffer r) ++ ztake m need ++
          zdrop (fr_received r + m) (fr_buffer r)) ++ zdrop m need = ztake (fr_received r) (fr_buffer r) ++ need) as ->; [|done].
      rewrite app_assoc. replace (fr_received r + m) with (zlen (ztake (fr_received r) (fr_buffer r) ++ ztake m need)) at 1
        by (rewrite zlen_app, !zlen_ztake by lia; lia).
      rewrite ztake_app, <- app_assoc. f_equal. apply ztake_zdrop.
  - assert (m = zlen need) as -> by lia. exists ks. split; [simpl; unfold zlen in Hm; lia|].
    rewrite (zdrop_all _ need) by lia. rewrite app_nil_l, (ztake_ge (zlen need) need) by lia.
    rewrite (zdrop_all _ (fr_buffer r)) by lia. rewrite app_nil_r.
    by replace (fr_received r + zlen need) with (fr_expected r) by lia.
Qed.

(** The four header octets first, then the payload. *)
Lemma receive_header payload rest sizes r :
  fr_busy r = false -> zlen payload < 2 ^ 32 -> (4 <= length sizes)%nat ->
  exists ks buf, (length sizes - 4 <= length ks)%nat /\ zlen buf = 4 /\ decode_frame_length buf = zlen payload /\
    receive sizes (encode_frame payload ++ rest) r =
    let '(r', a') := on_full (FrameReader buf 4 4 (fr_max_payload r) false true) in
    deliver ks (payload ++ rest) r' a'.
Proof.
  intros Hbusy Hs Hk. unfold receive, async_receive_frame. rewrite Hbusy.
  set (r' := FrameReader _ _ _ _ _ _).
  set (hdr := be_digits 4 (zlen payload)).
  assert (zlen hdr = 4) as Hh by apply zlen_be_digits.
  rewrite encode_frame_header, <- app_assoc. fold hdr.
  destruct (deliver_fill hdr (payload ++ rest) sizes r') as (ks & Hks & E).
  - done.
  - cbn [r' fr_buffer fr_expected]. by apply zlen_resize.
  - lia.
  - cbn [r' fr_expected fr_received]. unfold frame_header_size. lia.
  - unfold zlen in Hh. lia.
  - exists ks, hdr. split; [unfold zlen in Hh; lia|]. split; [done|]. split.
    + rewrite <- (decode_encode_length payload [] Hs), encode_frame_header, app_nil_r. fold hdr.
      rewrite <- Hh, ztake_app. done.
    + rewrite E. done.
Qed.

(** ** Properties *)

(** C32: a frame read back is the frame written, however the stream cuts it.
    For any payload within the reader's limit and any schedule of partial
    deliveries long enough to carry the frame, an idle reader calls the handler
    once with exactly the payload, is idle again, and leaves everything after
    the frame on the stream. *)
Theorem frame_round_trip (payload rest : octets) (sizes : list Z) (r : frame_reader)
  (Hbusy : fr_busy r = false) (Hmax : zlen payload <= fr_max_payload r) (H32 : zlen payload < 2 ^ 32)
  (Hs : (4 + length payload <= length sizes)%nat) :
  exists r', receive sizes (encode_frame payload ++ rest) r = Some (r', Complete None payload, rest) /\
    fr_busy r' = false /\ fr_max_payload r' = fr_max_payload r.
Proof.
  destruct (receive_header payload rest sizes r Hbusy H32 ltac:(lia)) as (ks & buf & Hks & Hb & Hd & ->).
  unfold on_full at 1. cbn [fr_header_done fr_buffer fr_max_payload fr_busy]. rewrite Hd.
  destruct (Z.ltb_spec (fr_max_payload r) (zlen payload)); [lia|].
  pose proof (zlen_nonneg payload).
  destruct (Z.eqb_spec (zlen payload) 0) as [Hz|Hz].
  - apply zlen_zero in Hz as ->. cbn [app complete fr_buffer]. unfold resize. rewrite (zlen_nil (A:=Z)).
    replace (Z.to_nat (0 - zlen buf)) with 0%nat by lia. cbn [ztake repeat]. unfold ztake. cbn [Z.to_nat take app].
    destruct ks; cbn [deliver]; by eexists.
  - set (r1 := FrameReader _ _ _ _ _ _).
    destruct (deliver_fill payload rest ks r1) as (ks' & Hks' & E); cbn [r1 fr_received fr_expected fr_buffer]; try lia.
    + by apply zlen_resize.
    + rewrite E. unfold on_full. cbn [r1 fr_header_done fr_received fr_expected fr_buffer fr_max_payload fr_busy complete].
      unfold ztake. cbn [Z.to_nat take app]. destruct ks'; cbn [deliver]; by eexists.
Qed.

Lemma frame_round_trip_witness :
  exists r', receive (repeat 1 10) (encode_frame [7; 8; 9] ++ [0; 0]) new_reader = Some (r', Complete None [7; 8; 9], [0; 0]) /\
    fr_busy r' = false /\ fr_max_payload r' = fr_max_payload new_reader.
Proof. apply (frame_round_trip [7; 8; 9] [0; 0] (repeat 1 10) new_reader); [done|ground|ground|simpl; lia]. Defined.

(** a frame announcing more than the reader's limit is refused from its
    header alone: the handler hears [invalid_record] with no payload, nothing
    of the payload is read and the buffer never grew beyond the header. *)
Theorem oversized_frame_refused (payload rest : octets) (sizes : list Z) (r : frame_reader)
  (Hbusy : fr_busy r = false) (Hmax : fr_max_payload r < zlen payload) (H32 : zlen payload < 2 ^ 32)
  (Hs : (4 <= length sizes)%nat) :
  exists r', receive sizes (encode_frame payload ++ rest) r =
      Some (r', Complete (Some (NetErrc invalid_record)) [], payload ++ rest) /\
    fr_busy r' = false /\ zlen (fr_buffer r') = frame_header_size.
Proof.
  destruct (receive_header payload rest sizes r Hbusy H32 Hs) as (ks & buf & Hks & Hb & Hd & ->).
  unfold on_full. cbn [fr_header_done fr_buffer fr_max_payload fr_busy]. rewrite Hd.
  destruct (Z.ltb_spec (fr_max_payload r) (zlen payload)); [|lia].
  cbn [complete]. destruct ks; cbn [deliver]; (eexists; split; [reflexivity|]); by split.
Qed.

Lemma oversized_frame_refused_witness :
  exists r', receive [4; 1; 1; 1] (encode_frame [7; 8; 9] ++ []) (set_max_frame_size 2 new_reader) =
      Some (r', Complete (Some (NetErrc invalid_record)) [], [7; 8; 9] ++ []) /\
    fr_busy r' = false /\ zlen (fr_buffer r') = frame_header_size.
Proof.
  apply (oversized_frame_refused [7; 8; 9] [] [4; 1; 1; 1] (set_max_frame_size 2 new_reader)); [done|ground|ground|simpl; lia].
Defined.
