(* ===== verification/Handshake.v ===== *)
(** The authentication handshake inside the TLS channel:
    [network/encryption/handshake/{handshake,pk_handshake,ss_handshake}.cpp],
    [handshake/protocol.hpp] and the registry of [network/encryption/context.cpp].

    An endpoint is a value of [handshake]; [start] and [handle_packet] change
    it and produce a packet and a state.  What the code draws at random (hello
    ids, signature nonces) is an argument, the TLS exporter (RFC 5705) is the
    parameter [exporter], HMAC-SHA3-512 the class [Mac]. *)

From stdpp Require Import base list numbers strings gmap.
From Stdlib Require Import ZArith Lia.
From S2P Require Import Prelude ByteOrder Asn1Int Asn1Stream Asn1Encoder Asn1Decoder Serialise Crypto CertChain Framing.
Open Scope Z_scope.

(** [create_hmac(sha3_512, key)->calculate(message)]; [None] when the key is
    refused. *)
Class Mac : Type := { hmac_sha3_512 : octets -> octets -> option octets }.
Class MacLaw `{Mac} : Prop := { hmac_size k m t : hmac_sha3_512 k m = Some t -> zlen t = 64 }.

(** ** handshake_base.hpp *)

Definition tag_unknown : Z := 0.
Definition tag_public_key : Z := 2.
Definition tag_shared_secret : Z := 4.

Inductive handshake_op_state : Type := in_progress | succeeded | failed.

#[export] Instance op_state_eq_dec : EqDecision handshake_op_state.
Proof. solve_decision. Defined.

Record handshake_binding : Type := Binding { bi_local : octets; bi_remote : octets }.

Record handshake_result : Type := HsResult { hr_state : handshake_op_state; hr_packet : octets }.

Definition hs_error : handshake_result := HsResult failed [].

Inductive endpoint_role : Type := role_client | role_server.

Definition other_role (r : endpoint_role) : endpoint_role :=
  match r with role_client => role_server | role_server => role_client end.

(** [hd_options] is [require_host_restriction] of the [pk_handshake_client_data]
    in [data_], when it holds one. *)
Record handshake_data : Type := HandshakeData {
  hd_tag : Z;
  hd_address : octets;
  hd_binding : handshake_binding;
  hd_options : option bool;
  hd_role : endpoint_role
}.

Definition new_handshake_data (tag : Z) : handshake_data :=
  HandshakeData tag [] (Binding [] []) None role_client.

(** What the code throws; every handler catches [std::exception]. *)
Inductive hs_exn : Type :=
| HsCrypto (e : crypto_exn)
| HsNet (e : net_errc)
| HsExporter
| HsMac.

Definition crypto_result {A} (r : cres A) : result hs_exn A :=
  match r with Ok a => Ok a | Throw e => Throw (HsCrypto e) end.
Definition wire_result {A} (r : result ser_exn A) : result hs_exn A := crypto_result (ser_result r).

(** [try { ... } catch(std::exception const&) {} return error] *)
Definition or_error {S} (m : sexn S hs_exn handshake_result) : sexn S hs_exn handshake_result :=
  try_catch m (fun _ => mret hs_error).

(** ** protocol.hpp *)

Definition current_version : Z := 2.
Definition hello_id_size : Z := 16.

Record client_hello : Type := ClientHello {
  ch_version : Z; ch_suite : Z; ch_request : Z; ch_client_id : octets }.

Definition client_hello_fields : codec client_hello :=
  iso_codec (fun v => ClientHello (fst v) (fst (snd v)) (fst (snd (snd v))) (fst (snd (snd (snd v)))))
            (fun h => (ch_version h, (ch_suite h, (ch_request h, (ch_client_id h, tt)))))
    (then_codec (int_codec u16) (then_codec suite_codec (then_codec (int_codec i32) (then_codec octets_codec unit_codec)))).
Definition client_hello_codec : codec client_hello := seq_codec client_hello_fields.

#[export] Instance client_hello_body : Body client_hello_fields.
Proof. apply iso_body; [by intros []|apply _]. Defined.
#[export] Instance client_hello_element : Element client_hello_codec.
Proof. unfold client_hello_codec. apply _. Defined.

Record server_hello : Type := ServerHello {
  sh_version : Z; sh_suite : Z; sh_response : Z; sh_server_id : octets; sh_server_auth : octets }.

Definition server_hello_fields : codec server_hello :=
  iso_codec (fun v => ServerHello (fst v) (fst (snd v)) (fst (snd (snd v))) (fst (snd (snd (snd v))))
                        (fst (snd (snd (snd (snd v))))))
            (fun h => (sh_version h, (sh_suite h, (sh_response h, (sh_server_id h, (sh_server_auth h, tt))))))
    (then_codec (int_codec u16) (then_codec suite_codec (then_codec (int_codec i32) (then_codec octets_codec
      (then_codec octets_codec unit_codec))))).
Definition server_hello_codec : codec server_hello := seq_codec server_hello_fields.

#[export] Instance server_hello_body : Body server_hello_fields.
Proof. apply iso_body; [by intros []|apply _]. Defined.
#[export] Instance server_hello_element : Element server_hello_codec.
Proof. unfold server_hello_codec. apply _. Defined.

(** [handshake_ack] is its version. *)
Definition ack_fields : codec Z :=
  iso_codec fst (fun v => (v, tt)) (then_codec (int_codec u16) unit_codec).
Definition ack_codec : codec Z := seq_codec ack_fields.

#[export] Instance ack_body : Body ack_fields.
Proof. apply iso_body; [done|apply _]. Defined.
#[export] Instance ack_element : Element ack_codec.
Proof. unfold ack_codec. apply _. Defined.

(** ** context.cpp *)

(** The constructors an application registers with the [enable_..] functions. *)
Inductive hs_constructor : Type := CClientPk | CServerPk | CPk | CClientSs | CServerSs.

Section handshake.
Context `{Primitives, Mac}.

Record context : Type := NetContext {
  cx_suite : Z;
  cx_keys : key_store;
  cx_certs : cert_store;
  cx_secrets : octets -> option octets;
  cx_my_key : option private_key;
  cx_my_chain : option certificate_chain;
  cx_handshakes : gmap Z hs_constructor;
  cx_auth_remote : bool;
  cx_secret_id : octets
}.

(** [handshakes_[tag] = f] *)
Definition add_handshake (tag : Z) (f : hs_constructor) (c : context) : context :=
  NetContext (cx_suite c) (cx_keys c) (cx_certs c) (cx_secrets c) (cx_my_key c) (cx_my_chain c)
    (<[tag := f]> (cx_handshakes c)) (cx_auth_remote c) (cx_secret_id c).

Definition enable_client_pk_handshake : context -> context := add_handshake tag_public_key CClientPk.
Definition enable_server_pk_handshake : context -> context := add_handshake tag_public_key CServerPk.
Definition enable_pk_handshake : context -> context := add_handshake tag_public_key CPk.
Definition enable_client_ss_handshake : context -> context := add_handshake tag_shared_secret CClientSs.
Definition enable_server_ss_handshake : context -> context := add_handshake tag_shared_secret CServerSs.

(** ** pk_handshake.cpp: messages *)

Definition auth_context : octets := [115; 112; 45; 116; 108; 115; 45; 97; 117; 116; 104].   (** "sp-tls-auth" *)

Record auth_credentials : Type := AuthCredentials {
  ac_key : public_key; ac_chain : certificate_chain; ac_sig : signature }.

Definition credentials_fields : codec auth_credentials :=
  iso_codec (fun v => AuthCredentials (fst v) (fst (snd v)) (fst (snd (snd v))))
            (fun a => (ac_key a, (ac_chain a, (ac_sig a, tt))))
    (then_codec public_key_codec (then_codec chain_codec (then_codec signature_codec unit_codec))).
Definition credentials_codec : codec auth_credentials := seq_codec credentials_fields.

#[export] Instance credentials_body : Body credentials_fields.
Proof. apply iso_body; [by intros []|apply _]. Defined.
#[export] Instance credentials_element : Element credentials_codec.
Proof. unfold credentials_codec. apply _. Defined.

(** [auth] is its optional credentials. *)
Definition auth_fields : codec (option auth_credentials) :=
  iso_codec fst (fun a => (a, tt)) (then_codec (optional_codec credentials_codec) unit_codec).
Definition auth_codec : codec (option auth_credentials) := seq_codec auth_fields.

#[export] Instance auth_body : Body auth_fields.
Proof. apply iso_body; [done|apply _]. Defined.
#[export] Instance auth_element : Element auth_codec.
Proof. unfold auth_codec. apply _. Defined.

Definition make_auth (c : context) (nonce : octets) (b : handshake_binding) (required : bool) :
  result hs_exn (option auth_credentials) :=
  match cx_my_key c, cx_my_chain c with
  | Some key, Some chain =>
      sg ← crypto_result (sk_sign key nonce (bi_local b) auth_context);
      mret (Some (AuthCredentials (sk_public key) chain sg))
  | _, _ => if required then Throw (HsNet invalid_data) else mret None
  end.

Definition verify_credentials (c : context) (creds : auth_credentials) (b : handshake_binding)
  (rest : option key_cert_restriction) : result hs_exn bool :=
  ok ← crypto_result (match rest with
                      | Some r => is_authentic_for (cx_keys c) (cx_certs c) r (ac_chain creds)
                      | None => is_authentic (cx_keys c) (cx_certs c) (ac_chain creds)
                      end);
  if negb (ok : bool) then mret false
  else
    subj ← crypto_result (chain_subject (ac_chain creds));
    if negb (bool_decide (pk_id subj = pk_id (ac_key creds))) then mret false
    else crypto_result (pk_verify (ac_key creds) (ac_sig creds) (bi_remote b) auth_context).

(** ** ss_handshake.cpp: messages *)

Record auth_ss : Type := AuthSs { as_secret_id : octets; as_mac : octets }.

Definition auth_ss_fields : codec auth_ss :=
  iso_codec (fun v => AuthSs (fst v) (fst (snd v))) (fun a => (as_secret_id a, (as_mac a, tt)))
    (then_codec octets_codec (then_codec octets_codec unit_codec)).
Definition auth_ss_codec : codec auth_ss := seq_codec auth_ss_fields.

#[export] Instance auth_ss_body : Body auth_ss_fields.
Proof. apply iso_body; [by intros []|apply _]. Defined.
#[export] Instance auth_ss_element : Element auth_ss_codec.
Proof. unfold auth_ss_codec. apply _. Defined.

Definition make_auth_ss (c : context) (secret_id : octets) (b : handshake_binding) : result hs_exn octets :=
  match cx_secrets c secret_id with
  | None => Throw (HsNet key_not_authentic)
  | Some secret =>
      match hmac_sha3_512 secret (bi_local b) with
      | None => Throw HsMac
      | Some m => wire_result (asn_der_serialise auth_ss_codec (AuthSs secret_id m))
      end
  end.

(** [mac::verify]: the size first, then the comparison. *)
Definition verify_auth_ss (c : context) (msg : auth_ss) (b : handshake_binding) : result hs_exn bool :=
  match cx_secrets c (as_secret_id msg) with
  | None => mret false
  | Some secret =>
      match hmac_sha3_512 secret (bi_remote b) with
      | None => Throw HsMac
      | Some m => mret ((zlen (as_mac msg) =? 64) && bool_decide (as_mac msg = m))
      end
  end.

(** ** The concrete handshakes *)

Inductive concrete : Type :=
| ClientPk (data : handshake_data) (server_verified : bool) (remote_key : option public_key)
| ServerPk (binding : handshake_binding) (remote_key : option public_key)
| ClientSs (secret_id : octets) (binding : handshake_binding)
| ServerSs (secret_id : octets) (binding : handshake_binding).

Definition remote_public_key (k : concrete) : option public_key :=
  match k with ClientPk _ _ r | ServerPk _ r => r | _ => None end.

(** The registered constructor, run. *)
Definition construct (f : hs_constructor) (c : context) (d : handshake_data) : concrete :=
  match f, hd_role d with
  | CClientPk, _ | CPk, role_client => ClientPk d false None
  | CServerPk, _ | CPk, role_server => ServerPk (hd_binding d) None
  | CClientSs, _ => ClientSs (cx_secret_id c) (hd_binding d)
  | CServerSs, _ => ServerSs (cx_secret_id c) (hd_binding d)
  end.

Definition construct_handshake (c : context) (d : handshake_data) : result hs_exn concrete :=
  match cx_handshakes c !! hd_tag d with
  | None => Throw (HsNet no_such_handshake)
  | Some f => Ok (construct f c d)
  end.

(** [handshake_base::start] *)
Definition concrete_start (c : context) (nonce : octets) : sexn concrete hs_exn handshake_result := fun k =>
  match k with
  | ClientPk _ _ _ => (Ok hs_error, k)
  | ServerPk b _ =>
      or_error (msg ← lift_res (make_auth c nonce b true);
                bs ← lift_res (wire_result (asn_der_serialise auth_codec msg));
                mret (HsResult in_progress bs)) k
  | ClientSs sid b =>
      or_error (bs ← lift_res (make_auth_ss c sid b); mret (HsResult in_progress bs)) k
  | ServerSs _ _ => (Ok (HsResult in_progress []), k)
  end.

(** [client_pk_handshake::verify_server_and_reply] *)
Definition verify_server_and_reply (c : context) (nonce data : octets) (d : handshake_data) :
  sexn concrete hs_exn handshake_result :=
  msg ← lift_res (wire_result (asn_der_deserialise auth_codec data));
  match (msg : option auth_credentials) with
  | None => mret hs_error
  | Some creds =>
      let restrict := default true (hd_options d) in
      ok ← lift_res (verify_credentials c creds (hd_binding d)
             (if restrict then Some (Restriction (hd_address d) []) else None));
      if negb (ok : bool) then mret hs_error
      else
        put_st (ClientPk d true (Some (ac_key creds)));;
        reply ← lift_res (make_auth c nonce (hd_binding d) false);
        bs ← lift_res (wire_result (asn_der_serialise auth_codec reply));
        mret (HsResult in_progress bs)
  end.

(** [handshake_base::handle_packet] *)
Definition concrete_handle (c : context) (nonce data : octets) : sexn concrete hs_exn handshake_result := fun k =>
  match k with
  | ClientPk d verified _ =>
      or_error
        (if negb verified then verify_server_and_reply c nonce data d
         else
           v ← lift_res (wire_result (asn_der_deserialise ack_codec data));
           if negb (v =? current_version) then mret hs_error else mret (HsResult succeeded [])) k
  | ServerPk b _ =>
      or_error
        (let accept :=
           bs ← lift_res (wire_result (asn_der_serialise ack_codec current_version));
           mret (HsResult succeeded bs) in
         msg ← lift_res (wire_result (asn_der_deserialise auth_codec data));
         match (msg : option auth_credentials) with
         | Some creds =>
             ok ← lift_res (verify_credentials c creds b None);
             if negb (ok : bool) then mret hs_error
             else put_st (ServerPk b (Some (ac_key creds)));; accept
         | None => if cx_auth_remote c then mret hs_error else accept
         end) k
  | ClientSs sid b =>
      or_error
        (msg ← lift_res (wire_result (asn_der_deserialise auth_ss_codec data));
         if negb (bool_decide (as_secret_id msg = sid)) then mret hs_error
         else
           ok ← lift_res (verify_auth_ss c msg b);
           mret (if (ok : bool) then HsResult succeeded [] else hs_error)) k
  | ServerSs _ b =>
      or_error
        (msg ← lift_res (wire_result (asn_der_deserialise auth_ss_codec data));
         ok ← lift_res (verify_auth_ss c msg b);
         if (ok : bool)
         then bs ← lift_res (make_auth_ss c (as_secret_id msg) b); mret (HsResult succeeded bs)
         else mret hs_error) k
  end.

(** ** handshake.cpp *)

Record handshake : Type := Handshake {
  hs_role : endpoint_role;
  hs_requested : handshake_data;
  hs_client_id : octets;
  hs_server_id : octets;
  hs_hello_sent : bool;
  hs_concrete : option concrete
}.

Definition new_handshake (r : endpoint_role) : handshake :=
  Handshake r (new_handshake_data 0) [] [] false None.

Definition set_ids (cid sid : octets) (h : handshake) : handshake :=
  Handshake (hs_role h) (hs_requested h) cid sid (hs_hello_sent h) (hs_concrete h).
Definition set_requested (d : handshake_data) (h : handshake) : handshake :=
  Handshake (hs_role h) d (hs_client_id h) (hs_server_id h) (hs_hello_sent h) (hs_concrete h).
Definition set_concrete (k : option concrete) (h : handshake) : handshake :=
  Handshake (hs_role h) (hs_requested h) (hs_client_id h) (hs_server_id h) (hs_hello_sent h) k.
Definition set_hello_sent (b : bool) (h : handshake) : handshake :=
  Handshake (hs_role h) (hs_requested h) (hs_client_id h) (hs_server_id h) b (hs_concrete h).

Definition role_byte (r : endpoint_role) : Z := match r with role_client => 1 | role_server => 2 end.

(** "EXPORTER-securepath-auth" *)
Definition binding_label : octets :=
  [69; 88; 80; 79; 82; 84; 69; 82; 45; 115; 101; 99; 117; 114; 101; 112; 97; 116; 104; 45; 97; 117; 116; 104].
Definition binding_size : Z := 32.

Definition binding_context (role : endpoint_role) (client_id server_id : octets) : octets :=
  role_byte role :: client_id ++ server_id.

Section endpoint.
Context (c : context) (exporter : octets -> octets -> Z -> option octets).

Definition export (ctx : octets) : result hs_exn octets :=
  match exporter binding_label ctx binding_size with Some b => Ok b | None => Throw HsExporter end.

Definition derive_binding (h : handshake) : result hs_exn handshake_binding :=
  l ← export (binding_context (hs_role h) (hs_client_id h) (hs_server_id h));
  r ← export (binding_context (other_role (hs_role h)) (hs_client_id h) (hs_server_id h));
  mret (Binding l r).

Definition make_concrete : sexn handshake hs_exn unit :=
  h ← get_st;
  b ← lift_res (derive_binding h);
  let d := hs_requested h in
  let d := HandshakeData (hd_tag d) (hd_address d) b (hd_options d) (hs_role h) in
  put_st (set_requested d h);;
  k ← lift_res (construct_handshake c d);
  put_st (set_concrete (Some k) (set_requested d h)).

(** A call of the concrete handshake, which changes in place. *)
Definition on_concrete {A} (dflt : A) (m : sexn concrete hs_exn A) : sexn handshake hs_exn A := fun h =>
  match hs_concrete h with
  | None => (Ok dflt, h)
  | Some k => let '(r, k') := m k in (r, set_concrete (Some k') h)
  end.

Definition start (cid : octets) (data : handshake_data) (h : handshake) :
  result ser_exn (handshake * handshake_result) :=
  let h := Handshake (hs_role h) data cid (hs_server_id h) true (hs_concrete h) in
  bs ← asn_der_serialise client_hello_codec (ClientHello current_version (cx_suite c) (hd_tag data) cid);
  mret (h, HsResult in_progress bs).

Definition handle_client_hello (sid nonce data : octets) : sexn handshake hs_exn handshake_result :=
  or_error
    (hello ← lift_res (wire_result (asn_der_deserialise client_hello_codec data));
     if negb (ch_version hello =? current_version) then mret hs_error
     else if negb (ch_suite hello =? cx_suite c) then mret hs_error
     else
       h ← get_st;
       put_st (set_requested (new_handshake_data (ch_request hello)) (set_ids (ch_client_id hello) sid h));;
       make_concrete;;
       first ← on_concrete hs_error (concrete_start c nonce);
       if decide (hr_state first = failed) then mret hs_error
       else
         bs ← lift_res (wire_result (asn_der_serialise server_hello_codec
                (ServerHello current_version (cx_suite c) (ch_request hello) sid (hr_packet first))));
         mret (HsResult in_progress bs)).

Definition handle_server_hello (nonce data : octets) : sexn handshake hs_exn handshake_result :=
  or_error
    (hello ← lift_res (wire_result (asn_der_deserialise server_hello_codec data));
     if negb (sh_version hello =? current_version) then mret hs_error
     else
       h ← get_st;
       if negb (sh_response hello =? hd_tag (hs_requested h)) || negb (sh_suite hello =? cx_suite c) then mret hs_error
       else
         put_st (set_ids (hs_client_id h) (sh_server_id hello) h);;
         make_concrete;;
         if negb (zlen (sh_server_auth hello) =? 0)
         then on_concrete hs_error (concrete_handle c nonce (sh_server_auth hello))
         else on_concrete hs_error (concrete_start c nonce)).

(** [sid] and [nonce] are what the call draws, if it draws. *)
Definition handle_packet (sid nonce data : octets) : sexn handshake hs_exn handshake_result := fun h =>
  if hs_hello_sent h then handle_server_hello nonce data (set_hello_sent false h)
  else match hs_concrete h with
       | None => handle_client_hello sid nonce data h
       | Some _ => or_error (on_concrete hs_error (concrete_handle c nonce data)) h
       end.

Definition hs_remote_public_key (h : handshake) : option public_key :=
  hs_concrete h ≫= remote_public_key.
Definition hs_remote_key_id (h : handshake) : option octets := pk_id <$> hs_remote_public_key h.
End endpoint.
End handshake.

(** ** What a finished handshake has checked *)

Lemma or_error_spec {S} (m : sexn S hs_exn handshake_result) s r s' :
  or_error m s = (r, s') ->
  exists x, r = Ok x /\ (m s = (Ok x, s') \/ (x = hs_error /\ exists e, m s = (Throw e, s'))).
Proof.
  unfold or_error, try_catch. destruct (m s) as [[x|e] s1]; intros [= <- <-]; eexists; split; eauto.
Qed.

Lemma sbind_inv {S E A B} (m : sexn S E A) (f : A -> sexn S E B) s r s' :
  (m ≫= f) s = (Ok r, s') -> exists a s1, m s = (Ok a, s1) /\ f a s1 = (Ok r, s').
Proof. unfold mbind, sexn_bind. destruct (m s) as [[a|e] s1]; [eauto|done]. Qed.

Lemma lift_inv {S E A} (r : result E A) (s : S) a s' : lift_res r s = (Ok a, s') -> r = Ok a /\ s' = s.
Proof. unfold lift_res. by intros [= -> ->]. Qed.

Lemma sret_inv {S E A} (a r : A) (s s' : S) : (mret a : sexn S E A) s = (Ok r, s') -> r = a /\ s' = s.
Proof. unfold mret, sexn_ret. by intros [= -> ->]. Qed.

Lemma lift_bind {S E A B} (r : result E A) (f : A -> sexn S E B) a (s : S) : r = Ok a -> (lift_res r ≫= f) s = f a s.
Proof. by intros ->. Qed.
Lemma get_bind {S E B} (f : S -> sexn S E B) (s : S) : (get_st ≫= f) s = f s s.
Proof. done. Qed.
Lemma put_bind {S E B} (m : sexn S E B) (s s' : S) : (put_st s';; m) s = m s'.
Proof. done. Qed.

(** Take a computation that returned apart. *)
Ltac run_inv H :=
  repeat match type of H with
  | (_ ≫= _) _ = (Ok _, _) =>
      let a := fresh "a" in let s1 := fresh "s" in let H1 := fresh "Hr" in
      apply sbind_inv in H as (a & s1 & H1 & H);
      lazymatch type of H1 with
      | lift_res _ _ = _ => apply lift_inv in H1 as [H1 ->]
      | get_st _ = _ => unfold get_st in H1; injection H1 as <- <-
      | put_st _ _ = _ => unfold put_st in H1; injection H1 as _ <-
      | _ => idtac
      end
  | (mret _) _ = (Ok _, _) => let E := fresh in apply sret_inv in H as [H E]; subst
  end.

Section safety.
Context `{Primitives, Mac}.
Context (c : context) (exporter : octets -> octets -> Z -> option octets).

Definition host_restriction (d : handshake_data) : option key_cert_restriction :=
  if default true (hd_options d) then Some (Restriction (hd_address d) []) else None.

(** [msg] came in with one of the packets [seen]: on its own or inside a
    server hello. *)
Definition carried (seen : list octets) (msg : octets) : Prop :=
  exists data, In data seen /\
    (msg = data \/ exists hello, asn_der_deserialise server_hello_codec data = Ok hello /\ msg = sh_server_auth hello).

(** The peer proved itself in the session [h]: credentials it sent hold a
    certificate chain that is authentic for this endpoint, and for the host it
    dialled when that is asked for, the chain ends in [key], and [key] signed
    the peer's half of the channel binding. *)
Definition verified_peer (h : handshake) (seen : list octets) (rest : option key_cert_restriction) (key : public_key) : Prop :=
  exists msg chain subj sg remote,
    carried seen msg /\ asn_der_deserialise auth_codec msg = Ok (Some (AuthCredentials key chain sg)) /\
    match rest with
    | Some r => is_authentic_for (cx_keys c) (cx_certs c) r chain = Ok true
    | None => is_authentic (cx_keys c) (cx_certs c) chain = Ok true
    end /\
    chain_subject chain = Ok subj /\ pk_id subj = pk_id key /\
    export exporter (binding_context (other_role (hs_role h)) (hs_client_id h) (hs_server_id h)) = Ok remote /\
    pk_verify key sg remote auth_context = Ok true.

(** The peer sent the authentication code of its half of the channel binding
    under a secret this endpoint holds too. *)
Definition knows_secret (h : handshake) (seen : list octets) : Prop :=
  exists msg a secret remote,
    carried seen msg /\ asn_der_deserialise auth_ss_codec msg = Ok a /\
    cx_secrets c (as_secret_id a) = Some secret /\
    export exporter (binding_context (other_role (hs_role h)) (hs_client_id h) (hs_server_id h)) = Ok remote /\
    hmac_sha3_512 secret remote = Some (as_mac a).

Definition peer_authenticated (h : handshake) (seen : list octets) (k : concrete) : Prop :=
  match k with
  | ClientPk d _ r => exists key, r = Some key /\ verified_peer h seen (host_restriction (hs_requested h)) key
  | ServerPk _ (Some key) => verified_peer h seen None key
  | ServerPk _ None => cx_auth_remote c = false
  | ClientSs _ _ | ServerSs _ _ => knows_secret h seen
  end.

(** ** The invariant of an endpoint *)

Definition concrete_inv (h : handshake) (seen : list octets) (k : concrete) : Prop :=
  match k with
  | ClientPk d v r =>
      derive_binding exporter h = Ok (hd_binding d) /\
      host_restriction d = host_restriction (hs_requested h) /\
      (v = true -> exists key, r = Some key /\ verified_peer h seen (host_restriction (hs_requested h)) key)
  | ServerPk b r => derive_binding exporter h = Ok b /\ (forall key, r = Some key -> verified_peer h seen None key)
  | ClientSs _ b | ServerSs _ b => derive_binding exporter h = Ok b
  end.

Lemma derive_binding_remote h b :
  derive_binding exporter h = Ok b ->
  export exporter (binding_context (other_role (hs_role h)) (hs_client_id h) (hs_server_id h)) = Ok (bi_remote b).
Proof.
  unfold derive_binding. rewrite rbind_ok. intros (l & _ & H1). apply rbind_ok in H1 as (r & H2 & [= <-]). done.
Qed.

Lemma crypto_ok {A} (r : cres A) a : crypto_result r = Ok a <-> r = Ok a.
Proof. destruct r; cbn; split; congruence. Qed.
Lemma wire_ok {A} (r : result ser_exn A) a : wire_result r = Ok a <-> r = Ok a.
Proof. destruct r; cbn; split; congruence. Qed.

Lemma verify_credentials_ok h seen creds b rest msg :
  derive_binding exporter h = Ok b -> carried seen msg -> asn_der_deserialise auth_codec msg = Ok (Some creds) ->
  verify_credentials c creds b rest = Ok true -> verified_peer h seen rest (ac_key creds).
Proof.
  intros Hb Hm Hd. unfold verify_credentials. rewrite rbind_ok. intros ([|] & H1 & H2); [|done]. apply crypto_ok in H1.
  cbn [negb] in H2. apply rbind_ok in H2 as (subj & H2 & H3). apply crypto_ok in H2.
  destruct (decide (pk_id subj = pk_id (ac_key creds))) as [He|He];
    [rewrite bool_decide_eq_true_2 in H3 by done|by rewrite bool_decide_eq_false_2 in H3].
  cbn [negb] in H3. apply crypto_ok in H3. destruct creds as [key chain sg].
  exists msg, chain, subj, sg, (bi_remote b). split_and!; try done; [by destruct rest|by apply derive_binding_remote].
Qed.

Lemma verify_auth_ss_ok h seen a b msg :
  derive_binding exporter h = Ok b -> carried seen msg -> asn_der_deserialise auth_ss_codec msg = Ok a ->
  verify_auth_ss c a b = Ok true -> knows_secret h seen.
Proof.
  intros Hb Hm Hd. unfold verify_auth_ss. destruct (cx_secrets c (as_secret_id a)) as [secret|] eqn:Es; [|done].
  destruct (hmac_sha3_512 secret (bi_remote b)) as [m|] eqn:Em; [|done]. intros [= HH].
  apply andb_true_iff in HH as [_ HH]. apply bool_decide_eq_true in HH as Hmm. subst m.
  exists msg, a, secret, (bi_remote b). split_and!; try done. by apply derive_binding_remote.
Qed.

Lemma make_auth_state nonce b (required : bool) (k : concrete) (f : option auth_credentials -> result ser_exn octets) x k' :
  (msg ← lift_res (make_auth c nonce b required);
   bs ← lift_res (wire_result (f msg));
   mret (HsResult in_progress bs)) k = (Ok x, k') -> hr_state x = in_progress /\ k' = k.
Proof. intros HH. run_inv HH. done. Qed.

(** What the invariant of an endpoint looks at. *)
Definition same_session (h h' : handshake) : Prop :=
  hs_role h' = hs_role h /\ hs_client_id h' = hs_client_id h /\ hs_server_id h' = hs_server_id h /\
  host_restriction (hs_requested h') = host_restriction (hs_requested h).

Lemma set_concrete_session h k : same_session h (set_concrete k h).
Proof. done. Qed.

Lemma carried_mono seen seen' msg : incl seen seen' -> carried seen msg -> carried seen' msg.
Proof. intros Hs (data & Hd & HH). exists data. auto. Qed.

Lemma verified_peer_mono h h' seen seen' rest key :
  same_session h h' -> incl seen seen' -> verified_peer h seen rest key -> verified_peer h' seen' rest key.
Proof.
  intros (E1 & E2 & E3 & _) Hs (msg & chain & subj & sg & remote & Hc & HH). exists msg, chain, subj, sg, remote.
  rewrite E1, E2, E3. split; [by eapply carried_mono|done].
Qed.

Lemma knows_secret_mono h h' seen seen' : same_session h h' -> incl seen seen' -> knows_secret h seen -> knows_secret h' seen'.
Proof.
  intros (E1 & E2 & E3 & _) Hs (msg & a & secret & remote & Hc & HH). exists msg, a, secret, remote.
  rewrite E1, E2, E3. split; [by eapply carried_mono|done].
Qed.

Lemma peer_authenticated_mono h h' seen seen' k :
  same_session h h' -> incl seen seen' -> peer_authenticated h seen k -> peer_authenticated h' seen' k.
Proof.
  intros E Hs. destruct k as [d v r|b [key|]|sid b|sid b]; cbn; eauto using verified_peer_mono, knows_secret_mono.
  intros (key & -> & HH). exists key. split; [done|]. pose proof E as (_ & _ & _ & ->). eauto using verified_peer_mono.
Qed.

Lemma derive_binding_session h h' : same_session h h' -> derive_binding exporter h' = derive_binding exporter h.
Proof. intros (E1 & E2 & E3 & _). unfold derive_binding. by rewrite E1, E2, E3. Qed.

Lemma concrete_inv_mono h h' seen seen' k :
  same_session h h' -> incl seen seen' -> concrete_inv h seen k -> concrete_inv h' seen' k.
Proof.
  intros E Hs. pose proof (derive_binding_session _ _ E) as Eb. pose proof E as (_ & _ & _ & Er).
  destruct k as [d v r|b r|sid b|sid b]; cbn; rewrite Eb; [|intros [H1 H2]; eauto using verified_peer_mono|done..].
  rewrite Er. intros (H1 & H2 & H3). split_and!; [done..|]. intros Hv. destruct (H3 Hv) as (key & -> & HH).
  eauto using verified_peer_mono.
Qed.

(** Case analysis of a concrete handler: what it returned or where it threw. *)
Ltac unfold_handler := unfold mbind, sexn_bind, lift_res, mret, sexn_ret, put_st.
Ltac no_change := intros [HE|[_ [? HE]]]; try left; congruence.

Definition step_spec h seen nonce data k : Prop := forall r k',
  concrete_inv h seen k -> carried seen data -> concrete_handle c nonce data k = (Ok r, k') ->
  concrete_inv h seen k' /\ (hr_state r = succeeded -> peer_authenticated h seen k').

Lemma verify_server_state nonce data d rk x k' :
  (verify_server_and_reply c nonce data d (ClientPk d false rk) = (Ok x, k') \/
   x = hs_error /\ exists e, verify_server_and_reply c nonce data d (ClientPk d false rk) = (Throw e, k')) ->
  hr_state x <> succeeded /\
  (k' = ClientPk d false rk \/ exists creds, k' = ClientPk d true (Some (ac_key creds)) /\
    asn_der_deserialise auth_codec data = Ok (Some creds) /\
    verify_credentials c creds (hd_binding d) (host_restriction d) = Ok true).
Proof.
  intros HE. split.
  { destruct HE as [HE|[-> _]]; [|done]. unfold verify_server_and_reply in HE. run_inv HE.
    destruct a as [creds|]; [|by run_inv HE]. run_inv HE. destruct a; cbn [negb] in HE; by run_inv HE. }
  revert HE. unfold verify_server_and_reply. unfold_handler.
  destruct (wire_result _) as [[creds|]|?] eqn:Ed; [|no_change..].
  apply wire_ok in Ed. fold (host_restriction d).
  destruct (verify_credentials _ _ _ _) as [[|]|] eqn:Ev; cbn [negb]; [|no_change..].
  intros HE. right. exists creds. split; [|done].
  destruct (make_auth _ _ _ _); [destruct (wire_result _)|]; destruct HE as [HE|[_ [? HE]]]; congruence.
Qed.

Lemma client_pk_spec h seen nonce data d v rk : step_spec h seen nonce data (ClientPk d v rk).
Proof.
  intros r k' (Hb & Hr & Hv) Hc HE. cbn [concrete_handle] in HE.
  apply or_error_spec in HE as (x & [= <-] & HE). destruct v; cbn [negb] in HE.
  - assert (k' = ClientPk d true rk) as ->.
    { revert HE. unfold_handler. destruct (wire_result _); [destruct (negb _)|]; no_change. }
    split; [done|]. intros _. destruct (Hv eq_refl) as (key & -> & HV). by exists key.
  - apply verify_server_state in HE as [Hs [->|(creds & -> & Hd & Hok)]]; [by split|].
    assert (verified_peer h seen (host_restriction (hs_requested h)) (ac_key creds)) as HV.
    { rewrite <- Hr. by eapply verify_credentials_ok. }
    split; [split_and!; [done|done|]|]; intros; eexists; eauto.
Qed.

Lemma server_pk_state nonce data b rk x k' :
  concrete_handle c nonce data (ServerPk b rk) = (Ok x, k') ->
  (k' = ServerPk b rk /\ (hr_state x = succeeded -> cx_auth_remote c = false)) \/
  exists creds, k' = ServerPk b (Some (ac_key creds)) /\
    asn_der_deserialise auth_codec data = Ok (Some creds) /\ verify_credentials c creds b None = Ok true.
Proof.
  cbn [concrete_handle]. intros HE. apply or_error_spec in HE as (y & [= <-] & HE). revert HE. unfold_handler.
  generalize (wire_result (asn_der_serialise ack_codec current_version)); intros acked.
  destruct (wire_result (asn_der_deserialise _ _)) as [[creds|]|?] eqn:Ed.
  - apply wire_ok in Ed. destruct (verify_credentials _ _ _ _) as [[|]|] eqn:Ev; cbn [negb].
    + intros HE. right. exists creds. split; [|done].
      destruct acked; destruct HE as [HE|[_ [? HE]]]; congruence.
    + intros [[= <- <-]|[-> [? [= ]]]]. by left.
    + intros [[= ]|[-> [? [= _ <-]]]]. by left.
  - destruct (cx_auth_remote c) eqn:Ea; [|destruct acked]; intros [[= ]|[-> [? [= ]]]]; subst; left; done.
  - intros [[= ]|[-> [? [= _ <-]]]]. by left.
Qed.

Lemma server_pk_spec h seen nonce data b rk : step_spec h seen nonce data (ServerPk b rk).
Proof.
  intros r k' [Hb Hrk] Hc HE. apply server_pk_state in HE as [[-> Ha]|(creds & -> & Hd & Hok)].
  - split; [done|]. intros Hs. destruct rk as [key|]; [by apply Hrk|by apply Ha].
  - assert (verified_peer h seen None (ac_key creds)) as HV by (by eapply verify_credentials_ok).
    split; [split; [done|]|done]. by intros key [= <-].
Qed.

Lemma client_ss_spec h seen nonce data sid b : step_spec h seen nonce data (ClientSs sid b).
Proof.
  intros r k' Hb Hc HE. cbn [concrete_handle] in HE. apply or_error_spec in HE as (x & [= <-] & HE).
  assert (k' = ClientSs sid b) as ->.
  { revert HE. unfold_handler. destruct (wire_result _); [|no_change].
    destruct (negb _); [no_change|]. destruct (verify_auth_ss _ _ _); no_change. }
  split; [done|]. intros Hs. destruct HE as [HE|[-> _]]; [|done]. run_inv HE. apply wire_ok in Hr.
  destruct (negb _); run_inv HE; [done|]. destruct a0; [|done]. by eapply verify_auth_ss_ok.
Qed.

Lemma server_ss_spec h seen nonce data sid b : step_spec h seen nonce data (ServerSs sid b).
Proof.
  intros r k' Hb Hc HE. cbn [concrete_handle] in HE. apply or_error_spec in HE as (x & [= <-] & HE).
  assert (k' = ServerSs sid b) as ->.
  { revert HE. unfold_handler. destruct (wire_result _); [|no_change].
    destruct (verify_auth_ss _ _ _) as [[|]|]; [destruct (make_auth_ss _ _ _)|..]; no_change. }
  split; [done|]. intros Hs. destruct HE as [HE|[-> _]]; [|done]. run_inv HE. apply wire_ok in Hr.
  destruct a0; [|run_inv HE; done]. by eapply verify_auth_ss_ok.
Qed.

(** One call of a concrete handshake keeps the invariant, and reports success
    only for an authenticated peer. *)
Lemma concrete_handle_spec h seen nonce data k : step_spec h seen nonce data k.
Proof. destruct k; [apply client_pk_spec|apply server_pk_spec|apply client_ss_spec|apply server_ss_spec]. Qed.

Lemma concrete_start_spec nonce k r k' :
  concrete_start c nonce k = (Ok r, k') -> k' = k /\ hr_state r <> succeeded.
Proof.
  destruct k; cbn [concrete_start]; [by intros [= <- <-]|..|by intros [= <- <-]];
    intros HE; apply or_error_spec in HE as (x & [= <-] & HE).
  - destruct HE as [HE|[-> (e & HE)]].
    + run_inv HE. by subst.
    + split; [|done]. revert HE. unfold mbind, sexn_bind, lift_res, mret, sexn_ret.
      destruct (make_auth _ _ _ _); [destruct (wire_result _)|]; congruence.
  - destruct HE as [HE|[-> (e & HE)]].
    + run_inv HE. by subst.
    + split; [|done]. revert HE. unfold mbind, sexn_bind, lift_res, mret, sexn_ret.
      destruct (make_auth_ss _ _ _); congruence.
Qed.

(** ** The driver *)

(** After its first packet an endpoint owns a concrete handshake. *)
Definition endpoint_inv (h : handshake) (seen : list octets) : Prop :=
  hs_hello_sent h = false /\ exists k, hs_concrete h = Some k /\ concrete_inv h seen k.

Definition endpoint_done (h : handshake) (seen : list octets) : Prop :=
  exists k, hs_concrete h = Some k /\ peer_authenticated h seen k.

Lemma construct_inv h seen f d :
  derive_binding exporter h = Ok (hd_binding d) -> host_restriction d = host_restriction (hs_requested h) ->
  concrete_inv h seen (construct f c d).
Proof. intros Hb Hr. unfold construct. destruct f, (hd_role d); cbn -[derive_binding]; split_and?; done. Qed.

Lemma make_concrete_ok h seen x h' :
  make_concrete c exporter h = (Ok x, h') ->
  same_session h h' /\ hs_hello_sent h' = hs_hello_sent h /\
  exists k, hs_concrete h' = Some k /\ concrete_inv h' seen k.
Proof.
  unfold make_concrete. intros HE. run_inv HE. unfold construct_handshake in Hr0.
  destruct (cx_handshakes c !! hd_tag _) as [f|]; [|done]. injection Hr0 as <-. unfold put_st in HE. injection HE as _ <-.
  split_and!; [done|done|]. eexists. split; [done|].
  by apply construct_inv.
Qed.

Lemma on_concrete_ok {A} (d : A) (m : sexn concrete hs_exn A) h k r h' :
  hs_concrete h = Some k -> on_concrete d m h = (r, h') ->
  exists k', m k = (r, k') /\ h' = set_concrete (Some k') h.
Proof. unfold on_concrete. intros ->. destruct (m k) as [r1 k'] eqn:E. intros [= <- <-]. eauto. Qed.

Lemma same_session_refl h : same_session h h.
Proof. done. Qed.
Lemma same_session_trans h1 h2 h3 : same_session h1 h2 -> same_session h2 h3 -> same_session h1 h3.
Proof. unfold same_session. intuition congruence. Qed.

(** A call into the concrete handshake of an endpoint that satisfies the
    invariant. *)
Lemma on_concrete_handle h seen nonce data k r h' :
  hs_concrete h = Some k -> concrete_inv h seen k -> carried seen data ->
  on_concrete hs_error (concrete_handle c nonce data) h = (Ok r, h') ->
  same_session h h' /\ hs_hello_sent h' = hs_hello_sent h /\
  (exists k', hs_concrete h' = Some k' /\ concrete_inv h' seen k') /\
  (hr_state r = succeeded -> endpoint_done h' seen).
Proof.
  intros Hk Hi Hc HE. destruct (on_concrete_ok _ _ _ _ _ _ Hk HE) as (k' & HE' & ->).
  destruct (concrete_handle_spec _ _ _ _ _ _ _ Hi Hc HE') as [Hi' Hs].
  assert (same_session h (set_concrete (Some k') h)) as Hsame by done.
  split_and!; [done|done| |].
  - exists k'. split; [done|]. by eapply concrete_inv_mono; [exact Hsame|apply incl_refl|].
  - intros Hr. exists k'. split; [done|]. eapply peer_authenticated_mono; [exact Hsame|apply incl_refl|auto].
Qed.

Lemma handle_packet_later sid nonce data h seen r h' :
  endpoint_inv h seen -> handle_packet c exporter sid nonce data h = (r, h') ->
  exists x, r = Ok x /\ same_session h h' /\
    (hr_state x <> failed -> endpoint_inv h' (data :: seen)) /\
    (hr_state x = succeeded -> endpoint_done h' (data :: seen)).
Proof.
  intros (Hh & k & Hk & Hi). unfold handle_packet. rewrite Hh, Hk. intros HE.
  apply or_error_spec in HE as (x & -> & [HE|[-> (e & HE)]]); exists x || exists hs_error; (split; [done|]).
  - destruct (on_concrete_handle h (data :: seen) nonce data k x h' Hk) as (H1 & H2 & H3 & H4); [| |exact HE|].
    + by eapply concrete_inv_mono; [apply same_session_refl|apply incl_tl, incl_refl|].
    + exists data. split; [by left|by left].
    + split_and!; [done| |done]. intros _. split; [congruence|done].
  - destruct (on_concrete_ok _ _ _ _ _ _ Hk HE) as (k' & _ & ->). done.
Qed.

(** The client's first packet: the server hello. *)
Lemma handle_packet_client sid nonce data h r h' :
  hs_hello_sent h = true -> handle_packet c exporter sid nonce data h = (r, h') ->
  exists x, r = Ok x /\
    (hr_state x <> failed -> endpoint_inv h' [data] /\ hs_role h' = hs_role h /\ hs_client_id h' = hs_client_id h /\
                             host_restriction (hs_requested h') = host_restriction (hs_requested h)) /\
    (hr_state x = succeeded -> endpoint_done h' [data]).
Proof.
  intros Hh. unfold handle_packet. rewrite Hh. intros HE. unfold handle_server_hello in HE.
  apply or_error_spec in HE as (x & -> & [HE|[-> _]]); [|by exists hs_error]. exists x. split; [done|].
  run_inv HE. apply wire_ok in Hr. rename a into hello.
  destruct (negb _); [run_inv HE; by subst|]. run_inv HE.
  destruct (_ || _); [run_inv HE; by subst|]. run_inv HE.
  apply (make_concrete_ok _ [data]) in Hr0 as ((E1 & E2 & E3 & E4) & Hf & k & Hk & Hi).
  cbn [set_ids set_hello_sent hs_role hs_client_id hs_server_id hs_requested hs_hello_sent] in *.
  destruct (negb _).
  - assert (carried [data] (sh_server_auth hello)) as Hc by (exists data; split; [by left|right; eauto]).
    destruct (on_concrete_handle _ [data] _ _ _ _ _ Hk Hi Hc HE) as ((F1 & F2 & F3 & F4) & H2 & H3 & H4).
    split; [|done]. intros _. split_and!; [split; congruence|congruence..].
  - destruct (on_concrete_ok _ _ _ _ _ _ Hk HE) as (k' & HE' & ->).
    apply concrete_start_spec in HE' as [-> Hs]. split; [|done]. intros _.
    split_and!; [|exact E1|exact E2|exact E4]. split; [done|]. exists k. split; [done|].
    by apply (concrete_inv_mono _ _ _ _ _ (set_concrete_session _ _) (incl_refl _)).
Qed.

(** The server's first packet: the client hello. *)
Lemma handle_packet_server sid nonce data h r h' :
  hs_hello_sent h = false -> hs_concrete h = None -> handle_packet c exporter sid nonce data h = (r, h') ->
  exists x, r = Ok x /\ hr_state x <> succeeded /\
    (hr_state x <> failed -> endpoint_inv h' [data] /\ hs_role h' = hs_role h /\ hs_server_id h' = sid).
Proof.
  intros Hh Hn. unfold handle_packet. rewrite Hh, Hn. intros HE. unfold handle_client_hello in HE.
  apply or_error_spec in HE as (x & -> & [HE|[-> _]]); [|by exists hs_error]. exists x. split; [done|].
  run_inv HE. destruct (negb _); [run_inv HE; by subst|].
  destruct (negb _); [run_inv HE; by subst|]. run_inv HE.
  apply (make_concrete_ok _ [data]) in Hr0 as ((E1 & E2 & E3 & E4) & Hf & k & Hk & Hi).
  destruct (on_concrete_ok _ _ _ _ _ _ Hk Hr1) as (k' & HE' & ->). apply concrete_start_spec in HE' as [-> Hs].
  destruct (decide _); [run_inv HE; by subst|]. run_inv HE. split; [done|]. intros _.
  split_and!; [|exact E1|exact E3]. split; [exact (eq_trans Hf Hh)|]. exists k. split; [done|].
  by apply (concrete_inv_mono _ _ _ _ _ (set_concrete_session _ _) (incl_refl _)).
Qed.

(** The packets of a session, one by one, until the driver of the connection
    sees an error or success ([encrypted_connection_impl::advance_handshake]).
    An input is the id and the nonce the call may draw and the packet. *)
Fixpoint drive (inputs : list (octets * octets * octets)) (h : handshake) : handshake * handshake_op_state :=
  match inputs with
  | [] => (h, in_progress)
  | (sid, nonce, data) :: rest =>
      match handle_packet c exporter sid nonce data h with
      | (Ok x, h') => match hr_state x with in_progress => drive rest h' | st => (h', st) end
      | (Throw _, h') => (h', failed)
      end
  end.

Definition packets (inputs : list (octets * octets * octets)) : list octets := map snd inputs.

Lemma drive_later inputs h seen h' :
  endpoint_inv h seen -> drive inputs h = (h', succeeded) ->
  same_session h h' /\ exists k, hs_concrete h' = Some k /\ peer_authenticated h' (packets inputs ++ seen) k.
Proof.
  revert h seen; induction inputs as [|[[sid nonce] data] inputs IH]; intros h seen Hi; cbn [drive]; [done|].
  destruct (handle_packet _ _ _ _ _ _) as [r h1] eqn:E.
  destruct (handle_packet_later _ _ _ _ _ _ _ Hi E) as (x & -> & Hs & Hi1 & Hd).
  assert (incl (data :: seen) (packets ((sid, nonce, data) :: inputs) ++ seen)) as Hincl.
  { intros y. cbn. rewrite in_app_iff. tauto. }
  destruct (hr_state x) eqn:Ex; [|intros [= <-]|done].
  - intros HD. apply (IH _ (data :: seen)) in HD as (Hs' & k & Hk & Hp); [|by apply Hi1].
    split; [by eapply same_session_trans|]. exists k. split; [done|].
    eapply peer_authenticated_mono; [apply same_session_refl| |exact Hp].
    intros y. cbn. rewrite !in_app_iff. cbn. tauto.
  - destruct (Hd eq_refl) as (k & Hk & Hp). split; [done|]. exists k. split; [done|].
    by eapply peer_authenticated_mono; [apply same_session_refl|exact Hincl|].
Qed.
(** A fresh endpoint: a waiting server, or a client that sent its hello. *)
Definition opening (h0 : handshake) : Prop :=
  h0 = new_handshake role_server \/
  exists cid data r, start c cid data (new_handshake role_client) = Ok (h0, r).

Lemma drive_authenticated h0 h inputs :
  opening h0 -> drive inputs h0 = (h, succeeded) ->
  (exists k, hs_concrete h = Some k /\ peer_authenticated h (packets inputs) k) /\
  hs_role h = hs_role h0 /\
  match hs_role h with
  | role_client => hs_client_id h = hs_client_id h0 /\
                   host_restriction (hs_requested h) = host_restriction (hs_requested h0)
  | role_server => exists nonce data, In (hs_server_id h, nonce, data) inputs
  end.
Proof.
  intros Hinit Hrun.
  destruct inputs as [|[[sid nonce] data] inputs]; [done|]. cbn [drive] in Hrun. rename Hrun into HD.
  destruct (handle_packet _ _ _ _ _ _) as [r h1] eqn:E.
  assert (forall x, hr_state x <> failed -> drive inputs h1 = (h, succeeded) -> endpoint_inv h1 [data] ->
    same_session h1 h /\ exists k, hs_concrete h = Some k /\ peer_authenticated h (packets ((sid, nonce, data) :: inputs)) k) as Hlater.
  { intros x Hx HD' Hi. destruct (drive_later _ _ _ _ Hi HD') as (Hs & k & Hk & Hp). split; [done|]. exists k. split; [done|].
    eapply peer_authenticated_mono; [apply same_session_refl| |exact Hp].
    intros y. unfold packets. cbn [map snd]. rewrite in_app_iff. cbn. tauto. }
  destruct Hinit as [->|(cid & d & r0 & Hst)].
  - destruct (handle_packet_server sid nonce data (new_handshake role_server) r h1 eq_refl eq_refl E) as (x & -> & Hn & Hi). destruct (hr_state x) eqn:Ex; [|done|done].
    destruct (Hi ltac:(done)) as (Hi1 & Hr & Hs). destruct (Hlater x ltac:(congruence) HD Hi1) as ((E1 & _ & E3 & _) & HK).
    split; [done|]. rewrite E1, Hr. split; [done|]. cbn. exists nonce, data. left. congruence.
  - unfold start in Hst. apply rbind_ok in Hst as (bs & _ & [= <- _]).
    destruct (handle_packet_client sid nonce data (Handshake role_client d cid [] true None) r h1 eq_refl E) as (x & -> & Hi & Hd). cbn [hs_role hs_client_id hs_requested] in *.
    destruct (hr_state x) eqn:Ex; [| |done].
    + destruct (Hi ltac:(done)) as (Hi1 & Hr & Hc & Hq). destruct (Hlater x ltac:(congruence) HD Hi1) as ((E1 & E2 & _ & E4) & HK).
      split; [done|]. rewrite E1, Hr. split; [done|]. cbn. split; congruence.
    + injection HD as <-. destruct (Hi ltac:(done)) as (_ & Hr & Hc & Hq). destruct (Hd eq_refl) as (k & Hk & Hp).
      split; [|by rewrite Hr]. exists k. split; [done|].
      eapply peer_authenticated_mono; [apply same_session_refl| |exact Hp]. intros y [<-|[]]. by left.
Qed.

Lemma drive_snoc inputs sid nonce data h0 h :
  drive inputs h0 = (h, in_progress) ->
  drive (inputs ++ [(sid, nonce, data)]) h0 = drive [(sid, nonce, data)] h.
Proof.
  revert h0; induction inputs as [|[[s n] d] inputs IH]; intros h0; [by intros [= ->]|]. cbn [app].
  cbn [drive]. destruct (handle_packet _ _ _ _ _ h0) as [[x|e] h1]; [|done].
  destruct (hr_state x); [|done|done]. intros E. rewrite (IH _ E). done.
Qed.
End safety.

(** ** Honest runs *)

Section messages.
Context `{Primitives, Mac}.

Lemma client_hello_wf s tag cid :
  is_known s = true -> in_range i32 tag -> zlen cid <= max_structure_size ->
  el_wf client_hello_codec (ClientHello current_version s tag cid).
Proof.
  intros Hs Ht Hc. assert (in_range u16 current_version) as Hv by ground. split.
  - exact (conj Hv (conj (known_suite_wf s Hs) (conj Ht (conj Hc I)))).
  - cbn [bd_content client_hello_body iso_body then_body unit_body fst snd ch_version ch_suite ch_request ch_client_id].
    rewrite !zlen_app, (zlen_nil (A:=Z)). pose proof (int_octets_wf u16 _ Hv). pose proof (known_suite_octets s Hs).
    pose proof (int_octets_wf i32 _ Ht). pose proof (octets_field cid Hc).
    assert (max_structure_size + 100 <= max_constructed_size) by ground. lia.
Qed.

Lemma server_hello_wf s tag sid auth :
  is_known s = true -> in_range i32 tag -> zlen sid <= max_structure_size -> zlen auth <= max_structure_size ->
  el_wf server_hello_codec (ServerHello current_version s tag sid auth).
Proof.
  intros Hs Ht Hc Ha. assert (in_range u16 current_version) as Hv by ground. split.
  - exact (conj Hv (conj (known_suite_wf s Hs) (conj Ht (conj Hc (conj Ha I))))).
  - cbn [bd_content server_hello_body iso_body then_body unit_body fst snd sh_version sh_suite sh_response sh_server_id sh_server_auth].
    rewrite !zlen_app, (zlen_nil (A:=Z)). pose proof (int_octets_wf u16 _ Hv). pose proof (known_suite_octets s Hs).
    pose proof (int_octets_wf i32 _ Ht). pose proof (octets_field sid Hc). pose proof (octets_field auth Ha).
    assert (2 * max_structure_size + 100 <= max_constructed_size) by ground. lia.
Qed.

Lemma ack_wf : el_wf ack_codec current_version.
Proof. assert (in_range u16 current_version) as Hv by ground. split; [exact (conj Hv I)|ground]. Qed.

(** A value that crosses the wire: both ends agree on it, and its octets fit
    into a field of another message. *)
Definition crosses {A} (c : codec A) (a : A) (bs : octets) : Prop :=
  asn_der_serialise c a = Ok bs /\ asn_der_deserialise c bs = Ok a /\ 0 < zlen bs.

Lemma element_crosses {A} (c : codec A) `{!Element c} a :
  el_wf c a -> el_depth c a <= max_structure_depth -> crosses c a (el_octets c None a).
Proof.
  intros Hw Hd. pose proof (serialise_element c a Hw) as E. split_and!; [done|by apply (wire_element c)|].
  pose proof (zlen_el_octets c None a Hw I). lia.
Qed.

Lemma client_hello_crosses s tag cid :
  is_known s = true -> in_range i32 tag -> zlen cid <= max_structure_size ->
  exists bs, crosses client_hello_codec (ClientHello current_version s tag cid) bs.
Proof. intros. eexists. apply element_crosses; [by apply client_hello_wf|ground]. Qed.

Lemma server_hello_crosses s tag sid auth :
  is_known s = true -> in_range i32 tag -> zlen sid <= max_structure_size -> zlen auth <= max_structure_size ->
  exists bs, crosses server_hello_codec (ServerHello current_version s tag sid auth) bs.
Proof. intros. eexists. apply element_crosses; [by apply server_hello_wf|ground]. Qed.

Lemma ack_crosses : exists bs, crosses ack_codec current_version bs.
Proof. eexists. apply element_crosses; [apply ack_wf|ground]. Qed.

(** The hellos of a session, for whatever concrete handshake is registered. *)
Lemma start_hello c cid data :
  is_known (cx_suite c) = true -> in_range i32 (hd_tag data) -> zlen cid <= max_structure_size ->
  exists bs, crosses client_hello_codec (ClientHello current_version (cx_suite c) (hd_tag data) cid) bs /\
    start c cid data (new_handshake role_client) = Ok (Handshake role_client data cid [] true None, HsResult in_progress bs).
Proof.
  intros Hs Ht Hc. destruct (client_hello_crosses _ _ _ Hs Ht Hc) as (bs & Hb). exists bs. split; [done|].
  destruct Hb as (Hb & _). unfold start. by rewrite Hb.
Qed.

(** The endpoint after its hello, before the concrete handshake ran. *)
Definition introduced (r : endpoint_role) (d : handshake_data) (b : handshake_binding) (cid sid : octets) (k : option concrete) :
  handshake :=
  Handshake r (HandshakeData (hd_tag d) (hd_address d) b (hd_options d) r) cid sid false k.

Lemma make_concrete_run c exporter r d cid sid k0 f l rm :
  export exporter (binding_context r cid sid) = Ok l ->
  export exporter (binding_context (other_role r) cid sid) = Ok rm ->
  cx_handshakes c !! hd_tag d = Some f ->
  make_concrete c exporter (Handshake r d cid sid false k0) =
  (Ok tt, introduced r d (Binding l rm) cid sid
            (Some (construct f c (HandshakeData (hd_tag d) (hd_address d) (Binding l rm) (hd_options d) r)))).
Proof.
  intros Hl Hr Hf. unfold make_concrete, derive_binding, get_st, put_st, lift_res, mbind, sexn_bind, result_bind.
  cbn [hs_role hs_client_id hs_server_id hs_requested]. rewrite Hl, Hr. unfold mret, result_ret.
  unfold construct_handshake. cbn [hd_tag]. by rewrite Hf.
Qed.

Lemma server_hello_run c exporter sid nonce tag cid bs f bc bsv first k' :
  crosses client_hello_codec (ClientHello current_version (cx_suite c) tag cid) bs ->
  export exporter (binding_context role_client cid sid) = Ok bc ->
  export exporter (binding_context role_server cid sid) = Ok bsv ->
  cx_handshakes c !! tag = Some f ->
  concrete_start c nonce (construct f c (HandshakeData tag [] (Binding bsv bc) None role_server)) =
    (Ok (HsResult in_progress first), k') ->
  forall reply, crosses server_hello_codec (ServerHello current_version (cx_suite c) tag sid first) reply ->
  handle_packet c exporter sid nonce bs (new_handshake role_server) =
  (Ok (HsResult in_progress reply), introduced role_server (new_handshake_data tag) (Binding bsv bc) cid sid (Some k')).
Proof.
  intros (_ & Hb & _) Hc Hs Hf Hst reply (Hr & _). unfold handle_packet. cbn [hs_hello_sent new_handshake hs_concrete].
  unfold handle_client_hello, or_error, try_catch. apply wire_ok in Hb, Hr.
  erewrite (lift_bind _ _ _ _ Hb). cbn [ch_version ch_suite ch_request ch_client_id]. rewrite !Z.eqb_refl. cbn [negb].
  rewrite get_bind, put_bind. unfold set_ids, set_requested. cbn [hs_role hs_hello_sent hs_concrete hs_requested hs_client_id hs_server_id].
  rewrite (bind_ok _ _ _ _ _ (make_concrete_run c exporter role_server (new_handshake_data tag) cid sid None f bsv bc Hs Hc Hf)).
  cbn [hd_tag hd_address hd_options new_handshake_data].
  erewrite bind_ok; [|unfold on_concrete; cbn [hs_concrete introduced]; rewrite Hst; reflexivity].
  cbn [hr_state hr_packet]. rewrite decide_False by done. by rewrite (lift_bind _ _ _ _ Hr).
Qed.

Lemma client_hello_run c exporter sid0 nonce data cid sid auth reply f bc bsv :
  crosses server_hello_codec (ServerHello current_version (cx_suite c) (hd_tag data) sid auth) reply ->
  export exporter (binding_context role_client cid sid) = Ok bc ->
  export exporter (binding_context role_server cid sid) = Ok bsv ->
  cx_handshakes c !! hd_tag data = Some f ->
  let k := construct f c (HandshakeData (hd_tag data) (hd_address data) (Binding bc bsv) (hd_options data) role_client) in
  let m := if negb (zlen auth =? 0) then concrete_handle c nonce auth else concrete_start c nonce in
  forall x k', m k = (Ok x, k') ->
  handle_packet c exporter sid0 nonce reply (Handshake role_client data cid [] true None) =
  (Ok x, introduced role_client data (Binding bc bsv) cid sid (Some k')).
Proof.
  intros (_ & Hb & _) Hc Hs Hf k m x k' Hm. unfold handle_packet. cbn [hs_hello_sent]. unfold set_hello_sent.
  unfold handle_server_hello, or_error, try_catch. apply wire_ok in Hb.
  erewrite (lift_bind _ _ _ _ Hb). cbn [sh_version sh_suite sh_response sh_server_id sh_server_auth].
  rewrite Z.eqb_refl. cbn [negb]. rewrite get_bind. cbn [hs_requested]. rewrite !Z.eqb_refl. cbn [negb orb]. rewrite put_bind.
  unfold set_ids. cbn [hs_role hs_hello_sent hs_concrete hs_requested hs_client_id].
  rewrite (bind_ok _ _ _ _ _ (make_concrete_run c exporter role_client data cid sid None f bc bsv Hc Hs Hf)).
  fold k. subst m. destruct (negb _); unfold on_concrete; cbn [hs_concrete introduced]; rewrite Hm; done.
Qed.

Lemma later_run c exporter sid0 nonce pkt r data b cid sid k x k' :
  concrete_handle c nonce pkt k = (Ok x, k') ->
  handle_packet c exporter sid0 nonce pkt (introduced r data b cid sid (Some k)) =
  (Ok x, introduced r data b cid sid (Some k')).
Proof.
  intros Hm. unfold handle_packet. cbn [hs_hello_sent introduced hs_concrete]. unfold or_error, try_catch, on_concrete.
  cbn [hs_concrete introduced]. by rewrite Hm.
Qed.
End messages.

(** Two endpoints that pass each other's packets: what the two connections of
    one TLS session do. *)
Record conversation : Type := Conversation {
  cn_client : handshake; cn_client_state : handshake_op_state;
  cn_server : handshake; cn_server_state : handshake_op_state
}.

Section converse.
Context `{Primitives, Mac}.
Context (cl sv : context) (exporter : octets -> octets -> Z -> option octets).
(** What the two sides draw. *)
Context (cid sid nonce_c nonce_s : octets).

Fixpoint exchange (n : nat) (to_server : bool) (pkt : octets) (w : conversation) : conversation :=
  match n with
  | O => w
  | S n =>
      if to_server then
        match handle_packet sv exporter sid nonce_s pkt (cn_server w) with
        | (Ok x, h) =>
            let w := Conversation (cn_client w) (cn_client_state w) h (hr_state x) in
            if zlen (hr_packet x) =? 0 then w else exchange n false (hr_packet x) w
        | (Throw _, h) => Conversation (cn_client w) (cn_client_state w) h failed
        end
      else
        match handle_packet cl exporter sid nonce_c pkt (cn_client w) with
        | (Ok x, h) =>
            let w := Conversation h (hr_state x) (cn_server w) (cn_server_state w) in
            if zlen (hr_packet x) =? 0 then w else exchange n true (hr_packet x) w
        | (Throw _, h) => Conversation h failed (cn_server w) (cn_server_state w)
        end
  end.

Definition converse (n : nat) (data : handshake_data) : option conversation :=
  match start cl cid data (new_handshake role_client) with
  | Ok (h, r) => Some (exchange n true (hr_packet r) (Conversation h in_progress (new_handshake role_server) in_progress))
  | Throw _ => None
  end.

Lemma exchange_server n pkt w x h :
  handle_packet sv exporter sid nonce_s pkt (cn_server w) = (Ok x, h) -> 0 < zlen (hr_packet x) ->
  exchange (S n) true pkt w = exchange n false (hr_packet x) (Conversation (cn_client w) (cn_client_state w) h (hr_state x)).
Proof. intros E Hp. cbn [exchange]. rewrite E. by destruct (Z.eqb_spec (zlen (hr_packet x)) 0); [lia|]. Qed.

Lemma exchange_client n pkt w x h :
  handle_packet cl exporter sid nonce_c pkt (cn_client w) = (Ok x, h) -> 0 < zlen (hr_packet x) ->
  exchange (S n) false pkt w = exchange n true (hr_packet x) (Conversation h (hr_state x) (cn_server w) (cn_server_state w)).
Proof. intros E Hp. cbn [exchange]. rewrite E. by destruct (Z.eqb_spec (zlen (hr_packet x)) 0); [lia|]. Qed.

Lemma exchange_client_end n pkt w x h :
  handle_packet cl exporter sid nonce_c pkt (cn_client w) = (Ok x, h) -> hr_packet x = [] ->
  exchange (S n) false pkt w = Conversation h (hr_state x) (cn_server w) (cn_server_state w).
Proof. intros E Hp. cbn [exchange]. rewrite E, Hp. done. Qed.

(** The run up to and including the server hello. *)
Lemma converse_hellos n data fs bc bs first ks :
  cx_suite sv = cx_suite cl -> is_known (cx_suite cl) = true -> in_range i32 (hd_tag data) ->
  zlen cid = hello_id_size -> zlen sid = hello_id_size -> zlen first <= max_structure_size ->
  cx_handshakes sv !! hd_tag data = Some fs ->
  export exporter (binding_context role_client cid sid) = Ok bc ->
  export exporter (binding_context role_server cid sid) = Ok bs ->
  concrete_start sv nonce_s (construct fs sv (HandshakeData (hd_tag data) [] (Binding bs bc) None role_server)) =
    (Ok (HsResult in_progress first), ks) ->
  exists reply,
    crosses server_hello_codec (ServerHello current_version (cx_suite cl) (hd_tag data) sid first) reply /\
    converse (S n) data = Some (exchange n false reply
      (Conversation (Handshake role_client data cid [] true None) in_progress
         (introduced role_server (new_handshake_data (hd_tag data)) (Binding bs bc) cid sid (Some ks)) in_progress)).
Proof.
  intros Hsu Hk Ht Hc Hs Hf Hfs Hbc Hbs Hst.
  assert (hello_id_size <= max_structure_size) by ground.
  destruct (start_hello cl cid data Hk Ht ltac:(lia)) as (hello & Hhello & Estart).
  destruct (server_hello_crosses (cx_suite cl) (hd_tag data) sid first Hk Ht ltac:(lia) Hf) as (reply & Hreply).
  exists reply. split; [done|]. unfold converse. rewrite Estart. cbn [hr_packet]. f_equal.
  rewrite <- Hsu in Hhello. pose proof Hreply as Hreply'. rewrite <- Hsu in Hreply'.
  pose proof (server_hello_run _ _ _ _ _ _ _ _ _ _ _ _ Hhello Hbc Hbs Hfs Hst _ Hreply') as Es.
  erewrite exchange_server by (exact Es || apply Hreply). done.
Qed.
End converse.

Section honest.
Context `{SignatureLaw, Mac}.
Context (cl sv : context) (exporter : octets -> octets -> Z -> option octets).
Context (cid sid nonce_c nonce_s : octets) (data : handshake_data) (bc bs : octets).

(** Two endpoints of one TLS session that speak the same suite. *)
Record same_channel : Prop := SameChannel {
  sc_suite : cx_suite sv = cx_suite cl;
  sc_known : is_known (cx_suite cl) = true;
  sc_cid : zlen cid = hello_id_size;
  sc_sid : zlen sid = hello_id_size;
  sc_client : export exporter (binding_context role_client cid sid) = Ok bc;
  sc_server : export exporter (binding_context role_server cid sid) = Ok bs
}.

(** An endpoint's own key and chain, and that its credentials fit the wire. *)
Record own_credentials (c : context) (sk : private_key) (ch : certificate_chain) (nonce b : octets) : Prop := {
  oc_key : cx_my_key c = Some sk;
  oc_chain : cx_my_chain c = Some ch;
  oc_pair : key_pair sk;
  oc_subject : exists subj, chain_subject ch = Ok subj /\ pk_id subj = sk_id sk;
  oc_wire : forall sg, sk_sign sk nonce b auth_context = Ok sg ->
    let a := Some (AuthCredentials (sk_public sk) ch sg) in
    el_wf auth_codec a /\ el_depth auth_codec a <= max_structure_depth /\
    zlen (el_octets auth_codec None a) <= max_structure_size
}.

Lemma sk_signs sk nonce d : key_pair sk -> exists sg, sk_sign sk nonce d auth_context = Ok sg.
Proof.
  intros [Hv _]. unfold sk_sign. change (frame_message auth_context d) with (Ok (E:=crypto_exn) (spsig ++ [11] ++ auth_context ++ d)).
  eexists. unfold mbind, result_bind. rewrite Hv. done.
Qed.

Lemma make_auth_own c sk ch nonce b r req :
  own_credentials c sk ch nonce b ->
  exists sg auth, make_auth c nonce (Binding b r) req = Ok (Some (AuthCredentials (sk_public sk) ch sg)) /\
    crosses auth_codec (Some (AuthCredentials (sk_public sk) ch sg)) auth /\ zlen auth <= max_structure_size /\
    pk_verify (sk_public sk) sg b auth_context = Ok true.
Proof.
  intros [Hk Hc Hp _ Hw]. destruct (sk_signs sk nonce b Hp) as (sg & Esg). destruct (Hw sg Esg) as (W1 & W2 & W3).
  exists sg, (el_octets auth_codec None (Some (AuthCredentials (sk_public sk) ch sg))). split_and!; [|by apply element_crosses|done|].
  - unfold make_auth. rewrite Hk, Hc. cbn [bi_local]. rewrite Esg. done.
  - by destruct (sk_sign_verifies _ _ _ _ _ Hp Esg).
Qed.

Lemma verify_credentials_own c own sk ch nonce b l sg rest :
  own_credentials own sk ch nonce b -> pk_verify (sk_public sk) sg b auth_context = Ok true ->
  match rest with
  | Some r => is_authentic_for (cx_keys c) (cx_certs c) r ch
  | None => is_authentic (cx_keys c) (cx_certs c) ch
  end = Ok true ->
  verify_credentials c (AuthCredentials (sk_public sk) ch sg) (Binding l b) rest = Ok true.
Proof.
  intros [_ _ _ (subj & Hs & Hid) _] Hv Ha. unfold verify_credentials. cbn [ac_chain ac_key ac_sig bi_remote].
  rewrite Ha. unfold mbind, result_bind, crypto_result. cbn [negb]. rewrite Hs, Hid.
  change (sk_id sk) with (pk_id (sk_public sk)). rewrite bool_decide_eq_true_2 by done. cbn [negb]. by rewrite Hv.
Qed.

Lemma server_start_own sk ch r rk :
  own_credentials sv sk ch nonce_s bs ->
  exists sg auth, concrete_start sv nonce_s (ServerPk (Binding bs r) rk) = (Ok (HsResult in_progress auth), ServerPk (Binding bs r) rk) /\
    crosses auth_codec (Some (AuthCredentials (sk_public sk) ch sg)) auth /\ zlen auth <= max_structure_size /\
    pk_verify (sk_public sk) sg bs auth_context = Ok true.
Proof.
  intros Ho. destruct (make_auth_own _ _ _ _ _ r true Ho) as (sg & auth & E & Hc & Hz & Hv). exists sg, auth.
  split; [|done]. cbn [concrete_start]. unfold or_error, try_catch. rewrite (lift_bind _ _ _ _ E).
  destruct Hc as (Hc & _). apply wire_ok in Hc. by rewrite (lift_bind _ _ _ _ Hc).
Qed.

Lemma client_verifies sks chs skc chc sg auth d :
  own_credentials sv sks chs nonce_s bs -> own_credentials cl skc chc nonce_c bc ->
  pk_verify (sk_public sks) sg bs auth_context = Ok true ->
  match host_restriction d with
  | Some r => is_authentic_for (cx_keys cl) (cx_certs cl) r chs
  | None => is_authentic (cx_keys cl) (cx_certs cl) chs
  end = Ok true ->
  crosses auth_codec (Some (AuthCredentials (sk_public sks) chs sg)) auth -> hd_binding d = Binding bc bs ->
  exists sgc reply, concrete_handle cl nonce_c auth (ClientPk d false None) =
      (Ok (HsResult in_progress reply), ClientPk d true (Some (sk_public sks))) /\
    crosses auth_codec (Some (AuthCredentials (sk_public skc) chc sgc)) reply /\
    pk_verify (sk_public skc) sgc bc auth_context = Ok true.
Proof.
  intros Hos Hoc Hv Ha (_ & Hd & _) Hb. destruct (make_auth_own _ _ _ _ _ bs false Hoc) as (sgc & reply & E & Hc & _ & Hvc).
  exists sgc, reply. split; [|done]. cbn [concrete_handle negb]. unfold or_error, try_catch, verify_server_and_reply.
  apply wire_ok in Hd. rewrite (lift_bind _ _ _ _ Hd). fold (host_restriction d). rewrite Hb.
  rewrite (lift_bind _ _ _ _ (verify_credentials_own cl _ _ _ _ _ bc sg (host_restriction d) Hos Hv Ha)). cbn [negb].
  rewrite put_bind, (lift_bind _ _ _ _ E). destruct Hc as (Hc & _). apply wire_ok in Hc. by rewrite (lift_bind _ _ _ _ Hc).
Qed.

Lemma server_accepts skc chc sg auth rk :
  own_credentials cl skc chc nonce_c bc -> pk_verify (sk_public skc) sg bc auth_context = Ok true ->
  is_authentic (cx_keys sv) (cx_certs sv) chc = Ok true ->
  crosses auth_codec (Some (AuthCredentials (sk_public skc) chc sg)) auth ->
  exists ack, concrete_handle sv nonce_s auth (ServerPk (Binding bs bc) rk) =
      (Ok (HsResult succeeded ack), ServerPk (Binding bs bc) (Some (sk_public skc))) /\
    crosses ack_codec current_version ack.
Proof.
  intros Hoc Hv Ha (_ & Hd & _). destruct ack_crosses as (ack & Hack). exists ack. split; [|done].
  cbn [concrete_handle]. unfold or_error, try_catch. apply wire_ok in Hd. rewrite (lift_bind _ _ _ _ Hd).
  rewrite (lift_bind _ _ _ _ (verify_credentials_own sv _ _ _ _ _ bs sg None Hoc Hv Ha)). cbn [negb].
  rewrite put_bind. destruct Hack as (Hack & _). apply wire_ok in Hack. by rewrite (lift_bind _ _ _ _ Hack).
Qed.

Lemma client_acknowledged ack d rk :
  crosses ack_codec current_version ack ->
  concrete_handle cl nonce_c ack (ClientPk d true rk) = (Ok (HsResult succeeded []), ClientPk d true rk).
Proof.
  intros (_ & Hd & _). cbn [concrete_handle negb]. unfold or_error, try_catch. apply wire_ok in Hd.
  rewrite (lift_bind _ _ _ _ Hd). by rewrite Z.eqb_refl.
Qed.
End honest.

Section shared_secret.
Context `{Primitives, MacLaw}.

Lemma auth_ss_crosses sid mac :
  zlen sid <= max_structure_size -> zlen mac = 64 -> exists bs, crosses auth_ss_codec (AuthSs sid mac) bs.
Proof.
  intros Hs Hm. assert (64 <= max_structure_size) by ground. eexists. apply element_crosses; [|ground]. split.
  - assert (zlen mac <= max_structure_size) as Hm' by lia. exact (conj Hs (conj Hm' I)).
  - cbn [bd_content auth_ss_body iso_body then_body unit_body fst snd as_secret_id as_mac].
    rewrite !zlen_app, (zlen_nil (A:=Z)). pose proof (octets_field sid Hs). pose proof (octets_field mac ltac:(lia)).
    assert (max_structure_size + 100 <= max_constructed_size) by ground. lia.
Qed.

Lemma make_auth_ss_run c sid b r secret m :
  cx_secrets c sid = Some secret -> zlen sid <= max_structure_size -> hmac_sha3_512 secret b = Some m ->
  exists bs, make_auth_ss c sid (Binding b r) = Ok bs /\ crosses auth_ss_codec (AuthSs sid m) bs.
Proof.
  intros Hs Hz Hm. destruct (auth_ss_crosses sid m Hz (hmac_size _ _ _ Hm)) as (bs & Hb). exists bs. split; [|done].
  unfold make_auth_ss. rewrite Hs. cbn [bi_local]. rewrite Hm. apply wire_ok. apply Hb.
Qed.

Lemma verify_auth_ss_run c sid l b secret m :
  cx_secrets c sid = Some secret -> hmac_sha3_512 secret b = Some m -> verify_auth_ss c (AuthSs sid m) (Binding l b) = Ok true.
Proof.
  intros Hs Hm. unfold verify_auth_ss. cbn [as_secret_id as_mac bi_remote]. rewrite Hs, Hm, (hmac_size _ _ _ Hm).
  by rewrite bool_decide_eq_true_2.
Qed.
End shared_secret.

(** ** Properties *)

(** C1: success means an authenticated peer.  Whatever packets reach an
    endpoint, from a started client or a waiting server, it reports success
    only in a state where credentials among those packets hold a certificate
    chain authentic for this endpoint (for the host it dialled, unless the
    caller switched that off), ending in the key it reports, and a signature of
    that key over the peer's half of the channel binding of this very session;
    or, for the shared-secret variant, the right authentication code over that
    half; or, on a server, nothing when it does not ask for authentication.
    The binding is over the hello id the endpoint drew itself. *)
Theorem success_is_authenticated `{Primitives, Mac} (c : context) (exporter : octets -> octets -> Z -> option octets)
  (h0 h : handshake) (inputs : list (octets * octets * octets))
  (Hinit : opening c h0)
  (Hrun : drive c exporter inputs h0 = (h, succeeded)) :
  (exists k, hs_concrete h = Some k /\ peer_authenticated c exporter h (packets inputs) k) /\
  hs_role h = hs_role h0 /\
  match hs_role h with
  | role_client => hs_client_id h = hs_client_id h0 /\
                   host_restriction (hs_requested h) = host_restriction (hs_requested h0)
  | role_server => exists nonce data, In (hs_server_id h, nonce, data) inputs
  end.
Proof. exact (drive_authenticated c exporter h0 h inputs Hinit Hrun). Qed.

(** C2: honest endpoints authenticate each other.  Two endpoints of one TLS
    session that run the public-key handshake, each with a chain the other
    finds authentic (the server's for the host the client dialled), both report
    success after four packets, each with the other's key. *)
Theorem pk_handshake_completes `{SignatureLaw, Mac} (cl sv : context) (exporter : octets -> octets -> Z -> option octets)
  (cid sid nonce_c nonce_s : octets) (data : handshake_data) (bc bs : octets)
  (skc sks : private_key) (chc chs : certificate_chain) (fc fs : hs_constructor) (n : nat)
  (Hch : same_channel cl sv exporter cid sid bc bs) (Htag : hd_tag data = tag_public_key)
  (Hfc : cx_handshakes cl !! tag_public_key = Some fc) (Hfc' : fc = CClientPk \/ fc = CPk)
  (Hfs : cx_handshakes sv !! tag_public_key = Some fs) (Hfs' : fs = CServerPk \/ fs = CPk)
  (Hoc : own_credentials cl skc chc nonce_c bc) (Hos : own_credentials sv sks chs nonce_s bs)
  (Hac : is_authentic (cx_keys sv) (cx_certs sv) chc = Ok true)
  (Has : match host_restriction data with
         | Some r => is_authentic_for (cx_keys cl) (cx_certs cl) r chs
         | None => is_authentic (cx_keys cl) (cx_certs cl) chs
         end = Ok true)
  (Hn : (4 <= n)%nat) :
  exists w, converse cl sv exporter cid sid nonce_c nonce_s n data = Some w /\
    cn_client_state w = succeeded /\ cn_server_state w = succeeded /\
    hs_remote_public_key (cn_client w) = Some (sk_public sks) /\
    hs_remote_public_key (cn_server w) = Some (sk_public skc).
Proof.
  destruct Hch as [Hsu Hk Hcid Hsid Hbc Hbs]. destruct n as [|[|[|[|n]]]]; try lia. rewrite <- Htag in Hfc, Hfs.
  destruct (server_start_own sv nonce_s bs sks chs bc None Hos) as (sg & auth & Hst & Hauth & Hz & Hv).
  assert (construct fs sv (HandshakeData (hd_tag data) [] (Binding bs bc) None role_server) = ServerPk (Binding bs bc) None) as Eks
    by (by destruct Hfs' as [->| ->]).
  rewrite <- Eks in Hst.
  assert (in_range i32 (hd_tag data)) as Ht by (rewrite Htag; ground).
  destruct (converse_hellos cl sv exporter cid sid nonce_c nonce_s (S (S (S n))) data fs bc bs auth _
              Hsu Hk Ht Hcid Hsid Hz Hfs Hbc Hbs Hst) as (reply & Hreply & ->).
  rewrite Eks. set (dc := HandshakeData (hd_tag data) (hd_address data) (Binding bc bs) (hd_options data) role_client).
  destruct (client_verifies cl sv nonce_c nonce_s bc bs sks chs skc chc sg auth dc Hos Hoc Hv Has Hauth eq_refl) as (sgc & authc & Ec & Hauthc & Hvc).
  assert ((zlen auth =? 0) = false) as Hne by (apply Z.eqb_neq; destruct Hauth as (_ & _ & ?); lia).
  pose proof (client_hello_run cl exporter sid nonce_c data cid sid auth reply fc bc bs Hreply Hbc Hbs Hfc) as HC.
  cbv zeta in HC. rewrite Hne in HC. cbn [negb] in HC.
  assert (construct fc cl dc = ClientPk dc false None) as Ekc by (by destruct Hfc' as [->| ->]).
  fold dc in HC. rewrite Ekc in HC. specialize (HC _ _ Ec).
  eexists. split; [reflexivity|].
  erewrite exchange_client; [|exact HC|apply Hauthc]. cbn [hr_packet hr_state cn_server cn_server_state].
  destruct (server_accepts cl sv nonce_c nonce_s bc bs skc chc sgc authc None Hoc Hvc Hac Hauthc) as (ack & Es & Hack).
  erewrite exchange_server; [|apply later_run; exact Es|apply Hack]. cbn [hr_packet hr_state cn_client cn_client_state].
  by erewrite exchange_client_end; [|apply later_run, client_acknowledged; exact Hack|].
Qed.

(** C39: the shared-secret handshake completes.  Two endpoints of one TLS
    session that hold the same secret under the client's secret id both report
    success after four packets, without disclosing a key. *)
Theorem ss_handshake_completes `{Primitives, MacLaw} (cl sv : context) (exporter : octets -> octets -> Z -> option octets)
  (cid sid nonce_c nonce_s : octets) (data : handshake_data) (bc bs secret mc ms : octets) (n : nat)
  (Hch : same_channel cl sv exporter cid sid bc bs) (Htag : hd_tag data = tag_shared_secret)
  (Hfc : cx_handshakes cl !! tag_shared_secret = Some CClientSs)
  (Hfs : cx_handshakes sv !! tag_shared_secret = Some CServerSs)
  (Hsc : cx_secrets cl (cx_secret_id cl) = Some secret) (Hss : cx_secrets sv (cx_secret_id cl) = Some secret)
  (Hz : zlen (cx_secret_id cl) <= max_structure_size)
  (Hmc : hmac_sha3_512 secret bc = Some mc) (Hms : hmac_sha3_512 secret bs = Some ms)
  (Hn : (4 <= n)%nat) :
  exists w, converse cl sv exporter cid sid nonce_c nonce_s n data = Some w /\
    cn_client_state w = succeeded /\ cn_server_state w = succeeded /\
    hs_remote_public_key (cn_client w) = None /\ hs_remote_public_key (cn_server w) = None.
Proof.
  destruct Hch as [Hsu Hk Hcid Hsid Hbc Hbs]. destruct n as [|[|[|[|n]]]]; try lia. rewrite <- Htag in Hfc, Hfs.
  assert (in_range i32 (hd_tag data)) as Ht by (rewrite Htag; ground).
  assert (zlen (@nil Z) <= max_structure_size) as Hz0 by ground.
  destruct (converse_hellos cl sv exporter cid sid nonce_c nonce_s (S (S (S n))) data CServerSs bc bs [] _
              Hsu Hk Ht Hcid Hsid Hz0 Hfs Hbc Hbs eq_refl) as (reply & Hreply & ->).
  cbn [construct hd_binding].
  destruct (make_auth_ss_run cl (cx_secret_id cl) bc bs secret mc Hsc Hz Hmc) as (authc & Ec & Hauthc).
  destruct (make_auth_ss_run sv (cx_secret_id cl) bs bc secret ms Hss Hz Hms) as (auths & Es & Hauths).
  pose proof (client_hello_run cl exporter sid nonce_c data cid sid [] reply CClientSs bc bs Hreply Hbc Hbs Hfc) as HC.
  cbv zeta in HC. cbn [negb construct hd_binding] in HC. change (zlen (@nil Z) =? 0) with true in HC. cbn [negb] in HC.
  assert (concrete_start cl nonce_c (ClientSs (cx_secret_id cl) (Binding bc bs)) =
          (Ok (HsResult in_progress authc), ClientSs (cx_secret_id cl) (Binding bc bs))) as Est.
  { cbn [concrete_start]. unfold or_error, try_catch. by rewrite (lift_bind _ _ _ _ Ec). }
  assert (concrete_handle sv nonce_s authc (ServerSs (cx_secret_id sv) (Binding bs bc)) =
          (Ok (HsResult succeeded auths), ServerSs (cx_secret_id sv) (Binding bs bc))) as Esv.
  { cbn [concrete_handle]. unfold or_error, try_catch. destruct Hauthc as (_ & Hd & _). apply wire_ok in Hd.
    rewrite (lift_bind _ _ _ _ Hd), (lift_bind _ _ _ _ (verify_auth_ss_run sv _ bs bc secret mc Hss Hmc)).
    by rewrite (lift_bind _ _ _ _ Es). }
  assert (concrete_handle cl nonce_c auths (ClientSs (cx_secret_id cl) (Binding bc bs)) =
          (Ok (HsResult succeeded []), ClientSs (cx_secret_id cl) (Binding bc bs))) as Ecl.
  { cbn [concrete_handle]. unfold or_error, try_catch. destruct Hauths as (_ & Hd & _). apply wire_ok in Hd.
    rewrite (lift_bind _ _ _ _ Hd). cbn [as_secret_id]. rewrite bool_decide_eq_true_2 by done. cbn [negb].
    by rewrite (lift_bind _ _ _ _ (verify_auth_ss_run cl _ bc bs secret ms Hsc Hms)). }
  eexists. split; [reflexivity|].
  erewrite exchange_client; [|exact (HC _ _ Est)|apply Hauthc]. cbn [hr_packet hr_state cn_server cn_server_state].
  erewrite exchange_server; [|apply later_run; exact Esv|apply Hauths]. cbn [hr_packet hr_state cn_client cn_client_state].
  by erewrite exchange_client_end; [|apply later_run; exact Ecl|].
Qed.

(** ** Concrete runs *)

#[local] Existing Instance demo.
#[local] Existing Instance demo_law.

#[local] Instance demo_mac : Mac := {| hmac_sha3_512 k m := Some (resize 64 (k ++ m)) |}.
#[local] Instance demo_mac_law : MacLaw.
Proof. split. intros k m t [= <-]. by apply zlen_resize. Qed.

Definition demo_exporter (label ctx : octets) (n : Z) : option octets := Some (resize n ctx).

Definition demo_secrets (sid : octets) : option octets := if bool_decide (sid = [1; 2]) then Some [9; 9; 9] else None.

Definition demo_context (sk : option private_key) (ch : option certificate_chain) : context :=
  NetContext pq1 demo_keys demo_certs demo_secrets sk ch ∅ true [1; 2].

Definition demo_client : context :=
  enable_client_ss_handshake (enable_client_pk_handshake
    (demo_context (Some demo_sub) (Some (new_chain (sk_id demo_key) [demo_link1])))).
Definition demo_server : context :=
  enable_server_ss_handshake (enable_pk_handshake (demo_context (Some demo_leaf) (Some demo_chain))).

Definition demo_cid : octets := repeat 17 16.
Definition demo_sid : octets := repeat 34 16.
Definition demo_bc : octets := resize 32 (binding_context role_client demo_cid demo_sid).
Definition demo_bs : octets := resize 32 (binding_context role_server demo_cid demo_sid).

Lemma demo_channel : same_channel demo_client demo_server demo_exporter demo_cid demo_sid demo_bc demo_bs.
Proof. by split; vm_compute. Qed.

(** Dialling "x.a.b", which the server's certificates cover. *)
Definition demo_dial : handshake_data :=
  HandshakeData tag_public_key [120; 46; 97; 46; 98] (Binding [] []) None role_client.

(** Well-formedness of a concrete value, conjunct by conjunct. *)
Ltac ground_wf :=
  hnf; lazymatch goal with
       | |- _ /\ _ => split; ground_wf
       | |- _ \/ _ => left; vm_compute; reflexivity
       | |- _ => vm_compute; first [exact I|reflexivity|discriminate]
       end.

Ltac demo_credentials :=
  split; [reflexivity|reflexivity|split; vm_compute; reflexivity
         |eexists; split; [reflexivity|vm_compute; reflexivity]
         |intros sg Hsg; vm_compute in Hsg; injection Hsg as <-; cbv zeta;
          split; [ground_wf|split; vm_compute; discriminate]].

Lemma demo_client_credentials :
  own_credentials demo_client demo_sub (new_chain (sk_id demo_key) [demo_link1]) [] demo_bc.
Proof. demo_credentials. Qed.
Lemma demo_server_credentials : own_credentials demo_server demo_leaf demo_chain [] demo_bs.
Proof. demo_credentials. Qed.

Lemma pk_handshake_completes_witness :
  exists w, converse demo_client demo_server demo_exporter demo_cid demo_sid [] [] 4 demo_dial = Some w /\
    cn_client_state w = succeeded /\ cn_server_state w = succeeded /\
    hs_remote_public_key (cn_client w) = Some (sk_public demo_leaf) /\
    hs_remote_public_key (cn_server w) = Some (sk_public demo_sub).
Proof.
  apply (pk_handshake_completes demo_client demo_server demo_exporter demo_cid demo_sid [] [] demo_dial demo_bc demo_bs
           demo_sub demo_leaf (new_chain (sk_id demo_key) [demo_link1]) demo_chain CClientPk CPk 4).
  - exact demo_channel.
  - reflexivity.
  - reflexivity.
  - by left.
  - reflexivity.
  - by right.
  - exact demo_client_credentials.
  - exact demo_server_credentials.
  - vm_compute. reflexivity.
  - vm_compute. reflexivity.
  - lia.
Defined.

Definition demo_ss : handshake_data := new_handshake_data tag_shared_secret.

Lemma ss_handshake_completes_witness :
  exists w, converse demo_client demo_server demo_exporter demo_cid demo_sid [] [] 4 demo_ss = Some w /\
    cn_client_state w = succeeded /\ cn_server_state w = succeeded /\
    hs_remote_public_key (cn_client w) = None /\ hs_remote_public_key (cn_server w) = None.
Proof.
  apply (ss_handshake_completes demo_client demo_server demo_exporter demo_cid demo_sid [] [] demo_ss demo_bc demo_bs
           [9; 9; 9] (resize 64 ([9; 9; 9] ++ demo_bc)) (resize 64 ([9; 9; 9] ++ demo_bs)) 4);
    [exact demo_channel|reflexivity..|vm_compute; discriminate|reflexivity|reflexivity|lia].
Defined.

(** What the server of that conversation receives. *)
Definition demo_hello : octets :=
  get_ok [] (ser_result (asn_der_serialise client_hello_codec (ClientHello current_version pq1 tag_shared_secret demo_cid))).
Definition demo_auth_ss : octets :=
  get_ok [] (ser_result (asn_der_serialise auth_ss_codec (AuthSs [1; 2] (resize 64 ([9; 9; 9] ++ demo_bc))))).
Definition demo_inputs : list (octets * octets * octets) := [(demo_sid, [], demo_hello); ([], [], demo_auth_ss)].
Definition demo_server_end : handshake := fst (drive demo_server demo_exporter demo_inputs (new_handshake role_server)).

Lemma success_is_authenticated_witness :
  exists k, hs_concrete demo_server_end = Some k /\ peer_authenticated demo_server demo_exporter demo_server_end (packets demo_inputs) k.
Proof.
  refine (proj1 (success_is_authenticated demo_server demo_exporter (new_handshake role_server) demo_server_end demo_inputs _ _)).
  - by left.
  - vm_compute. reflexivity.
Defined.
