(* ===== verification/Connection.v ===== *)
(** The encrypted connection: the state machine of
    [network/encryption/detail/encrypted_connection_impl.cpp], from TCP connect
    or accept over the TLS and the authentication handshakes to framed message
    transfer and the close.

    An operation is an [act]: it changes the connection and produces actions,
    the asynchronous calls it makes and the callbacks of the owner it runs.
    The owner may call back into the connection from a callback; what it does
    there is the argument [react] of the event being handled.  Everything else
    that runs on the strand (completions, timer, posted tasks, calls from other
    threads) is an [event]. *)

From stdpp Require Import base list numbers strings gmap.
From Stdlib Require Import ZArith Lia.
From S2P Require Import Prelude Acts ByteOrder Asn1Int Asn1Stream Asn1Encoder Asn1Decoder Serialise Crypto CertChain Framing Handshake.
Open Scope Z_scope.

Inductive connection_state : Type := NotConnected | Connecting | Connected.

#[export] Instance connection_state_eq_dec : EqDecision connection_state.
Proof. solve_decision. Defined.

(** The set-up operation whose completion is outstanding. *)
Inductive setup_stage : Type := SNone | SResolve | STcp | SStartServer | STls | SDone.

#[export] Instance setup_stage_eq_dec : EqDecision setup_stage.
Proof. solve_decision. Defined.

(** Whose receive is outstanding on [reader_]. *)
Inductive rx_handler : Type := RxHandshake | RxData.

#[export] Instance rx_handler_eq_dec : EqDecision rx_handler.
Proof. solve_decision. Defined.

Section connection.
Context `{Primitives, Mac}.

(** [c_client] and [c_server]: the pointers are set; [c_tls]: [tls_] exists,
    [c_tls_closed]: and was closed; [c_cap]: the limit of [reader_]; [c_sending]:
    the size the handler of the outstanding data frame captured. *)
Record connection : Type := Connection {
  c_state : connection_state;
  c_is_connected : bool;
  c_is_closed : bool;
  c_writing : bool;
  c_disconnected : bool;
  c_role : endpoint_role;
  c_client : bool;
  c_server : bool;
  c_data : handshake_data;
  c_handshake : option handshake;
  c_remote_key : option public_key;
  c_queue : list octets;
  c_tls : bool;
  c_socket_open : bool;
  c_stage : setup_stage;
  c_tls_closed : bool;
  c_cap : Z;
  c_rx : option rx_handler;
  c_sending : option Z
}.

Definition set_c_state (v : connection_state) (s : connection) : connection :=
  Connection v (c_is_connected s) (c_is_closed s) (c_writing s) (c_disconnected s) (c_role s) (c_client s)
    (c_server s) (c_data s) (c_handshake s) (c_remote_key s) (c_queue s) (c_tls s) (c_socket_open s) (c_stage s)
    (c_tls_closed s) (c_cap s) (c_rx s) (c_sending s).
Definition set_c_is_connected (v : bool) (s : connection) : connection :=
  Connection (c_state s) v (c_is_closed s) (c_writing s) (c_disconnected s) (c_role s) (c_client s) (c_server s)
    (c_data s) (c_handshake s) (c_remote_key s) (c_queue s) (c_tls s) (c_socket_open s) (c_stage s) (c_tls_closed s)
    (c_cap s) (c_rx s) (c_sending s).
Definition set_c_is_closed (v : bool) (s : connection) : connection :=
  Connection (c_state s) (c_is_connected s) v (c_writing s) (c_disconnected s) (c_role s) (c_client s) (c_server s)
    (c_data s) (c_handshake s) (c_remote_key s) (c_queue s) (c_tls s) (c_socket_open s) (c_stage s) (c_tls_closed s)
    (c_cap s) (c_rx s) (c_sending s).
Definition set_c_writing (v : bool) (s : connection) : connection :=
  Connection (c_state s) (c_is_connected s) (c_is_closed s) v (c_disconnected s) (c_role s) (c_client s) (c_server s)
    (c_data s) (c_handshake s) (c_remote_key s) (c_queue s) (c_tls s) (c_socket_open s) (c_stage s) (c_tls_closed s)
    (c_cap s) (c_rx s) (c_sending s).
Definition set_c_disconnected (v : bool) (s : connection) : connection :=
  Connection (c_state s) (c_is_connected s) (c_is_closed s) (c_writing s) v (c_role s) (c_client s) (c_server s)
    (c_data s) (c_handshake s) (c_remote_key s) (c_queue s) (c_tls s) (c_socket_open s) (c_stage s) (c_tls_closed s)
    (c_cap s) (c_rx s) (c_sending s).
Definition set_c_role (v : endpoint_role) (s : connection) : connection :=
  Connection (c_state s) (c_is_connected s) (c_is_closed s) (c_writing s) (c_disconnected s) v (c_client s)
    (c_server s) (c_data s) (c_handshake s) (c_remote_key s) (c_queue s) (c_tls s) (c_socket_open s) (c_stage s)
    (c_tls_closed s) (c_cap s) (c_rx s) (c_sending s).
Definition set_c_client (v : bool) (s : connection) : connection :=
  Connection (c_state s) (c_is_connected s) (c_is_closed s) (c_writing s) (c_disconnected s) (c_role s) v (c_server s)
    (c_data s) (c_handshake s) (c_remote_key s) (c_queue s) (c_tls s) (c_socket_open s) (c_stage s) (c_tls_closed s)
    (c_cap s) (c_rx s) (c_sending s).
Definition set_c_server (v : bool) (s : connection) : connection :=
  Connection (c_state s) (c_is_connected s) (c_is_closed s) (c_writing s) (c_disconnected s) (c_role s) (c_client s) v
    (c_data s) (c_handshake s) (c_remote_key s) (c_queue s) (c_tls s) (c_socket_open s) (c_stage s) (c_tls_closed s)
    (c_cap s) (c_rx s) (c_sending s).
Definition set_c_data (v : handshake_data) (s : connection) : connection :=
  Connection (c_state s) (c_is_connected s) (c_is_closed s) (c_writing s) (c_disconnected s) (c_role s) (c_client s)
    (c_server s) v (c_handshake s) (c_remote_key s) (c_queue s) (c_tls s) (c_socket_open s) (c_stage s)
    (c_tls_closed s) (c_cap s) (c_rx s) (c_sending s).
Definition set_c_handshake (v : option handshake) (s : connection) : connection :=
  Connection (c_state s) (c_is_connected s) (c_is_closed s) (c_writing s) (c_disconnected s) (c_role s) (c_client s)
    (c_server s) (c_data s) v (c_remote_key s) (c_queue s) (c_tls s) (c_socket_open s) (c_stage s) (c_tls_closed s)
    (c_cap s) (c_rx s) (c_sending s).
Definition set_c_remote_key (v : option public_key) (s : connection) : connection :=
  Connection (c_state s) (c_is_connected s) (c_is_closed s) (c_writing s) (c_disconnected s) (c_role s) (c_client s)
    (c_server s) (c_data s) (c_handshake s) v (c_queue s) (c_tls s) (c_socket_open s) (c_stage s) (c_tls_closed s)
    (c_cap s) (c_rx s) (c_sending s).
Definition set_c_queue (v : list octets) (s : connection) : connection :=
  Connection (c_state s) (c_is_connected s) (c_is_closed s) (c_writing s) (c_disconnected s) (c_role s) (c_client s)
    (c_server s) (c_data s) (c_handshake s) (c_remote_key s) v (c_tls s) (c_socket_open s) (c_stage s)
    (c_tls_closed s) (c_cap s) (c_rx s) (c_sending s).
Definition set_c_tls (v : bool) (s : connection) : connection :=
  Connection (c_state s) (c_is_connected s) (c_is_closed s) (c_writing s) (c_disconnected s) (c_role s) (c_client s)
    (c_server s) (c_data s) (c_handshake s) (c_remote_key s) (c_queue s) v (c_socket_open s) (c_stage s)
    (c_tls_closed s) (c_cap s) (c_rx s) (c_sending s).
Definition set_c_socket_open (v : bool) (s : connection) : connection :=
  Connection (c_state s) (c_is_connected s) (c_is_closed s) (c_writing s) (c_disconnected s) (c_role s) (c_client s)
    (c_server s) (c_data s) (c_handshake s) (c_remote_key s) (c_queue s) (c_tls s) v (c_stage s) (c_tls_closed s)
    (c_cap s) (c_rx s) (c_sending s).
Definition set_c_stage (v : setup_stage) (s : connection) : connection :=
  Connection (c_state s) (c_is_connected s) (c_is_closed s) (c_writing s) (c_disconnected s) (c_role s) (c_client s)
    (c_server s) (c_data s) (c_handshake s) (c_remote_key s) (c_queue s) (c_tls s) (c_socket_open s) v
    (c_tls_closed s) (c_cap s) (c_rx s) (c_sending s).
Definition set_c_tls_closed (v : bool) (s : connection) : connection :=
  Connection (c_state s) (c_is_connected s) (c_is_closed s) (c_writing s) (c_disconnected s) (c_role s) (c_client s)
    (c_server s) (c_data s) (c_handshake s) (c_remote_key s) (c_queue s) (c_tls s) (c_socket_open s) (c_stage s) v
    (c_cap s) (c_rx s) (c_sending s).
Definition set_c_cap (v : Z) (s : connection) : connection :=
  Connection (c_state s) (c_is_connected s) (c_is_closed s) (c_writing s) (c_disconnected s) (c_role s) (c_client s)
    (c_server s) (c_data s) (c_handshake s) (c_remote_key s) (c_queue s) (c_tls s) (c_socket_open s) (c_stage s)
    (c_tls_closed s) v (c_rx s) (c_sending s).
Definition set_c_rx (v : option rx_handler) (s : connection) : connection :=
  Connection (c_state s) (c_is_connected s) (c_is_closed s) (c_writing s) (c_disconnected s) (c_role s) (c_client s)
    (c_server s) (c_data s) (c_handshake s) (c_remote_key s) (c_queue s) (c_tls s) (c_socket_open s) (c_stage s)
    (c_tls_closed s) (c_cap s) v (c_sending s).
Definition set_c_sending (v : option Z) (s : connection) : connection :=
  Connection (c_state s) (c_is_connected s) (c_is_closed s) (c_writing s) (c_disconnected s) (c_role s) (c_client s)
    (c_server s) (c_data s) (c_handshake s) (c_remote_key s) (c_queue s) (c_tls s) (c_socket_open s) (c_stage s)
    (c_tls_closed s) (c_cap s) (c_rx s) v.

Definition new_connection (data : handshake_data) (server : bool) : connection :=
  Connection NotConnected false false false false role_client true server data None None [] false server SNone false
    max_frame_size None None.

(** ** Actions *)

(** The owner's virtual callbacks. *)
Inductive notification : Type :=
| OnConnected
| OnDisconnected (err : error_code)
| OnSent (bytes : Z)
| OnReceived (data : octets).

(** What the owner calls from within a callback. *)
Inductive user_call : Type :=
| UClose
| USend (data : octets)
| UCloseLater (err : error_code).

Inductive action : Type :=
| AThrow                              (** the call throws to its caller *)
| AResolve (address : octets)
| ATcpConnect
| AStartTls (role : endpoint_role)
| AReceive (h : rx_handler)
| ABusy                               (** [operation_in_progress] is posted *)
| ASendHandshake (payload : octets)
| ASendData (payload : octets)
| AEnqueue (payload : octets)         (** [out_queue_.emplace_back] *)
| AStartTimer
| ACancelTimer
| ACancelResolver
| ACloseTls
| ACloseSocket
| APostStart
| APostSend
| APostCloseLater (err : error_code)
| APostRemove
| AServerRemove
| ANotify (n : notification).

Definition act : Type := Acts.act connection action.
End connection.

Section operations.
Context `{Primitives, Mac} (cx : context) (exporter : octets -> octets -> Z -> option octets).

(** ** Shutdown *)

(** [disconnect_with] up to the call of the owner. *)
Definition stop_transport : act :=
  update (set_c_disconnected true) ;>
  update (set_c_is_connected false) ;>
  emit ACancelTimer ;> emit ACancelResolver ;>
  when c_tls (emit ACloseTls ;> update (set_c_tls_closed true)) ;>
  when (fun s => negb (c_tls s) && c_socket_open s) (emit ACloseSocket ;> update (set_c_socket_open false)).

(** [disconnect_with]; [tell] runs the owner's [on_disconnected]. *)
Definition disconnect_with (tell : error_code -> act) (err : error_code) : act := fun s =>
  if c_disconnected s then (s, [])
  else (stop_transport ;>
        when c_client
          (update (set_c_client false) ;>
           tell err ;>
           when c_server (emit AServerRemove ;> update (set_c_server false))) ;>
        update (set_c_is_closed true) ;>
        update (set_c_state NotConnected)) s.

(** [do_close]; the owner is let go first, so nobody is told. *)
Definition do_close : act :=
  when (fun s => c_server s && c_client s) (emit APostRemove ;> update (set_c_server false)) ;>
  update (set_c_client false) ;>
  disconnect_with (fun _ => skip_act) NotAnError.

(** [close], on the strand. *)
Definition close_on_strand : act := fun s =>
  if c_is_closed s then (s, []) else (update (set_c_is_closed true) ;> do_close) s.

Definition send (data : octets) : act :=
  update (fun s => set_c_queue (c_queue s ++ [data]) s) ;> emit (AEnqueue data) ;>
  when c_is_connected (emit APostSend).

Definition close_later (err : error_code) : act := emit (APostCloseLater err).

Definition run_call (c : user_call) : act :=
  match c with
  | UClose => close_on_strand
  | USend d => send d
  | UCloseLater e => close_later e
  end.

Fixpoint run_calls (cs : list user_call) : act :=
  match cs with
  | [] => skip_act
  | c :: cs => run_call c ;> run_calls cs
  end.

Section reacting.
Context (react : notification -> list user_call).

(** A callback and what the owner does in it. *)
Definition tell (n : notification) : act := emit (ANotify n) ;> run_calls (react n).

(** [notify_connected], [notify_sent], [notify_received] *)
Definition notify (n : notification) : act := when c_client (tell n).

Definition disconnect (err : error_code) : act := disconnect_with (fun e => tell (OnDisconnected e)) err.

(** [handle_disconnect] *)
Definition handle_disconnect (err : option error_code) : act := disconnect (default NotAnError err).

(** The body [close_later] posts. *)
Definition run_close_later (err : error_code) : act := fun s =>
  if c_is_closed s then (s, []) else (update (set_c_is_closed true) ;> disconnect err) s.

(** ** Data transfer *)

(** [reader_->async_receive_frame] *)
Definition receive_frame (h : rx_handler) : act := fun s =>
  match c_rx s with
  | Some _ => (s, [ABusy])
  | None => (set_c_rx (Some h) s, [AReceive h])
  end.

Definition receive_data : act := when (fun s => c_is_connected s && c_client s) (receive_frame RxData).

Definition do_send : act := fun s =>
  match c_queue s with
  | payload :: rest =>
      if c_writing s || negb (c_is_connected s) then (s, [])
      else (set_c_sending (Some (zlen payload)) (set_c_queue rest (set_c_writing true s)), [ASendData payload])
  | [] => (s, [])
  end.

(** The handler of [do_send]'s [async_send_frame]. *)
Definition on_sent (ec : option error_code) : act := fun s =>
  match c_sending s with
  | None => (s, [])
  | Some size =>
      (update (fun s => set_c_sending None (set_c_writing false s)) ;>
       match ec with
       | Some e => handle_disconnect (Some e)
       | None => notify (OnSent size) ;> do_send
       end) s
  end.

Definition on_data_frame (ec : option error_code) (frame : octets) : act :=
  match ec with
  | Some e => handle_disconnect (Some e)
  | None => notify (OnReceived frame) ;> receive_data
  end.

(** ** The authentication handshake *)

(** The frames the stream holds already are handed over inside
    [async_receive_frame], before it returns. *)
Fixpoint deliver_inline (more : list (option error_code * octets)) : act :=
  match more with
  | [] => skip_act
  | (ec, frame) :: more =>
      when (fun s => bool_decide (c_rx s = Some RxData) && (negb (bool_decide (ec = None)) || negb (c_tls_closed s)))
        (update (set_c_rx None) ;> on_data_frame ec frame) ;>
      deliver_inline more
  end.

Definition become_connected (more : list (option error_code * octets)) : act :=
  emit ACancelTimer ;>
  update (fun s => set_c_remote_key (c_handshake s ≫= hs_remote_public_key) s) ;>
  update (set_c_state Connected) ;>
  update (set_c_is_connected true) ;>
  update (set_c_cap max_frame_size) ;>
  notify OnConnected ;>
  receive_data ;> deliver_inline more ;>
  do_send.

Definition advance_handshake (res : handshake_result) (more : list (option error_code * octets)) : act :=
  match hr_state res with
  | failed => handle_disconnect (Some (NetErrc handshake_failed))
  | st =>
      when (fun _ => negb (zlen (hr_packet res) =? 0)) (emit (ASendHandshake (hr_packet res))) ;>
      match st with
      | succeeded => become_connected more
      | _ => receive_frame RxHandshake
      end
  end.

(** [sid] and [nonce] are what the handshake draws, [more] the frames that
    are there when data is first asked for. *)
Definition on_handshake_frame (ec : option error_code) (sid nonce frame : octets)
  (more : list (option error_code * octets)) : act := fun s =>
  match ec with
  | Some e => handle_disconnect (Some e) s
  | None =>
      match c_handshake s with
      | None => (s, [])
      | Some h =>
          let '(r, h') := handle_packet cx exporter sid nonce frame h in
          (update (set_c_handshake (Some h')) ;>
           advance_handshake (match r with Ok res => res | Throw _ => hs_error end) more) s
      end
  end.

(** A whole frame, or an error, for the handler that waits. *)
Definition on_frame (ec : option error_code) (sid nonce frame : octets)
  (more : list (option error_code * octets)) : act := fun s =>
  match c_rx s with
  | None => (s, [])
  | Some h =>
      (update (set_c_rx None) ;>
       match h with
       | RxHandshake => on_handshake_frame ec sid nonce frame more
       | RxData => on_data_frame ec frame
       end) s
  end.

Definition on_tls_handshake (ec : option error_code) (cid : octets) : act :=
  match ec with
  | Some e => handle_disconnect (Some e)
  | None =>
      update (set_c_cap max_handshake_frame_size) ;>
      fun s =>
        let h := new_handshake (c_role s) in
        match c_role s with
        | role_client =>
            match start cx cid (c_data s) h with
            | Ok (h', res) => (update (set_c_handshake (Some h')) ;> advance_handshake res []) s
            | Throw _ => (update (set_c_handshake (Some h)) ;> emit AThrow) s
            end
        | role_server => (update (set_c_handshake (Some h)) ;> receive_frame RxHandshake) s
        end
  end.

(** ** Connecting *)

Definition start_timeout : act := emit AStartTimer.

Definition on_timeout (ec : option error_code) : act := fun s =>
  match ec with
  | None => if decide (c_state s = Connected) then (s, []) else handle_disconnect (Some TimedOut) s
  | Some _ => (s, [])
  end.

Definition start_tls (role : endpoint_role) : act :=
  update (set_c_role role) ;> update (set_c_tls true) ;> update (set_c_socket_open false) ;>
  update (set_c_stage STls) ;> emit (AStartTls role).

Definition with_address (address : octets) (d : handshake_data) : handshake_data :=
  HandshakeData (hd_tag d) address (hd_binding d) (hd_options d) (hd_role d).

(** [connect]; it throws unless nothing was started. *)
Definition connect (address : octets) : act := fun s =>
  if decide (c_state s = NotConnected) then
    (update (set_c_state Connecting) ;>
     update (fun s => set_c_data (with_address address (c_data s)) s) ;>
     update (set_c_stage SResolve) ;> emit (AResolve address) ;> start_timeout) s
  else (s, [AThrow]).

(** [else if(error != operation_aborted) handle_disconnect(error)] *)
Definition unless_aborted (ec : option error_code) : act :=
  if decide (ec = Some OperationAborted) then skip_act else handle_disconnect (Some (default (OtherCode 0) ec)).

Definition on_resolve (ec : option error_code) : act := fun s =>
  if bool_decide (ec = None) && c_client s
  then (update (set_c_socket_open true) ;> update (set_c_stage STcp) ;> emit ATcpConnect) s
  else unless_aborted ec s.

Definition on_connect (ec : option error_code) : act := fun s =>
  if bool_decide (ec = None) && c_client s then start_tls role_client s else unless_aborted ec s.

(** [start_server_handshake] on an accepted socket; the dispatched part is
    [run_start_server]. *)
Definition start_server_handshake : act :=
  update (set_c_socket_open true) ;> update (set_c_state Connecting) ;> start_timeout ;>
  update (set_c_stage SStartServer) ;> emit APostStart.

Definition run_start_server : act := when c_client (start_tls role_server).
End reacting.

(** ** Events *)

Inductive event : Type :=
| EConnect (address : octets)
| EResolve (ec : option error_code)
| ETcpConnect (ec : option error_code)
| EStartServer
| ERunStartServer
| ETlsHandshake (ec : option error_code) (cid : octets)
| EFrame (ec : option error_code) (sid nonce frame : octets) (more : list (option error_code * octets))
| EHandshakeSent (ec : option error_code)
| ESent (ec : option error_code)
| ETimeout (ec : option error_code)
| ESend (data : octets)
| ERunSend
| EMarkClosed                         (** [is_closed_.exchange(true)] by another thread *)
| ERunClose                           (** and its [do_close] on the strand *)
| ECloseOnStrand
| ERunCloseLater (err : error_code).

(** What the environment can do: a completion follows its operation, and a
    stream that was closed delivers no more frames. *)
Definition enabled (e : event) (s : connection) : bool :=
  match e with
  | EConnect _ => negb (c_is_closed s)
  | EStartServer => bool_decide (c_stage s = SNone) && bool_decide (c_state s = NotConnected)
  | EResolve _ => bool_decide (c_stage s = SResolve)
  | ETcpConnect _ => bool_decide (c_stage s = STcp)
  | ERunStartServer => bool_decide (c_stage s = SStartServer)
  | ETlsHandshake _ _ => bool_decide (c_stage s = STls)
  | EFrame ec _ _ _ _ =>
      bool_decide (c_rx s <> None) && (negb (bool_decide (ec = None)) || negb (c_tls_closed s))
  | EHandshakeSent _ => bool_decide (c_stage s = SDone)
  | ESent _ => bool_decide (c_sending s <> None)
  | ERunClose => c_is_closed s
  | _ => true
  end.

(** The strand runs one handler at a time; a completed set-up operation is no
    longer outstanding. *)
Definition handle (react : notification -> list user_call) (e : event) : act :=
  match e with
  | EConnect a => connect a
  | EResolve ec => update (set_c_stage SNone) ;> on_resolve react ec
  | ETcpConnect ec => update (set_c_stage SNone) ;> on_connect react ec
  | EStartServer => start_server_handshake
  | ERunStartServer => update (set_c_stage SNone) ;> run_start_server
  | ETlsHandshake ec cid => update (set_c_stage SDone) ;> on_tls_handshake react ec cid
  | EFrame ec sid nonce frame more => on_frame react ec sid nonce frame more
  | EHandshakeSent ec => match ec with Some e => handle_disconnect react (Some e) | None => skip_act end
  | ESent ec => on_sent react ec
  | ETimeout ec => on_timeout react ec
  | ESend d => send d
  | ERunSend => do_send
  | EMarkClosed => update (set_c_is_closed true)
  | ERunClose => do_close
  | ECloseOnStrand => close_on_strand
  | ERunCloseLater err => run_close_later react err
  end.

Definition input : Type := event * (notification -> list user_call).

(** Everything that happened, oldest first; [None] when an event was not
    enabled. *)
Fixpoint run (inputs : list input) (s : connection) : option (connection * list action) :=
  match inputs with
  | [] => Some (s, [])
  | (e, react) :: rest =>
      if enabled e s then
        let '(s1, a1) := handle react e s in
        match run rest s1 with Some (s2, a2) => Some (s2, a1 ++ a2) | None => None end
      else None
  end.
End operations.
