(* ===== verification/ConnectionSafety.v ===== *)
(** What the owner of an encrypted connection can rely on: the order of its
    callbacks and of the payloads, silence after the close, an authenticated
    peer, and small frames until then.

    The owner's contract is an automaton over the actions of [Connection.v];
    Hoare-style triples carry the connection's invariant and the state of the
    automaton through its operations. *)

From stdpp Require Import base list numbers strings gmap.
From Stdlib Require Import ZArith Lia.
From S2P Require Import Prelude Acts ByteOrder Asn1Int Asn1Stream Asn1Encoder Asn1Decoder Serialise Crypto CertChain Framing Handshake Connection.
Open Scope Z_scope.

(** ** The contract with the owner

    An automaton over the actions, the abstract specification of a connection:
    what the owner hears and in which order, which payload may go out next, and
    that no two receives overlap. *)

Inductive phase : Type := PIdle | PUp | PDown.

#[export] Instance phase_eq_dec : EqDecision phase.
Proof. solve_decision. Defined.

(** [k_queue]: payloads accepted and not sent yet; [k_out]: the size of the
    payload whose completion the owner has not heard. *)
Record contract_state : Type := Contract { k_phase : phase; k_queue : list octets; k_out : option Z }.

Definition contract_start : contract_state := Contract PIdle [] None.

Section contract.
Context `{Primitives, Mac}.

Definition contract_step (k : contract_state) (a : action) : option contract_state :=
  match a with
  | ANotify OnConnected => if decide (k_phase k = PIdle) then Some (Contract PUp (k_queue k) (k_out k)) else None
  | ANotify (OnReceived _) => if decide (k_phase k = PUp) then Some k else None
  | ANotify (OnSent n) =>
      if decide (k_phase k = PUp /\ k_out k = Some n) then Some (Contract PUp (k_queue k) None) else None
  | ANotify (OnDisconnected _) =>
      if decide (k_phase k = PDown) then None else Some (Contract PDown (k_queue k) (k_out k))
  | AEnqueue d => Some (Contract (k_phase k) (k_queue k ++ [d]) (k_out k))
  | ASendData d =>
      match k_queue k with
      | d' :: rest =>
          if decide (k_phase k = PUp /\ d = d' /\ k_out k = None) then Some (Contract PUp rest (Some (zlen d))) else None
      | [] => None
      end
  | AReceive RxData => if decide (k_phase k = PUp) then Some k else None
  | ABusy => None
  | _ => Some k
  end.

End contract.

#[local] Abbreviation accepts := (Acts.accepts contract_step).
#[local] Abbreviation assertion := (Acts.assertion (S := connection) (M := contract_state)).
#[local] Abbreviation triple := (Acts.triple contract_step).

Section invariant.
Context `{Primitives, Mac}.

(** ** The invariant of a connection *)
Record inv (s : connection) (k : contract_state) : Prop := Inv {
  inv_queue : k_queue k = c_queue s;
  inv_gone : c_disconnected s = negb (c_client s);
  inv_tls_closed : c_disconnected s = true -> c_tls s = true -> c_tls_closed s = true;
  inv_tls : c_stage s = STls \/ c_stage s = SDone -> c_tls s = true;
  inv_rx_stage : c_rx s <> None -> c_stage s = SDone;
  inv_phase : c_client s = true -> k_phase k = if c_is_connected s then PUp else PIdle;
  inv_connected : c_is_connected s = true ->
    c_client s = true /\ c_state s = Connected /\ c_stage s = SDone /\ c_rx s <> Some RxHandshake;
  inv_rx_data : c_rx s = Some RxData -> c_client s = true -> c_is_connected s = true;
  inv_writing : c_writing s = negb (bool_decide (c_sending s = None));
  inv_out : c_is_connected s = true -> k_out k = c_sending s;
  inv_idle : c_client s = true -> c_is_connected s = false -> k_out k = None;
  inv_sending : c_sending s <> None -> c_client s = true -> c_is_connected s = true;
  inv_cap_handshake : c_rx s = Some RxHandshake -> c_cap s = max_handshake_frame_size;
  inv_cap_data : c_is_connected s = true -> c_cap s = max_frame_size;
  inv_fresh : c_state s = NotConnected -> c_is_closed s = false -> c_stage s = SNone
}.

Definition keeps (f : act) : Prop := triple inv f inv.

Lemma keeps_seq f g : keeps f -> keeps g -> keeps (f ;> g).
Proof. apply triple_seq. Qed.
Lemma keeps_when p f : keeps f -> keeps (when p f).
Proof. intros Hf. apply triple_when; [|done]. eapply triple_pre; [|exact Hf]. by intros s k []. Qed.
End invariant.

(** Clauses of the invariant after an update. *)
Ltac inv_auto :=
  cbn in *;
  repeat match goal with
         | H : _ /\ _ |- _ => destruct H
         | H : inv _ _ |- _ => destruct H; cbn in *
         end;
  try split; cbn; intros; try (intuition congruence); try naive_solver congruence.

Section connection_proofs.
Context `{Primitives, Mac}.

(** The owner was let go. *)
Definition gone : assertion := fun s k => inv s k /\ c_client s = false.

Lemma gone_down s k : gone s k -> c_is_connected s = false /\ c_disconnected s = true.
Proof.
  intros [Hi Hc]. split; [|by rewrite (inv_gone _ _ Hi), Hc].
  destruct (c_is_connected s) eqn:E; [|done]. destruct (inv_connected _ _ Hi E). congruence.
Qed.

Lemma do_close_gone : triple inv do_close gone.
Proof.
  intros s k Hi. exists k. unfold do_close, disconnect_with, andthen, when, update, emit, skip_act.
  destruct s as [st conn clo wr disc ro cli srv dat hs key q tls sock stg tlsc cap rx snd0]. destruct Hi. cbn in *. subst disc.
  destruct cli, srv, tls, sock; cbn in *; (split; [done|]); split; cbn; try done; split; cbn in *; intros; try done; naive_solver.
Qed.

Lemma set_closed_inv b s k : b = true -> inv s k -> inv (set_c_is_closed b s) k.
Proof. intros -> Hi. inv_auto. Qed.

Lemma close_gone : triple inv close_on_strand (fun s k => inv s k /\ (c_client s = false \/ c_is_closed s = true)).
Proof.
  apply triple_fun. intros s k Hi. unfold close_on_strand. destruct (c_is_closed s) eqn:E.
  - exists skip_act. split; [done|]. intros s' k' [-> ->]. exists k. split; [done|]. split; [done|by right].
  - eexists. split; [reflexivity|]. eapply triple_seq; [apply triple_update with (Q := inv)|].
    + intros ? ? [-> ->]. by apply set_closed_inv.
    + eapply triple_post; [|apply do_close_gone]. intros s' k' [? ?]. split; [done|by left].
Qed.

(** [gone] is kept as well: an owner that was let go stays let go. *)
Definition keeps_both (f : act) : Prop := keeps f /\ triple gone f gone.

Lemma both_seq f g : keeps_both f -> keeps_both g -> keeps_both (f ;> g).
Proof. intros [? ?] [? ?]. split; by eapply triple_seq. Qed.
Lemma both_skip : keeps_both skip_act.
Proof. split; apply triple_skip. Qed.
Lemma both_quiet a : (forall k, contract_step k a = Some k) -> keeps_both (emit a).
Proof. intros Ha. split; by apply triple_quiet. Qed.
Lemma both_update f : (forall s k, inv s k -> inv (f s) k) -> (forall s, c_client (f s) = c_client s) -> keeps_both (update f).
Proof.
  intros Hf Hc. split; apply triple_update; [done|]. intros s k [Hi Hg]. split; [by apply Hf|]. by rewrite Hc.
Qed.
Lemma both_when p f : keeps_both f -> keeps_both (when p f).
Proof.
  intros [H1 H2]. split; [by apply keeps_when|].
  apply triple_when; [|done]. eapply triple_pre; [|exact H2]. by intros s k [].
Qed.
Lemma both_cases (f : act) : (forall s, exists g, f s = g s /\ keeps_both g) -> keeps_both f.
Proof.
  intros Hf. split; intros s k HP; destruct (Hf s) as (g & E & H1 & H2); rewrite E; [by apply H1|by apply H2].
Qed.

Lemma do_close_both : keeps_both do_close.
Proof.
  split; [eapply triple_post; [|apply do_close_gone]; by intros s k []|].
  eapply triple_pre; [|apply do_close_gone]. by intros s k [].
Qed.

Lemma mark_closed_both : keeps_both (update (set_c_is_closed true)).
Proof. apply both_update; [|done]. intros s k. by apply set_closed_inv. Qed.

Lemma close_both : keeps_both close_on_strand.
Proof.
  apply both_cases. intros s. unfold close_on_strand. destruct (c_is_closed s).
  - exists skip_act. split; [done|apply both_skip].
  - eexists. split; [reflexivity|]. apply both_seq; [apply mark_closed_both|apply do_close_both].
Qed.

Lemma enqueue_both d : keeps_both (update (fun s => set_c_queue (c_queue s ++ [d]) s) ;> emit (AEnqueue d)).
Proof.
  split; intros s k HP; exists (Contract (k_phase k) (k_queue k ++ [d]) (k_out k)); (split; [done|]).
  - inv_auto.
  - destruct HP as [Hi Hg]. split; [|done]. inv_auto.
Qed.

Lemma send_both d : keeps_both (send d).
Proof.
  apply both_cases. intros s. eexists. split; [symmetry; apply andthen_assoc|].
  apply both_seq; [apply enqueue_both|]. by apply both_when, both_quiet.
Qed.

Lemma run_calls_both cs : keeps_both (run_calls cs).
Proof.
  induction cs as [|[|d|e] cs IH]; cbn; [apply both_skip| | |]; (apply both_seq; [|exact IH]).
  - apply close_both.
  - apply send_both.
  - by apply both_quiet.
Qed.

(** What the owner calls leaves the receive side alone. *)
Definition same_rx (f : act) : Prop := forall s, c_rx (fst (f s)) = c_rx s.

Lemma same_rx_seq f g : same_rx f -> same_rx g -> same_rx (f ;> g).
Proof.
  intros Hf Hg s. unfold andthen. specialize (Hf s). destruct (f s) as [s1 a1]. specialize (Hg s1).
  destruct (g s1) as [s2 a2]. cbn in *. congruence.
Qed.

Lemma same_rx_when p f : same_rx f -> same_rx (when p f).
Proof. intros Hf s. unfold when. destruct (p s); [apply Hf|done]. Qed.

Lemma close_same_rx : same_rx close_on_strand.
Proof.
  intros s. unfold close_on_strand. destruct (c_is_closed s); [done|].
  unfold do_close, disconnect_with, stop_transport, andthen, when, update, emit, skip_act.
  destruct s as [st conn clo wr disc ro cli srv dat hs key q tls sock stg tlsc cap rx snd0]. cbn.
  by destruct disc, cli, srv, tls, sock.
Qed.

Lemma run_calls_same_rx cs : same_rx (run_calls cs).
Proof.
  induction cs as [|[|d|e] cs IH]; cbn; [done| | |]; (apply same_rx_seq; [|exact IH]).
  - apply close_same_rx.
  - by apply same_rx_seq, same_rx_seq, same_rx_when.
  - done.
Qed.

Section reacting_proofs.
Context (react : notification -> list user_call).

(** The owner is about to hear [OnDisconnected]. *)
Definition falling : assertion := fun s k => gone s k /\ k_phase k <> PDown.

Lemma tell_disconnected e : triple falling (tell react (OnDisconnected e)) gone.
Proof.
  eapply triple_seq; [|apply run_calls_both]. apply triple_emit. intros s k [[Hi Hg] Hp]. cbn.
  destruct (decide _); [done|]. eexists. split; [reflexivity|]. split; [|done]. inv_auto.
Qed.

(** The first steps of [disconnect_with], while the owner is still there. *)
Definition leaving : assertion := fun s k =>
  inv (set_c_client false s) k /\ k_phase k <> PDown /\ c_client s = true.

(** The invariant but for the completion the owner is owed: an error of the
    outstanding frame takes that one away. *)
Definition inv_upto_out : assertion := fun s k => inv s (Contract (k_phase k) (k_queue k) (c_sending s)).

Lemma nothing_sending s k : inv s k -> c_client s = true -> c_is_connected s = false -> c_sending s = None.
Proof.
  intros Hi Hcl Hc. destruct (c_sending s) eqn:E; [|done].
  assert (c_sending s <> None) as Hx by congruence. pose proof (inv_sending _ _ Hi Hx Hcl). congruence.
Qed.

Lemma inv_upto s k : inv s k -> inv_upto_out s k.
Proof. intros Hi. pose proof (nothing_sending _ _ Hi). unfold inv_upto_out. inv_auto. Qed.

Lemma inv_upto_down s k : inv_upto_out s k -> c_disconnected s = true -> inv s k.
Proof.
  intros Hi Hd. pose proof (inv_gone _ _ Hi) as Hg. unfold inv_upto_out in Hi.
  assert (c_is_connected s = false).
  { destruct (c_is_connected s) eqn:E; [|done]. destruct (inv_connected _ _ Hi E) as [Hc _]. by rewrite Hc, Hd in Hg. }
  assert (c_client s = false) by (destruct (c_client s); [by rewrite Hd in Hg|done]).
  inv_auto.
Qed.

Lemma stop_transport_leaving : triple (fun s k => inv_upto_out s k /\ c_disconnected s = false) stop_transport leaving.
Proof.
  intros s k [Hi Hd]. exists k. unfold stop_transport, andthen, when, update, emit.
  destruct s as [st conn clo wr disc ro cli srv dat hs key q tls sock stg tlsc cap rx snd0]. destruct Hi. cbn in *. subst disc.
  destruct cli; [|done]. specialize (inv_phase0 eq_refl).
  assert (k_phase k <> PDown) as Hp by (rewrite inv_phase0; by destruct conn).
  destruct tls, sock; cbn in *; (split; [done|]); (split; [|split; [done|by cbn]]); split; cbn; intuition congruence.
Qed.

Lemma end_disconnect : triple gone (update (set_c_is_closed true) ;> update (set_c_state NotConnected)) gone.
Proof.
  intros s k Hg. destruct (gone_down _ _ Hg) as [Hn _]. destruct Hg as [Hi Hc]. exists k. split; [done|].
  unfold andthen, update. split; [|done]. inv_auto.
Qed.

Lemma drop_server : keeps_both (when c_server (emit AServerRemove ;> update (set_c_server false))).
Proof. apply both_when, both_seq; [by apply both_quiet|]. apply both_update; [|done]. intros s k Hi. inv_auto. Qed.

Lemma disconnect_gone e : triple inv_upto_out (disconnect react e) gone.
Proof.
  apply triple_fun. intros s k Hi. unfold disconnect, disconnect_with.
  destruct (c_disconnected s) eqn:E.
  - apply inv_upto_down in Hi; [|done].
    exists skip_act. split; [done|]. intros ? ? [-> ->]. exists k. split; [done|]. split; [done|].
    rewrite (inv_gone _ _ Hi) in E. cbn. by destruct (c_client s).
  - eexists. split; [reflexivity|]. eapply triple_seq.
    { eapply triple_pre; [|apply stop_transport_leaving]. by intros ? ? [-> ->]. }
    eapply triple_seq; [|apply end_disconnect]. apply triple_when; [|intros ? ? (_ & _ & ?); congruence].
    eapply triple_seq; [apply triple_update with (Q := falling)|].
    { intros s' k' [(H1 & H2 & _) _]. by split. }
    eapply triple_seq; [apply tell_disconnected|apply drop_server].
Qed.

Lemma disconnect_keeps e : keeps (disconnect react e).
Proof.
  eapply triple_pre; [exact inv_upto|]. eapply triple_post; [|apply disconnect_gone]. by intros s k [].
Qed.

Lemma handle_disconnect_keeps e : keeps (handle_disconnect react e).
Proof. apply disconnect_keeps. Qed.

Lemma run_close_later_keeps e : keeps (run_close_later react e).
Proof.
  apply triple_fun. intros s k Hi. unfold run_close_later. destruct (c_is_closed s).
  - exists skip_act. split; [done|]. intros ? ? [-> ->]. by exists k.
  - eexists. split; [reflexivity|]. eapply triple_seq; [|apply disconnect_keeps].
    eapply triple_pre; [|apply mark_closed_both]. by intros ? ? [-> ->].
Qed.

(** A callback that leaves the contract state alone or completes a payload. *)
Lemma notify_keeps (P : assertion) n :
  (forall s k, P s k -> inv s k) ->
  (forall s k, P s k -> c_client s = true -> exists k', contract_step k (ANotify n) = Some k' /\ inv s k') ->
  triple P (notify react n) inv.
Proof.
  intros HP Hn. apply triple_when; [|intros; by apply HP].
  eapply triple_seq; [|apply run_calls_both]. apply triple_emit. intros s k [Hs Hc]. by apply Hn.
Qed.

(** ** Data transfer *)
Lemma receive_data_keeps : triple (fun s k => inv s k /\ (c_is_connected s = true -> c_rx s = None)) receive_data inv.
Proof.
  apply triple_when; [|by intros s k [[]]].
  intros s k [[Hi Hr] Hc]. apply andb_true_iff in Hc as [Hc1 Hc2].
  unfold receive_frame. rewrite (Hr Hc1). cbn [fst snd].
  pose proof (inv_phase _ _ Hi Hc2) as Hp. rewrite Hc1 in Hp.
  exists k. cbn. rewrite Hp, decide_True by done. split; [done|]. inv_auto.
Qed.

Lemma do_send_keeps : keeps do_send.
Proof.
  intros s k Hi. unfold do_send. destruct (c_queue s) as [|d q] eqn:Eq; [by exists k|].
  destruct (c_writing s) eqn:Ew; [by exists k|]. destruct (c_is_connected s) eqn:Ec; [|by exists k]. cbn [orb negb fst snd].
  destruct (inv_connected _ _ Hi Ec) as (Hcl & _). pose proof (inv_phase _ _ Hi Hcl) as Hp. rewrite Ec in Hp.
  pose proof (inv_writing _ _ Hi) as Hw. rewrite Ew in Hw.
  assert (c_sending s = None) as Hs by (destruct (bool_decide _) eqn:E; [by apply bool_decide_eq_true in E|done]).
  pose proof (inv_out _ _ Hi Ec) as Ho. rewrite Hs in Ho.
  exists (Contract PUp q (Some (zlen d))). cbn. rewrite (inv_queue _ _ Hi), Eq, Hp, Ho, decide_True by done.
  split; [done|]. inv_auto.
Qed.

(** The outstanding frame completed: the owner is owed one [OnSent n]. *)
Definition owed (n : Z) : assertion := fun s k =>
  inv_upto_out s k /\ c_sending s = None /\ (c_client s = true -> c_is_connected s = true /\ k_out k = Some n).

Lemma complete_frame n : triple (fun s k => inv s k /\ c_sending s = Some n)
  (update (fun s => set_c_sending None (set_c_writing false s))) (owed n).
Proof.
  apply triple_update. intros s k [Hi Hn]. pose proof (inv_sending _ _ Hi) as Hs. pose proof (inv_out _ _ Hi) as Ho.
  rewrite Hn in *. split_and!; [|done|cbn].
  - unfold inv_upto_out. inv_auto.
  - intros Hc. split; [by apply Hs|]. apply Ho. by apply Hs.
Qed.

Lemma notify_sent n : triple (owed n) (notify react (OnSent n)) inv.
Proof.
  apply triple_when.
  - eapply triple_seq; [|apply run_calls_both]. apply triple_emit. intros s k [(Hi & Hs & Ho) Hc].
    destruct (Ho Hc) as [Hcon Hout]. pose proof (inv_phase _ _ Hi Hc) as Hp. rewrite Hcon in Hp. cbn in Hp.
    exists (Contract PUp (k_queue k) None). cbn. rewrite decide_True by done. split; [done|].
    unfold inv_upto_out in Hi. inv_auto.
  - intros s k (Hi & _) Hc. apply inv_upto_down; [done|]. by rewrite (inv_gone _ _ Hi), Hc.
Qed.

Lemma on_sent_keeps ec : keeps (on_sent react ec).
Proof.
  apply triple_fun. intros s k Hi. unfold on_sent. destruct (c_sending s) as [n|] eqn:En.
  - eexists. split; [reflexivity|]. eapply triple_seq.
    { eapply triple_pre; [|apply (complete_frame n)]. by intros ? ? [-> ->]. }
    destruct ec as [e|].
    + eapply triple_pre; [by intros s' k' (? & _)|]. eapply triple_post; [|apply disconnect_gone]. by intros ? ? [].
    + eapply triple_seq; [apply notify_sent|apply do_send_keeps].
  - exists skip_act. split; [done|]. intros ? ? [-> ->]. by exists k.
Qed.

(** A receive has just completed, so the next may start. *)
Definition idle_rx : assertion := fun s k =>
  inv s k /\ c_rx s = None /\ (c_client s = true -> c_is_connected s = true).

(** A rule of constancy for the receive side. *)
Lemma triple_same_rx P f Q rx :
  same_rx f -> triple P f Q -> triple (fun s k => P s k /\ c_rx s = rx) f (fun s k => Q s k /\ c_rx s = rx).
Proof.
  intros Hr Hf s k [HP Hx]. destruct (Hf s k HP) as (k' & E & HQ). exists k'. split_and!; [done|done|].
  by rewrite Hr.
Qed.

Lemma notify_same_rx n : same_rx (notify react n).
Proof. apply same_rx_when, same_rx_seq; [done|apply run_calls_same_rx]. Qed.

Lemma receive_more : triple (fun s k => inv s k /\ c_rx s = None) receive_data inv.
Proof. eapply triple_pre; [|apply receive_data_keeps]. by intros s k []. Qed.

Lemma on_data_frame_keeps ec frame : triple idle_rx (on_data_frame react ec frame) inv.
Proof.
  destruct ec as [e|]; cbn.
  - eapply triple_pre; [|apply handle_disconnect_keeps]. by intros s k [].
  - eapply triple_seq; [|apply receive_more].
    eapply triple_pre; [|apply triple_same_rx; [apply notify_same_rx|]].
    { intros s k (Hi & Hr & Hc). split; [|exact Hr]. exact (conj Hi Hc). }
    apply notify_keeps; [by intros s k []|]. intros s k [Hi Hc] Hcl.
    exists k. cbn. pose proof (inv_phase _ _ Hi Hcl) as Hp. rewrite (Hc Hcl) in Hp. by rewrite decide_True.
Qed.

Lemma take_rx_data : triple (fun s k => inv s k /\ c_rx s = Some RxData) (update (set_c_rx None)) idle_rx.
Proof.
  apply triple_update. intros s k [Hi Hr]. pose proof (inv_rx_data _ _ Hi Hr).
  split_and!; [inv_auto|done|done].
Qed.

Lemma deliver_inline_keeps more : keeps (deliver_inline react more).
Proof.
  induction more as [|[ec frame] more IH]; cbn; [apply triple_skip|].
  apply keeps_seq; [|exact IH]. apply triple_when; [|done].
  eapply triple_seq; [|apply on_data_frame_keeps]. eapply triple_pre; [|apply take_rx_data].
  intros s k [Hi Hp]. split; [done|]. apply andb_true_iff in Hp as [Hp _]. by apply bool_decide_eq_true in Hp.
Qed.

(** ** The authentication handshake *)

(** A handshake step runs: no receive is outstanding and nothing was announced
    to the owner yet. *)
Definition shaking : assertion := fun s k =>
  inv s k /\ c_rx s = None /\ c_is_connected s = false /\ c_stage s = SDone /\ c_cap s = max_handshake_frame_size.

Lemma receive_handshake_keeps : triple shaking (receive_frame RxHandshake) inv.
Proof.
  intros s k (Hi & Hr & Hc & Hs & Hcap). unfold receive_frame. rewrite Hr. exists k. split; [done|]. cbn. inv_auto.
Qed.

(** Everything is set for the owner to hear [OnConnected]. *)
Definition rising : assertion := fun s k =>
  inv s (Contract PUp (k_queue k) (k_out k)) /\ k_phase k = PIdle /\ c_client s = true /\ c_rx s = None.

Lemma notify_connected : triple rising (notify react OnConnected) (fun s k => inv s k /\ c_rx s = None).
Proof.
  eapply triple_pre; [|apply (triple_same_rx (fun s k => rising s k)); [apply notify_same_rx|]].
  { intros s k Hr. split; [exact Hr|]. by destruct Hr as (_ & _ & _ & Hx). }
  apply triple_when; [|intros s k (_ & _ & Hc & _); congruence].
  eapply triple_seq; [|apply run_calls_both]. apply triple_emit. intros s k [(Hi & Hp & _) _].
  eexists. split; [|exact Hi]. cbn. by rewrite Hp.
Qed.

Lemma become_connected_keeps more : triple (fun s k => shaking s k /\ c_client s = true) (become_connected react more) inv.
Proof.
  unfold become_connected. eapply triple_pre; [|do 5 (eapply triple_seq; [first [apply triple_update_wp|by apply triple_quiet]|])].
  2: { eapply triple_seq; [apply notify_connected|]. eapply triple_seq; [apply receive_more|].
       eapply triple_seq; [apply deliver_inline_keeps|apply do_send_keeps]. }
  intros s k [(Hi & Hr & Hc & Hs & Hcap) Hcl]. cbn.
  pose proof (inv_phase _ _ Hi Hcl) as Hp. rewrite Hc in Hp. pose proof (inv_idle _ _ Hi Hcl Hc) as Ho.
  pose proof (nothing_sending _ _ Hi Hcl Hc) as Hn.
  split_and!; [|exact Hp|exact Hcl|exact Hr]. inv_auto.
Qed.

Lemma answer_keeps (P : assertion) res : triple P
  (when (fun _ => negb (zlen (hr_packet res) =? 0)) (emit (ASendHandshake (hr_packet res)))) P.
Proof. apply triple_when; [|done]. eapply triple_pre; [|by apply triple_quiet]. by intros s k []. Qed.

Lemma advance_handshake_keeps res more :
  triple (fun s k => shaking s k /\ (hr_state res = succeeded -> c_client s = true)) (advance_handshake react res more) inv.
Proof.
  unfold advance_handshake. destruct (hr_state res) eqn:E.
  - eapply triple_seq; [apply answer_keeps|]. eapply triple_pre; [|apply receive_handshake_keeps]. by intros s k [].
  - eapply triple_seq; [apply answer_keeps|]. eapply triple_pre; [|apply become_connected_keeps]. intros s k [? ?]. split; auto.
  - eapply triple_pre; [|apply handle_disconnect_keeps]. by intros s k [[] _].
Qed.

Lemma set_handshake_shaking h : triple shaking (update (set_c_handshake h)) shaking.
Proof. apply triple_update. intros s k (Hi & Hr & Hc & Hs & Hcap). split_and!; try done. inv_auto. Qed.

Lemma start_in_progress c cid d h h' res : start c cid d h = Ok (h', res) -> hr_state res = in_progress.
Proof. unfold start. intros (bs & _ & [= _ <-])%rbind_ok. done. Qed.

Context (cx : context) (exporter : octets -> octets -> Z -> option octets).

Lemma on_handshake_frame_keeps ec sid nonce frame more :
  triple (fun s k => shaking s k /\ (ec = None -> c_client s = true))
    (on_handshake_frame cx exporter react ec sid nonce frame more) inv.
Proof.
  apply triple_fun. intros s k [Hs Hc]. unfold on_handshake_frame. destruct ec as [e|].
  - eexists. split; [reflexivity|]. eapply triple_pre; [|apply handle_disconnect_keeps]. intros ? ? [-> ->]. by destruct Hs.
  - destruct (c_handshake s) as [h|]; [|exists skip_act; split; [done|]; intros ? ? [-> ->]; exists k; by destruct Hs].
    destruct (handle_packet _ _ _ _ _ _) as [r h']. eexists. split; [reflexivity|].
    eapply triple_seq; [|apply advance_handshake_keeps].
    apply triple_update. intros ? ? [-> ->].
    destruct (set_handshake_shaking (Some h') _ _ Hs) as (k' & [= <-] & Hs'). split; [exact Hs'|]. intros _. by apply Hc.
Qed.

Lemma rx_client s k : inv s k -> c_rx s <> None -> c_tls_closed s = false -> c_client s = true.
Proof.
  intros Hi Hr Ht. pose proof (inv_rx_stage _ _ Hi Hr) as Hs. pose proof (inv_tls _ _ Hi (or_intror Hs)) as Htls.
  pose proof (inv_gone _ _ Hi) as Hg. destruct (c_client s); [done|]. by rewrite (inv_tls_closed _ _ Hi Hg Htls) in Ht.
Qed.

Lemma on_frame_keeps ec sid nonce frame more :
  triple (fun s k => inv s k /\ enabled (EFrame ec sid nonce frame more) s = true)
    (on_frame cx exporter react ec sid nonce frame more) inv.
Proof.
  apply triple_fun. intros s k [Hi He]. apply andb_true_iff in He as [He1 He2]. apply bool_decide_eq_true in He1.
  unfold on_frame. destruct (c_rx s) as [h|] eqn:Er; [|done]. eexists. split; [reflexivity|]. destruct h.
  - eapply triple_seq; [|apply on_handshake_frame_keeps].
    apply triple_update. intros ? ? [-> ->].
    assert (c_is_connected s = false) as Hn.
    { destruct (c_is_connected s) eqn:E; [|done]. by destruct (inv_connected _ _ Hi E) as (_ & _ & _ & Hx). }
    assert (c_rx s <> None) as Hr by congruence.
    pose proof (inv_rx_stage _ _ Hi Hr). pose proof (inv_cap_handshake _ _ Hi Er). split.
    + split_and!; try done. inv_auto.
    + intros ->. cbn in He2. apply negb_true_iff in He2. by apply (rx_client s k).
  - eapply triple_seq; [|apply on_data_frame_keeps].
    eapply triple_pre; [|apply take_rx_data]. by intros ? ? [-> ->].
Qed.

Lemma on_tls_handshake_keeps ec cid :
  triple (fun s k => inv s k /\ c_rx s = None /\ c_is_connected s = false /\ c_stage s = SDone)
    (on_tls_handshake cx react ec cid) inv.
Proof.
  unfold on_tls_handshake. destruct ec as [e|].
  - eapply triple_pre; [|apply handle_disconnect_keeps]. by intros s k [].
  - eapply triple_seq; [apply triple_update with (Q := shaking)|].
    { intros s k (Hi & Hr & Hc & Hs). split_and!; try done. inv_auto. }
    apply triple_fun. intros s k Hs.
    assert (forall h, triple (fun s' k' => s' = s /\ k' = k) (update (set_c_handshake h)) shaking) as Hu.
    { intros h. eapply triple_pre; [|apply set_handshake_shaking]. by intros ? ? [-> ->]. }
    destruct (c_role s).
    + destruct (start _ _ _ _) as [[h' res]|e] eqn:E; (eexists; split; [reflexivity|]).
      * apply start_in_progress in E. eapply triple_seq; [apply Hu|].
        eapply triple_pre; [|apply advance_handshake_keeps]. intros ? ? ?. split; [done|]. congruence.
      * eapply triple_seq; [apply Hu|]. eapply triple_pre; [|by apply triple_quiet]. by intros ? ? [].
    + eexists. split; [reflexivity|]. eapply triple_seq; [apply Hu|apply receive_handshake_keeps].
Qed.

(** ** Connecting *)

(** The completion of a set-up step that is not the last one runs. *)
Definition setting_up : assertion := fun s k =>
  inv s k /\ c_rx s = None /\ c_is_connected s = false /\ (c_state s = NotConnected -> c_is_closed s = true).

Lemma leave_stage g s k : inv s k -> c_stage s = g -> g <> SNone -> g <> SDone ->
  c_rx s = None /\ c_is_connected s = false /\ (c_state s = NotConnected -> c_is_closed s = true).
Proof.
  intros Hi <- Hn Hd. split_and!.
  - destruct (c_rx s) eqn:E; [|done]. assert (c_rx s <> None) as Hr by congruence.
    by pose proof (inv_rx_stage _ _ Hi Hr).
  - destruct (c_is_connected s) eqn:E; [|done]. by destruct (inv_connected _ _ Hi E) as (_ & _ & ? & _).
  - intros Hs. destruct (c_is_closed s) eqn:E; [done|]. by pose proof (inv_fresh _ _ Hi Hs E).
Qed.

Lemma finish_stage g : g <> SNone -> g <> SDone ->
  triple (fun s k => inv s k /\ c_stage s = g) (update (set_c_stage SNone)) setting_up.
Proof.
  intros Hn Hd. apply triple_update. intros s k [Hi Hg].
  destruct (leave_stage _ _ _ Hi Hg Hn Hd) as (Hr & Hc & Hs). split_and!; try done. inv_auto.
Qed.

Lemma start_tls_keeps role : triple (fun s k => setting_up s k /\ c_client s = true) (start_tls role) inv.
Proof.
  intros s k [(Hi & Hr & Hc & Hs) Hcl]. exists k. unfold start_tls, andthen, update, emit. split; [done|].
  pose proof (inv_gone _ _ Hi) as Hg. rewrite Hcl in Hg. inv_auto.
Qed.

Lemma unless_aborted_keeps ec : keeps (unless_aborted react ec).
Proof. unfold unless_aborted. destruct (decide _); [apply triple_skip|apply handle_disconnect_keeps]. Qed.

Lemma on_resolve_keeps ec : triple setting_up (on_resolve react ec) inv.
Proof.
  apply triple_fun. intros s k Hp. unfold on_resolve. destruct (_ && _); (eexists; split; [reflexivity|]).
  - intros ? ? [-> ->]. exists k. split; [done|]. destruct Hp as (Hi & Hr & Hc & Hs). unfold andthen, update, emit. inv_auto.
  - eapply triple_pre; [|apply unless_aborted_keeps]. intros ? ? [-> ->]. by destruct Hp.
Qed.

Lemma on_connect_keeps ec : triple setting_up (on_connect react ec) inv.
Proof.
  apply triple_fun. intros s k Hp. unfold on_connect. destruct (_ && _) eqn:E; (eexists; split; [reflexivity|]).
  - apply andb_true_iff in E as [_ E]. eapply triple_pre; [|apply start_tls_keeps]. by intros ? ? [-> ->].
  - eapply triple_pre; [|apply unless_aborted_keeps]. intros ? ? [-> ->]. by destruct Hp.
Qed.

Lemma run_start_server_keeps : triple setting_up run_start_server inv.
Proof. apply triple_when; [|by intros s k []]. apply start_tls_keeps. Qed.

Lemma connect_keeps a : triple (fun s k => inv s k /\ c_is_closed s = false) (connect a) inv.
Proof.
  apply triple_fun. intros s k [Hi Hc]. unfold connect. destruct (decide _) as [Hs|]; [eexists|exists (emit AThrow)]; (split; [reflexivity|]).
  - intros ? ? [-> ->]. exists k. split; [done|]. pose proof (inv_fresh _ _ Hi Hs Hc) as Hg.
    unfold start_timeout, andthen, update, emit. inv_auto.
  - eapply triple_pre; [|by apply triple_quiet]. by intros ? ? [-> ->].
Qed.

Lemma start_server_keeps :
  triple (fun s k => inv s k /\ c_stage s = SNone /\ c_state s = NotConnected) start_server_handshake inv.
Proof.
  intros s k (Hi & Hg & Hs). exists k. split; [done|]. unfold start_server_handshake, start_timeout, andthen, update, emit.
  inv_auto.
Qed.

Lemma on_timeout_keeps ec : keeps (on_timeout react ec).
Proof.
  apply triple_fun. intros s k Hi. unfold on_timeout.
  assert (triple (fun s' k' => s' = s /\ k' = k) skip_act inv) as Hsk by (intros ? ? [-> ->]; by exists k).
  destruct ec as [e|]; [by exists skip_act|]. destruct (decide _); [by exists skip_act|].
  eexists. split; [reflexivity|]. eapply triple_pre; [|apply handle_disconnect_keeps]. by intros ? ? [-> ->].
Qed.

(** ** Every event keeps the invariant and the contract *)
Lemma handle_keeps e : triple (fun s k => inv s k /\ enabled e s = true) (handle cx exporter react e) inv.
Proof.
  assert (forall f, keeps f -> triple (fun s k => inv s k /\ enabled e s = true) f inv) as Hk.
  { intros f Hf. eapply triple_pre; [|exact Hf]. by intros s k []. }
  destruct e; cbn [handle].
  - eapply triple_pre; [|apply connect_keeps]. intros s k [Hi He]. split; [done|]. by apply negb_true_iff.
  - eapply triple_seq; [|apply on_resolve_keeps]. eapply triple_pre; [|by apply (finish_stage SResolve)].
    intros s k [Hi He%bool_decide_eq_true]. by split.
  - eapply triple_seq; [|apply on_connect_keeps]. eapply triple_pre; [|by apply (finish_stage STcp)].
    intros s k [Hi He%bool_decide_eq_true]. by split.
  - eapply triple_pre; [|apply start_server_keeps]. intros s k [Hi He]. cbn in He. apply andb_true_iff in He as [H1 H2].
    apply bool_decide_eq_true in H1, H2. by split.
  - eapply triple_seq; [|apply run_start_server_keeps]. eapply triple_pre; [|by apply (finish_stage SStartServer)].
    intros s k [Hi He%bool_decide_eq_true]. by split.
  - eapply triple_seq; [|apply on_tls_handshake_keeps]. apply triple_update. intros s k [Hi He%bool_decide_eq_true].
    destruct (leave_stage _ _ _ Hi He) as (Hr & Hc & Hs); [done..|].
    pose proof (inv_tls _ _ Hi (or_introl He)). split_and!; try done. inv_auto.
  - eapply triple_pre; [|apply on_frame_keeps]. by intros s k [].
  - apply Hk. destruct ec; [apply handle_disconnect_keeps|apply triple_skip].
  - apply Hk, on_sent_keeps.
  - apply Hk, on_timeout_keeps.
  - apply Hk, send_both.
  - apply Hk, do_send_keeps.
  - apply Hk, mark_closed_both.
  - apply Hk, do_close_both.
  - apply Hk, close_both.
  - apply Hk, run_close_later_keeps.
Qed.
End reacting_proofs.

(** ** Runs *)
Lemma run_contract (cx : context) (exporter : octets -> octets -> Z -> option octets) inputs s k s' log :
  inv s k -> run cx exporter inputs s = Some (s', log) -> exists k', accepts k log = Some k' /\ inv s' k'.
Proof.
  revert s k s' log; induction inputs as [|[e react] inputs IH]; intros s k s' log Hi; cbn [run].
  - intros [= <- <-]. by exists k.
  - destruct (enabled e s) eqn:He; [|done].
    destruct (handle_keeps react cx exporter e s k (conj Hi He)) as (k1 & E1 & Hi1).
    destruct (handle _ _ _ _ _) as [s1 a1]. cbn [fst snd] in *.
    destruct (run _ _ _ s1) as [[s2 a2]|] eqn:E; [|done]. intros [= <- <-].
    destruct (IH _ _ _ _ Hi1 E) as (k2 & E2 & Hi2). exists k2. split; [|done]. by rewrite (accepts_app _ _ _ _ _ E1).
Qed.

Lemma new_connection_inv data server : inv (new_connection data server) contract_start.
Proof. split; cbn; intros; try done. by destruct H1. Qed.

(** The contract state of an owner that was let go may as well be [PDown]. *)
Lemma gone_down_phase s k : gone s k -> inv s (Contract PDown (k_queue k) (k_out k)).
Proof.
  intros Hg. destruct (gone_down _ _ Hg). destruct Hg as [Hi Hc]. inv_auto.
Qed.

Lemma down_silent k log k' n : k_phase k = PDown -> accepts k log = Some k' -> ~ In (ANotify n) log.
Proof.
  revert k; induction log as [|a log IH]; intros k Hp; cbn; [by intros _ []|].
  destruct (contract_step k a) as [k1|] eqn:E; [|done]. intros Ha [->|Hin]; [|eapply IH; [|exact Ha|exact Hin]].
  - cbn in E. destruct n; rewrite Hp in E; cbn in E; try done; rewrite decide_False in E by naive_solver; done.
  - destruct a as [| | | |h| | |d|d| | | | | | | | | | |m]; cbn in E; rewrite ?Hp in E; try (injection E as <-; done); try done.
    + destruct h; [by injection E as <-|done].
    + destruct (k_queue k); [done|]. rewrite decide_False in E by naive_solver. done.
    + destruct m; cbn in E; try done; rewrite decide_False in E by naive_solver; done.
Qed.

(** The payloads of a log that were accepted, and those handed to the stream. *)
Definition enqueued (log : list action) : list octets :=
  omap (fun a => match a with AEnqueue d => Some d | _ => None end) log.
Definition sent (log : list action) : list octets :=
  omap (fun a => match a with ASendData d => Some d | _ => None end) log.

Lemma enqueued_cons a log : enqueued (a :: log) = (match a with AEnqueue d => [d] | _ => [] end) ++ enqueued log.
Proof. by destruct a. Qed.
Lemma sent_cons a log : sent (a :: log) = (match a with ASendData d => [d] | _ => [] end) ++ sent log.
Proof. by destruct a. Qed.

Lemma accepts_queue k log k' : accepts k log = Some k' -> k_queue k ++ enqueued log = sent log ++ k_queue k'.
Proof.
  revert k; induction log as [|a log IH]; intros k; cbn [Acts.accepts]; [intros [= ->]; by rewrite app_nil_r|].
  destruct (contract_step k a) as [k1|] eqn:E; [|done]. intros Ha%IH. rewrite enqueued_cons, sent_cons.
  destruct a as [| | | |h| | |d|d| | | | | | | | | | |m]; cbn [contract_step] in E; try (injection E as <-; exact Ha); try done.
  - destruct h; [by injection E as <-|]. destruct (decide _); [by injection E as <-|done].
  - destruct (k_queue k) as [|d' q]; [done|]. destruct (decide _) as [(? & <- & ?)|]; [|done]. injection E as <-.
    cbn [k_queue app] in *. by rewrite Ha.
  - injection E as <-. cbn [k_queue app] in *. by rewrite <- Ha, <- app_assoc.
  - destruct m; destruct (decide _); try done; by injection E as <-.
Qed.
End connection_proofs.

(** ** Which session a connection came up with *)
Section session.
Context `{Primitives, Mac}.

(** Acts that leave the handshake and what it decided alone. *)
Record calm_step (s : connection) (f : act) : Prop := Calm {
  calm_handshake : c_handshake (fst (f s)) = c_handshake s;
  calm_key : c_remote_key (fst (f s)) = c_remote_key s;
  calm_data : c_data (fst (f s)) = c_data s;
  calm_stage : c_stage (fst (f s)) = c_stage s;
  calm_connected : c_is_connected (fst (f s)) = true -> c_is_connected s = true;
  calm_rx : c_rx (fst (f s)) = Some RxHandshake -> c_rx s = Some RxHandshake;
  calm_log : ~ In (ANotify OnConnected) (snd (f s))
}.

Definition calm (f : act) : Prop := forall s, calm_step s f.

Lemma calm_seq f g : calm f -> calm g -> calm (f ;> g).
Proof.
  intros Hf Hg s. destruct (Hf s) as [F1 F2 F3 F4 F5 F6 F7]. unfold andthen.
  destruct (f s) as [s1 a1] eqn:Ef. cbn [fst snd] in *.
  destruct (Hg s1) as [G1 G2 G3 G4 G5 G6 G7]. destruct (g s1) as [s2 a2] eqn:Eg. cbn [fst snd] in *.
  split; unfold andthen; rewrite Ef, Eg; cbn [fst snd]; try congruence; try tauto.
  rewrite in_app_iff. tauto.
Qed.

Lemma calm_when p f : calm f -> calm (when p f).
Proof.
  intros Hf s. destruct (p s) eqn:E; [destruct (Hf s)|]; split; unfold when; rewrite E; try done. by intros [].
Qed.

Lemma calm_cases (f : act) : (forall s, exists g : act, f s = g s /\ calm g) -> calm f.
Proof.
  intros Hf s. destruct (Hf s) as (g & E & Hg). destruct (Hg s). split; by rewrite E.
Qed.

Lemma calm_skip : calm skip_act.
Proof. intros s. split; try done. by intros []. Qed.

Lemma calm_emit a : a <> ANotify OnConnected -> calm (emit a).
Proof. intros Ha s. split; try done. by intros [->|[]]. Qed.

Lemma calm_update (f : connection -> connection) :
  (forall s, c_handshake (f s) = c_handshake s /\ c_remote_key (f s) = c_remote_key s /\ c_data (f s) = c_data s /\
    c_stage (f s) = c_stage s /\ (c_is_connected (f s) = true -> c_is_connected s = true) /\
    (c_rx (f s) = Some RxHandshake -> c_rx s = Some RxHandshake)) -> calm (update f).
Proof. intros Hf s. destruct (Hf s) as (?&?&?&?&?&?). split; try done. by intros []. Qed.
End session.

Create HintDb calm.
#[export] Hint Resolve calm_seq calm_when calm_skip : calm.
#[export] Hint Extern 1 (calm (emit _)) => apply calm_emit; discriminate : calm.
#[export] Hint Extern 1 (calm (update _)) => apply calm_update; intros; cbn; intuition congruence : calm.

Section session_proofs.
Context `{Primitives, Mac}.

Lemma calm_disconnect_with tl e : (forall e, calm (tl e)) -> calm (disconnect_with tl e).
Proof.
  intros Ht. apply calm_cases. intros s. unfold disconnect_with. destruct (c_disconnected s).
  - exists skip_act. auto with calm.
  - eexists. split; [reflexivity|]. unfold stop_transport. auto 20 with calm.
Qed.

Lemma calm_do_close : calm do_close.
Proof. unfold do_close. apply calm_seq; [auto with calm|]. apply calm_seq; [auto with calm|]. apply calm_disconnect_with. auto with calm. Qed.

Lemma calm_close : calm close_on_strand.
Proof.
  apply calm_cases. intros s. unfold close_on_strand. destruct (c_is_closed s); [exists skip_act; auto with calm|].
  eexists. split; [reflexivity|]. apply calm_seq; [auto with calm|apply calm_do_close].
Qed.

Lemma calm_send d : calm (send d).
Proof. unfold send. auto with calm. Qed.

Lemma calm_run_calls cs : calm (run_calls cs).
Proof.
  induction cs as [|[|d|e] cs IH]; cbn; [auto with calm| | |]; (apply calm_seq; [|exact IH]).
  - apply calm_close.
  - apply calm_send.
  - unfold close_later. auto with calm.
Qed.

Section reacting_session.
Context (react : notification -> list user_call).

Lemma calm_tell n : n <> OnConnected -> calm (tell react n).
Proof. intros Hn. apply calm_seq; [apply calm_emit; congruence|apply calm_run_calls]. Qed.

Lemma calm_notify n : n <> OnConnected -> calm (notify react n).
Proof. intros Hn. by apply calm_when, calm_tell. Qed.

Lemma calm_disconnect e : calm (disconnect react e).
Proof. apply calm_disconnect_with. intros e'. by apply calm_tell. Qed.

Lemma calm_run_close_later e : calm (run_close_later react e).
Proof.
  apply calm_cases. intros s. unfold run_close_later. destruct (c_is_closed s); [exists skip_act; auto with calm|].
  eexists. split; [reflexivity|]. apply calm_seq; [auto with calm|apply calm_disconnect].
Qed.

Lemma calm_receive_data : calm receive_data.
Proof.
  apply calm_when. intros s. unfold receive_frame.
  destruct (c_rx s) eqn:E; split; rewrite ?E; cbn; rewrite ?E; try done; intuition congruence.
Qed.

Lemma calm_do_send : calm do_send.
Proof.
  apply calm_cases. intros s. unfold do_send. destruct (c_queue s) as [|d q]; [exists skip_act; auto with calm|].
  destruct (c_writing s || negb (c_is_connected s)); [exists skip_act; auto with calm|].
  exists (update (fun s => set_c_sending (Some (zlen d)) (set_c_queue q (set_c_writing true s))) ;> emit (ASendData d)).
  split; [done|]. auto with calm.
Qed.

Lemma calm_on_sent ec : calm (on_sent react ec).
Proof.
  apply calm_cases. intros s. unfold on_sent. destruct (c_sending s) as [n|]; [|exists skip_act; auto with calm].
  eexists. split; [reflexivity|]. apply calm_seq; [auto with calm|].
  destruct ec; [apply calm_disconnect|]. apply calm_seq; [by apply calm_notify|apply calm_do_send].
Qed.

Lemma calm_on_data_frame ec frame : calm (on_data_frame react ec frame).
Proof.
  destruct ec; [apply calm_disconnect|]. apply calm_seq; [by apply calm_notify|apply calm_receive_data].
Qed.

Lemma calm_deliver_inline more : calm (deliver_inline react more).
Proof.
  induction more as [|[ec frame] more IH]; cbn; [auto with calm|]. apply calm_seq; [|exact IH].
  apply calm_when, calm_seq; [|apply calm_on_data_frame]. apply calm_update. intros s. cbn. intuition congruence.
Qed.

Lemma calm_on_timeout ec : calm (on_timeout react ec).
Proof.
  apply calm_cases. intros s. unfold on_timeout. destruct ec; [exists skip_act; auto with calm|].
  destruct (decide _); [exists skip_act; auto with calm|]. eexists. split; [reflexivity|]. apply calm_disconnect.
Qed.

Lemma calm_unless_aborted ec : calm (unless_aborted react ec).
Proof. unfold unless_aborted. destruct (decide _); [auto with calm|apply calm_disconnect]. Qed.
End reacting_session.
End session_proofs.

Section authentication.
Context `{Primitives, Mac} (cx : context) (exporter : octets -> octets -> Z -> option octets).

(** The endpoint [h] was opened for this connection and driven with packets
    among [ins]. *)
Definition driven (s : connection) (ins : list (octets * octets * octets)) (h : handshake) (st : handshake_op_state) : Prop :=
  exists h0 hs, incl hs ins /\ drive cx exporter hs h0 = (h, st) /\
    (h0 = new_handshake role_server \/
     exists cid r, start cx cid (c_data s) (new_handshake role_client) = Ok (h0, r)).

(** [up]: the owner heard [OnConnected]. *)
Record session_inv (s : connection) (up : bool) (ins : list (octets * octets * octets)) : Prop := SessionInv {
  si_shaking : c_rx s = Some RxHandshake ->
    up = false /\ exists h, c_handshake s = Some h /\ driven s ins h in_progress;
  si_up : up = true -> c_stage s = SDone /\
    exists h, c_handshake s = Some h /\ driven s ins h succeeded /\ c_remote_key s = hs_remote_public_key h;
  si_connected : c_is_connected s = true -> up = true
}.

Lemma driven_data s s' ins ins' h st : c_data s' = c_data s -> incl ins ins' -> driven s ins h st -> driven s' ins' h st.
Proof.
  intros Hd Hin (h0 & hs & H1 & H2 & H3). exists h0, hs. rewrite Hd. split_and!; [|done|done].
  by eapply incl_tran.
Qed.

Lemma session_calm s f up ins : calm_step s f -> session_inv s up ins -> session_inv (fst (f s)) up ins.
Proof.
  intros [F1 F2 F3 F4 F5 F6 F7] [J1 J2 J3].
  assert (forall h st, driven s ins h st -> driven (fst (f s)) ins h st) as Hd
    by (intros h st; apply driven_data; [exact F3|apply incl_refl]).
  split.
  - intros Hr%F6. destruct (J1 Hr) as (Hu & h & Hh & Hd'). split; [done|]. exists h. rewrite F1. auto.
  - intros Hu. destruct (J2 Hu) as (Hs & h & Hh & Hd' & Hk). rewrite F1, F2, F4. split; [done|]. exists h. auto.
  - auto.
Qed.

Definition saw_connected (log : list action) : bool :=
  existsb (fun a => match a with ANotify OnConnected => true | _ => false end) log.

Lemma saw_connected_in log : saw_connected log = true <-> In (ANotify OnConnected) log.
Proof.
  unfold saw_connected. rewrite existsb_exists. split.
  - intros (a & Hin & Ha). destruct a; try done. by destruct n.
  - intros Hin. by exists (ANotify OnConnected).
Qed.

Lemma saw_connected_app l1 l2 : saw_connected (l1 ++ l2) = saw_connected l1 || saw_connected l2.
Proof. apply existsb_app. Qed.

Lemma calm_saw s f : calm_step s f -> saw_connected (snd (f s)) = false.
Proof. intros [_ _ _ _ _ _ Hl]. apply not_true_iff_false. by rewrite saw_connected_in. Qed.

(** What an act does to the session. *)
Definition session_step (up : bool) (ins : list (octets * octets * octets)) (s : connection) (f : act) : Prop :=
  session_inv (fst (f s)) (up || saw_connected (snd (f s))) ins.

Lemma session_step_calm up ins s f : calm f -> session_inv s up ins -> session_step up ins s f.
Proof.
  intros Hf Hj. unfold session_step. rewrite (calm_saw s f) by apply Hf. rewrite orb_false_r. by apply session_calm.
Qed.

Lemma session_step_seq up ins s f g :
  calm_step s f -> session_step up ins (fst (f s)) g -> session_step up ins s (f ;> g).
Proof.
  intros Hf Hg. pose proof (calm_saw _ _ Hf) as Hn. unfold session_step, andthen in *.
  destruct (f s) as [s1 a1]. cbn [fst snd] in *. destruct (g s1) as [s2 a2]. cbn [fst snd] in *.
  by rewrite saw_connected_app, Hn.
Qed.

Section reacting_authentication.
Context (react : notification -> list user_call).

Lemma become_connected_unfold more s :
  c_client s = true ->
  let s1 := set_c_cap max_frame_size (set_c_is_connected true (set_c_state Connected
              (set_c_remote_key (c_handshake s ≫= hs_remote_public_key) s))) in
  let rest := run_calls (react OnConnected) ;> receive_data ;> deliver_inline react more ;> do_send in
  become_connected react more s = (fst (rest s1), ACancelTimer :: ANotify OnConnected :: snd (rest s1)).
Proof.
  intros Hc s1 rest. subst s1 rest. unfold become_connected, notify, tell, andthen, when, emit, update. cbn. rewrite Hc. cbn.
  destruct (run_calls _ _) as [s2 a2]. destruct (receive_data s2) as [s3 a3]. destruct (deliver_inline _ _ s3) as [s4 a4].
  by destruct (do_send s4) as [s5 a5].
Qed.

Lemma become_connected_session up ins more s h :
  c_client s = true -> c_rx s = None -> c_stage s = SDone -> c_handshake s = Some h -> driven s ins h succeeded ->
  session_step up ins s (become_connected react more).
Proof.
  intros Hc Hr Hs Hh Hd. unfold session_step. rewrite (become_connected_unfold more s Hc). cbn [fst snd].
  replace (up || _) with true by (by rewrite orb_comm).
  assert (calm (run_calls (react OnConnected) ;> receive_data ;> deliver_inline react more ;> do_send)) as Hrest.
  { apply calm_seq; [apply calm_run_calls|]. apply calm_seq; [apply calm_receive_data|].
    apply calm_seq; [apply calm_deliver_inline|apply calm_do_send]. }
  apply session_calm; [apply Hrest|].
  - split; cbn; [congruence| |done]. intros _. split; [done|]. exists h. rewrite Hh. split_and!; [done| |done].
    by eapply driven_data; [|apply incl_refl|exact Hd].
Qed.

Lemma advance_handshake_session ins res more s h :
  session_inv s false ins -> (hr_state res = succeeded -> c_client s = true) -> c_rx s = None -> c_stage s = SDone ->
  c_handshake s = Some h -> (hr_state res <> failed -> driven s ins h (hr_state res)) ->
  session_step false ins s (advance_handshake react res more).
Proof.
  intros Hj Hc Hr Hs Hh Hd. unfold advance_handshake. destruct (hr_state res) eqn:E.
  3: { apply session_step_calm; [apply calm_disconnect|done]. }
  all: assert (calm_step s (when (fun _ => negb (zlen (hr_packet res) =? 0)) (emit (ASendHandshake (hr_packet res))))) as Ha
    by (apply calm_when, calm_emit; discriminate).
  all: apply session_step_seq; [exact Ha|]; set (w := fst _);
    assert (w = s) as -> by (subst w; unfold when; by destruct (negb _)); clear Ha.
  - unfold session_step, receive_frame. rewrite Hr. cbn. destruct Hj as [J1 J2 J3]. split; cbn; [|done|done].
    intros _. split; [done|]. exists h. split; [done|]. eapply driven_data; [|apply incl_refl|by apply Hd]. done.
  - by eapply become_connected_session; [apply Hc| | |exact Hh|apply Hd].
Qed.

Lemma drive_one sid nonce data h x h' :
  handle_packet cx exporter sid nonce data h = (Ok x, h') -> drive cx exporter [(sid, nonce, data)] h = (h', hr_state x).
Proof. intros E. cbn [drive]. rewrite E. by destruct (hr_state x). Qed.

Lemma on_handshake_frame_session ins sid nonce frame more s h :
  session_inv s false ins -> c_client s = true -> c_rx s = None -> c_stage s = SDone ->
  c_handshake s = Some h -> driven s ins h in_progress ->
  session_step false ((sid, nonce, frame) :: ins) s (on_handshake_frame cx exporter react None sid nonce frame more).
Proof.
  intros Hj Hc Hr Hs Hh Hd. unfold on_handshake_frame.
  assert (session_inv s false ((sid, nonce, frame) :: ins)) as Hj'.
  { destruct Hj as [J1 J2 J3]. split; [congruence|done|done]. }
  unfold session_step. rewrite Hh. destruct (handle_packet cx exporter sid nonce frame h) as [r h'] eqn:E.
  set (s' := set_c_handshake (Some h') s).
  rewrite andthen_fst, andthen_snd. cbn [update fst snd app].
  change (session_step false ((sid, nonce, frame) :: ins) s' (advance_handshake react
    (match r with Ok res => res | Throw _ => hs_error end) more)).
  apply (advance_handshake_session _ _ _ _ h'); try done.
  - split; cbn; [congruence|done|]. apply Hj.
  - destruct r as [x|e]; [|done]. intros _. destruct Hd as (h0 & hs & H1 & H2 & H3).
    exists h0, (hs ++ [(sid, nonce, frame)]). split_and!; [|rewrite (drive_snoc _ _ _ _ _ _ _ _ H2); by apply drive_one|done].
    intros y. rewrite in_app_iff. intros [Hy|[<-|[]]]; [right; by apply H1|by left].
Qed.

(** The packets an event brings in. *)
Definition heard (e : event) : list (octets * octets * octets) :=
  match e with EFrame None sid nonce frame _ => [(sid, nonce, frame)] | _ => [] end.

Lemma session_more s up ins ins' : incl ins ins' -> session_inv s up ins -> session_inv s up ins'.
Proof.
  intros Hin [J1 J2 J3]. assert (forall h st, driven s ins h st -> driven s ins' h st) as Hd
    by (intros h st; by apply driven_data).
  split; [| |done].
  - intros Hr. destruct (J1 Hr) as (Hu & h & Hh & Hh'). split; [done|]. exists h. auto.
  - intros Hu. destruct (J2 Hu) as (Hs & h & Hh & Hh' & Hk). split; [done|]. exists h. auto.
Qed.

Lemma on_frame_session up ins ec sid nonce frame more s k :
  inv s k -> enabled (EFrame ec sid nonce frame more) s = true -> session_inv s up ins ->
  session_step up (heard (EFrame ec sid nonce frame more) ++ ins) s (on_frame cx exporter react ec sid nonce frame more).
Proof.
  intros Hi He Hj. apply andb_true_iff in He as [He1 He2]. apply bool_decide_eq_true in He1.
  apply (session_more _ _ _ (heard (EFrame ec sid nonce frame more) ++ ins)) in Hj as Hj'; [|by apply incl_appr, incl_refl].
  assert (calm_step s (update (set_c_rx None))) as Hu.
  { split; try done; by intros []. }
  unfold session_step, on_frame. destruct (c_rx s) as [h|] eqn:Er; [|done].
  pose proof (inv_rx_stage _ _ Hi) as Hst. rewrite Er in Hst. specialize (Hst ltac:(done)).
  pose proof (session_calm _ _ _ _ Hu Hj) as Hj2. pose proof (session_calm _ _ _ _ Hu Hj') as Hj3.
  destruct h.
  - destruct (si_shaking _ _ _ Hj Er) as (-> & h & Hh & Hd). destruct ec as [e|].
    + apply session_step_seq; [exact Hu|]. apply session_step_calm; [apply (calm_disconnect react)|exact Hj3].
    + apply session_step_seq; [exact Hu|]. apply (on_handshake_frame_session _ _ _ _ _ _ h); try done.
      cbn. apply (rx_client s k); [done|congruence|]. by apply negb_true_iff.
  - apply session_step_seq; [exact Hu|]. apply session_step_calm; [apply calm_on_data_frame|exact Hj3].
Qed.

Lemma session_off s ins : c_rx s <> Some RxHandshake -> c_is_connected s = false -> session_inv s false ins.
Proof. intros Hr Hc. by split; intros; congruence. Qed.

Lemma on_tls_handshake_session ins ec cid s :
  session_inv s false ins -> c_rx s = None -> c_is_connected s = false -> c_stage s = SDone ->
  session_step false ins s (on_tls_handshake cx react ec cid).
Proof.
  intros Hj Hr Hc Hs. unfold on_tls_handshake.
  destruct ec as [e|]; [apply session_step_calm; [apply (calm_disconnect react)|done]|].
  apply session_step_seq; [by split; try done; intros []|]. set (s1 := fst _).
  assert (forall h s2, s2 = set_c_handshake (Some h) s1 -> session_inv s2 false ins) as Hoff.
  { intros h s2 ->. by apply session_off; cbn; [rewrite Hr|]. }
  unfold session_step. replace (c_role s1) with (c_role s) by done. replace (c_data s1) with (c_data s) by done.
  destruct (c_role s) eqn:Ero.
  - destruct (start _ _ _ _) as [[h' res]|e] eqn:E.
    + pose proof (start_in_progress _ _ _ _ _ _ E) as Hp.
      rewrite andthen_fst, andthen_snd. cbn [update fst snd app].
      change (session_step false ins (set_c_handshake (Some h') s1) (advance_handshake react res [])).
      apply (advance_handshake_session _ _ _ _ h'); try done; [by eapply Hoff|congruence|].
      intros _. rewrite Hp. exists h', []. split_and!; [by intros ? []|done|]. right. by exists cid, res.
    + cbn. by eapply Hoff.
  - rewrite andthen_fst, andthen_snd. cbn [update fst snd app].
    change (session_step false ins (set_c_handshake (Some (new_handshake role_server)) s1) (receive_frame RxHandshake)).
    unfold session_step, receive_frame. cbn. rewrite Hr. cbn. split; cbn; [|done|congruence].
    intros _. split; [done|]. eexists. split; [reflexivity|]. exists (new_handshake role_server), [].
    split_and!; [by intros ? []|done|by left].
Qed.

(** Acts before any handshake: nothing waits for a frame, nobody is told that
    the connection is up. *)
Definition mild (f : act) : Prop := forall s,
  c_rx s = None -> c_is_connected s = false ->
  c_rx (fst (f s)) = None /\ c_is_connected (fst (f s)) = false /\ saw_connected (snd (f s)) = false.

Lemma mild_seq f g : mild f -> mild g -> mild (f ;> g).
Proof.
  intros Hf Hg s Hr Hc. destruct (Hf s Hr Hc) as (F1 & F2 & F3). unfold andthen. destruct (f s) as [s1 a1]. cbn [fst snd] in *.
  destruct (Hg s1 F1 F2) as (G1 & G2 & G3). destruct (g s1) as [s2 a2]. cbn [fst snd] in *.
  by rewrite saw_connected_app, F3.
Qed.

Lemma mild_disconnect e : mild (disconnect react e).
Proof.
  intros s Hr Hc. destruct (calm_disconnect react e s) as [_ _ _ _ F5 _ F7]. split_and!.
  - unfold disconnect, disconnect_with. destruct (c_disconnected s); [done|].
    assert (same_rx stop_transport) as Hs.
    { unfold stop_transport. by repeat (apply same_rx_seq || apply same_rx_when). }
    assert (same_rx (tell react (OnDisconnected e))) as Ht by (apply same_rx_seq; [done|apply run_calls_same_rx]).
    rewrite <- Hr. clear Hr Hc F5 F7. revert s.
    apply same_rx_seq; [exact Hs|]. apply same_rx_seq; [|done]. apply same_rx_when, same_rx_seq; [done|].
    by apply same_rx_seq, same_rx_when, same_rx_seq.
  - apply not_true_iff_false. intros Hx. specialize (F5 Hx). congruence.
  - apply not_true_iff_false. by rewrite saw_connected_in.
Qed.

Lemma mild_fun (f : act) : (forall s, exists g : act, f s = g s /\ mild g) -> mild f.
Proof. intros Hf s Hr Hc. destruct (Hf s) as (g & -> & Hg). by apply Hg. Qed.

Lemma mild_unless_aborted ec : mild (unless_aborted react ec).
Proof. unfold unless_aborted. destruct (decide _); [by intros s|apply mild_disconnect]. Qed.

Lemma mild_start_tls role : mild (start_tls role).
Proof. by intros s Hr Hc. Qed.

Lemma mild_on_resolve ec : mild (on_resolve react ec).
Proof.
  apply mild_fun. intros s. unfold on_resolve. destruct (_ && _); (eexists; split; [reflexivity|]); [|apply mild_unless_aborted].
  by intros s' Hr Hc.
Qed.

Lemma mild_on_connect ec : mild (on_connect react ec).
Proof.
  apply mild_fun. intros s. unfold on_connect. destruct (_ && _); (eexists; split; [reflexivity|]);
    [apply mild_start_tls|apply mild_unless_aborted].
Qed.

Lemma setup_session up ins s k g f :
  inv s k -> session_inv s up ins -> c_stage s = g -> g <> SNone -> g <> SDone -> mild f ->
  session_step up ins s (update (set_c_stage SNone) ;> f).
Proof.
  intros Hi Hj Hg Hn Hd Hf. destruct (leave_stage _ _ _ Hi Hg Hn Hd) as (Hr & Hc & _).
  assert (up = false) as -> by (destruct up; [|done]; destruct (si_up _ _ _ Hj eq_refl); congruence).
  destruct (Hf (set_c_stage SNone s) Hr Hc) as (F1 & F2 & F3). unfold session_step. rewrite andthen_fst, andthen_snd.
  cbn [update fst snd app]. rewrite F3. by apply session_off; [rewrite F1|].
Qed.

Lemma connect_session up ins s k a :
  inv s k -> session_inv s up ins -> c_is_closed s = false -> session_step up ins s (connect a).
Proof.
  intros Hi Hj Hcl. unfold session_step, connect. destruct (decide _) as [Hs|Hs]; cbn; [|by rewrite orb_false_r].
  pose proof (inv_fresh _ _ Hi Hs Hcl) as Hg.
  assert (up = false) as -> by (destruct up; [|done]; destruct (si_up _ _ _ Hj eq_refl); congruence).
  apply session_off; cbn.
  - intros Hr. assert (c_rx s <> None) as Hx by congruence. pose proof (inv_rx_stage _ _ Hi Hx). congruence.
  - destruct (c_is_connected s) eqn:E; [|done]. destruct (inv_connected _ _ Hi E) as (_ & ? & _). congruence.
Qed.

Lemma handle_session e up ins s k :
  inv s k -> enabled e s = true -> session_inv s up ins ->
  session_step up (heard e ++ ins) s (handle cx exporter react e).
Proof.
  intros Hi He Hj.
  assert (forall f, calm f -> session_step up ins s f) as Hk by (intros f Hf; by apply session_step_calm).
  destruct e; cbn [handle heard app].
  - apply (connect_session _ _ _ k); [done|done|]. by apply negb_true_iff.
  - apply bool_decide_eq_true in He. by apply (setup_session _ _ _ k SResolve), mild_on_resolve.
  - apply bool_decide_eq_true in He. by apply (setup_session _ _ _ k STcp), mild_on_connect.
  - apply andb_true_iff in He as [He1%bool_decide_eq_true He2%bool_decide_eq_true].
    assert (up = false) as -> by (destruct up; [|done]; destruct (si_up _ _ _ Hj eq_refl); congruence).
    destruct Hj as [J1 J2 J3]. unfold session_step. by split.
  - apply bool_decide_eq_true in He. apply (setup_session _ _ _ k SStartServer); try done.
    intros s' Hr Hc. unfold run_start_server, when. by destruct (c_client s').
  - apply bool_decide_eq_true in He. destruct (leave_stage _ _ _ Hi He) as (Hr & Hc & _); [done..|].
    assert (up = false) as -> by (destruct up; [|done]; destruct (si_up _ _ _ Hj eq_refl); congruence).
    pose proof (on_tls_handshake_session ins ec cid (set_c_stage SDone s)) as Hs.
    unfold session_step, andthen, update in *. destruct (on_tls_handshake _ _ _ _ _) as [s2 a2]. cbn [fst snd app] in *.
    apply Hs; try done. apply session_off; cbn; [by rewrite Hr|done].
  - by apply (on_frame_session _ _ _ _ _ _ _ _ k).
  - apply Hk. destruct ec; [apply (calm_disconnect react)|apply calm_skip].
  - apply Hk, calm_on_sent.
  - apply Hk, calm_on_timeout.
  - apply Hk, calm_send.
  - apply Hk, calm_do_send.
  - apply Hk, calm_update. intros. cbn. tauto.
  - apply Hk, calm_do_close.
  - apply Hk, calm_close.
  - apply Hk, calm_run_close_later.
Qed.
End reacting_authentication.

Definition heard_in (inputs : list input) : list (octets * octets * octets) := concat (map (fun i => heard (fst i)) inputs).

Lemma run_session inputs s k up ins s' log :
  inv s k -> session_inv s up ins -> run cx exporter inputs s = Some (s', log) ->
  session_inv s' (up || saw_connected log) (heard_in inputs ++ ins).
Proof.
  revert s k up ins s' log; induction inputs as [|[e react] inputs IH]; intros s k up ins s' log Hi Hj; cbn [run].
  - intros [= <- <-]. cbn. by rewrite orb_false_r.
  - destruct (enabled e s) eqn:He; [|done].
    destruct (handle_keeps react cx exporter e s k (conj Hi He)) as (k1 & _ & Hi1).
    pose proof (handle_session react e up ins s k Hi He Hj) as Hj1. unfold session_step in Hj1.
    destruct (handle _ _ _ _ _) as [s1 a1]. cbn [fst snd] in *.
    destruct (run _ _ _ s1) as [[s2 a2]|] eqn:E; [|done]. intros [= <- <-].
    pose proof (IH _ _ _ _ _ _ Hi1 Hj1 E) as Hj2. rewrite saw_connected_app, orb_assoc.
    eapply session_more; [|exact Hj2]. unfold heard_in. cbn [map concat fst]. intros y. rewrite !in_app_iff. tauto.
Qed.
End authentication.

(** [do_close] itself tells the owner nothing. *)
Lemma do_close_silent `{Primitives, Mac} s n : ~ In (ANotify n) (snd (do_close s)).
Proof.
  unfold do_close, disconnect_with, stop_transport, andthen, when, update, emit, skip_act.
  destruct s as [st conn clo wr disc ro cli srv dat hs key q tls sock stg tlsc cap rx snd0].
  destruct disc, cli, srv, tls, sock; cbn; naive_solver.
Qed.

(** ** Properties *)

(** C10: the contract with the owner.  Whatever happens on the network, in
    whatever order completions, timers and calls run on the strand, and
    whatever the owner does inside its callbacks, it hears [on_connected] at
    most once and before any transfer, [on_disconnected] at most once and last,
    nothing is sent or received before the connection is up, each frame goes
    out only after the completion of the one before was reported, carries the
    oldest payload queued, and is reported with its size; two receives never
    overlap. *)
Theorem owner_contract `{Primitives, Mac} (cx : context) (exporter : octets -> octets -> Z -> option octets)
  (data : handshake_data) (server : bool) (inputs : list input) (s : connection) (log : list action)
  (Hrun : run cx exporter inputs (new_connection data server) = Some (s, log)) :
  exists k, accepts contract_start log = Some k /\ k_queue k = c_queue s /\
    (c_client s = true -> k_phase k = if c_is_connected s then PUp else PIdle).
Proof.
  destruct (run_contract cx exporter _ _ _ _ _ (new_connection_inv data server) Hrun) as (k & Ha & Hi).
  exists k. split; [done|]. by destruct Hi.
Qed.

(** C9: a connection that came up is authenticated.  When the owner heard
    [on_connected], the handshake of this connection had succeeded, the key it
    reports is the one that handshake found, and among the frames the
    connection received are the credentials that prove the peer, for the host
    that was dialled. *)
Theorem connected_is_authenticated `{Primitives, Mac} (cx : context) (exporter : octets -> octets -> Z -> option octets)
  (data : handshake_data) (server : bool) (inputs : list input) (s : connection) (log : list action)
  (Hrun : run cx exporter inputs (new_connection data server) = Some (s, log))
  (Hup : In (ANotify OnConnected) log) :
  exists h k, c_handshake s = Some h /\ c_remote_key s = hs_remote_public_key h /\ hs_concrete h = Some k /\
    peer_authenticated cx exporter h (packets (heard_in inputs)) k /\
    (hs_role h = role_client -> host_restriction (hs_requested h) = host_restriction (c_data s)).
Proof.
  assert (session_inv cx exporter (new_connection data server) false []) as Hj by by split.
  pose proof (run_session cx exporter _ _ _ _ _ _ _ (new_connection_inv data server) Hj Hrun) as [_ J _].
  apply saw_connected_in in Hup. rewrite Hup, app_nil_r in J.
  destruct (J eq_refl) as (_ & h & Hh & (h0 & hs & Hin & Hd & Hopen) & Hk).
  assert (opening cx h0) as Ho by (destruct Hopen as [->|(cid & r & ?)]; [by left|right; eauto]).
  destruct (drive_authenticated _ _ _ _ _ Ho Hd) as ((k & Hc & Hp) & Hr & Hrole).
  exists h, k. split_and!; [done|done|done| |].
  - eapply peer_authenticated_mono; [apply same_session_refl| |exact Hp]. unfold packets. by apply incl_map.
  - intros Hcl. rewrite Hcl in Hrole. destruct Hrole as [_ ->].
    destruct Hopen as [->|(cid & r & Hst)]; [cbn in Hr; congruence|].
    unfold start in Hst. apply rbind_ok in Hst as (bs & _ & [= <- _]). done.
Qed.

(** silence after the close.  Once [close()] has run on the strand the
    owner is never called again, so it may be destroyed. *)
Theorem close_silences `{Primitives, Mac} (cx : context) (exporter : octets -> octets -> Z -> option octets)
  (data : handshake_data) (server : bool) (before after : list input) (s1 s2 s3 : connection) (log1 log2 log3 : list action)
  (react : notification -> list user_call) (n : notification)
  (Hbefore : run cx exporter before (new_connection data server) = Some (s1, log1))
  (Hclose : handle cx exporter react ERunClose s1 = (s2, log2))
  (Hafter : run cx exporter after s2 = Some (s3, log3)) :
  ~ In (ANotify n) (log2 ++ log3).
Proof.
  destruct (run_contract cx exporter _ _ _ _ _ (new_connection_inv data server) Hbefore) as (k1 & _ & Hi1).
  cbn [handle] in Hclose. destruct (do_close_gone _ _ Hi1) as (k2 & _ & Hg).
  pose proof (do_close_silent s1 n) as Hs. rewrite Hclose in Hg, Hs. cbn [fst snd] in *.
  destruct (run_contract cx exporter _ _ _ _ _ (gone_down_phase _ _ Hg) Hafter) as (k3 & Ha & _).
  rewrite in_app_iff. intros [?|Hin]; [done|]. refine (down_silent _ _ _ _ _ Ha Hin). done.
Qed.

(** payloads leave in the order they were given.  The payloads handed to
    [send] are the frames sent so far followed by the queue. *)
Theorem payloads_in_order `{Primitives, Mac} (cx : context) (exporter : octets -> octets -> Z -> option octets)
  (data : handshake_data) (server : bool) (inputs : list input) (s : connection) (log : list action)
  (Hrun : run cx exporter inputs (new_connection data server) = Some (s, log)) :
  enqueued log = sent log ++ c_queue s.
Proof.
  destruct (run_contract cx exporter _ _ _ _ _ (new_connection_inv data server) Hrun) as (k & Ha & Hi).
  apply accepts_queue in Ha. by rewrite (inv_queue _ _ Hi) in Ha.
Qed.

(** small frames until the peer is authenticated.  While the connection
    waits for a handshake frame the reader refuses more than 256 KiB; the full
    frame size holds once it is up. *)
Theorem handshake_frames_small `{Primitives, Mac} (cx : context) (exporter : octets -> octets -> Z -> option octets)
  (data : handshake_data) (server : bool) (inputs : list input) (s : connection) (log : list action)
  (Hrun : run cx exporter inputs (new_connection data server) = Some (s, log)) :
  (c_rx s = Some RxHandshake -> c_cap s = max_handshake_frame_size) /\
  (c_is_connected s = true -> c_cap s = max_frame_size).
Proof.
  destruct (run_contract cx exporter _ _ _ _ _ (new_connection_inv data server) Hrun) as (k & _ & []). by split.
Qed.

(** ** A concrete connection: the server's end of the shared-secret handshake *)

#[local] Existing Instance demo.
#[local] Existing Instance demo_mac.

Definition demo_still (n : notification) : list user_call := [].
(** The owner sends two payloads when the connection is up. *)
Definition demo_eager (n : notification) : list user_call :=
  match n with OnConnected => [USend [7]; USend [8; 9]] | _ => [] end.

Definition demo_up : list input :=
  [(EStartServer, demo_still); (ERunStartServer, demo_still); (ETlsHandshake None [], demo_still);
   (EFrame None demo_sid [] demo_hello [], demo_still); (EFrame None [] [] demo_auth_ss [(None, [42])], demo_eager);
   (ERunSend, demo_still)].

Definition demo_new : connection := new_connection (new_handshake_data tag_public_key) true.
Definition demo_state (inputs : list input) : connection :=
  match run demo_server demo_exporter inputs demo_new with Some (s, _) => s | None => demo_new end.
Definition demo_log (inputs : list input) : list action :=
  match run demo_server demo_exporter inputs demo_new with Some (_, log) => log | None => [] end.

Lemma demo_up_runs : run demo_server demo_exporter demo_up demo_new = Some (demo_state demo_up, demo_log demo_up).
Proof. vm_compute. reflexivity. Qed.

Lemma owner_contract_witness : exists k, accepts contract_start (demo_log demo_up) = Some k /\ k_phase k = PUp.
Proof.
  destruct (owner_contract demo_server demo_exporter _ _ _ _ _ demo_up_runs) as (k & Ha & _ & Hp).
  exists k. split; [exact Ha|]. rewrite Hp; vm_compute; reflexivity.
Defined.

Lemma connected_is_authenticated_witness :
  exists h k, c_handshake (demo_state demo_up) = Some h /\ hs_concrete h = Some k /\
    peer_authenticated demo_server demo_exporter h (packets (heard_in demo_up)) k.
Proof.
  destruct (connected_is_authenticated demo_server demo_exporter _ _ _ _ _ demo_up_runs) as (h & k & H1 & _ & H3 & H4 & _).
  - vm_compute. tauto.
  - exists h, k. by split_and!.
Defined.

Definition demo_closed : connection := fst (do_close (demo_state demo_up)).

Lemma close_silences_witness : ~ In (ANotify (OnReceived [42])) (snd (do_close (demo_state demo_up)) ++ []).
Proof.
  apply (close_silences demo_server demo_exporter (new_handshake_data tag_public_key) true demo_up []
           (demo_state demo_up) demo_closed demo_closed (demo_log demo_up) _ [] demo_still).
  - exact demo_up_runs.
  - cbn [handle]. unfold demo_closed. by destruct (do_close _).
  - reflexivity.
Defined.

Lemma payloads_in_order_witness : enqueued (demo_log demo_up) = [[7]; [8; 9]] /\ sent (demo_log demo_up) = [[7]].
Proof.
  pose proof (payloads_in_order demo_server demo_exporter _ _ _ _ _ demo_up_runs) as H.
  split; [rewrite H|]; vm_compute; reflexivity.
Defined.

Lemma handshake_frames_small_witness : c_cap (demo_state demo_up) = max_frame_size.
Proof.
  apply (handshake_frames_small demo_server demo_exporter _ _ _ _ _ demo_up_runs). vm_compute. reflexivity.
Defined.
