(* ===== verification/TlsStream.v ===== *)
(** The TLS stream over a TCP socket: [network/encryption/tls_stream.cpp].

    The channel is Botan's.  A call into it runs callbacks of the stream in some
    order and then returns or throws: what it does is an argument of the step
    ([botan_call]), so the theorems hold for every channel.  The user's
    completion handlers are trees of calls: what a handler calls when it runs,
    and what the handlers given there call in turn.  A handler runs inside the
    call that delivers its data or later, from the strand's queue of posted
    handlers. *)

From stdpp Require Import base list numbers strings.
From Stdlib Require Import ZArith Lia.
From S2P Require Import Prelude Acts Framing.
Open Scope Z_scope.

(** ** Botan's channel *)

(** The callbacks of [received_data]; the other calls only emit records. *)
Inductive botan_call : Type :=
| Emit (data : octets)
| RecordReceived (data : octets)
| CloseNotify
| FatalAlert
| Warning
| Established
| Activated.

Record botan_run : Type := BotanRun { br_calls : list botan_call; br_throws : bool }.

(** ** Calls of the user *)

(** [id] names the call; [calls] is what its handler does.  [emits] and
    [throws] are what the channel does in the call, [writable] whether it is
    open for writing. *)
Inductive call : Type :=
| CHandshake (id : Z) (calls : list call) (emits : list octets) (throws : bool)
| CRead (id : Z) (size : nat) (calls : list call)
| CWrite (id : Z) (data : octets) (calls : list call) (emits : list octets) (throws : bool)
| CShutdown (id : Z) (calls : list call) (writable : bool) (emits : list octets)
| CClose.

Record handler : Type := Handler { h_id : Z; h_calls : list call }.

(** [out_item] *)
Record out_item : Type := OutItem { oi_data : octets; oi_handler : option handler; oi_user_bytes : Z }.

Inductive handler_kind : Type := KHandshake | KRead | KWrite | KShutdown.

(** A handler in the strand's queue with its arguments. *)
Record posted : Type := Posted { p_kind : handler_kind; p_handler : handler; p_ec : option error_code; p_bytes : Z }.

(** ** The stream *)

Record tls_stream : Type := TlsStream {
  ts_channel : bool;
  ts_handshake : option handler;
  ts_shutdown : option handler;
  ts_pending : option (Z * handler);
  ts_plain_in : octets;
  ts_plain_pos : Z;
  ts_queue : list out_item;
  ts_error : option error_code;
  ts_reading : bool;
  ts_writing : bool;
  ts_activated : bool;
  ts_peer_closed : bool;
  ts_closing : bool;
  ts_closed : bool;
  ts_posted : list posted
}.

Definition set_ts_channel (v : bool) (s : tls_stream) : tls_stream :=
  TlsStream v (ts_handshake s) (ts_shutdown s) (ts_pending s) (ts_plain_in s) (ts_plain_pos s) (ts_queue s)
    (ts_error s) (ts_reading s) (ts_writing s) (ts_activated s) (ts_peer_closed s) (ts_closing s) (ts_closed s)
    (ts_posted s).
Definition set_ts_handshake (v : option handler) (s : tls_stream) : tls_stream :=
  TlsStream (ts_channel s) v (ts_shutdown s) (ts_pending s) (ts_plain_in s) (ts_plain_pos s) (ts_queue s) (ts_error s)
    (ts_reading s) (ts_writing s) (ts_activated s) (ts_peer_closed s) (ts_closing s) (ts_closed s) (ts_posted s).
Definition set_ts_shutdown (v : option handler) (s : tls_stream) : tls_stream :=
  TlsStream (ts_channel s) (ts_handshake s) v (ts_pending s) (ts_plain_in s) (ts_plain_pos s) (ts_queue s)
    (ts_error s) (ts_reading s) (ts_writing s) (ts_activated s) (ts_peer_closed s) (ts_closing s) (ts_closed s)
    (ts_posted s).
Definition set_ts_pending (v : option (Z * handler)) (s : tls_stream) : tls_stream :=
  TlsStream (ts_channel s) (ts_handshake s) (ts_shutdown s) v (ts_plain_in s) (ts_plain_pos s) (ts_queue s)
    (ts_error s) (ts_reading s) (ts_writing s) (ts_activated s) (ts_peer_closed s) (ts_closing s) (ts_closed s)
    (ts_posted s).
Definition set_ts_plain_in (v : octets) (s : tls_stream) : tls_stream :=
  TlsStream (ts_channel s) (ts_handshake s) (ts_shutdown s) (ts_pending s) v (ts_plain_pos s) (ts_queue s)
    (ts_error s) (ts_reading s) (ts_writing s) (ts_activated s) (ts_peer_closed s) (ts_closing s) (ts_closed s)
    (ts_posted s).
Definition set_ts_plain_pos (v : Z) (s : tls_stream) : tls_stream :=
  TlsStream (ts_channel s) (ts_handshake s) (ts_shutdown s) (ts_pending s) (ts_plain_in s) v (ts_queue s) (ts_error s)
    (ts_reading s) (ts_writing s) (ts_activated s) (ts_peer_closed s) (ts_closing s) (ts_closed s) (ts_posted s).
Definition set_ts_queue (v : list out_item) (s : tls_stream) : tls_stream :=
  TlsStream (ts_channel s) (ts_handshake s) (ts_shutdown s) (ts_pending s) (ts_plain_in s) (ts_plain_pos s) v
    (ts_error s) (ts_reading s) (ts_writing s) (ts_activated s) (ts_peer_closed s) (ts_closing s) (ts_closed s)
    (ts_posted s).
Definition set_ts_error (v : option error_code) (s : tls_stream) : tls_stream :=
  TlsStream (ts_channel s) (ts_handshake s) (ts_shutdown s) (ts_pending s) (ts_plain_in s) (ts_plain_pos s)
    (ts_queue s) v (ts_reading s) (ts_writing s) (ts_activated s) (ts_peer_closed s) (ts_closing s) (ts_closed s)
    (ts_posted s).
Definition set_ts_reading (v : bool) (s : tls_stream) : tls_stream :=
  TlsStream (ts_channel s) (ts_handshake s) (ts_shutdown s) (ts_pending s) (ts_plain_in s) (ts_plain_pos s)
    (ts_queue s) (ts_error s) v (ts_writing s) (ts_activated s) (ts_peer_closed s) (ts_closing s) (ts_closed s)
    (ts_posted s).
Definition set_ts_writing (v : bool) (s : tls_stream) : tls_stream :=
  TlsStream (ts_channel s) (ts_handshake s) (ts_shutdown s) (ts_pending s) (ts_plain_in s) (ts_plain_pos s)
    (ts_queue s) (ts_error s) (ts_reading s) v (ts_activated s) (ts_peer_closed s) (ts_closing s) (ts_closed s)
    (ts_posted s).
Definition set_ts_activated (v : bool) (s : tls_stream) : tls_stream :=
  TlsStream (ts_channel s) (ts_handshake s) (ts_shutdown s) (ts_pending s) (ts_plain_in s) (ts_plain_pos s)
    (ts_queue s) (ts_error s) (ts_reading s) (ts_writing s) v (ts_peer_closed s) (ts_closing s) (ts_closed s)
    (ts_posted s).
Definition set_ts_peer_closed (v : bool) (s : tls_stream) : tls_stream :=
  TlsStream (ts_channel s) (ts_handshake s) (ts_shutdown s) (ts_pending s) (ts_plain_in s) (ts_plain_pos s)
    (ts_queue s) (ts_error s) (ts_reading s) (ts_writing s) (ts_activated s) v (ts_closing s) (ts_closed s)
    (ts_posted s).
Definition set_ts_closing (v : bool) (s : tls_stream) : tls_stream :=
  TlsStream (ts_channel s) (ts_handshake s) (ts_shutdown s) (ts_pending s) (ts_plain_in s) (ts_plain_pos s)
    (ts_queue s) (ts_error s) (ts_reading s) (ts_writing s) (ts_activated s) (ts_peer_closed s) v (ts_closed s)
    (ts_posted s).
Definition set_ts_closed (v : bool) (s : tls_stream) : tls_stream :=
  TlsStream (ts_channel s) (ts_handshake s) (ts_shutdown s) (ts_pending s) (ts_plain_in s) (ts_plain_pos s)
    (ts_queue s) (ts_error s) (ts_reading s) (ts_writing s) (ts_activated s) (ts_peer_closed s) (ts_closing s) v
    (ts_posted s).
Definition set_ts_posted (v : list posted) (s : tls_stream) : tls_stream :=
  TlsStream (ts_channel s) (ts_handshake s) (ts_shutdown s) (ts_pending s) (ts_plain_in s) (ts_plain_pos s)
    (ts_queue s) (ts_error s) (ts_reading s) (ts_writing s) (ts_activated s) (ts_peer_closed s) (ts_closing s)
    (ts_closed s) v.

Definition read_high_water_mark : Z := 1024 * 1024.

Definition new_stream : tls_stream :=
  TlsStream false None None None [] 0 [] None false false false false false false [].

(** What the stream does, and what happens to it. *)
Inductive action : Type :=
| AStarted (id : Z)                                   (** an asynchronous call is taken *)
| APosted (k : handler_kind) (id : Z) (ec : option error_code)
| ADone (id : Z) (ec : option error_code) (bytes : Z) (data : octets)   (** its handler runs; a read got [data] *)
| ABotan (c : botan_call)
| AMark (id : Z)                                      (** the write marker is queued *)
| ASocketRead
| AReadDone
| ASocketWrite (data : octets)
| AWritten
| ASocketShutdown
| ASocketClose.

Abbreviation act := (Acts.act tls_stream action).

Definition map_tls_exception (handshake_done : bool) : error_code :=
  NetErrc (if handshake_done then tls_failure else handshake_failed).

Definition map_socket_error (ec : error_code) : error_code :=
  match ec with EndOfFile | ConnectionReset | OperationAborted => NetErrc connection_closed | _ => ec end.

(** [asio::post] of a handler with its arguments. *)
Definition post (k : handler_kind) (h : handler) (ec : option error_code) (bytes : Z) : act :=
  update (fun s => set_ts_posted (ts_posted s ++ [Posted k h ec bytes]) s) ;> emit (APosted k (h_id h) ec).

Definition post_opt (k : handler_kind) (h : option handler) (ec : option error_code) : act :=
  match h with Some h => post k h ec 0 | None => skip_act end.

(** ** Errors *)

Fixpoint fail_items (items : list out_item) (ec : error_code) : act :=
  match items with
  | [] => skip_act
  | it :: items => post_opt KWrite (oi_handler it) (Some ec) ;> fail_items items ec
  end.

(** [std::exchange] of a handler member and the [post] of what was there. *)
Definition post_handshake (ec : option error_code) : act := fun s =>
  (update (set_ts_handshake None) ;> post_opt KHandshake (ts_handshake s) ec) s.
Definition post_pending (ec : option error_code) : act := fun s =>
  (update (set_ts_pending None) ;> post_opt KRead (snd <$> ts_pending s) ec) s.
Definition post_queue (ec : error_code) : act := fun s =>
  (update (set_ts_queue []) ;> fail_items (ts_queue s) ec) s.
Definition post_shutdown (ec : option error_code) : act := fun s =>
  (update (set_ts_shutdown None) ;> post_opt KShutdown (ts_shutdown s) ec) s.

Definition fail_pending (ec : error_code) : act :=
  post_handshake (Some ec) ;> post_pending (Some ec) ;> post_queue ec ;> post_shutdown (Some ec).

Definition is_set {A} (e : option A) : bool := match e with Some _ => true | None => false end.

Definition fail (ec : error_code) : act := fun s =>
  if is_set (ts_error s) || ts_closed s then (s, [])
  else (update (fun s => set_ts_closed true (set_ts_error (Some ec) s)) ;> emit ASocketClose ;> fail_pending ec) s.

Definition close : act := fun s =>
  if ts_closed s then (s, [])
  else (update (set_ts_closed true) ;> emit ASocketClose ;>
        fail_pending (default (NetErrc connection_closed) (ts_error s))) s.

(** ** The write side *)

(** The sweep over the items without data at the front. *)
Fixpoint complete_markers (items : list out_item) (ec : option error_code) : act :=
  match items with
  | [] => skip_act
  | it :: rest =>
      if zlen (oi_data it) =? 0
      then update (set_ts_queue rest) ;>
           match oi_handler it with
           | Some h => post KWrite h ec (if is_set ec then 0 else oi_user_bytes it)
           | None => skip_act
           end ;>
           complete_markers rest ec
      else skip_act
  end.

Definition complete_write_markers : act := fun s => complete_markers (ts_queue s) (ts_error s) s.

Definition finish_shutdown : act := fun s =>
  if negb (ts_closing s) || ts_writing s || negb (zlen (ts_queue s) =? 0) || ts_closed s then (s, [])
  else (emit ASocketShutdown ;>
        when ts_peer_closed (emit ASocketClose ;> update (set_ts_closed true)) ;>
        post_shutdown None) s.

Definition write_front : act := fun s =>
  match ts_queue s with
  | [] => when ts_closing finish_shutdown s
  | it :: _ => (update (set_ts_writing true) ;> emit (ASocketWrite (oi_data it))) s
  end.

Definition start_write : act := fun s =>
  if ts_writing s || ts_closed s then (s, [])
  else (complete_write_markers ;> write_front) s.

Definition push (it : out_item) : act := update (fun s => set_ts_queue (ts_queue s ++ [it]) s).

Definition on_emit (data : octets) : act :=
  emit (ABotan (Emit data)) ;> push (OutItem data None 0) ;> start_write.

Fixpoint on_emits (emits : list octets) : act :=
  match emits with [] => skip_act | d :: emits => on_emit d ;> on_emits emits end.

Definition on_written (ec : option error_code) : act :=
  update (set_ts_writing false) ;>
  fun s =>
    if ts_closed s then (s, [])
    else (update (fun s => set_ts_queue (tail (ts_queue s)) s) ;>
          match ec with Some e => fail (map_socket_error e) | None => start_write end) s.

(** [error_ ? error_ : connection_closed] *)
Definition closed_code (s : tls_stream) : error_code := default (NetErrc connection_closed) (ts_error s).

Definition do_write (h : handler) (data : octets) (emits : list octets) (throws : bool) : act := fun s =>
  if is_set (ts_error s) || ts_closed s || ts_closing s || negb (ts_activated s)
  then post KWrite h (Some (closed_code s)) 0 s
  else (on_emits emits ;>
        if throws then fail (map_tls_exception true) ;> fun s => post KWrite h (ts_error s) 0 s
        else push (OutItem [] (Some h) (zlen data)) ;> emit (AMark (h_id h)) ;> start_write) s.

(** ** The read side *)

Definition available (s : tls_stream) : Z := zlen (ts_plain_in s) - ts_plain_pos s.

Definition start_read : act := fun s =>
  if ts_reading s || ts_closed s || is_set (ts_error s) || ts_peer_closed s || (read_high_water_mark <=? available s)
  then (s, [])
  else (update (set_ts_reading true) ;> emit ASocketRead) s.

Definition compact_plain_in (s : tls_stream) : tls_stream :=
  if ts_plain_pos s =? zlen (ts_plain_in s) then set_ts_plain_pos 0 (set_ts_plain_in [] s)
  else if zlen (ts_plain_in s) / 2 <? ts_plain_pos s
  then set_ts_plain_pos 0 (set_ts_plain_in (zdrop (ts_plain_pos s) (ts_plain_in s)) s)
  else s.

(** [invoke] is the body of the pending handler. *)
Definition deliver_read (invoke : act) : act := fun s =>
  match ts_pending s with
  | None => (s, [])
  | Some (size, h) =>
      if 0 <? available s
      then
        let n := Z.min (available s) size in
        let data := ztake n (zdrop (ts_plain_pos s) (ts_plain_in s)) in
        (update (fun s => compact_plain_in (set_ts_plain_pos (ts_plain_pos s + n) s)) ;>
         update (set_ts_pending None) ;> emit (ADone (h_id h) None n data) ;> invoke) s
      else if is_set (ts_error s) || ts_peer_closed s
      then (update (set_ts_pending None) ;> emit (ADone (h_id h) (Some (closed_code s)) 0 []) ;> invoke) s
      else (s, [])
  end.

Definition do_read_some (h : handler) (size : Z) (invoke : act) : act := fun s =>
  if is_set (ts_pending s) then post KRead h (Some OperationInProgress) 0 s
  else if ts_closed s || ts_closing s then post KRead h (Some (closed_code s)) 0 s
  else (update (set_ts_pending (Some (size, h))) ;> deliver_read invoke ;> start_read) s.

(** ** Callbacks of the channel *)

Definition on_record (data : octets) : act := update (fun s => set_ts_plain_in (ts_plain_in s ++ data) s).

Definition on_activated : act :=
  update (set_ts_activated true) ;>
  post_handshake None.

Definition on_fatal_alert : act := fun s =>
  fail (NetErrc (if ts_activated s then tls_failure else handshake_failed)) s.

Definition on_call (c : botan_call) : act :=
  match c with
  | Emit d => on_emit d
  | RecordReceived d => emit (ABotan c) ;> on_record d
  | CloseNotify => emit (ABotan c) ;> update (set_ts_peer_closed true)
  | FatalAlert => emit (ABotan c) ;> on_fatal_alert
  | Warning | Established => emit (ABotan c)
  | Activated => emit (ABotan c) ;> on_activated
  end.

Fixpoint on_calls (cs : list botan_call) : act :=
  match cs with [] => skip_act | c :: cs => on_call c ;> on_calls cs end.

(** [on_read]; [invoke] is the body of the handler of the pending read. *)
Definition on_read (ec : option error_code) (br : botan_run) (invoke : act) : act :=
  update (set_ts_reading false) ;>
  fun s =>
    if ts_closed s then (s, [])
    else
      match ec with
      | Some e =>
          if ts_closing s || ts_activated s
          then (update (set_ts_peer_closed true) ;> deliver_read invoke ;> finish_shutdown) s
          else fail (map_socket_error e) s
      | None =>
          (on_calls (br_calls br) ;>
           if br_throws br then fun s => fail (map_tls_exception (ts_activated s)) s
           else deliver_read invoke ;> start_read) s
      end.

(** ** Handshake and shutdown *)

(** The constructor of the channel emits the first record of a client. *)
Definition do_handshake (emits : list octets) (throws : bool) : act :=
  on_emits emits ;>
  if throws then fail (map_tls_exception false) else update (set_ts_channel true) ;> start_read.

Definition async_handshake (h : handler) (emits : list octets) (throws : bool) : act := fun s =>
  if ts_channel s || ts_closed s then post KHandshake h (Some (NetErrc already_connected)) 0 s
  else (update (set_ts_handshake (Some h)) ;> do_handshake emits throws) s.

Definition do_shutdown (h : handler) (writable : bool) (emits : list octets) : act := fun s =>
  if ts_closed s || ts_closing s || is_set (ts_error s) then post KShutdown h (Some (closed_code s)) 0 s
  else (update (set_ts_closing true) ;> update (set_ts_shutdown (Some h)) ;>
        post_pending (Some (NetErrc connection_closed)) ;>
        when (fun s => ts_channel s && writable) (on_emits emits) ;>
        start_write) s.

(** ** The user *)

(** A call, on the strand: it runs at once. *)
Fixpoint run_call (c : call) : act :=
  let run_calls := foldr (fun c rest => run_call c ;> rest) skip_act in
  match c with
  | CHandshake id calls emits throws => emit (AStarted id) ;> async_handshake (Handler id calls) emits throws
  | CRead id size calls => emit (AStarted id) ;> do_read_some (Handler id calls) (Z.of_nat size) (run_calls calls)
  | CWrite id data calls emits throws => emit (AStarted id) ;> do_write (Handler id calls) data emits throws
  | CShutdown id calls writable emits => emit (AStarted id) ;> do_shutdown (Handler id calls) writable emits
  | CClose => close
  end.

Definition run_calls (cs : list call) : act := foldr (fun c rest => run_call c ;> rest) skip_act cs.

(** What a posted handler does when its turn comes. *)
Definition run_posted : act := fun s =>
  match ts_posted s with
  | [] => (s, [])
  | p :: rest =>
      (update (set_ts_posted rest) ;> emit (ADone (h_id (p_handler p)) (p_ec p) (p_bytes p) []) ;>
       run_calls (h_calls (p_handler p))) s
  end.

Inductive event : Type :=
| ECall (c : call)                                    (** a call dispatched to the strand *)
| ESocketRead (ec : option error_code) (br : botan_run)
| ESocketWritten (ec : option error_code)
| ERunPosted.

(** A completion follows its operation.  Octets that arrive before any
    handshake was started would go to a channel that does not exist. *)
Definition enabled (e : event) (s : tls_stream) : bool :=
  match e with
  | ECall _ => true
  | ESocketRead ec _ => ts_reading s && (is_set ec || ts_channel s)
  | ESocketWritten _ => ts_writing s
  | ERunPosted => negb (zlen (ts_posted s) =? 0)
  end.

Definition handle (e : event) : act :=
  match e with
  | ECall c => run_call c
  | ESocketRead ec br => emit AReadDone ;> fun s =>
      on_read ec br (match ts_pending s with Some (_, h) => run_calls (h_calls h) | None => skip_act end) s
  | ESocketWritten ec => emit AWritten ;> on_written ec
  | ERunPosted => run_posted
  end.

Fixpoint run (events : list event) (s : tls_stream) : option (tls_stream * list action) :=
  match events with
  | [] => Some (s, [])
  | e :: rest =>
      if enabled e s then
        let '(s1, a1) := handle e s in
        match run rest s1 with Some (s2, a2) => Some (s2, a1 ++ a2) | None => None end
      else None
  end.

(** ** The contract of the stream

    An automaton over the actions: [sp_open], the calls taken whose handlers
    have not run; [sp_plain], the decrypted octets not delivered yet;
    [sp_queue], the records not written and, between them, the writes waiting
    for the records before them; whether a socket read or write is outstanding
    and whether the socket is open. *)
Record stream_spec : Type := Spec {
  sp_open : list Z;
  sp_plain : octets;
  sp_queue : list (octets + Z);
  sp_reading : bool;
  sp_writing : bool;
  sp_socket : bool
}.

Definition spec_start : stream_spec := Spec [] [] [] false false true.

Fixpoint remove_one (id : Z) (l : list Z) : option (list Z) :=
  match l with
  | [] => None
  | x :: l => if decide (x = id) then Some l else cons x <$> remove_one id l
  end.

Definition set_sp_queue (q : list (octets + Z)) (k : stream_spec) : stream_spec :=
  Spec (sp_open k) (sp_plain k) q (sp_reading k) (sp_writing k) (sp_socket k).

Definition spec_step (k : stream_spec) (a : action) : option stream_spec :=
  match a with
  | AStarted id => Some (Spec (id :: sp_open k) (sp_plain k) (sp_queue k) (sp_reading k) (sp_writing k) (sp_socket k))
  | APosted KWrite id None =>
      match sp_queue k with
      | inr id' :: rest =>
          if decide (id = id' /\ sp_writing k = false /\ sp_socket k = true) then Some (set_sp_queue rest k) else None
      | _ => None
      end
  | APosted KRead _ None => None
  | APosted KShutdown _ None => if decide (sp_queue k = [] /\ sp_writing k = false) then Some k else None
  | APosted _ _ _ => Some k
  | ADone id ec n data =>
      match remove_one id (sp_open k) with
      | Some rest =>
          if decide (ztake (zlen data) (sp_plain k) = data /\ (data <> [] -> ec = None /\ n = zlen data))
          then Some (Spec rest (zdrop (zlen data) (sp_plain k)) (sp_queue k) (sp_reading k) (sp_writing k) (sp_socket k))
          else None
      | None => None
      end
  | ABotan (Emit d) => Some (set_sp_queue (sp_queue k ++ (if zlen d =? 0 then [] else [inl d])) k)
  | ABotan (RecordReceived d) =>
      Some (Spec (sp_open k) (sp_plain k ++ d) (sp_queue k) (sp_reading k) (sp_writing k) (sp_socket k))
  | ABotan _ => Some k
  | AMark id => Some (set_sp_queue (sp_queue k ++ [inr id]) k)
  | ASocketRead =>
      if sp_reading k || negb (sp_socket k) then None
      else Some (Spec (sp_open k) (sp_plain k) (sp_queue k) true (sp_writing k) (sp_socket k))
  | AReadDone =>
      if sp_reading k then Some (Spec (sp_open k) (sp_plain k) (sp_queue k) false (sp_writing k) (sp_socket k)) else None
  | ASocketWrite d =>
      match sp_queue k with
      | inl d' :: _ =>
          if decide (d = d' /\ sp_writing k = false /\ sp_socket k = true)
          then Some (Spec (sp_open k) (sp_plain k) (sp_queue k) (sp_reading k) true (sp_socket k)) else None
      | _ => None
      end
  | AWritten =>
      if sp_writing k then Some (Spec (sp_open k) (sp_plain k) (tail (sp_queue k)) (sp_reading k) false (sp_socket k))
      else None
  | ASocketShutdown => if decide (sp_queue k = [] /\ sp_writing k = false) then Some k else None
  | ASocketClose => Some (Spec (sp_open k) (sp_plain k) (sp_queue k) (sp_reading k) (sp_writing k) false)
  end.
