(* ===== verification/TlsStreamSafety.v ===== *)
(** What the user of a TLS stream can rely on: every call completes exactly
    once, reads deliver the decrypted octets in order, writes complete in order
    and after their records were written, one socket operation of each kind at
    a time, and none once the socket is closed. *)

From stdpp Require Import base list numbers strings.
From Stdlib Require Import ZArith Lia.
From S2P Require Import Prelude Acts Framing TlsStream.
Open Scope Z_scope.

#[local] Abbreviation accepts := (Acts.accepts spec_step).
#[local] Abbreviation triple := (Acts.triple spec_step).
#[local] Abbreviation assertion := (Acts.assertion (S := tls_stream) (M := stream_spec)).

(** ** The calls whose handlers the stream holds *)

(** How often a call is named; lists of calls are compared by it. *)
Definition cnt (x : Z) (l : list Z) : nat := count_occ Z.eq_dec l x.

Lemma cnt_app x l1 l2 : cnt x (l1 ++ l2) = (cnt x l1 + cnt x l2)%nat.
Proof. apply count_occ_app. Qed.
Lemma cnt_cons x y l : cnt x (y :: l) = ((if decide (y = x) then 1 else 0) + cnt x l)%nat.
Proof. unfold cnt. cbn. destruct (Z.eq_dec y x), (decide (y = x)); try done; lia. Qed.
Lemma cnt_nil x : cnt x [] = 0%nat.
Proof. done. Qed.

Create Rewrite HintDb cnt.
#[export] Hint Rewrite cnt_app cnt_cons cnt_nil : cnt.

Definition oid (h : option handler) : list Z := match h with Some h => [h_id h] | None => [] end.
Definition queue_ids (q : list out_item) : list Z := concat (map (fun it => oid (oi_handler it)) q).
Definition posted_ids (q : list posted) : list Z := map (fun p => h_id (p_handler p)) q.

Definition outstanding (s : tls_stream) : list Z :=
  oid (ts_handshake s) ++ oid (ts_shutdown s) ++ oid (snd <$> ts_pending s) ++ queue_ids (ts_queue s) ++
  posted_ids (ts_posted s).

Lemma queue_ids_app q1 q2 : queue_ids (q1 ++ q2) = queue_ids q1 ++ queue_ids q2.
Proof. unfold queue_ids. by rewrite map_app, concat_app. Qed.
Lemma posted_ids_app q1 q2 : posted_ids (q1 ++ q2) = posted_ids q1 ++ posted_ids q2.
Proof. apply map_app. Qed.
Lemma queue_ids_cons it q : queue_ids (it :: q) = oid (oi_handler it) ++ queue_ids q.
Proof. done. Qed.
Lemma queue_ids_nil : queue_ids [] = [].
Proof. done. Qed.
Lemma posted_ids_cons p q : posted_ids (p :: q) = h_id (p_handler p) :: posted_ids q.
Proof. done. Qed.
Lemma posted_ids_nil : posted_ids [] = [].
Proof. done. Qed.
#[export] Hint Rewrite queue_ids_app posted_ids_app queue_ids_cons queue_ids_nil posted_ids_cons posted_ids_nil : cnt.
Arguments queue_ids : simpl never.
Arguments posted_ids : simpl never.
Arguments cnt : simpl never.

(** The write queue as the contract sees it. *)
Definition entry (it : out_item) : list (octets + Z) :=
  match oi_handler it with
  | Some h => [inr (h_id h)]
  | None => if zlen (oi_data it) =? 0 then [] else [inl (oi_data it)]
  end.
Definition mirror (q : list out_item) : list (octets + Z) := concat (map entry q).

Lemma mirror_cons it q : mirror (it :: q) = entry it ++ mirror q.
Proof. done. Qed.
Arguments mirror : simpl never.

Lemma mirror_app q1 q2 : mirror (q1 ++ q2) = mirror q1 ++ mirror q2.
Proof. unfold mirror. by rewrite map_app, concat_app. Qed.

(** Markers carry no data. *)
Definition item_wf (it : out_item) : Prop := oi_handler it <> None -> oi_data it = [].

(** ** The invariant

    [E] are calls in the hands of the running step; [st] says that a handshake
    is being started, [fl] that the stream is being torn down. *)
Record core (E : list Z) (st fl : bool) (s : tls_stream) (k : stream_spec) : Prop := Core {
  co_open x : cnt x (sp_open k) = (cnt x E + cnt x (outstanding s))%nat;
  co_pos : 0 <= ts_plain_pos s <= zlen (ts_plain_in s);
  co_plain : sp_plain k = zdrop (ts_plain_pos s) (ts_plain_in s);
  co_wf : Forall item_wf (ts_queue s);
  co_queue : ts_closed s = false -> sp_queue k = mirror (ts_queue s);
  co_reading : sp_reading k = ts_reading s;
  co_writing : sp_writing k = ts_writing s;
  co_socket : sp_socket k = negb (ts_closed s);
  co_error : is_set (ts_error s) = true -> ts_closed s = true;
  co_front : ts_writing s = true -> ts_closed s = false ->
    exists it rest, ts_queue s = it :: rest /\ zlen (oi_data it) <> 0;
  co_shutdown : is_set (ts_shutdown s) = true -> ts_closing s = true;
  co_closing : ts_closing s = true -> ts_pending s = None;
  co_handshake : is_set (ts_handshake s) = true -> ts_channel s = true \/ st = true \/ ts_closed s = true;
  co_size n h : ts_pending s = Some (n, h) -> 0 <= n;
  co_ended : ts_closed s = true -> fl = false ->
    ts_pending s = None /\ ts_shutdown s = None /\ queue_ids (ts_queue s) = [] /\
    (is_set (ts_handshake s) = true -> ts_closing s = true /\ ts_error s = None)
}.

Ltac use_core H :=
  let F := fresh in
  destruct H as [?Hopen ?Hpos ?Hplain ?Hwf ?Hqueue ?Hreading ?Hwriting ?Hsocket ?Herror ?Hfront ?Hshut ?Hclosing ?Hhand ?Hsize ?Hended].

(** Goals about counts. *)
Ltac count :=
  intros; unfold outstanding in *; repeat (progress (cbn in *; autorewrite with cnt in *)); try lia.

(** An act whose steps are computed, on a stream taken apart. *)
Ltac compute_act := unfold post_opt, post, skip_act, andthen, update, emit; cbn.
Ltac open_stream s :=
  destruct s as [chan hs shut pend pin pos queue err rd wr act pclo clg clo posts]; cbn in *.
Ltac saturate :=
  repeat match goal with
         | H : ?A -> _, H' : ?A |- _ => match type of A with Prop => specialize (H H') end
         | H : ?x = ?x -> _ |- _ => specialize (H eq_refl)
         | H : _ /\ _ |- _ => destruct H
         end.
Ltac core_split Hc :=
  use_core Hc; cbn in *; split; cbn in *;
  [intros x; repeat match goal with H : forall x, cnt x _ = _ |- _ => specialize (H x) end; count|..];
  intros; try done; try tauto; try congruence; try solve [eauto]; saturate; split_and?; try done; try congruence; try tauto; eauto.

Section steps.
Context (E : list Z) (st fl : bool).

Lemma post_core k h ec n :
  triple (fun s q => core (h_id h :: E) st fl s q /\ spec_step q (APosted k (h_id h) ec) = Some q)
    (post k h ec n) (core E st fl).
Proof.
  intros s q [Hc Hs]. exists q. unfold post, andthen, update, emit. cbn [fst snd Acts.accepts app]. rewrite Hs.
  split; [done|]. use_core Hc. split; cbn; try done.
  intros x. specialize (Hopen x). count.
Qed.

Lemma post_handshake_core ec : triple (core E st fl) (post_handshake ec) (core E st fl).
Proof.
  intros s k Hc. exists k. unfold post_handshake. open_stream s. destruct hs as [h|]; compute_act.
  - split; [by destruct ec|]. core_split Hc.
  - split; [done|]. core_split Hc.
Qed.

Lemma post_pending_core e : triple (core E st fl) (post_pending (Some e)) (core E st fl).
Proof.
  intros s k Hc. exists k. unfold post_pending. open_stream s. destruct pend as [[n h]|]; compute_act.
  - split; [done|]. core_split Hc.
  - split; [done|]. core_split Hc.
Qed.

Lemma post_shutdown_core ec :
  triple (fun s k => core E st fl s k /\ (ec = None -> sp_queue k = [] /\ sp_writing k = false)) (post_shutdown ec) (core E st fl).
Proof.
  intros s k [Hc He]. exists k. unfold post_shutdown. open_stream s. destruct shut as [h|]; compute_act.
  - split; [destruct ec; [done|]; by rewrite decide_True by auto|]. core_split Hc.
  - split; [done|]. core_split Hc.
Qed.

Lemma fail_items_core q e : triple (core (queue_ids q ++ E) st fl) (fail_items q e) (core E st fl).
Proof.
  induction q as [|[d h n] q IH]; cbn [fail_items]; [apply triple_skip|]. cbn [oi_handler].
  eapply triple_seq; [|exact IH]. destruct h as [h|]; cbn [post_opt].
  - intros s k Hc. exists k. compute_act. split; [done|]. open_stream s. core_split Hc.
  - apply triple_skip.
Qed.

Lemma post_queue_core e : triple (fun s k => core E st fl s k /\ ts_closed s = true) (post_queue e) (core E st fl).
Proof.
  apply triple_fun. intros s k [Hc Hcl]. unfold post_queue. eexists. split; [reflexivity|].
  eapply triple_seq; [|apply fail_items_core].
  apply triple_update. intros ? ? [-> ->]. open_stream s. core_split Hc.
Qed.
End steps.

(** What a teardown leaves of the members. *)
Definition cleared (s : tls_stream) : tls_stream :=
  set_ts_handshake None (set_ts_pending None (set_ts_queue [] (set_ts_shutdown None s))).

Lemma fail_items_state q e s : exists P, fst (fail_items q e s) = set_ts_posted P s.
Proof.
  revert s; induction q as [|[d h n] q IH]; intros s; cbn [fail_items]; [by exists (ts_posted s); destruct s|].
  rewrite andthen_fst. destruct h as [h|]; cbn; [|apply IH].
  destruct (IH (set_ts_posted (ts_posted s ++ [Posted KWrite h (Some e) 0]) s)) as [P ->]. by exists P.
Qed.

Lemma fail_pending_state e s : exists P, fst (fail_pending e s) = set_ts_posted P (cleared s).
Proof.
  unfold fail_pending. rewrite !andthen_fst. unfold post_shutdown, post_queue, post_pending, post_handshake.
  rewrite !andthen_fst. cbn [update fst].
  open_stream s. destruct hs, pend as [[]|]; cbn;
    (edestruct fail_items_state as [P ->]; cbn; destruct shut; cbn; eauto).
Qed.

Lemma fail_pending_core E st e :
  triple (fun s k => core E st true s k /\ ts_closed s = true) (fail_pending e) (core E st false).
Proof.
  intros s k [Hc Hcl].
  assert (triple (fun s k => core E st true s k /\ ts_closed s = true) (fail_pending e) (core E st true)) as Ht.
  { assert (forall f, triple (core E st true) f (core E st true) ->
      (forall s, ts_closed (fst (f s)) = ts_closed s) ->
      triple (fun s k => core E st true s k /\ ts_closed s = true) f (fun s k => core E st true s k /\ ts_closed s = true)) as Hf.
    { intros f Hf Hcf s' k' [H1 H2]. destruct (Hf s' k' H1) as (k2 & ? & ?). exists k2. by rewrite Hcf. }
    unfold fail_pending. eapply triple_seq; [apply Hf; [apply post_handshake_core|]|].
    { intros s'. unfold post_handshake. by destruct (ts_handshake s'). }
    eapply triple_seq; [apply Hf; [apply post_pending_core|]|].
    { intros s'. unfold post_pending. by destruct (ts_pending s'). }
    eapply triple_seq; [apply post_queue_core|]. eapply triple_pre; [|apply post_shutdown_core]. by intros ? ? ?. }
  destruct (Ht s k (conj Hc Hcl)) as (k' & Ha & Hc'). exists k'. split; [done|].
  destruct (fail_pending_state e s) as [P HP]. rewrite HP in Hc' |- *. open_stream s. core_split Hc'.
Qed.

Section teardown.
Context (E : list Z) (st : bool).

(** The members of a stream that is up, when it goes down. *)
Lemma shut_socket f :
  (forall s, exists err, f s = set_ts_closed true (set_ts_error err s)) ->
  triple (fun s k => core E st false s k /\ ts_closed s = false)
    (update f ;> emit ASocketClose) (fun s k => core E st true s k /\ ts_closed s = true).
Proof.
  intros Hf s k [Hc Hcl]. destruct (Hf s) as [err' Ef]. eexists. unfold andthen, update, emit. cbn. split; [reflexivity|].
  rewrite Ef. open_stream s. split; [|done]. core_split Hc.
Qed.

Lemma fail_core e : triple (core E st false) (fail e) (core E st false).
Proof.
  apply triple_fun. intros s k Hc. unfold fail. destruct (is_set _ || _) eqn:Ec.
  - exists skip_act. split; [done|]. intros ? ? [-> ->]. by exists k.
  - apply orb_false_iff in Ec as [_ Ecl]. eexists. split; [symmetry; apply andthen_assoc|].
    eapply triple_seq; [|apply fail_pending_core].
    eapply triple_pre; [|apply shut_socket]; [by intros ? ? [-> ->]|]. intros s'. by exists (Some e).
Qed.

Lemma close_core : triple (core E st false) close (core E st false).
Proof.
  apply triple_fun. intros s k Hc. unfold close. destruct (ts_closed s) eqn:Ecl.
  - exists skip_act. split; [done|]. intros ? ? [-> ->]. by exists k.
  - eexists. split; [symmetry; apply andthen_assoc|].
    eapply triple_seq; [|apply fail_pending_core].
    eapply triple_pre; [|apply shut_socket]; [by intros ? ? [-> ->]|]. intros s'. exists (ts_error s'). by destruct s'.
Qed.
End teardown.

Lemma zlen_zero_nil {A} (l : list A) : (zlen l =? 0) = true -> l = [].
Proof. intros H%Z.eqb_eq. by apply zlen_zero. Qed.

Section writing.
Context (E : list Z) (st : bool).

Lemma finish_shutdown_core : triple (core E st false) finish_shutdown (core E st false).
Proof.
  intros s k Hc. unfold finish_shutdown. destruct (_ || _) eqn:Eg; [by exists k|].
  rewrite !orb_false_iff, !negb_false_iff in Eg. destruct Eg as [[[Hcl Hwr] Hq%zlen_zero_nil] Hclo].
  open_stream s. subst. unfold post_shutdown. assert (sp_queue k = [] /\ sp_writing k = false) as [Hq Hw].
  { use_core Hc. cbn in *. split; [by rewrite Hqueue|done]. }
  assert (err = None) as ->.
  { use_core Hc. cbn in *. by destruct err; [specialize (Herror eq_refl)|]. }
  destruct pclo, shut as [h|]; eexists; unfold when; compute_act;
    repeat (rewrite decide_True by done; cbn); (split; [reflexivity|]); core_split Hc.
Qed.

(** The stream is up and no socket write is outstanding. *)
Definition ready (cl : bool) : assertion := fun s k =>
  core E st false s k /\ ts_closed s = false /\ ts_writing s = false /\ ts_closing s = cl.

Definition data_first (s : tls_stream) : Prop := match ts_queue s with [] => True | it :: _ => zlen (oi_data it) <> 0 end.

Lemma complete_markers_core cl items :
  triple (fun s k => ready cl s k /\ ts_queue s = items) (complete_markers items None)
    (fun s k => ready cl s k /\ data_first s).
Proof.
  induction items as [|it items IH]; cbn [complete_markers].
  - intros s k [Hr Hq]. exists k. split; [done|]. split; [done|]. cbn. unfold data_first. by rewrite Hq.
  - destruct (zlen (oi_data it) =? 0) eqn:Ez.
    2: { intros s k [Hr Hq]. exists k. split; [done|]. split; [done|]. cbn. unfold data_first. rewrite Hq. by apply Z.eqb_neq. }
    intros s k [(Hc & Hclo & Hwr & Hcl) Hq]. rewrite <- andthen_assoc. revert s k Hc Hclo Hwr Hcl Hq.
    assert (triple (fun s k => ready cl s k /\ ts_queue s = it :: items)
      (update (set_ts_queue items) ;> match oi_handler it with Some h => post KWrite h None (oi_user_bytes it) | None => skip_act end)
      (fun s k => ready cl s k /\ ts_queue s = items)) as Hstep.
    { intros s k [(Hc & Hclo & Hwr & Hcl) Hq]. destruct it as [d [h|] n]; cbn in *.
      - exists (set_sp_queue (mirror items) k). unfold post. compute_act. open_stream s. subst.
        pose proof (co_queue _ _ _ _ _ Hc eq_refl) as Hmq. pose proof (co_wf _ _ _ _ _ Hc) as Hw. inversion Hw; subst.
        pose proof (co_writing _ _ _ _ _ Hc) as Hmw. pose proof (co_socket _ _ _ _ _ Hc) as Hms. cbn in *.
        rewrite Hmq, Hmw, Hms, mirror_cons. cbn. split; [by rewrite decide_True by done|].
        split; [|done]. split; [|done]. core_split Hc.
      - exists k. compute_act. split; [done|]. open_stream s. subst. split; [|done]. split; [|done].
        pose proof (co_queue _ _ _ _ _ Hc eq_refl) as Hmq. pose proof (co_wf _ _ _ _ _ Hc) as Hw. inversion Hw; subst.
        cbn [ts_queue] in Hmq. rewrite mirror_cons in Hmq. unfold entry in Hmq. cbn in Hmq. rewrite Ez in Hmq. cbn in Hmq. core_split Hc. }
    intros s k Hc Hclo Hwr Hcl Hq.
    exact (triple_seq spec_step _ _ _ _ _ Hstep IH s k (conj (conj Hc (conj Hclo (conj Hwr Hcl))) Hq)).
Qed.

Lemma start_write_core cl :
  triple (fun s k => core E st false s k /\ ts_closing s = cl /\ (cl = false -> ts_closed s = false))
    start_write (fun s k => core E st false s k /\ (cl = false -> ts_closed s = false /\ ts_closing s = false)).
Proof.
  apply triple_fun. intros s k (Hc & Hcl & Hclo). unfold start_write. destruct (_ || _) eqn:Eg.
  - exists skip_act. split; [done|]. intros ? ? [-> ->]. exists k. split; [done|]. split; [done|]. cbn. intros ->. auto.
  - apply orb_false_iff in Eg as [Hw Hd]. eexists. split; [reflexivity|].
    eapply triple_seq.
    + intros ? ? [-> ->]. unfold complete_write_markers.
      assert (ts_error s = None) as -> by (pose proof (co_error _ _ _ _ _ Hc); destruct (ts_error s); [by rewrite Hd in *; specialize (H eq_refl)|done]).
      exact (complete_markers_core cl (ts_queue s) s k (conj (conj Hc (conj Hd (conj Hw Hcl))) eq_refl)).
    + apply triple_fun. clear. intros s k [(Hc & Hclo & Hw & Hcl) Hf]. unfold write_front, data_first in *.
      destruct (ts_queue s) as [|it q] eqn:Eq; [|eexists; split; [reflexivity|]].
      * unfold when. rewrite Hcl. destruct cl; [exists finish_shutdown|exists skip_act]; (split; [reflexivity|]).
        { intros ? ? [-> ->]. destruct (finish_shutdown_core s k Hc) as (k' & ? & ?). by exists k'. }
        { intros ? ? [-> ->]. by exists k. }
      * intros ? ? [-> ->]. open_stream s. subst. use_core Hc. cbn in *. inversion Hwf as [|? ? Hit]; subst.
        assert (oi_handler it = None) as Hh.
        { destruct (oi_handler it) eqn:Ei; [|done]. unfold item_wf in Hit. rewrite Ei in Hit. by rewrite Hit in Hf. }
        exists (Spec (sp_open k) (sp_plain k) (sp_queue k) (sp_reading k) true (sp_socket k)).
        assert (entry it = [inl (oi_data it)]) as He by (unfold entry; rewrite Hh; by destruct (zlen (oi_data it) =? 0) eqn:Ez; [apply Z.eqb_eq in Ez|]).
        rewrite Hqueue, mirror_cons, He by done. cbn. rewrite Hwriting, Hsocket. cbn.
        rewrite decide_True by done. split; [done|]. split; [|done].
        split; cbn; try done; try congruence; try tauto.
        { intros _. by rewrite mirror_cons, He. }
        { eauto. }
Qed.

(** Neither closed nor closing: what a write needs and keeps. *)
Definition up : assertion := fun s k => core E st false s k /\ ts_closing s = false /\ ts_closed s = false.

Lemma start_write_any : triple (core E st false) start_write (core E st false).
Proof.
  intros s k Hc. destruct (ts_closed s) eqn:Ecl.
  - exists k. unfold start_write. by rewrite Ecl, orb_true_r.
  - destruct (start_write_core (ts_closing s) s k) as (k' & ? & ? & _); [done|by exists k'].
Qed.

Lemma start_write_up : triple up start_write up.
Proof.
  intros s k (Hc & Hg & Hcl). destruct (start_write_core false s k) as (k' & ? & ? & Hk); [done|].
  destruct (Hk eq_refl). by exists k'.
Qed.

(** A record of the channel joins the write queue, in the stream and in the
    contract; so does the marker of a write. *)
Lemma push_record d : triple (core E st false) (emit (ABotan (Emit d)) ;> push (OutItem d None 0)) (core E st false).
Proof.
  intros s k Hc. eexists. unfold push. compute_act. split; [reflexivity|]. open_stream s. core_split Hc.
  - apply Forall_app. split; [done|]. constructor; [by intros []|constructor].
  - rewrite mirror_app, mirror_cons, Hqueue by done. unfold entry. cbn. by destruct (zlen d =? 0).
  - destruct Hfront as (it & rest & -> & Hd). by exists it, (rest ++ [OutItem d None 0]).
  - rewrite queue_ids_app. by match goal with H : queue_ids _ = [] |- _ => rewrite H end.
Qed.

Lemma push_marker h n :
  triple (fun s k => core (h_id h :: E) st false s k /\ ts_closed s = false)
    (push (OutItem [] (Some h) n) ;> emit (AMark (h_id h))) (fun s k => core E st false s k /\ ts_closed s = false).
Proof.
  intros s k [Hc Hcl]. eexists. unfold push. compute_act. split; [reflexivity|]. open_stream s. subst. split; [|done].
  core_split Hc.
  - apply Forall_app. split; [done|]. by constructor; [|constructor].
  - by rewrite mirror_app, mirror_cons, Hqueue.
  - destruct Hfront as (it & rest & -> & Hd). by exists it, (rest ++ [OutItem [] (Some h) n]).
Qed.

Lemma on_emit_any d : triple (core E st false) (on_emit d) (core E st false).
Proof.
  intros s k Hc. unfold on_emit. rewrite <- andthen_assoc. revert s k Hc.
  refine (triple_seq spec_step _ _ _ _ _ (push_record d) start_write_any).
Qed.

Lemma on_emits_any ds : triple (core E st false) (on_emits ds) (core E st false).
Proof. induction ds as [|d ds IH]; cbn; [apply triple_skip|]. eapply triple_seq; [apply on_emit_any|exact IH]. Qed.

Lemma on_emit_up d : triple up (on_emit d) up.
Proof.
  intros s k Hu. unfold on_emit. rewrite <- andthen_assoc. revert s k Hu.
  refine (triple_seq spec_step _ up _ _ _ _ start_write_up).
  intros s k (Hc & Hg & Hcl). destruct (push_record d s k Hc) as (k' & ? & ?). by exists k'.
Qed.

Lemma on_emits_up ds : triple up (on_emits ds) up.
Proof. induction ds as [|d ds IH]; cbn; [apply triple_skip|]. eapply triple_seq; [apply on_emit_up|exact IH]. Qed.

(** The front of the queue was written. *)
Lemma pop_front :
  triple (fun s k => core E st false s k /\ ts_writing s = true /\ ts_closed s = false)
    (emit AWritten ;> update (set_ts_writing false) ;> update (fun s => set_ts_queue (tail (ts_queue s)) s)) (core E st false).
Proof.
  intros s k (Hc & Hw & Hcl). eexists. compute_act. rewrite (co_writing _ _ _ _ _ Hc), Hw. split; [reflexivity|]. open_stream s. subst.
  pose proof (co_wf _ _ _ _ _ Hc) as Hwf0. pose proof (co_queue _ _ _ _ _ Hc eq_refl) as Hq0.
  destruct (co_front _ _ _ _ _ Hc eq_refl eq_refl) as (it & rest & Eq & Hd). cbn in Eq, Hwf0, Hq0. subst queue. cbn.
  inversion Hwf0 as [|? ? Hit Hrest]; subst.
  assert (oi_handler it = None) as Hh.
  { destruct (oi_handler it) eqn:Ei; [|done]. unfold item_wf in Hit. rewrite Ei in Hit. by rewrite Hit in Hd. }
  assert (entry it = [inl (oi_data it)]) as He
    by (unfold entry; rewrite Hh; by destruct (zlen (oi_data it) =? 0) eqn:Ez; [apply Z.eqb_eq in Ez|]).
  rewrite mirror_cons, He in Hq0.
  core_split Hc.
  - rewrite Hh in Hopen. count.
  - by rewrite Hq0.
Qed.

Lemma on_written_core ec :
  triple (fun s k => core E st false s k /\ ts_writing s = true) (emit AWritten ;> on_written ec) (core E st false).
Proof.
  apply triple_fun. intros s k [Hc Hw]. unfold on_written. destruct (ts_closed s) eqn:Ecl.
  - exists (emit AWritten ;> update (set_ts_writing false)). split.
    { unfold andthen, update, emit. cbn. by rewrite Ecl. }
    intros ? ? [-> ->]. eexists. compute_act. rewrite (co_writing _ _ _ _ _ Hc), Hw. split; [reflexivity|].
    open_stream s. subst. core_split Hc.
  - exists ((emit AWritten ;> update (set_ts_writing false) ;> update (fun s => set_ts_queue (tail (ts_queue s)) s)) ;>
            match ec with Some e => fail (map_socket_error e) | None => start_write end). split.
    { unfold andthen, update, emit. cbn. rewrite Ecl. destruct ec; [by destruct (fail _ _)|by destruct (start_write _)]. }
    eapply triple_seq; [eapply triple_pre; [|apply pop_front]; by intros ? ? [-> ->]|].
    destruct ec; [apply fail_core|apply start_write_any].
Qed.

(** A call in hand whose handler is posted with an error. *)
Lemma refuse kd h e n : triple (core (h_id h :: E) st false) (post kd h (Some e) n) (core E st false).
Proof. eapply triple_pre; [|apply post_core]. intros s k Hc. split; [done|]. by destruct kd. Qed.
End writing.

Lemma fail_error e s : is_set (ts_error (fst (fail e s))) = true \/ (ts_closed s = true /\ fst (fail e s) = s).
Proof.
  unfold fail. destruct (is_set (ts_error s)) eqn:E1; [by left|]. destruct (ts_closed s) eqn:E2; [by right|left]. cbn [orb].
  rewrite !andthen_fst. cbn [update emit fst]. by destruct (fail_pending_state e (set_ts_closed true (set_ts_error (Some e) s))) as [P ->].
Qed.

Section calls.
Context (E : list Z) (st : bool).

Lemma do_write_core h d emits throws :
  triple (core (h_id h :: E) st false) (do_write h d emits throws) (core E st false).
Proof.
  apply triple_fun. intros s k Hc. unfold do_write. destruct (_ || _) eqn:Eg.
  - eexists. split; [reflexivity|]. eapply triple_pre; [|apply refuse]. by intros ? ? [-> ->].
  - rewrite !orb_false_iff in Eg. destruct Eg as [[[_ Hclo] Hcl] _]. eexists. split; [reflexivity|].
    eapply triple_seq; [eapply triple_pre; [|apply (on_emits_up (h_id h :: E) st)]; by intros ? ? [-> ->]|].
    destruct throws.
    + eapply (triple_seq _ _ (fun s k => core (h_id h :: E) st false s k /\ is_set (ts_error s) = true)).
      * intros s' k' (Hc' & _ & Hcl'). destruct (fail_core _ _ (map_tls_exception true) s' k' Hc') as (k2 & ? & ?).
        exists k2. split_and!; [done|done|]. destruct (fail_error (map_tls_exception true) s') as [|[? _]]; congruence.
      * apply triple_fun. intros s' k' [Hc' He]. destruct (ts_error s') as [e|] eqn:Ee; [|done].
        exists (post KWrite h (Some e) 0). split; [cbn beta; by rewrite ?Ee|].
        eapply triple_pre; [|apply refuse]. by intros ? ? [-> ->].
    + intros s' k' Hu. rewrite <- andthen_assoc. revert s' k' Hu. eapply triple_seq.
      * eapply triple_pre; [|apply push_marker]. by intros ? ? (? & ? & ?).
      * eapply triple_pre; [|apply start_write_any]. by intros ? ? [].
Qed.

Lemma start_read_core : triple (core E st false) start_read (core E st false).
Proof.
  intros s k Hc. unfold start_read. destruct (_ || _) eqn:Eg; [by exists k|].
  rewrite !orb_false_iff in Eg. destruct Eg as [[[[Hr Hcl] He] Hp] Ha].
  exists (Spec (sp_open k) (sp_plain k) (sp_queue k) true (sp_writing k) (sp_socket k)). compute_act.
  rewrite (co_reading _ _ _ _ _ Hc), (co_socket _ _ _ _ _ Hc), Hr, Hcl. cbn.
  split; [done|]. open_stream s. subst. core_split Hc.
Qed.

Lemma remove_one_spec id l :
  cnt id l <> 0%nat -> exists l', remove_one id l = Some l' /\ forall x, cnt x l = (cnt x [id] + cnt x l')%nat.
Proof.
  induction l as [|y l IH]; [done|]. intros Hn. cbn. destruct (decide (y = id)) as [->|Hne].
  - exists l. split; [done|]. intros x. by rewrite <- cnt_app.
  - destruct IH as (l' & -> & Hl). { rewrite cnt_cons, decide_False in Hn; [done|done]. }
    exists (y :: l'). split; [done|]. intros x. specialize (Hl x). autorewrite with cnt in *. lia.
Qed.

(** A call in hand whose handler runs without data. *)
Lemma done_empty id ec n : triple (core (id :: E) st false) (emit (ADone id ec n [])) (core E st false).
Proof.
  intros s k Hc. destruct (remove_one_spec id (sp_open k)) as (l & Hl & Hx).
  { rewrite (co_open _ _ _ _ _ Hc id). rewrite cnt_cons, decide_True by done. lia. }
  eexists. compute_act. rewrite Hl, decide_True by done. split; [reflexivity|]. open_stream s.
  core_split Hc.
Qed.

Lemma compact_plain s :
  0 <= ts_plain_pos s <= zlen (ts_plain_in s) ->
  let s' := compact_plain_in s in
  0 <= ts_plain_pos s' <= zlen (ts_plain_in s') /\
  zdrop (ts_plain_pos s') (ts_plain_in s') = zdrop (ts_plain_pos s) (ts_plain_in s) /\
  s' = set_ts_plain_pos (ts_plain_pos s') (set_ts_plain_in (ts_plain_in s') s).
Proof.
  intros Hp. unfold compact_plain_in. open_stream s. destruct (_ =? _) eqn:E1; cbn.
  - apply Z.eqb_eq in E1. subst pos. split_and!; [done|done| |done]. by rewrite (zdrop_all (zlen pin)) by lia.
  - pose proof (zlen_nonneg (zdrop pos pin)). destruct (_ <? _); cbn; split_and!; done || lia.
Qed.

Lemma deliver_read_core invoke :
  triple (core E st false) invoke (core E st false) -> triple (core E st false) (deliver_read invoke) (core E st false).
Proof.
  intros Hinv. apply triple_fun. intros s k Hc. unfold deliver_read. destruct (ts_pending s) as [[size h]|] eqn:Ep.
  2: { exists skip_act. split; [done|]. intros ? ? [-> ->]. by exists k. }
  destruct (0 <? available s) eqn:Ea.
  - eexists. split; [symmetry; apply andthen_assoc4|]. eapply triple_seq; [|exact Hinv].
    intros ? ? [-> ->]. apply Z.ltb_lt in Ea. unfold available in *.
    pose proof (co_pos _ _ _ _ _ Hc) as Hp. pose proof (co_size _ _ _ _ _ Hc _ _ Ep) as Hs.
    set (n := Z.min _ size). set (data := ztake n _).
    assert (zlen data = n) as Hn by (subst data; rewrite zlen_ztake; [done|rewrite zlen_zdrop; lia]).
    destruct (remove_one_spec (h_id h) (sp_open k)) as (l & Hl & Hx).
    { rewrite (co_open _ _ _ _ _ Hc). unfold outstanding. rewrite Ep. cbn. autorewrite with cnt. rewrite decide_True by done. lia. }
    assert (0 <= ts_plain_pos s + n <= zlen (ts_plain_in s)) as Hp' by lia.
    destruct (compact_plain (set_ts_plain_pos (ts_plain_pos s + n) s) Hp') as (Hq1 & Hq2 & Hq3).
    eexists. compute_act. rewrite Hl, (co_plain _ _ _ _ _ Hc), Hn. rewrite decide_True by done. split; [reflexivity|].
    rewrite Hq3. cbn in Hq1, Hq2. rewrite zdrop_zdrop by lia. rewrite <- Hq2. clearbody data. clear Hq3 Hinv Hq2.
    open_stream s. subst pend. core_split Hc.
  - destruct (_ || _) eqn:Eo.
    + eexists. split; [reflexivity|]. eapply triple_seq; [|eapply triple_seq; [apply done_empty|exact Hinv]].
      apply triple_update. intros ? ? [-> ->]. open_stream s. subst pend. core_split Hc.
    + exists skip_act. split; [done|]. intros ? ? [-> ->]. by exists k.
Qed.

Lemma do_read_some_core h size invoke :
  0 <= size -> triple (core E st false) invoke (core E st false) ->
  triple (core (h_id h :: E) st false) (do_read_some h size invoke) (core E st false).
Proof.
  intros Hs Hinv. apply triple_fun. intros s k Hc. unfold do_read_some.
  destruct (is_set (ts_pending s)) eqn:Ep; [|destruct (_ || _) eqn:Eg]; (eexists; split; [reflexivity|]).
  - eapply triple_pre; [|apply refuse]. by intros ? ? [-> ->].
  - eapply triple_pre; [|apply refuse]. by intros ? ? [-> ->].
  - eapply triple_seq; [|eapply triple_seq; [by apply deliver_read_core|apply start_read_core]].
    apply orb_false_iff in Eg as [Ecl Eg].
    apply triple_update. intros ? ? [-> ->]. open_stream s. destruct pend; [done|]. subst. core_split Hc.
Qed.

Lemma on_call_core c : triple (core E st false) (on_call c) (core E st false).
Proof.
  destruct c as [d|d| | | | |]; cbn [on_call].
  - apply on_emit_any.
  - intros s k Hc. eexists. unfold on_record. compute_act. split; [reflexivity|]. open_stream s. core_split Hc.
    + zlen_lia.
    + rewrite Hplain. unfold zdrop. rewrite drop_app_le; [done|]. unfold zlen in *. lia.
  - eapply triple_seq; [by apply triple_quiet|]. apply triple_update. intros s k Hc. open_stream s. core_split Hc.
  - eapply triple_seq; [by apply triple_quiet|]. intros s k Hc. by apply fail_core.
  - by apply triple_quiet.
  - by apply triple_quiet.
  - eapply triple_seq; [by apply triple_quiet|]. eapply triple_seq; [|apply post_handshake_core].
    apply triple_update. intros s k Hc. open_stream s. core_split Hc.
Qed.

Lemma on_calls_core cs : triple (core E st false) (on_calls cs) (core E st false).
Proof. induction cs as [|c cs IH]; cbn; [apply triple_skip|]. eapply triple_seq; [apply on_call_core|exact IH]. Qed.

Lemma on_read_core ec br invoke :
  triple (core E st false) invoke (core E st false) ->
  triple (fun s k => core E st false s k /\ ts_reading s = true) (emit AReadDone ;> on_read ec br invoke) (core E st false).
Proof.
  intros Hinv. intros s k Hc. unfold on_read. rewrite <- andthen_assoc. revert s k Hc.
  refine (triple_seq spec_step _ (core E st false) _ _ _ _ _).
  { intros s k [Hc Hr]. eexists. compute_act. rewrite (co_reading _ _ _ _ _ Hc), Hr. split; [reflexivity|]. open_stream s. core_split Hc. }
  apply triple_fun. intros s k Hc. destruct (ts_closed s) eqn:Ecl.
  { exists skip_act. split; [done|]. intros ? ? [-> ->]. by exists k. }
  destruct ec as [e|]; [destruct (_ || _)|]; (eexists; split; [reflexivity|]).
  - eapply triple_seq; [|eapply triple_seq; [by apply deliver_read_core|apply finish_shutdown_core]].
    apply triple_update. intros ? ? [-> ->]. open_stream s. core_split Hc.
  - eapply triple_pre; [|apply fail_core]. by intros ? ? [-> ->].
  - eapply triple_seq; [eapply triple_pre; [|apply on_calls_core]; by intros ? ? [-> ->]|].
    destruct (br_throws br).
    + intros s' k' Hc'. by apply fail_core.
    + eapply triple_seq; [by apply deliver_read_core|apply start_read_core].
Qed.

(** A shutdown takes the pending read away. *)
Lemma begin_shutdown h e :
  triple (fun s k => core (h_id h :: E) st false s k /\ ts_closed s = false /\ ts_shutdown s = None)
    (update (set_ts_closing true) ;> update (set_ts_shutdown (Some h)) ;> post_pending (Some e)) (core E st false).
Proof.
  intros s k (Hc & Hcl & Hs). exists k. unfold post_pending. open_stream s. subst.
  destruct pend as [[n p]|]; compute_act; (split; [done|]); core_split Hc.
Qed.

Lemma do_shutdown_core h writable emits :
  triple (core (h_id h :: E) st false) (do_shutdown h writable emits) (core E st false).
Proof.
  apply triple_fun. intros s k Hc. unfold do_shutdown. destruct (_ || _) eqn:Eg.
  - eexists. split; [reflexivity|]. eapply triple_pre; [|apply refuse]. by intros ? ? [-> ->].
  - rewrite !orb_false_iff in Eg. destruct Eg as [[Ecl Eg] Ee]. eexists. split; [symmetry; apply andthen_assoc4|].
    eapply triple_seq; [eapply triple_pre; [|apply begin_shutdown]|].
    { intros ? ? [-> ->]. split_and!; [done|done|]. pose proof (co_shutdown _ _ _ _ _ Hc) as Hs.
      destruct (ts_shutdown s); [|done]. by specialize (Hs eq_refl); congruence. }
    eapply triple_seq; [|apply start_write_any]. apply triple_when; [|done].
    eapply triple_pre; [|apply on_emits_any]. by intros ? ? [].
Qed.
End calls.

Section handshake.
Context (E : list Z).

Lemma core_starting s k : core E true false s k -> ts_channel s = true \/ ts_closed s = true -> core E false false s k.
Proof. intros Hc Hd. open_stream s. core_split Hc. Qed.

Lemma do_handshake_core emits throws : triple (core E true false) (do_handshake emits throws) (core E false false).
Proof.
  eapply triple_seq; [apply on_emits_any|]. destruct throws.
  - intros s k Hc. destruct (fail_core E true (map_tls_exception false) s k Hc) as (k' & Ha & Hc').
    exists k'. split; [done|]. apply core_starting; [done|right].
    destruct (fail_error (map_tls_exception false) s) as [He|[Hcl ->]]; [|done]. by apply (co_error _ _ _ _ _ Hc').
  - eapply triple_seq; [|apply start_read_core]. apply triple_update. intros s k Hc.
    apply core_starting; [|by left]. open_stream s. core_split Hc.
Qed.

Lemma async_handshake_core h emits throws :
  triple (core (h_id h :: E) false false) (async_handshake h emits throws) (core E false false).
Proof.
  apply triple_fun. intros s k Hc. unfold async_handshake. destruct (_ || _) eqn:Eg.
  - eexists. split; [reflexivity|]. eapply triple_pre; [|apply refuse]. by intros ? ? [-> ->].
  - apply orb_false_iff in Eg as [Ech Ecl]. eexists. split; [reflexivity|].
    eapply triple_seq; [|apply do_handshake_core]. apply triple_update. intros ? ? [-> ->].
    pose proof (co_handshake _ _ _ _ _ Hc) as Hh. open_stream s. subst. destruct hs; [naive_solver|]. core_split Hc.
Qed.
End handshake.

(** ** Calls of the user, handlers and events *)

(** Induction over a call and the calls of its handler. *)
Section call_induction.
Context (P : call -> Prop).
Context (Hh : forall id calls emits throws, Forall P calls -> P (CHandshake id calls emits throws)).
Context (Hr : forall id size calls, Forall P calls -> P (CRead id size calls)).
Context (Hw : forall id data calls emits throws, Forall P calls -> P (CWrite id data calls emits throws)).
Context (Hs : forall id calls writable emits, Forall P calls -> P (CShutdown id calls writable emits)).
Context (Hc : P CClose).

Fixpoint call_induction (c : call) : P c :=
  let go := fix go (cs : list call) : Forall P cs :=
    match cs with [] => List.Forall_nil P | c :: cs => List.Forall_cons P c cs (call_induction c) (go cs) end in
  match c with
  | CHandshake id calls emits throws => Hh id calls emits throws (go calls)
  | CRead id size calls => Hr id size calls (go calls)
  | CWrite id data calls emits throws => Hw id data calls emits throws (go calls)
  | CShutdown id calls writable emits => Hs id calls writable emits (go calls)
  | CClose => Hc
  end.
End call_induction.

(** Between events: no call in hand. *)
Definition inv : assertion := core [] false false.

Lemma take_call id : triple inv (emit (AStarted id)) (core [id] false false).
Proof.
  intros s k Hc. eexists. compute_act. split; [reflexivity|]. open_stream s. core_split Hc.
Qed.

Lemma run_calls_step cs : Forall (fun c => triple inv (run_call c) inv) cs -> triple inv (run_calls cs) inv.
Proof. induction 1; cbn; [apply triple_skip|]. by eapply triple_seq. Qed.

Lemma run_call_inv c : triple inv (run_call c) inv.
Proof.
  induction c as [id calls emits throws IH|id size calls IH|id data calls emits throws IH|id calls writable emits IH|]
    using call_induction; cbn [run_call]; try (eapply triple_seq; [apply take_call|]).
  - apply (async_handshake_core [] (Handler id calls)).
  - apply (do_read_some_core [] false (Handler id calls)); [lia|]. by apply run_calls_step.
  - apply (do_write_core [] false (Handler id calls)).
  - apply (do_shutdown_core [] false (Handler id calls)).
  - apply close_core.
Qed.

Lemma run_calls_inv cs : triple inv (run_calls cs) inv.
Proof. apply run_calls_step, Forall_forall. intros c _. apply run_call_inv. Qed.

Lemma run_posted_inv : triple inv run_posted inv.
Proof.
  apply triple_fun. intros s k Hc. unfold run_posted. destruct (ts_posted s) as [|p rest] eqn:Ep.
  - exists skip_act. split; [done|]. intros ? ? [-> ->]. by exists k.
  - eexists. split; [reflexivity|]. eapply triple_seq; [|eapply triple_seq; [apply (done_empty [] false)|apply run_calls_inv]].
    apply triple_update. intros ? ? [-> ->]. unfold inv in Hc. open_stream s. subst. core_split Hc.
Qed.

Lemma handle_inv e : triple (fun s k => inv s k /\ enabled e s = true) (handle e) inv.
Proof.
  destruct e as [c|ec br|ec|]; cbn [handle].
  - eapply triple_pre; [|apply run_call_inv]. by intros s k [].
  - apply triple_fun. intros s k [Hc [He _]%andb_true_iff].
    exists (emit AReadDone ;> on_read ec br (match ts_pending s with Some (_, h) => run_calls (h_calls h) | None => skip_act end)).
    split; [done|]. eapply triple_pre; [|apply on_read_core].
    + by intros ? ? [-> ->].
    + destruct (ts_pending s) as [[? h]|]; [apply run_calls_inv|apply triple_skip].
  - apply on_written_core.
  - eapply triple_pre; [|apply run_posted_inv]. by intros s k [].
Qed.

Lemma run_inv events s k s' log :
  inv s k -> run events s = Some (s', log) -> exists k', accepts k log = Some k' /\ inv s' k'.
Proof.
  revert s k s' log; induction events as [|e events IH]; intros s k s' log Hi; cbn [run].
  - intros [= <- <-]. by exists k.
  - destruct (enabled e s) eqn:He; [|done].
    destruct (handle_inv e s k (conj Hi He)) as (k1 & E1 & Hi1).
    destruct (handle e s) as [s1 a1]. cbn [fst snd] in *.
    destruct (run events s1) as [[s2 a2]|] eqn:E; [|done]. intros [= <- <-].
    destruct (IH _ _ _ _ Hi1 E) as (k2 & E2 & Hi2). exists k2. split; [|done]. by rewrite (accepts_app _ _ _ _ _ E1).
Qed.

Lemma new_stream_inv : inv new_stream spec_start.
Proof. by split. Qed.

(** ** Consequences of the contract for a log *)

Definition started (log : list action) : list Z := omap (fun a => match a with AStarted id => Some id | _ => None end) log.
Definition completed (log : list action) : list Z := omap (fun a => match a with ADone id _ _ _ => Some id | _ => None end) log.
Definition received (log : list action) : octets :=
  concat (map (fun a => match a with ABotan (RecordReceived d) => d | _ => [] end) log).
Definition delivered (log : list action) : octets :=
  concat (map (fun a => match a with ADone _ _ _ d => d | _ => [] end) log).
Definition emitted (log : list action) : octets :=
  concat (map (fun a => match a with ABotan (Emit d) => d | _ => [] end) log).
Definition written (log : list action) : octets :=
  concat (map (fun a => match a with ASocketWrite d => d | _ => [] end) log).

Lemma remove_one_cnt id l l' : remove_one id l = Some l' -> forall x, cnt x l = (cnt x [id] + cnt x l')%nat.
Proof.
  revert l'; induction l as [|y l IH]; [done|]. intros l' Hr x. cbn in Hr. destruct (decide (y = id)) as [->|Hne].
  - injection Hr as <-. by rewrite <- cnt_app.
  - destruct (remove_one id l) as [l1|]; [|done]. injection Hr as <-. specialize (IH _ eq_refl x).
    autorewrite with cnt in *. lia.
Qed.

(** One step of the contract, for the accounts kept of it. *)
Lemma step_open k a k' x :
  spec_step k a = Some k' -> (cnt x (sp_open k) + cnt x (started [a]) = cnt x (completed [a]) + cnt x (sp_open k'))%nat.
Proof.
  intros Hs. destruct a as [id|kd id ec|id ec n d|c|id| |  |d| | |]; cbn in Hs |- *.
  - injection Hs as <-. cbn. autorewrite with cnt. lia.
  - assert (sp_open k' = sp_open k) as ->; [|autorewrite with cnt; lia].
    destruct kd, ec; try (by injection Hs as <-); try done.
    + destruct (sp_queue k) as [|[]]; try done. destruct (decide _); [|done]. by injection Hs as <-.
    + destruct (decide _); [|done]. by injection Hs as <-.
  - destruct (remove_one id (sp_open k)) as [l|] eqn:E; [|done]. destruct (decide _); [|done]. injection Hs as <-. cbn.
    rewrite (remove_one_cnt _ _ _ E x). autorewrite with cnt. lia.
  - assert (sp_open k' = sp_open k) as ->; [|autorewrite with cnt; lia]. by destruct c; injection Hs as <-.
  - injection Hs as <-. cbn. autorewrite with cnt. lia.
  - destruct (_ || _); [done|]. injection Hs as <-. cbn. autorewrite with cnt. lia.
  - destruct (sp_reading k); [|done]. injection Hs as <-. cbn. autorewrite with cnt. lia.
  - destruct (sp_queue k) as [|[]]; try done. destruct (decide _); [|done]. injection Hs as <-. cbn. autorewrite with cnt. lia.
  - destruct (sp_writing k); [|done]. injection Hs as <-. cbn. autorewrite with cnt. lia.
  - destruct (decide _); [|done]. injection Hs as <-. autorewrite with cnt. lia.
  - injection Hs as <-. cbn. autorewrite with cnt. lia.
Qed.

Lemma step_plain k a k' : spec_step k a = Some k' -> sp_plain k ++ received [a] = delivered [a] ++ sp_plain k'.
Proof.
  unfold received, delivered.
  intros Hs. destruct a as [id|kd id ec|id ec n d|c|id| |  |d| | |]; cbn in Hs |- *; rewrite ?app_nil_r.
  - by injection Hs as <-.
  - destruct kd, ec; try (by injection Hs as <-); try done.
    + destruct (sp_queue k) as [|[]]; try done. destruct (decide _); [|done]. by injection Hs as <-.
    + destruct (decide _); [|done]. by injection Hs as <-.
  - destruct (remove_one id (sp_open k)) as [l|]; [|done]. destruct (decide _) as [[Ht _]|]; [|done]. injection Hs as <-. cbn.
    rewrite <- Ht at 1. by rewrite ztake_zdrop.
  - destruct c; injection Hs as <-; cbn; by rewrite ?app_nil_r.
  - by injection Hs as <-.
  - destruct (_ || _); [done|]. by injection Hs as <-.
  - destruct (sp_reading k); [|done]. by injection Hs as <-.
  - destruct (sp_queue k) as [|[]]; try done. destruct (decide _); [|done]. by injection Hs as <-.
  - destruct (sp_writing k); [|done]. by injection Hs as <-.
  - destruct (decide _); [|done]. by injection Hs as <-.
  - by injection Hs as <-.
Qed.

(** The records of the contract's queue that were not handed to the socket. *)
Definition chunks (q : list (octets + Z)) : octets := concat (map (fun x => match x with inl d => d | inr _ => [] end) q).
Definition unsent (k : stream_spec) : octets := chunks (if sp_writing k then tail (sp_queue k) else sp_queue k).
Definition front_is_data (k : stream_spec) : Prop :=
  sp_writing k = true -> exists d rest, sp_queue k = inl d :: rest.

Arguments chunks : simpl never.

Lemma chunks_app q1 q2 : chunks (q1 ++ q2) = chunks q1 ++ chunks q2.
Proof. unfold chunks. by rewrite map_app, concat_app. Qed.

Lemma unsent_app k q :
  front_is_data k -> front_is_data (set_sp_queue (sp_queue k ++ q) k) /\
  unsent (set_sp_queue (sp_queue k ++ q) k) = unsent k ++ chunks q.
Proof.
  unfold front_is_data, unsent. cbn. intros Hf. destruct (sp_writing k).
  - destruct (Hf eq_refl) as (d & rest & ->). cbn [app tail]. split; [eauto|]. by rewrite chunks_app.
  - split; [done|]. by rewrite chunks_app.
Qed.

Lemma step_wire k a k' :
  spec_step k a = Some k' -> front_is_data k -> sp_socket k = true ->
  a = ASocketClose \/
  (front_is_data k' /\ sp_socket k' = true /\ unsent k ++ emitted [a] = written [a] ++ unsent k').
Proof.
  unfold emitted, written. intros Hs Hf Ho. destruct a as [id|kd id ec|id ec n d|c|id| |  |d| | |]; cbn in Hs |- *; rewrite ?app_nil_r.
  - right. by injection Hs as <-.
  - right. destruct kd, ec; try (by injection Hs as <-); try done.
    + destruct (sp_queue k) as [|[|i] q] eqn:Eq; try done. destruct (decide _) as [(_ & Hw & _)|]; [|done]. injection Hs as <-.
      unfold front_is_data, unsent in *. cbn. by rewrite Hw, Eq.
    + destruct (decide _); [|done]. by injection Hs as <-.
  - right. destruct (remove_one id (sp_open k)) as [l|]; [|done]. destruct (decide _); [|done]. by injection Hs as <-.
  - right. destruct c as [d|d| | | | |]; injection Hs as <-; cbn; rewrite ?app_nil_r; try done.
    destruct (unsent_app k (if zlen d =? 0 then [] else [inl d]) Hf) as [H1 H2]. split_and!; [done|done|]. rewrite H2. f_equal.
    destruct (zlen d =? 0) eqn:E; [by apply zlen_zero_nil in E as ->|]. unfold chunks. cbn. by rewrite ?app_nil_r.
  - right. injection Hs as <-. destruct (unsent_app k [inr id] Hf) as [H1 H2]. split_and!; [done|done|]. rewrite H2. unfold chunks. cbn. by rewrite ?app_nil_r.
  - right. destruct (_ || _); [done|]. by injection Hs as <-.
  - right. destruct (sp_reading k); [|done]. by injection Hs as <-.
  - right. destruct (sp_queue k) as [|[d'|] q] eqn:Eq; try done. destruct (decide _) as [(<- & Hw & _)|]; [|done]. injection Hs as <-.
    unfold front_is_data, unsent. cbn. rewrite Hw, Eq. split_and!; [eauto|done|done].
  - right. destruct (sp_writing k) eqn:Hw; [|done]. injection Hs as <-. unfold front_is_data, unsent. cbn. by rewrite Hw.
  - right. destruct (decide _); [|done]. by injection Hs as <-.
  - by left.
Qed.

Lemma accepts_open log k k' x :
  accepts k log = Some k' -> (cnt x (sp_open k) + cnt x (started log) = cnt x (completed log) + cnt x (sp_open k'))%nat.
Proof.
  revert k; induction log as [|a log IH]; intros k; cbn [Acts.accepts]; [intros [= ->]; cbn; lia|].
  destruct (spec_step k a) as [k1|] eqn:E; [|done]. intros Ha%IH. apply (step_open _ _ _ x) in E.
  assert (started (a :: log) = started [a] ++ started log) as -> by by destruct a.
  assert (completed (a :: log) = completed [a] ++ completed log) as -> by by destruct a.
  rewrite !cnt_app. lia.
Qed.

Lemma accepts_plain log k k' : accepts k log = Some k' -> sp_plain k ++ received log = delivered log ++ sp_plain k'.
Proof.
  revert k; induction log as [|a log IH]; intros k; cbn [Acts.accepts]; [intros [= ->]; cbn; by rewrite app_nil_r|].
  destruct (spec_step k a) as [k1|] eqn:E; [|done]. intros Ha%IH. apply step_plain in E.
  assert (received (a :: log) = received [a] ++ received log) as -> by (unfold received; cbn; by rewrite app_nil_r).
  assert (delivered (a :: log) = delivered [a] ++ delivered log) as -> by (unfold delivered; cbn; by rewrite app_nil_r).
  by rewrite app_assoc, E, <- !app_assoc, Ha.
Qed.

Lemma closed_writes_nothing log k k' : accepts k log = Some k' -> sp_socket k = false -> written log = [].
Proof.
  revert k; induction log as [|a log IH]; intros k; cbn [Acts.accepts]; [done|].
  destruct (spec_step k a) as [k1|] eqn:E; [|done]. intros Ha Ho.
  assert (sp_socket k1 = false /\ written [a] = []) as [Ho1 Hw].
  { destruct a as [id|kd id ec|id ec n d|c|id| |  |d| | |]; cbn in E |- *; try (by injection E as <-).
    - destruct kd, ec; try (by injection E as <-); try done.
      + destruct (sp_queue k) as [|[]]; try done. destruct (decide _); [|done]. by injection E as <-.
      + destruct (decide _); [|done]. by injection E as <-.
    - destruct (remove_one _ _); [|done]. destruct (decide _); [|done]. by injection E as <-.
    - destruct c; by injection E as <-.
    - rewrite Ho, orb_true_r in E. done.
    - destruct (sp_reading k); [|done]. by injection E as <-.
    - destruct (sp_queue k) as [|[]]; try done. rewrite decide_False in E by naive_solver congruence. done.
    - destruct (sp_writing k); [|done]. by injection E as <-.
    - destruct (decide _); [|done]. by injection E as <-. }
  assert (written (a :: log) = written [a] ++ written log) as -> by (unfold written; cbn; by rewrite app_nil_r).
  rewrite Hw. by apply (IH k1).
Qed.

Lemma accepts_wire log k k' :
  accepts k log = Some k' -> front_is_data k -> sp_socket k = true -> exists rest, unsent k ++ emitted log = written log ++ rest.
Proof.
  revert k; induction log as [|a log IH]; intros k; cbn [Acts.accepts]; [intros _ _ _; exists (unsent k); cbn; by rewrite app_nil_r|].
  destruct (spec_step k a) as [k1|] eqn:E; [|done]. intros Ha Hf Ho.
  assert (emitted (a :: log) = emitted [a] ++ emitted log) as -> by (unfold emitted; cbn; by rewrite app_nil_r).
  assert (written (a :: log) = written [a] ++ written log) as -> by (unfold written; cbn; by rewrite app_nil_r).
  destruct (step_wire _ _ _ E Hf Ho) as [->|(Hf1 & Ho1 & Hu)].
  - injection E as <-. rewrite (closed_writes_nothing _ _ _ Ha) by done. by eexists.
  - destruct (IH k1 Ha Hf1 Ho1) as [rest Hr]. exists rest. by rewrite app_assoc, Hu, <- !app_assoc, Hr.
Qed.

(** ** Properties *)

(** C11: the contract of the stream.  Whatever Botan's channel emits, records or
    reports, whatever the socket does and whatever the user calls, from
    outside or from its handlers, at most one socket read and one socket write
    are outstanding, none is started once the socket is closed, the records
    are written in the order they were emitted, a write reports success only
    after every record emitted for it was written, in the order of the writes,
    and a shutdown only when nothing is left to write, and a read delivers the
    octets that come next. *)
Theorem stream_contract (events : list event) (s : tls_stream) (log : list action)
  (Hrun : run events new_stream = Some (s, log)) :
  exists k, Acts.accepts spec_step spec_start log = Some k /\
    sp_plain k = zdrop (ts_plain_pos s) (ts_plain_in s) /\
    sp_reading k = ts_reading s /\ sp_writing k = ts_writing s /\ sp_socket k = negb (ts_closed s) /\
    (ts_closed s = false -> sp_queue k = mirror (ts_queue s)).
Proof.
  destruct (run_inv _ _ _ _ _ new_stream_inv Hrun) as (k & Ha & Hi). exists k. split; [done|]. by destruct Hi.
Qed.

(** C12: every call completes exactly once.  The calls taken are those whose
    handlers ran and those the stream still holds; once the stream is closed
    every handler it holds is on its way, but for that of a handshake that was
    shut down before it finished. *)
Theorem calls_complete_once (events : list event) (s : tls_stream) (log : list action)
  (Hrun : run events new_stream = Some (s, log)) :
  Permutation (started log) (completed log ++ outstanding s) /\
  (ts_closed s = true ->
   outstanding s = oid (ts_handshake s) ++ posted_ids (ts_posted s) /\
   (ts_handshake s <> None -> ts_closing s = true /\ ts_error s = None)).
Proof.
  destruct (run_inv _ _ _ _ _ new_stream_inv Hrun) as (k & Ha & Hi). split.
  - apply (Permutation_count_occ Z.eq_dec). intros x. pose proof (accepts_open _ _ _ x Ha) as Hx.
    pose proof (co_open _ _ _ _ _ Hi x) as Ho. autorewrite with cnt in *. cbn in Hx. change (count_occ Z.eq_dec) with (fun l y => cnt y l).
    cbn beta. rewrite cnt_app. cbn in *. lia.
  - intros Hcl. destruct (co_ended _ _ _ _ _ Hi Hcl eq_refl) as (Hp & Hs & Hq & Hh). split.
    + unfold outstanding. by rewrite Hp, Hs, Hq.
    + intros Hn. apply Hh. by destruct (ts_handshake s).
Qed.

(** C13: nothing is lost, repeated or reordered.  The octets delivered to
    successful reads and those still waiting are the decrypted records, and
    the octets handed to the socket are the first of those emitted. *)
Theorem octets_in_order (events : list event) (s : tls_stream) (log : list action)
  (Hrun : run events new_stream = Some (s, log)) :
  received log = delivered log ++ zdrop (ts_plain_pos s) (ts_plain_in s) /\
  exists rest, emitted log = written log ++ rest.
Proof.
  destruct (run_inv _ _ _ _ _ new_stream_inv Hrun) as (k & Ha & Hi). split.
  - rewrite <- (co_plain _ _ _ _ _ Hi). exact (accepts_plain _ _ _ Ha).
  - by apply (accepts_wire _ _ _ Ha).
Qed.

(** A handshake that is shut down before it finished: the peer closes, and the
    handler of [async_handshake] is never called, although nothing is left to
    run. *)
Definition lost_events : list event :=
  [ECall (CHandshake 1 [] [[22; 1]] false); ESocketWritten None; ECall (CShutdown 2 [] true [[21; 1]]);
   ESocketWritten None; ESocketRead (Some EndOfFile) (BotanRun [] false); ERunPosted].

Lemma handshake_handler_lost :
  exists s log, run lost_events new_stream = Some (s, log) /\
    started log = [1; 2] /\ completed log = [2] /\ ts_closed s = true /\ ts_posted s = [] /\
    ts_reading s = false /\ ts_writing s = false.
Proof. eexists _, _. split; [vm_compute; reflexivity|]. vm_compute. by split_and!. Qed.

(** ** A concrete stream: handshake, a write, two records, and the close *)
Definition demo_events : list event :=
  [ECall (CHandshake 1 [CWrite 2 [7; 8] [] [[23; 7; 8]] false; CRead 3 4 [CRead 4 4 []]] [[22; 1]] false);
   ESocketWritten None; ESocketRead None (BotanRun [Activated; RecordReceived [1; 2; 3; 4; 5; 6]] false);
   ERunPosted; ESocketWritten None; ECall CClose; ERunPosted].

Definition demo_end : tls_stream := match run demo_events new_stream with Some (s, _) => s | None => new_stream end.
Definition demo_log : list action := match run demo_events new_stream with Some (_, log) => log | None => [] end.

Lemma demo_runs : run demo_events new_stream = Some (demo_end, demo_log).
Proof. vm_compute. reflexivity. Qed.

Lemma stream_contract_witness : exists k, Acts.accepts spec_step spec_start demo_log = Some k.
Proof. destruct (stream_contract _ _ _ demo_runs) as (k & Ha & _). by exists k. Defined.

Lemma calls_complete_once_witness : Permutation (started demo_log) (completed demo_log ++ outstanding demo_end).
Proof. exact (proj1 (calls_complete_once _ _ _ demo_runs)). Defined.

Lemma octets_in_order_witness : received demo_log = [1; 2; 3; 4; 5; 6] /\ delivered demo_log = [1; 2; 3; 4; 5; 6].
Proof.
  pose proof (proj1 (octets_in_order _ _ _ demo_runs)) as H. split; [rewrite H|]; vm_compute; reflexivity.
Defined.
