(* ===== verification/PacketStorage.v ===== *)
(** The packet server's store: [packet_transport/server/server_lib/packet_storage.cpp].

    Callers and the database thread share the queues under a mutex; a packet is
    an object both may hold.  A step is what one thread does between two points
    where another may run: a caller's critical section, or one action of the
    thread's loop.  The table of the database is an interface ([PacketTable]),
    as is the serialisation of a payload ([Payload]). *)

From stdpp Require Import base list numbers gmap sorting.
From Stdlib Require Import ZArith Lia.
From S2P Require Import Prelude.
Open Scope Z_scope.

(** ** What the store needs of its surroundings *)

(** The table [packets(ack PRIMARY KEY, receiver, packet)]. *)
Class PacketTable (T : Type) : Type := {
  tbl_lookup : Z -> T -> option (octets * octets);
  tbl_insert : Z -> octets -> octets -> T -> option T;
  tbl_delete : Z -> T -> T;
  tbl_select : octets -> T -> list (Z * octets);
  tbl_max : T -> Z
}.

Class PacketTableLaws (T : Type) `{PacketTable T} : Prop := {
  tbl_insert_ok a r p t : tbl_lookup a t = None ->
    exists t', tbl_insert a r p t = Some t' /\
      forall b, tbl_lookup b t' = if decide (b = a) then Some (r, p) else tbl_lookup b t;
  tbl_delete_ok a t b : tbl_lookup b (tbl_delete a t) = if decide (b = a) then None else tbl_lookup b t;
  tbl_select_ok r t a p : In (a, p) (tbl_select r t) <-> tbl_lookup a t = Some (r, p);
  tbl_max_ok t a x : tbl_lookup a t = Some x -> a <= tbl_max t;
  tbl_max_row t : tbl_max t = 0 \/ exists x, tbl_lookup (tbl_max t) t = Some x
}.

(** [transport_payload]; serialising may throw. *)
Class Payload (P : Type) : Type := {
  pl_ser : P -> option octets;
  pl_des : octets -> option P
}.

Class PayloadLaw (P : Type) `{Payload P} : Prop := {
  pl_round p bs : pl_ser p = Some bs -> pl_des bs = Some p
}.

Section storage.
Context {T P : Type} `{PacketTable T} `{Payload P}.

(** [remove_flag] lives in [ps_flags]. *)
Record queued_packet : Type := Queued {
  qp_receiver : octets;
  qp_packet : P;
  qp_ack : Z;
  qp_sender_ack : Z;
  qp_sender : octets
}.

(** [stored_packet] with its [packet_handle]: the acknowledgement number and
    whether the handle points to a queued packet. *)
Record stored_packet : Type := StoredPacket {
  sp_ack : Z;
  sp_ptr : bool;
  sp_packet : P
}.

(** Where the database thread is; [held] is the packet [thread_entry] still
    has a pointer to. *)
Inductive worker : Type :=
| WLoop (held : option queued_packet)
| WWait
| WGot (p : option queued_packet) (remove_ack : Z)
| WWrite (p : queued_packet) (remove_ack : Z)
| WNotify (p : queued_packet) (remove_ack : Z)
| WRemove (held : option queued_packet) (remove_ack : Z)
| WDone.

(** [ps_pushing]: calls of [remove] between their look at the flag and the
    queue.  [ps_reading]: calls of [get_pending_packets] that have left the
    mutex and not read the table yet.  [ps_handles]: the handles given out,
    with whether they point to a packet. *)
Record storage : Type := Storage {
  ps_db : T;
  ps_close : bool;
  ps_sequence : Z;
  ps_queue : list queued_packet;
  ps_remove_queue : list Z;
  ps_index : list (octets * Z);
  ps_flags : gset Z;
  ps_pushing : list Z;
  ps_reading : gmap nat (octets * list stored_packet);
  ps_handles : list (Z * bool);
  ps_worker : worker
}.

Definition set_db (v : T) (s : storage) : storage :=
  Storage v (ps_close s) (ps_sequence s) (ps_queue s) (ps_remove_queue s) (ps_index s) (ps_flags s) (ps_pushing s)
    (ps_reading s) (ps_handles s) (ps_worker s).
Definition set_close (v : bool) (s : storage) : storage :=
  Storage (ps_db s) v (ps_sequence s) (ps_queue s) (ps_remove_queue s) (ps_index s) (ps_flags s) (ps_pushing s)
    (ps_reading s) (ps_handles s) (ps_worker s).
Definition set_sequence (v : Z) (s : storage) : storage :=
  Storage (ps_db s) (ps_close s) v (ps_queue s) (ps_remove_queue s) (ps_index s) (ps_flags s) (ps_pushing s)
    (ps_reading s) (ps_handles s) (ps_worker s).
Definition set_queue (v : list queued_packet) (s : storage) : storage :=
  Storage (ps_db s) (ps_close s) (ps_sequence s) v (ps_remove_queue s) (ps_index s) (ps_flags s) (ps_pushing s)
    (ps_reading s) (ps_handles s) (ps_worker s).
Definition set_remove_queue (v : list Z) (s : storage) : storage :=
  Storage (ps_db s) (ps_close s) (ps_sequence s) (ps_queue s) v (ps_index s) (ps_flags s) (ps_pushing s)
    (ps_reading s) (ps_handles s) (ps_worker s).
Definition set_index (v : list (octets * Z)) (s : storage) : storage :=
  Storage (ps_db s) (ps_close s) (ps_sequence s) (ps_queue s) (ps_remove_queue s) v (ps_flags s) (ps_pushing s)
    (ps_reading s) (ps_handles s) (ps_worker s).
Definition set_flags (v : gset Z) (s : storage) : storage :=
  Storage (ps_db s) (ps_close s) (ps_sequence s) (ps_queue s) (ps_remove_queue s) (ps_index s) v (ps_pushing s)
    (ps_reading s) (ps_handles s) (ps_worker s).
Definition set_pushing (v : list Z) (s : storage) : storage :=
  Storage (ps_db s) (ps_close s) (ps_sequence s) (ps_queue s) (ps_remove_queue s) (ps_index s) (ps_flags s) v
    (ps_reading s) (ps_handles s) (ps_worker s).
Definition set_reading (v : gmap nat (octets * list stored_packet)) (s : storage) : storage :=
  Storage (ps_db s) (ps_close s) (ps_sequence s) (ps_queue s) (ps_remove_queue s) (ps_index s) (ps_flags s)
    (ps_pushing s) v (ps_handles s) (ps_worker s).
Definition set_handles (v : list (Z * bool)) (s : storage) : storage :=
  Storage (ps_db s) (ps_close s) (ps_sequence s) (ps_queue s) (ps_remove_queue s) (ps_index s) (ps_flags s)
    (ps_pushing s) (ps_reading s) v (ps_worker s).
Definition set_worker (v : worker) (s : storage) : storage :=
  Storage (ps_db s) (ps_close s) (ps_sequence s) (ps_queue s) (ps_remove_queue s) (ps_index s) (ps_flags s)
    (ps_pushing s) (ps_reading s) (ps_handles s) v.

Definition open_storage (db : T) : storage := Storage db false (tbl_max db) [] [] [] ∅ [] ∅ [] WWait.

(** What happens to a packet, for the record. *)
Inductive event : Type :=
| Inserted (p : queued_packet)
| Acked (ack : Z)
| Stored (p : queued_packet)
| Notified (p : queued_packet)
| Dropped (p : queued_packet)          (** writing failed, or the thread ended with it *)
| DeleteLost (ack : Z)
| Pending (call : nat) (receiver : octets) (packets : list stored_packet).

(** ** Callers *)

Definition insert (receiver : octets) (packet : P) (sender_ack : Z) (sender : octets) (s : storage) : storage * queued_packet :=
  let p := Queued receiver packet (ps_sequence s + 1) sender_ack sender in
  let s := set_sequence (ps_sequence s + 1) s in
  let s := set_index (ps_index s ++ [(receiver, qp_ack p)]) s in
  let s := set_queue (ps_queue s ++ [p]) s in
  (set_handles ((qp_ack p, true) :: ps_handles s) s, p).

(** The packet the database thread keeps alive. *)
Definition in_hand (w : worker) : option queued_packet :=
  match w with
  | WLoop h | WGot h _ | WRemove h _ => h
  | WWrite p _ | WNotify p _ => Some p
  | WWait | WDone => None
  end.

(** [weak_ptr::lock] *)
Definition lock_packet (ack : Z) (s : storage) : option queued_packet :=
  find (fun p => qp_ack p =? ack) (ps_queue s ++ option_list (in_hand (ps_worker s))).

(** [remove], up to the mutex; [with_ptr] whether the handle was made with a
    packet. *)
Definition remove_begin (ack : Z) (with_ptr : bool) (s : storage) : storage :=
  match (if with_ptr then lock_packet ack s else None) with
  | Some _ =>
      if decide (ack ∈ ps_flags s) then set_pushing (ps_pushing s ++ [ack]) s
      else set_flags ({[ack]} ∪ ps_flags s) s
  | None => set_pushing (ps_pushing s ++ [ack]) s
  end.

Fixpoint erase_one {A} (f : A -> bool) (l : list A) : list A :=
  match l with [] => [] | x :: l => if f x then l else x :: erase_one f l end.

(** and under it *)
Definition remove_push (ack : Z) (s : storage) : storage :=
  set_remove_queue (ps_remove_queue s ++ [ack]) (set_pushing (erase_one (Z.eqb ack) (ps_pushing s)) s).

(** *** get_pending_packets *)

(** The packets not yet pushed to the database. *)
Definition pending_in_memory (receiver : octets) (s : storage) : list stored_packet :=
  omap (fun '(r, a) =>
    if decide (r = receiver)
    then match lock_packet a s with Some p => Some (StoredPacket (qp_ack p) true (qp_packet p)) | None => None end
    else None) (ps_index s).

(** The rows; one that cannot be read is skipped. *)
Definition pending_in_database (receiver : octets) (db : T) : list stored_packet :=
  omap (fun '(a, bs) => match pl_des bs with Some p => Some (StoredPacket a false p) | None => None end)
    (tbl_select receiver db).

#[local] Instance ack_le : SqSubsetEq stored_packet := fun x y => sp_ack x <= sp_ack y.
#[local] Instance ack_le_dec : RelDecision (⊑@{stored_packet}).
Proof. intros x y. unfold sqsubseteq, ack_le. apply _. Defined.

(** [std::unique] by ack: the first of each run of equals stays. *)
Fixpoint unique (l : list stored_packet) : list stored_packet :=
  match l with
  | [] => []
  | x :: l' =>
      match unique l' with
      | y :: rest => if sp_ack x =? sp_ack y then x :: rest else x :: y :: rest
      | [] => [x]
      end
  end.

Definition merge_pending (memory database : list stored_packet) : list stored_packet :=
  unique (merge_sort (⊑) (database ++ memory)).

(** The two halves of a call; [call] tells the calls apart. *)
Definition pending_begin (call : nat) (receiver : octets) (s : storage) : storage :=
  set_reading (<[call := (receiver, pending_in_memory receiver s)]> (ps_reading s)) s.

Definition pending_end (call : nat) (s : storage) : option (storage * list event) :=
  match ps_reading s !! call with
  | Some (receiver, memory) =>
      let database := pending_in_database receiver (ps_db s) in
      let s := set_reading (delete call (ps_reading s)) s in
      let s := set_handles (((fun x => (sp_ack x, sp_ptr x)) <$> memory ++ database) ++ ps_handles s) s in
      Some (s, [Pending call receiver (merge_pending memory database)])
  | None => None
  end.

(** The query throws: so does the call, and what it found in memory is dropped. *)
Definition pending_fails (call : nat) (s : storage) : option (storage * list event) :=
  match ps_reading s !! call with
  | Some _ => Some (set_reading (delete call (ps_reading s)) s, [])
  | None => None
  end.

(** ** The database thread *)

Definition remove_from_index (p : queued_packet) (index : list (octets * Z)) : list (octets * Z) :=
  erase_one (fun '(r, a) => bool_decide (r = qp_receiver p) && (a =? qp_ack p)) index.

Definition may_run (s : storage) : bool :=
  ps_close s || negb (zlen (ps_queue s) =? 0) || negb (zlen (ps_remove_queue s) =? 0).

(** The critical section of [next_packet], entered when the wait is over; the
    loop ends when it returns false, and what it took is lost. *)
Definition next_packet (s : storage) : storage * list event :=
  let p := head (ps_queue s) in
  let r := default 0 (head (ps_remove_queue s)) in
  let s := match p with Some p => set_index (remove_from_index p (ps_index s)) s | None => s end in
  let s := set_remove_queue (tail (ps_remove_queue s)) (set_queue (tail (ps_queue s)) s) in
  if ps_close s then (set_worker WDone s, (Dropped <$> option_list p) ++ (if r =? 0 then [] else [DeleteLost r]))
  else (set_worker (WGot p r) s, []).

Definition write_to_database (ok : bool) (p : queued_packet) (db : T) : option T :=
  if ok
  then match pl_ser (qp_packet p) with
       | Some bs => tbl_insert (qp_ack p) (qp_receiver p) bs db
       | None => None
       end
  else None.

Definition remove_from_database (ok : bool) (ack : Z) (s : storage) : storage * list event :=
  if ok then (set_db (tbl_delete ack (ps_db s)) s, []) else (s, [DeleteLost ack]).

Definition set_flag (ack : Z) (s : storage) : storage := set_flags ({[ack]} ∪ ps_flags s) s.

(** One action of [thread_entry]; [ok]: the database call does not throw. *)
Definition thread_step (ok : bool) (s : storage) : option (storage * list event) :=
  match ps_worker s with
  | WLoop _ => Some (set_worker WWait s, [])
  | WWait => if may_run s then Some (next_packet s) else None
  | WGot None r => Some (set_worker (WRemove None r) s, [])
  | WGot (Some p) r =>
      if decide (qp_ack p ∈ ps_flags s) then Some (set_worker (WNotify p r) s, [])
      else Some (set_worker (WWrite p r) (set_flag (qp_ack p) s), [])
  | WWrite p r =>
      match write_to_database ok p (ps_db s) with
      | Some db => Some (set_worker (WNotify p r) (set_db db s), [Stored p])
      | None => Some (set_worker (WRemove (Some p) r) s, [Dropped p])
      end
  | WNotify p r => Some (set_worker (WRemove (Some p) r) s, [Notified p])
  | WRemove h r =>
      Some (if r =? 0 then (set_worker (WLoop h) s, []) else remove_from_database ok r (set_worker (WLoop h) s))
  | WDone => None
  end.

(** ** Closing *)

Definition close_begin (s : storage) : storage := set_close true s.

(** [ok]: by the ack, whether the database call works. *)
Definition purge_write (ok : Z -> bool) (p : queued_packet) (s : storage) : storage * list event :=
  let s := set_queue (tail (ps_queue s)) s in
  if decide (qp_ack p ∈ ps_flags s) then (s, [])
  else let s := set_flag (qp_ack p) s in
       match write_to_database (ok (qp_ack p)) p (ps_db s) with
       | Some db => (set_db db s, [Stored p])
       | None => (s, [Dropped p])
       end.

Fixpoint for_each {A} (f : A -> storage -> storage * list event) (l : list A) (s : storage) : storage * list event :=
  match l with
  | [] => (s, [])
  | x :: l => let '(s1, e1) := f x s in let '(s2, e2) := for_each f l s1 in (s2, e1 ++ e2)
  end.

Definition purge_remove (ok : Z -> bool) (a : Z) (s : storage) : storage * list event :=
  remove_from_database (ok a) a (set_remove_queue (tail (ps_remove_queue s)) s).

(** [purge_queues], after the thread was joined: each element leaves its queue
    as it is visited, where the code clears the queue after the loop. *)
Definition purge_queues (ok : Z -> bool) (s : storage) : storage * list event :=
  let '(s1, e1) := for_each (purge_write ok) (ps_queue s) s in
  let '(s2, e2) := for_each (purge_remove ok) (ps_remove_queue s1) s1 in
  (s2, e1 ++ e2).

(** ** Steps *)

Inductive label : Type :=
| LInsert (receiver : octets) (packet : P) (sender_ack : Z) (sender : octets)
| LAck (ack : Z) (with_ptr : bool)      (** [mark_as_acked] on a handle *)
| LPush (ack : Z)
| LPending (call : nat) (receiver : octets)
| LSelect (call : nat)
| LSelectFails (call : nat)
| LThread (ok : bool)
| LClose
| LPurge (ok : Z -> bool).

Definition step (l : label) (s : storage) : option (storage * list event) :=
  match l with
  | LInsert r p sa snd => let '(s', q) := insert r p sa snd s in Some (s', [Inserted q])
  | LAck a ptr => if decide ((a, ptr) ∈ ps_handles s) then Some (remove_begin a ptr s, [Acked a]) else None
  | LPush a => if decide (a ∈ ps_pushing s) then Some (remove_push a s, []) else None
  | LPending c r => match ps_reading s !! c with None => Some (pending_begin c r s, []) | Some _ => None end
  | LSelect c => pending_end c s
  | LSelectFails c => pending_fails c s
  | LThread ok => thread_step ok s
  | LClose => Some (close_begin s, [])
  | LPurge ok => match ps_worker s with WDone => Some (purge_queues ok s) | _ => None end
  end.

Fixpoint run (ls : list label) (s : storage) : option (storage * list event) :=
  match ls with
  | [] => Some (s, [])
  | l :: ls =>
      match step l s with
      | Some (s1, e1) => match run ls s1 with Some (s2, e2) => Some (s2, e1 ++ e2) | None => None end
      | None => None
      end
  end.
End storage.
Arguments queued_packet P : clear implicits.
Arguments stored_packet P : clear implicits.
Arguments storage T P : clear implicits.
Arguments worker P : clear implicits.
Arguments event P : clear implicits.
Arguments label P : clear implicits.
