(* ===== verification/PacketStorageSafety.v ===== *)
(** What the packet server's store promises, whatever the interleaving of its
    callers with the database thread: a sender that is notified can forget its
    packet, acknowledged packets leave the table, and a receiver is offered
    every packet it has not acknowledged. *)

From stdpp Require Import base list numbers gmap sorting.
From Stdlib Require Import ZArith Lia.
From S2P Require Import Prelude PacketStorage.
Open Scope Z_scope.

(** ** The invariant *)
Section safety.
Context {T P : Type} `{PacketTableLaws T} `{PayloadLaw P}.

#[local] Abbreviation storage := (storage T P).
#[local] Abbreviation event := (event P).
#[local] Abbreviation queued_packet := (queued_packet P).
#[local] Abbreviation stored_packet := (stored_packet P).

(** Where a packet is, and which deletions are under way. *)
Definition got (w : worker P) : list queued_packet := match w with WGot (Some p) _ => [p] | _ => [] end.
Definition writing (w : worker P) : list queued_packet := match w with WWrite p _ => [p] | _ => [] end.
Definition notifying (w : worker P) : list queued_packet := match w with WNotify p _ => [p] | _ => [] end.
Definition nonzero (r : Z) : list Z := if r =? 0 then [] else [r].
Definition deleting (w : worker P) : list Z :=
  match w with WGot _ r | WWrite _ r | WNotify _ r | WRemove _ r => nonzero r | _ => [] end.
Definition unwritten (s : storage) : list queued_packet := got (ps_worker s) ++ ps_queue s.
Definition to_write (s : storage) : list queued_packet := writing (ps_worker s) ++ unwritten s.
Definition deletes (s : storage) : list Z := deleting (ps_worker s) ++ ps_remove_queue s ++ ps_pushing s.
Definition row (a : Z) (s : storage) : option (octets * octets) := tbl_lookup a (ps_db s).

Lemma elem_of_nonzero a r : a ∈ nonzero r <-> a = r /\ r <> 0.
Proof. unfold nonzero. destruct (Z.eqb_spec r 0); set_solver. Qed.

Lemma elem_of_head_tail (r : Z) l : (r ∈ nonzero (default 0 (head l)) ++ tail l -> r ∈ l) /\
  (r ∈ l -> r <> 0 -> r ∈ nonzero (default 0 (head l)) ++ tail l).
Proof. destruct l as [|x l]; cbn; [by split|]. rewrite elem_of_app, elem_of_nonzero, elem_of_cons. naive_solver. Qed.

Lemma unwritten_where (s : storage) p : p ∈ unwritten s -> p ∈ to_write s /\ (p ∈ ps_queue s \/ in_hand (ps_worker s) = Some p).
Proof.
  unfold to_write, unwritten. intros Hp. split; [apply elem_of_app; by right|].
  apply elem_of_app in Hp as [Hp|]; [right|by left]. destruct (ps_worker s) as [| |[]| | | |]; cbn in *; set_solver.
Qed.

(** [old]: the rows that were there before. *)
Context (old : Z -> Prop).

Record inv (s : storage) (log : list event) : Prop := {
  i_nodup : NoDup (qp_ack <$> to_write s);
  i_inserted p : p ∈ ps_queue s \/ in_hand (ps_worker s) = Some p -> Inserted p ∈ log;
  i_range p : Inserted p ∈ log -> 0 < qp_ack p <= ps_sequence s;
  i_unique p q : Inserted p ∈ log -> Inserted q ∈ log -> qp_ack p = qp_ack q -> p = q;
  i_no_row p : p ∈ to_write s -> row (qp_ack p) s = None;
  i_rows a x : row a s = Some x -> 0 < a <= ps_sequence s;
  i_row_from a x : row a s = Some x -> old a \/ exists p, Inserted p ∈ log /\ qp_ack p = a;
  i_row_of p x : Inserted p ∈ log -> row (qp_ack p) s = Some x ->
    exists bs, x = (qp_receiver p, bs) /\ pl_ser (qp_packet p) = Some bs;
  i_acked a : Acked a ∈ log -> 0 < a <= ps_sequence s;
  i_sequence : 0 <= ps_sequence s;
  i_flags a : a ∈ ps_flags s -> a <= ps_sequence s;
  i_flag p : p ∈ unwritten s -> qp_ack p ∈ ps_flags s <-> Acked (qp_ack p) ∈ log;
  i_flag_hand p : in_hand (ps_worker s) = Some p -> got (ps_worker s) = [] -> qp_ack p ∈ ps_flags s;
  i_deletes a : a ∈ deletes s -> Acked a ∈ log;
  i_no_leak a : Acked a ∈ log -> row a s <> None \/ a ∈ qp_ack <$> writing (ps_worker s) ->
    a ∈ deletes s \/ DeleteLost a ∈ log;
  i_handles a ptr : (a, ptr) ∈ ps_handles s -> 0 < a <= ps_sequence s /\ (ptr = false -> a ∉ qp_ack <$> to_write s);
  i_reading c r mem x : ps_reading s !! c = Some (r, mem) -> x ∈ mem ->
    exists p, Inserted p ∈ log /\ qp_receiver p = r /\ x = StoredPacket (qp_ack p) true (qp_packet p);
  i_account p : Inserted p ∈ log ->
    Acked (qp_ack p) ∈ log \/ Dropped p ∈ log \/ p ∈ to_write s \/ Stored p ∈ log;
  i_stored p : Stored p ∈ log -> Inserted p ∈ log /\ (Acked (qp_ack p) ∈ log \/ row (qp_ack p) s <> None);
  i_heard p : Inserted p ∈ log ->
    Notified p ∈ log \/ Dropped p ∈ log \/ p ∈ to_write s \/ p ∈ notifying (ps_worker s) \/ ps_close s = true;
  i_notified p : Notified p ∈ log \/ p ∈ notifying (ps_worker s) ->
    Inserted p ∈ log /\ (Acked (qp_ack p) ∈ log \/ Stored p ∈ log);
  i_index p : p ∈ ps_queue s -> (qp_receiver p, qp_ack p) ∈ ps_index s;
  i_index_of r a : (r, a) ∈ ps_index s -> exists p, Inserted p ∈ log /\ qp_receiver p = r /\ qp_ack p = a;
  i_over : ps_worker s = WDone -> ps_close s = true
}.

Lemma tbl_insert_lookup a r bs (t t' : T) : tbl_lookup a t = None -> tbl_insert a r bs t = Some t' ->
  forall b, tbl_lookup b t' = if decide (b = a) then Some (r, bs) else tbl_lookup b t.
Proof. intros E E'. destruct (tbl_insert_ok a r bs t E) as (t2 & E2 & HL). rewrite E2 in E'. by injection E' as <-. Qed.

Lemma inv_open db : (forall a x, tbl_lookup a db = Some x -> 0 < a /\ old a) -> inv (open_storage db) [].
Proof.
  intros Hpos. constructor; cbn; try (set_solver).
  - constructor.
  - intros a x Ha. split; [by eapply Hpos|by eapply tbl_max_ok].
  - destruct (tbl_max_row db) as [-> |[x Hx]]; [lia|]. apply Hpos in Hx. lia.
Qed.

#[local] Ltac views := unfold to_write, unwritten, deletes, row, set_flag in *; cbn in *.



Lemma nodup_head (p : queued_packet) l : NoDup (qp_ack <$> p :: l) -> forall q, q ∈ l -> qp_ack q <> qp_ack p.
Proof. intros [X _]%NoDup_cons q Hq E. apply X. rewrite <- E. by apply list_elem_of_fmap_2. Qed.

(** Fields a step does not touch. *)
#[local] Ltac kept I :=
  first [ exact (i_nodup _ _ I) | exact (i_inserted _ _ I) | exact (i_range _ _ I) | exact (i_unique _ _ I)
        | exact (i_no_row _ _ I) | exact (i_rows _ _ I) | exact (i_row_from _ _ I) | exact (i_row_of _ _ I) | exact (i_acked _ _ I)
        | exact (i_sequence _ _ I) | exact (i_flags _ _ I) | exact (i_flag _ _ I) | exact (i_flag_hand _ _ I) | exact (i_deletes _ _ I) | exact (i_no_leak _ _ I)
        | exact (i_handles _ _ I) | exact (i_reading _ _ I) | exact (i_account _ _ I) | exact (i_stored _ _ I) | exact (i_heard _ _ I)
        | exact (i_notified _ _ I) | exact (i_index _ _ I) | exact (i_index_of _ _ I)
        | exact (i_over _ _ I) | let Hw := fresh in intros Hw; cbn in Hw; discriminate Hw ].
#[local] Ltac step_fields I := constructor; try solve [kept I].

Lemma erase_one_elem {A} (f : A -> bool) l x : x ∈ l -> f x = false -> x ∈ erase_one f l.
Proof.
  induction l as [|y l IH]; cbn; [done|]. rewrite elem_of_cons. intros [->|Hx] Hf.
  - rewrite Hf. by left.
  - destruct (f y); [done|right; auto].
Qed.

Lemma erase_one_sub {A} (f : A -> bool) l x : x ∈ erase_one f l -> x ∈ l.
Proof. induction l as [|y l IH]; cbn; [done|]. destruct (f y); set_solver. Qed.

(** Acknowledgements may move among the deletions under way. *)
Lemma inv_deletes_moved rq pu s log : inv s log ->
  (forall a, a ∈ rq ++ pu <-> a ∈ ps_remove_queue s ++ ps_pushing s) ->
  inv (set_remove_queue rq (set_pushing pu s)) log.
Proof.
  intros I Hm.
  assert (forall a, a ∈ deletes (set_remove_queue rq (set_pushing pu s)) <-> a ∈ deletes s) as Hd.
  { intros a. unfold deletes. rewrite !(elem_of_app _ (_ ++ _)). cbn. by rewrite Hm. }
  step_fields I.
  - intros a Ha%Hd. by apply (i_deletes _ _ I).
  - intros a. rewrite Hd. apply (i_no_leak _ _ I).
Qed.

Lemma inv_push a s log : inv s log -> a ∈ ps_pushing s -> inv (remove_push a s) log.
Proof.
  intros I Ha. apply (inv_deletes_moved _ _ _ _ I). intros b. rewrite !elem_of_app, list_elem_of_singleton.
  pose proof (erase_one_sub (Z.eqb a) (ps_pushing s) b). pose proof (erase_one_elem (Z.eqb a) (ps_pushing s) b) as Hk.
  rewrite Z.eqb_neq in Hk. destruct (decide (b = a)) as [->|]; tauto || (assert (a <> b) by done; tauto).
Qed.

Lemma inv_close s log : inv s log -> inv (close_begin s) log.
Proof. intros I. step_fields I; [intros p Hp; cbn; tauto|done]. Qed.

#[local] Ltac at_worker E I := match type of I with inv ?s _ => destruct s; cbn in E; subst end; step_fields I; views.
#[local] Ltac by_field I f :=
  let X := fresh "X" in pose proof (f _ _ I) as X; clear I; views; first [solve [set_solver] | solve [naive_solver]].
#[local] Ltac log_in := rewrite ?elem_of_app, ?list_elem_of_singleton in *.

Lemma inv_loop h s log : inv s log -> ps_worker s = WLoop h -> inv (set_worker WWait s) log.
Proof.
  intros I E. at_worker E I.
  - intros p [?|[=]]. apply (i_inserted _ _ I). cbn; auto.
  - done.
Qed.

Lemma inv_nothing r s log : inv s log -> ps_worker s = WGot None r -> inv (set_worker (WRemove None r) s) log.
Proof. intros I E. at_worker E I. Qed.

Lemma inv_acked_already p r s log : inv s log -> ps_worker s = WGot (Some p) r -> qp_ack p ∈ ps_flags s ->
  inv (set_worker (WNotify p r) s) log.
Proof.
  intros I E Hf. 
  assert (Acked (qp_ack p) ∈ log) as Ha by (apply (i_flag _ _ I); [views; rewrite E; set_solver|done]).
  assert (Inserted p ∈ log) as Hi by (apply (i_inserted _ _ I); rewrite E; by right).
  at_worker E I.
  - pose proof (i_nodup _ _ I) as X. views. by apply NoDup_cons in X as [_ X].
  - by_field I i_no_row.
  - by_field I i_flag.
  - naive_solver.
  - intros a ptr Hh. pose proof (i_handles _ _ I _ _ Hh). views. set_solver.
  - intros q Hq. pose proof (i_account _ _ I _ Hq). views. set_solver.
  - intros q Hq. pose proof (i_heard _ _ I _ Hq). views. set_solver.
  - pose proof (i_notified _ _ I). views. set_solver.
Qed.

Lemma inv_write p r s log : inv s log -> ps_worker s = WGot (Some p) r -> qp_ack p ∉ ps_flags s ->
  inv (set_worker (WWrite p r) (set_flag (qp_ack p) s)) log.
Proof.
  intros I E Hf. 
  assert (Acked (qp_ack p) ∉ log) as Ha.
  { intros Ha. apply Hf, (i_flag _ _ I); [views; rewrite E; set_solver|done]. }
  assert (Inserted p ∈ log) as Hi by (apply (i_inserted _ _ I); rewrite E; by right).
  pose proof (i_range _ _ I _ Hi) as Hr.
  at_worker E I.
  - intros a. pose proof (i_flags _ _ I a). views. rewrite elem_of_union, elem_of_singleton. intros [->|]; [lia|auto].
  - intros q Hq. pose proof (nodup_head _ _ (i_nodup _ _ I) q Hq). pose proof (i_flag _ _ I q). views. set_solver.
  - set_solver.
  - intros a Ha' [Hx|Hw]; [|set_solver]. pose proof (i_no_leak _ _ I a). views. tauto.
Qed.

Lemma inv_write_failed p r s log : inv s log -> ps_worker s = WWrite p r -> Dropped p ∈ log ->
  inv (set_worker (WRemove (Some p) r) s) log.
Proof.
  intros I E Hd. 
  assert (NoDup (qp_ack <$> unwritten s)) as Hnd.
  { pose proof (i_nodup _ _ I) as X. views. rewrite E in *. by apply NoDup_cons in X as [_ X]. }
  at_worker E I.
  - done.
  - by_field I i_no_row.
  - intros a Ha [Hx|Hx]; [|set_solver]. apply (i_no_leak _ _ I a Ha). by left.
  - intros a ptr Hh. pose proof (i_handles _ _ I _ _ Hh). views. set_solver.
  - intros q Hq. pose proof (i_account _ _ I _ Hq). views. set_solver.
  - intros q Hq. pose proof (i_heard _ _ I _ Hq). views. set_solver.
Qed.

(** Events that only add to what is known. *)
Definition adds (s : storage) (log : list event) (e : event) : Prop :=
  match e with
  | Dropped _ | DeleteLost _ | Pending _ _ _ => True
  | Stored p => Inserted p ∈ log /\ row (qp_ack p) s <> None
  | Notified p => Inserted p ∈ log /\ (Acked (qp_ack p) ∈ log \/ Stored p ∈ log)
  | Inserted _ | Acked _ => False
  end.

Lemma inv_event e s log : inv s log -> adds s log e -> inv s (log ++ [e]).
Proof.
  intros I He.
  assert (forall p, Inserted p ∈ log ++ [e] <-> Inserted p ∈ log) as Hi by (intros p; log_in; destruct e; naive_solver).
  assert (forall a, Acked a ∈ log ++ [e] <-> Acked a ∈ log) as Ha by (intros a; log_in; destruct e; naive_solver).
  assert (forall x, x ∈ log -> x ∈ log ++ [e]) as Hm by (intros x; log_in; tauto).
  step_fields I.
  - intros p Hp. by apply Hi, (i_inserted _ _ I).
  - intros p Hp%Hi. by apply (i_range _ _ I).
  - intros p q Hp%Hi Hq%Hi. by apply (i_unique _ _ I).
  - intros a x Hr. destruct (i_row_from _ _ I a x Hr) as [|(p & Hp%Hi & ?)]; eauto.
  - intros p x Hp%Hi. by apply (i_row_of _ _ I).
  - intros a Hx%Ha. by apply (i_acked _ _ I).
  - intros p Hp. rewrite Ha. by apply (i_flag _ _ I).
  - intros a Hx. by apply Ha, (i_deletes _ _ I).
  - intros a Hx%Ha Hr. destruct (i_no_leak _ _ I a Hx Hr); auto.
  - intros c r mem x Hr Hx. destruct (i_reading _ _ I c r mem x Hr Hx) as (p & Hp%Hi & Hq). eauto.
  - intros p Hp%Hi. rewrite Ha. destruct (i_account _ _ I p Hp) as [|[|[|]]]; auto.
  - intros p. rewrite Hi, Ha. pose proof (i_stored _ _ I p) as Hn. log_in.
    destruct e; cbn in He; naive_solver.
  - intros p Hp%Hi. destruct (i_heard _ _ I p Hp) as [|[|]]; auto.
  - intros p. rewrite Hi, Ha. pose proof (i_notified _ _ I p) as Hn. log_in.
    destruct e; cbn in He; naive_solver.
  - intros r a Hx. destruct (i_index_of _ _ I r a Hx) as (p & Hp%Hi & Hq). eauto.
Qed.

Lemma inv_written r p db s log : inv s log -> ps_worker s = WWrite p r -> write_to_database true p (ps_db s) = Some db ->
  inv (set_worker (WNotify p r) (set_db db s)) (log ++ [Stored p]).
Proof.
  intros I E W.
  assert (Inserted p ∈ log) as Hi by (apply (i_inserted _ _ I); rewrite E; by right).
  cbn in W. destruct (pl_ser (qp_packet p)) as [bs|] eqn:Es; [|done].
  pose proof (i_no_row _ _ I p) as Hn. pose proof (i_range _ _ I p Hi) as Hr.
  pose proof (i_nodup _ _ I) as X. unfold to_write in X, Hn. rewrite E in X, Hn. cbn [writing app] in X, Hn.
  pose proof (nodup_head _ _ X) as Hne. apply NoDup_cons in X as [_ Hnd].
  assert (forall a, tbl_lookup a db = if decide (a = qp_ack p) then Some (qp_receiver p, bs) else row a s) as HL.
  { apply tbl_insert_lookup; [apply Hn; by left|done]. }
  assert (forall e, e <> Stored p -> (e ∈ log ++ [Stored p] <-> e ∈ log)) as Hold.
  { intros e He. rewrite elem_of_app, list_elem_of_singleton. tauto. }
  assert (forall q, Stored q ∈ log ++ [Stored p] <-> Stored q ∈ log \/ q = p) as Hst.
  { intros q. rewrite elem_of_app, list_elem_of_singleton. naive_solver. }
  destruct s; cbn in E; subst; constructor; unfold to_write, unwritten, deletes, row in *; cbn in *; intros *;
    rewrite ?Hst, ?Hold by done.
  - done.
  - apply (i_inserted _ _ I).
  - apply (i_range _ _ I).
  - apply (i_unique _ _ I).
  - intros Hq. rewrite HL, decide_False by auto. apply (i_no_row _ _ I). views. by right.
  - rewrite HL. case_decide; [subst; auto|apply (i_rows _ _ I)].
  - rewrite HL. case_decide as D; [subst; intros _; right; exists p; by rewrite Hold|].
    intros Hx. destruct (i_row_from _ _ I a x Hx) as [|(q & ? & ?)]; [auto|right; exists q; by rewrite Hold].
  - intros Hq. rewrite HL. case_decide as D; [|by apply (i_row_of _ _ I)].
    intros [= <-]. rewrite (i_unique _ _ I p0 p Hq Hi D). eauto.
  - apply (i_acked _ _ I).
  - apply (i_sequence _ _ I).
  - apply (i_flags _ _ I).
  - apply (i_flag _ _ I).
  - intros Hh _. by apply (i_flag_hand _ _ I).
  - apply (i_deletes _ _ I).
  - intros Ha [Hx|Hx]; [|set_solver]. apply (i_no_leak _ _ I a Ha). views.
    rewrite HL in Hx. case_decide; [right; set_solver|by left].
  - intros Hh. pose proof (i_handles _ _ I _ _ Hh). views. set_solver.
  - intros Hm Ha. destruct (i_reading _ _ I _ _ _ _ Hm Ha) as (q & Hq & ?). exists q. by rewrite Hold.
  - intros Hq. pose proof (i_account _ _ I _ Hq). views. set_solver.
  - intros [Hq| ->]; [|by rewrite HL, decide_True; auto].
    destruct (i_stored _ _ I _ Hq). rewrite HL. case_decide; auto.
  - intros Hq. pose proof (i_heard _ _ I _ Hq). views. set_solver.
  - pose proof (i_notified _ _ I p0). views. set_solver.
  - apply (i_index _ _ I).
  - intros Hx. destruct (i_index_of _ _ I _ _ Hx) as (q & Hq & ?). exists q. by rewrite Hold.
  - done.
Qed.

Lemma inv_notified p r s log : inv s log -> ps_worker s = WNotify p r ->
  inv (set_worker (WRemove (Some p) r) s) (log ++ [Notified p]).
Proof.
  intros I E. apply (inv_event (Notified p)) in I.
  2: { apply (i_notified _ _ I). right. rewrite E. set_solver. }
  assert (Notified p ∈ log ++ [Notified p]) as Hn by set_solver. revert I Hn. generalize (log ++ [Notified p]). intros log' I Hn.
  at_worker E I.
  - intros q Hq. pose proof (i_heard _ _ I _ Hq). views. set_solver.
  - intros q Hq. apply (i_notified _ _ I). left. set_solver.
Qed.

(** The end of a round: the deletion was done, was not needed, or failed. *)
Lemma inv_round_over h r s log : inv s log -> ps_worker s = WRemove h r ->
  (r <> 0 -> row r s = None \/ DeleteLost r ∈ log) ->
  inv (set_worker (WLoop h) s) log.
Proof.
  intros I E Hr. at_worker E I.
  - intros a Ha. apply (i_deletes _ _ I). views. set_solver.
  - intros a Ha Hx. pose proof (i_no_leak _ _ I a Ha) as X. views. log_in. rewrite elem_of_nonzero in X.
    destruct Hx as [Hx|]; [|set_solver]. destruct (decide (a = r)) as [->|]; [|tauto].
    destruct (decide (r = 0)); [tauto|]. destruct Hr; tauto.
Qed.

Lemma inv_deleted a s log : inv s log -> Acked a ∈ log -> inv (set_db (tbl_delete a (ps_db s)) s) log.
Proof.
  intros I Ha.
  assert (forall b, tbl_lookup b (tbl_delete a (ps_db s)) = if decide (b = a) then None else row b s) as HL by apply tbl_delete_ok.
  step_fields I; views.
  - intros p Hp. rewrite HL. case_decide; [done|by apply (i_no_row _ _ I)].
  - intros b x. rewrite HL. case_decide; [done|apply (i_rows _ _ I)].
  - intros b x. rewrite HL. case_decide; [done|apply (i_row_from _ _ I)].
  - intros p x Hp. rewrite HL. case_decide; [done|by apply (i_row_of _ _ I)].
  - intros b Hb Hx. apply (i_no_leak _ _ I b Hb). rewrite HL in Hx. case_decide; tauto.
  - intros p Hp. rewrite HL. destruct (i_stored _ _ I p Hp) as [Hi Hx]. case_decide; [|tauto].
    split; [done|left; congruence].
Qed.

(** Taking the heads of both queues, as [next_packet] does. *)
Definition take (s : storage) : storage :=
  let p := head (ps_queue s) in
  let s' := match p with Some p => set_index (remove_from_index p (ps_index s)) s | None => s end in
  set_worker (WGot p (default 0 (head (ps_remove_queue s))))
    (set_remove_queue (tail (ps_remove_queue s)) (set_queue (tail (ps_queue s)) s')).

Definition idle (w : worker P) : Prop := w = WWait \/ w = WDone.

Lemma remove_from_index_other (p q : queued_packet) (l : list (octets * Z)) : qp_ack q <> qp_ack p ->
  (qp_receiver q, qp_ack q) ∈ l -> (qp_receiver q, qp_ack q) ∈ remove_from_index p l.
Proof.
  intros Hne Hq. apply erase_one_elem; [done|]. apply Z.eqb_neq in Hne. rewrite Hne. apply andb_false_r.
Qed.

Lemma inv_take s log : inv s log -> idle (ps_worker s) -> inv (take s) log.
Proof.
  intros I Hw.
  set (heads := nonzero (default 0 (head (ps_remove_queue s))) ++ tail (ps_remove_queue s) ++ ps_pushing s).
  assert (deletes s = ps_remove_queue s ++ ps_pushing s) as Hd by (views; by destruct Hw as [-> | ->]).
  assert (forall a, a ∈ heads -> Acked a ∈ log) as Hdel.
  { intros a Ha. apply (i_deletes _ _ I). rewrite Hd. pose proof (elem_of_head_tail a (ps_remove_queue s)).
    unfold heads in Ha. log_in. tauto. }
  assert (forall a, Acked a ∈ log -> row a s <> None \/ a ∈ [] -> a ∈ heads \/ DeleteLost a ∈ log) as Hleak.
  { intros a Ha [Hx|Hx]; [|set_solver]. pose proof (i_acked _ _ I a Ha).
    destruct (i_no_leak _ _ I a Ha) as [X|]; [by left| |by right]. left. rewrite Hd in X.
    pose proof (elem_of_head_tail a (ps_remove_queue s)) as [_ Y]. unfold heads. log_in.
    destruct X as [X|]; [|tauto]. specialize (Y X). log_in. destruct Y; [lia|tauto|tauto]. }
  pose proof (i_nodup _ _ I) as Hnd. pose proof (i_inserted _ _ I) as Hins. pose proof (i_index _ _ I) as Hix.
  subst heads.
  destruct s as [db cl sq [|p q] rq ix fl pu rd ha w]; cbn in Hw; destruct Hw as [-> | ->]; step_fields I; views;
    try assumption.
  all: first [ done
    | intros p' [?|[= <-]]; apply Hins; set_solver
    | intros q' Hq'; apply remove_from_index_other; [by eapply nodup_head|apply Hix; set_solver]
    | intros r' a' Ha'%erase_one_sub; by apply (i_index_of _ _ I) ].
Qed.

(** The thread ends: what it still had is lost. *)
Lemma inv_done s log : inv s log -> ps_close s = true ->
  (forall p, p ∈ writing (ps_worker s) ++ got (ps_worker s) -> Dropped p ∈ log) ->
  (forall a, a ∈ deleting (ps_worker s) -> DeleteLost a ∈ log) ->
  inv (set_worker WDone s) log.
Proof.
  intros I Ec Hp Hd.
  assert (forall q, q ∈ ps_queue s -> q ∈ unwritten s /\ q ∈ to_write s) as Hq by (intros q; views; log_in; tauto).
  step_fields I; views.
  - pose proof (i_nodup _ _ I) as X. views. rewrite !fmap_app, !NoDup_app in X. tauto.
  - intros p [?|[=]]. apply (i_inserted _ _ I). tauto.
  - intros p Hp'. apply (i_no_row _ _ I), Hq, Hp'.
  - intros p Hp'. apply (i_flag _ _ I), Hq, Hp'.
  - done.
  - intros a Ha. apply (i_deletes _ _ I). views. log_in. tauto.
  - intros a Ha [Hx|Hx]; [|set_solver]. destruct (i_no_leak _ _ I a Ha) as [X|]; [by left| |by right].
    specialize (Hd a). views. log_in. tauto.
  - intros a ptr Hh. destruct (i_handles _ _ I _ _ Hh) as [? X]. split; [done|]. intros E. specialize (X E).
    views. rewrite !fmap_app in X. log_in. tauto.
  - intros p Hi. pose proof (i_account _ _ I p Hi). specialize (Hp p). views. log_in. tauto.
  - intros p Hi. tauto.
  - intros p [Hn|Hn]; [|set_solver]. apply (i_notified _ _ I). by left.
  - done.
Qed.

Lemma inv_index ix s log : inv s log -> (forall p, p ∈ ps_queue s -> (qp_receiver p, qp_ack p) ∈ ix) ->
  (forall r a, (r, a) ∈ ix -> exists p, Inserted p ∈ log /\ qp_receiver p = r /\ qp_ack p = a) ->
  inv (set_index ix s) log.
Proof. intros I Hix Hof. step_fields I; [exact Hix|exact Hof]. Qed.

(** *** The steps of the callers *)

Lemma inv_insert r pl sa snd s log : inv s log ->
  inv (fst (insert r pl sa snd s)) (log ++ [Inserted (Datatypes.snd (insert r pl sa snd s))]).
Proof.
  intros I. set (p := Queued r pl (ps_sequence s + 1) sa snd).
  change (inv (fst (insert r pl sa snd s)) (log ++ [Inserted p])). set (s' := fst (insert r pl sa snd s)).
  assert (to_write s' = to_write s ++ [p]) as Ew by (views; by rewrite !app_assoc).
  assert (unwritten s' = unwritten s ++ [p]) as Eu by (views; by rewrite !app_assoc).
  assert (ps_queue s' = ps_queue s ++ [p] /\ ps_index s' = ps_index s ++ [(qp_receiver p, qp_ack p)]) as [Eq Ei] by done.
  assert (ps_worker s' = ps_worker s /\ ps_sequence s' = qp_ack p /\ ps_flags s' = ps_flags s) as (Ek & Es & Ef) by done.
  assert (deletes s' = deletes s /\ ps_handles s' = (qp_ack p, true) :: ps_handles s) as [Ed Eh] by done.
  assert (ps_reading s' = ps_reading s /\ ps_close s' = ps_close s /\ forall a, row a s' = row a s) as (Er & Ec & Erow) by done.
  assert (forall q, q ∈ to_write s -> Inserted q ∈ log) as Hi.
  { intros q Hq. apply (i_inserted _ _ I). views. destruct (ps_worker s) as [| |[]| | | |]; cbn in *; set_solver. }
  assert (qp_ack p = ps_sequence s + 1) as Hp by done.
  clearbody s' p. pose proof (i_sequence _ _ I) as Hs.
  assert (forall a, Acked a ∈ log -> a < qp_ack p) as Ha by (intros a X%(i_acked _ _ I); lia).
  assert (forall a, a ∈ ps_flags s -> a < qp_ack p) as Hf by (intros a X%(i_flags _ _ I); lia).
  assert (forall a x, row a s = Some x -> 0 < a < qp_ack p) as Hr by (intros a x X%(i_rows _ _ I); lia).
  assert (forall q, Inserted q ∈ log -> 0 < qp_ack q < qp_ack p) as Hlt by (intros q X%(i_range _ _ I); lia).
  assert (forall a ptr, (a, ptr) ∈ ps_handles s -> 0 < a < qp_ack p) as Hh by (intros a ptr X%(i_handles _ _ I); lia).
  constructor; rewrite ?Ew, ?Eu, ?Eq, ?Ei, ?Ek, ?Es, ?Ef, ?Ed, ?Eh, ?Er, ?Ec; intros *; rewrite ?Erow; log_in.
  - rewrite fmap_app. apply NoDup_app. split; [apply (i_nodup _ _ I)|]. split; [|apply NoDup_singleton].
    intros a (q & -> & Hq)%list_elem_of_fmap. pose proof (Hlt q (Hi q Hq)). cbn. log_in. lia.
  - pose proof (i_inserted _ _ I p0). intros [ [X| ->]|]; auto.
  - intros [X|[= ->]]; [apply Hlt in X|]; lia.
  - intros [X|[= ->]] [Y|[= ->]] E; [by apply (i_unique _ _ I)|apply Hlt in X; lia|apply Hlt in Y; lia|done].
  - intros [X| ->]; [by apply (i_no_row _ _ I)|]. destruct (row (qp_ack p) s) eqn:E; [apply Hr in E; lia|done].
  - intros X%Hr. lia.
  - intros X. destruct (i_row_from _ _ I a x X) as [|(q & ? & ?)]; [auto|right; exists q; log_in; auto].
  - intros [X|[= ->]] Y; [by apply (i_row_of _ _ I)|apply Hr in Y; lia].
  - intros [X|[=]]. pose proof (i_acked _ _ I _ X). apply Ha in X. lia.
  - lia.
  - intros X%Hf. lia.
  - intros [X| ->]; [rewrite (i_flag _ _ I p0 X); naive_solver|]. split; [intros X%Hf|intros [X%Ha|[=]]]; lia.
  - apply (i_flag_hand _ _ I).
  - intros X. left. by apply (i_deletes _ _ I).
  - intros [X|[=]] Y. destruct (i_no_leak _ _ I _ X Y); auto.
  - rewrite elem_of_cons. intros [[= -> ->]|X]; [split; [lia|done]|]. pose proof (Hh _ _ X). split; [lia|].
    intros E. rewrite fmap_app. apply (i_handles _ _ I) in X as [_ X]. cbn. log_in. intros [Y|Y]; [by apply X|lia].
  - intros X Y. destruct (i_reading _ _ I _ _ _ _ X Y) as (q & ? & ?). exists q. log_in. auto.
  - intros [X|[= ->]]; [|auto]. pose proof (i_account _ _ I p0 X). tauto.
  - intros [X|[=]]. pose proof (i_stored _ _ I p0 X). tauto.
  - intros [X|[= ->]]; [|auto]. pose proof (i_heard _ _ I p0 X). tauto.
  - pose proof (i_notified _ _ I p0). intros [ [|[=] ]|]; tauto.
  - intros [X| ->]; [|by right]. left. by apply (i_index _ _ I).
  - intros [X|[= -> ->]]; [|exists p; log_in; auto]. destruct (i_index_of _ _ I _ _ X) as (q & ? & ?). exists q. log_in. auto.
  - apply (i_over _ _ I).
Qed.

Lemma lock_packet_some a p (s : storage) : lock_packet a s = Some p -> qp_ack p = a /\ (p ∈ ps_queue s \/ in_hand (ps_worker s) = Some p).
Proof.
  intros E. unfold lock_packet in E. apply find_some in E as [Hin Ha%Z.eqb_eq]. split; [done|].
  apply in_app_or in Hin as [?%list_elem_of_In|Hin]; [by left|right]. destruct (in_hand (ps_worker s)) as [q|]; cbn in Hin; [by destruct Hin as [->|[]]|done].
Qed.

Lemma lock_packet_none (s : storage) p : lock_packet (qp_ack p) s = None -> (p ∉ ps_queue s) /\ in_hand (ps_worker s) <> Some p.
Proof.
  intros E. unfold lock_packet in E. pose proof (find_none _ _ E p) as Hn. cbn in Hn. rewrite Z.eqb_refl in Hn.
  split; [intros Hq|intros Hq]; enough (true = false) by done; apply Hn, in_or_app.
  - left. by apply list_elem_of_In.
  - right. rewrite Hq. by left.
Qed.

(** An acknowledgement goes to the flag or to the deletions under way. *)
Lemma inv_acked a f pu s log : inv s log -> 0 < a <= ps_sequence s ->
  (forall b, b ∈ f -> b ∈ ps_flags s \/ b = a) -> (forall b, b ∈ ps_flags s -> b ∈ f) ->
  (forall p, p ∈ unwritten s -> qp_ack p = a -> a ∈ f) ->
  (forall b, b ∈ pu -> b ∈ ps_pushing s \/ b = a) -> (forall b, b ∈ ps_pushing s -> b ∈ pu) ->
  (row a s <> None \/ a ∈ qp_ack <$> writing (ps_worker s) -> a ∈ pu) ->
  inv (set_flags f (set_pushing pu s)) (log ++ [Acked a]).
Proof.
  intros I Ha Hf1 Hf2 Hf3 Hp1 Hp2 Hp3.
  assert (forall e, Acked a <> e -> (e ∈ log ++ [Acked a] <-> e ∈ log)) as Hold by (intros e; log_in; naive_solver).
  assert (forall b, (Acked b ∈ log ++ [Acked a]) <-> (Acked b ∈ log \/ b = a)) as Hack by (intros e; log_in; naive_solver).
  step_fields I; intros *; rewrite ?Hack, ?Hold by done.
  - apply (i_inserted _ _ I).
  - apply (i_range _ _ I).
  - apply (i_unique _ _ I).
  - intros X. destruct (i_row_from _ _ I a0 x X) as [|(q & ? & ?)]; [auto|right; exists q; log_in; auto].
  - apply (i_row_of _ _ I).
  - intros [X| ->]; [by apply (i_acked _ _ I)|done].
  - intros [X| ->]%Hf1; [by apply (i_flags _ _ I)|cbn; lia].
  - intros Hp. pose proof (i_flag _ _ I p Hp). pose proof (Hf1 (qp_ack p)). pose proof (Hf2 (qp_ack p)). pose proof (Hf3 p Hp).
    cbn. split; [tauto|]. intros [X|X]; [tauto|rewrite X; auto].
  - intros Hh Hg. apply Hf2. by apply (i_flag_hand _ _ I).
  - pose proof (i_deletes _ _ I a0). pose proof (Hp1 a0). views. log_in. tauto.
  - intros X Y. destruct (decide (a0 = a)) as [->|Hne].
    + left. views. log_in. auto.
    + destruct X as [X|]; [|done]. destruct (i_no_leak _ _ I _ X Y); [left|by right].
      pose proof (Hp2 a0). views. log_in. tauto.
  - intros X Y. destruct (i_reading _ _ I _ _ _ _ X Y) as (q & ? & ?). exists q. log_in. auto.
  - intros X. pose proof (i_account _ _ I p X). tauto.
  - intros X. pose proof (i_stored _ _ I p X) as [? [?|?]]; auto.
  - apply (i_heard _ _ I).
  - intros X. apply (i_notified _ _ I) in X. tauto.
  - intros X. destruct (i_index_of _ _ I _ _ X) as (q & ? & ?). exists q. log_in. auto.
Qed.

Lemma inv_remove_begin a ptr s log : inv s log -> (a, ptr) ∈ ps_handles s -> inv (remove_begin a ptr s) (log ++ [Acked a]).
Proof.
  intros I Hh. destruct (i_handles _ _ I _ _ Hh) as [Hr Hptr].
  assert (forall p, p ∈ unwritten s -> p ∈ to_write s /\ (p ∈ ps_queue s \/ in_hand (ps_worker s) = Some p)) as Hu.
  { apply unwritten_where. }
  assert ((forall p, p ∈ unwritten s -> qp_ack p = a -> a ∈ ps_flags s) ->
          inv (set_pushing (ps_pushing s ++ [a]) s) (log ++ [Acked a])) as Hpush.
  { intros Hf. apply (inv_acked a (ps_flags s) (ps_pushing s ++ [a]) s log); auto; intros *; log_in; auto. }
  unfold remove_begin. destruct ptr; [destruct (lock_packet a s) as [p|] eqn:El; [case_decide as Hf|]|].
  - auto.
  - apply lock_packet_some in El as [<- Hp].
    assert (p ∈ unwritten s) as Hpu.
    { pose proof (i_flag_hand _ _ I p) as X. unfold unwritten. apply elem_of_app. destruct Hp as [|E]; [by right|left].
      destruct (got (ps_worker s)) eqn:G; [tauto|]. destruct (ps_worker s) as [| |[]| | | |]; cbn in *; set_solver. }
    apply (inv_acked (qp_ack p) ({[qp_ack p]} ∪ ps_flags s) (ps_pushing s) s log); auto; try (clear; set_solver).
    intros [Hx|Hx]; exfalso; [by apply Hx, (i_no_row _ _ I), Hu|].
    pose proof (i_nodup _ _ I) as X. unfold to_write in X. rewrite fmap_app, NoDup_app in X. destruct X as (_ & X & _).
    apply (X _ Hx). by apply list_elem_of_fmap_2.
  - apply Hpush. intros p Hp <-. apply lock_packet_none in El. apply Hu in Hp. tauto.
  - apply Hpush. intros p Hp <-. exfalso. apply Hptr; [done|]. apply list_elem_of_fmap_2. by apply Hu.
Qed.

Lemma elem_of_pending_in_memory x r (s : storage) : x ∈ pending_in_memory r s <->
  exists p, (r, qp_ack p) ∈ ps_index s /\ lock_packet (qp_ack p) s = Some p /\ x = StoredPacket (qp_ack p) true (qp_packet p).
Proof.
  unfold pending_in_memory. rewrite list_elem_of_omap. split.
  - intros ([r' b] & Hin & E). case_decide; [subst|done]. destruct (lock_packet b s) as [p|] eqn:El; [|done].
    injection E as <-. pose proof (lock_packet_some _ _ _ El) as [<- _]. eauto.
  - intros (p & Hin & El & ->). exists (r, qp_ack p). split; [done|]. by rewrite decide_True, El.
Qed.

Lemma inv_pending_begin c r s log : inv s log -> inv (pending_begin c r s) log.
Proof.
  intros I. step_fields I. intros c' r' mem x Hx Ha. cbn in Hx.
  apply lookup_insert_Some in Hx as [[_ [= <- <-]]|[_ Hx]]; [|by eapply (i_reading _ _ I)].
  apply elem_of_pending_in_memory in Ha as (p & Hix & El & ->).
  assert (Inserted p ∈ log) as Hp by (by apply (i_inserted _ _ I), (lock_packet_some (qp_ack p))).
  destruct (i_index_of _ _ I _ _ Hix) as (q & Hq & <- & Ea). exists p. split_and!; [done| |done].
  rewrite (i_unique _ _ I p q Hp Hq); congruence.
Qed.

Lemma elem_of_pending_in_database x r (t : T) : x ∈ pending_in_database r t <->
  exists bs, tbl_lookup (sp_ack x) t = Some (r, bs) /\ pl_des bs = Some (sp_packet x) /\ sp_ptr x = false.
Proof.
  unfold pending_in_database. rewrite list_elem_of_omap. split.
  - intros ([b bs] & Hin & E). destruct (pl_des bs) as [p|] eqn:Ed; [|done]. injection E as <-.
    exists bs. split_and!; [|done..]. by apply tbl_select_ok, list_elem_of_In.
  - intros (bs & Hrow & Ed & Ep). exists (sp_ack x, bs). rewrite Ed. split; [|destruct x; cbn in *; congruence].
    by apply list_elem_of_In, tbl_select_ok.
Qed.

Lemma inv_pending_end c s s' e log : inv s log -> pending_end c s = Some (s', e) -> inv s' (log ++ e).
Proof.
  intros I E. unfold pending_end in E. destruct (ps_reading s !! c) as [[r mem]|] eqn:Ec; [|done]. injection E as <- <-.
  apply inv_event; [|done]. step_fields I.
  - intros a ptr Hh. cbn [ps_handles set_handles] in Hh. rewrite elem_of_app, list_elem_of_fmap in Hh.
    destruct Hh as [(x & [= -> ->] & Hm)|Hh]; [apply elem_of_app in Hm as [Hm|Hm]|].
    + destruct (i_reading _ _ I _ _ _ _ Ec Hm) as (p & Hp & _ & ->). split; [by apply (i_range _ _ I)|done].
    + apply elem_of_pending_in_database in Hm as (bs & Hrow & _ & _). split; [by eapply (i_rows _ _ I)|].
      intros _ (p & Ep & Hp)%list_elem_of_fmap. apply (i_no_row _ _ I) in Hp. unfold row in Hp. congruence.
    + by apply (i_handles _ _ I) in Hh.
  - intros c' r' mem' x Hin. cbn in Hin. apply lookup_delete_Some in Hin as [_ Hin]. by apply (i_reading _ _ I c' r' mem').
Qed.

Lemma inv_pending_fails c s log : inv s log -> inv (set_reading (delete c (ps_reading s)) s) log.
Proof.
  intros I. step_fields I. intros c' r mem x Hin. cbn in Hin. apply lookup_delete_Some in Hin as [_ Hin].
  by apply (i_reading _ _ I c' r mem).
Qed.

(** *** The steps of the thread *)

Lemma inv_events s log e : inv s log -> Forall (fun x => match x with Dropped _ | DeleteLost _ => True | _ => False end) e ->
  inv s (log ++ e).
Proof.
  intros I He. revert log I. induction He as [|x e Hx _ IH]; intros log I; [by rewrite app_nil_r|].
  rewrite cons_middle, app_assoc. apply IH, inv_event; [done|]. by destruct x.
Qed.

Lemma next_packet_take (s : storage) : next_packet s =
  if ps_close s
  then (set_worker WDone (take s),
        (Dropped <$> option_list (head (ps_queue s))) ++ (DeleteLost <$> nonzero (default 0 (head (ps_remove_queue s)))))
  else (take s, []).
Proof.
  unfold next_packet, take, nonzero. destruct (head (ps_queue s)); cbn; destruct (ps_close s), (default 0 (head (ps_remove_queue s)) =? 0); reflexivity.
Qed.

Lemma inv_next_packet s log : inv s log -> ps_worker s = WWait -> inv (fst (next_packet s)) (log ++ snd (next_packet s)).
Proof.
  intros I Ew. apply inv_take in I; [|by left]. rewrite next_packet_take.
  destruct (ps_close s) eqn:Ec; cbn [fst snd]; [|rewrite app_nil_r; exact I].
  apply (inv_done (take s)).
  - apply inv_events; [done|]. apply Forall_app. split; [destruct (head (ps_queue s)); repeat constructor|].
    unfold nonzero. destruct (default 0 (head (ps_remove_queue s)) =? 0); repeat constructor.
  - unfold take. by destruct (head (ps_queue s)).
  - intros p. cbn. destruct (head (ps_queue s)); cbn; set_solver.
  - intros a. cbn. unfold nonzero. destruct (default 0 (head (ps_remove_queue s)) =? 0); cbn; set_solver.
Qed.

Lemma inv_remove_from_database ok h r s log : inv s log -> ps_worker s = WRemove h r -> r <> 0 ->
  let '(s', e) := remove_from_database ok r (set_worker (WLoop h) s) in inv s' (log ++ e).
Proof.
  intros I Ew Hr. unfold remove_from_database. destruct ok.
  - rewrite app_nil_r. apply (inv_round_over h r (set_db (tbl_delete r (ps_db s)) s)); [|done|].
    + apply inv_deleted; [done|]. apply (i_deletes _ _ I). views. rewrite Ew. cbn. log_in. rewrite elem_of_nonzero. auto.
    + intros _. left. views. by rewrite tbl_delete_ok, decide_True.
  - apply (inv_round_over h r); [by apply inv_event|done|]. intros _. right. set_solver.
Qed.

Lemma inv_thread_step ok s s' e log : inv s log -> thread_step ok s = Some (s', e) -> inv s' (log ++ e).
Proof.
  intros I E. unfold thread_step in E. destruct (ps_worker s) as [h| |[p|] r|p r|p r|h r|] eqn:Ew; [| | | | | | |done].
  - injection E as <- <-. rewrite app_nil_r. by eapply inv_loop.
  - destruct (may_run s); [|done]. injection E as E. pose proof (inv_next_packet _ _ I Ew) as X. by rewrite E in X.
  - case_decide; injection E as <- <-; rewrite app_nil_r; [by apply inv_acked_already|by apply inv_write].
  - injection E as <- <-. rewrite app_nil_r. by apply inv_nothing.
  - destruct (write_to_database ok p (ps_db s)) as [db|] eqn:Wr; injection E as <- <-.
    + destruct ok; [|done]. by eapply inv_written.
    + apply inv_write_failed; [by apply inv_event|done|set_solver].
  - injection E as <- <-. by apply inv_notified.
  - injection E as E. destruct (Z.eqb_spec r 0) as [->|Hr].
    + injection E as <- <-. rewrite app_nil_r. by eapply inv_round_over.
    + pose proof (inv_remove_from_database ok h r s log I Ew Hr) as X. by rewrite E in X.
Qed.

(** *** Closing *)

Lemma inv_purge_write ok p q s log : inv s log -> ps_worker s = WDone -> ps_close s = true -> ps_queue s = p :: q ->
  inv (fst (purge_write ok p s)) (log ++ snd (purge_write ok p s)).
Proof.
  intros I Ew Ec Eq.
  pose proof (inv_take _ _ (inv_deletes_moved [] (ps_remove_queue s ++ ps_pushing s) s log I ltac:(done)) (or_intror Ew)) as It.
  unfold take in It. cbn in It. rewrite Eq in It. cbn in It.
  assert (forall s' log', inv s' log' -> (forall e, e ∈ log -> e ∈ log') -> ps_queue s' = q -> ps_close s' = true ->
    (ps_worker s' = WNotify p 0 \/ ps_worker s' = WRemove (Some p) 0) -> ps_pushing s' = ps_remove_queue s ++ ps_pushing s -> ps_remove_queue s' = [] ->
    inv (set_remove_queue (ps_remove_queue s) (set_pushing (ps_pushing s) (set_index (ps_index s) (set_worker WDone s')))) log') as Hback.
  { intros s' log' I' Hsub Eq' Ec' Hw Ep' Er'. apply inv_deletes_moved.
    - apply inv_index.
      + apply inv_done; [done|done| |]; intros x; destruct Hw as [-> | ->]; cbn; set_solver.
      + intros x. cbn. rewrite Eq'. intros Hx. apply (i_index _ _ I). rewrite Eq. by right.
      + intros r a Hx. destruct (i_index_of _ _ I r a Hx) as (x & Hin & ?). exists x. auto.
    - intros a. cbn. by rewrite Ep', Er'. }
  unfold purge_write. cbn [ps_queue set_queue]. rewrite Eq. cbn [tail].
  case_decide as Hf.
  - apply inv_acked_already with (p := p) (r := 0) in It; [|done|done]. rewrite app_nil_r.
    apply Hback in It; [|auto..]. destruct s; cbn in *; subst; exact It.
  - apply inv_write with (p := p) (r := 0) in It; [|done|done].
    destruct (write_to_database (ok (qp_ack p)) p (ps_db (set_flag (qp_ack p) (set_queue q s)))) as [db|] eqn:Wr; cbn [fst snd].
    + destruct (ok (qp_ack p)); [|done]. apply inv_written with (p := p) (r := 0) (db := db) in It; [|done|exact Wr].
      apply Hback in It; [|set_solver|auto..]. destruct s; cbn in *; subst; exact It.
    + apply (inv_event (Dropped p)) in It; [|done]. apply inv_write_failed with (p := p) (r := 0) in It; [|done|set_solver].
      apply Hback in It; [|set_solver|auto..]. destruct s; cbn in *; subst; exact It.
Qed.

Lemma inv_purge_remove ok a q s log : inv s log -> ps_worker s = WDone -> ps_remove_queue s = a :: q ->
  inv (fst (purge_remove ok a s)) (log ++ snd (purge_remove ok a s)).
Proof.
  intros I Ew Eq. unfold purge_remove, remove_from_database. rewrite Eq. cbn [tail].
  assert (Acked a ∈ log) as Ha by (apply (i_deletes _ _ I); views; rewrite Eq; set_solver).
  assert (forall s' log', inv s' log' -> ps_worker s' = WDone -> ps_remove_queue s' = a :: q -> row a s' = None \/ DeleteLost a ∈ log' ->
    inv (set_remove_queue q s') log') as Hshrink.
  { intros s' log' I' Ew' Eq' Hor. step_fields I'; views; rewrite ?Ew' in *.
    - intros b Hb. apply (i_deletes _ _ I'). views. rewrite Ew', Eq'. set_solver.
    - intros b Hb Hx. destruct (decide (b = a)) as [->|Hne].
      + destruct Hor as [Hor|]; [|by right]. by destruct Hx as [|Hx%elem_of_nil].
      + destruct (i_no_leak _ _ I' b Hb) as [X|]; [by rewrite Ew'|left|by right]. views. rewrite Ew', Eq' in X. set_solver. }
  destruct (ok a); cbn [fst snd].
  - rewrite app_nil_r. apply (Hshrink (set_db (tbl_delete a (ps_db s)) s)); [by apply inv_deleted|done|done|].
    left. views. by rewrite tbl_delete_ok, decide_True.
  - apply Hshrink; [by apply inv_event|done|done|]. right. set_solver.
Qed.

Lemma purge_write_frame ok p (s : storage) : ps_worker (fst (purge_write ok p s)) = ps_worker s /\
  ps_close (fst (purge_write ok p s)) = ps_close s /\ ps_queue (fst (purge_write ok p s)) = tail (ps_queue s).
Proof.
  unfold purge_write. case_decide; [done|].
  by destruct (write_to_database (ok (qp_ack p)) p (ps_db (set_flag (qp_ack p) (set_queue (tail (ps_queue s)) s)))).
Qed.

Lemma purge_remove_frame ok a (s : storage) : ps_worker (fst (purge_remove ok a s)) = ps_worker s /\
  ps_queue (fst (purge_remove ok a s)) = ps_queue s /\
  ps_remove_queue (fst (purge_remove ok a s)) = tail (ps_remove_queue s).
Proof. unfold purge_remove, remove_from_database. by destruct (ok a). Qed.

(** A loop over a queue, each turn of which takes its head. *)
Lemma for_each_queue {A} (f : A -> storage -> storage * list event) (queue : storage -> list A) (R : storage -> list event -> Prop) :
  (forall x l s log, R s log -> queue s = x :: l -> R (fst (f x s)) (log ++ snd (f x s)) /\ queue (fst (f x s)) = l) ->
  forall l s log, R s log -> queue s = l ->
  R (fst (for_each f l s)) (log ++ snd (for_each f l s)) /\ queue (fst (for_each f l s)) = [].
Proof.
  intros Hf l; induction l as [|x l IH]; intros s log HR Hq; cbn; [by rewrite app_nil_r|].
  destruct (Hf x l s log HR Hq) as [HR' Hq']. destruct (f x s) as [s1 e1]; cbn in *.
  specialize (IH s1 _ HR' Hq'). destruct (for_each f l s1) as [s2 e2]; cbn in *. by rewrite app_assoc.
Qed.

Lemma inv_purge ok s log : inv s log -> ps_worker s = WDone -> ps_close s = true ->
  inv (fst (purge_queues ok s)) (log ++ snd (purge_queues ok s)) /\
  ps_queue (fst (purge_queues ok s)) = [] /\ ps_remove_queue (fst (purge_queues ok s)) = [].
Proof.
  intros I Ew Ec. unfold purge_queues.
  set (R1 := fun s log => inv s log /\ ps_worker s = WDone /\ ps_close s = true).
  set (R2 := fun s log => inv s log /\ ps_worker s = WDone /\ ps_queue s = []).
  assert (R1 s log) as HR by done.
  apply (for_each_queue (purge_write ok) ps_queue R1) with (l := ps_queue s) in HR as [(I1 & Ew1 & _) Eq1]; [| |done].
  2: { intros p l s1 log1 (I1 & Ew1 & Ec1) Eq1. destruct (purge_write_frame ok p s1) as (Hw & Hc & Hq). rewrite Hq, Eq1.
       split; [|done]. split_and!; [by eapply inv_purge_write|congruence..]. }
  destruct (for_each (purge_write ok) (ps_queue s) s) as [s1 e1]; cbn [fst snd] in *.
  assert (R2 s1 (log ++ e1)) as HR by done.
  apply (for_each_queue (purge_remove ok) ps_remove_queue R2) with (l := ps_remove_queue s1) in HR
    as [(I2 & _ & Eq2) Er2]; [| |done].
  2: { intros a l s2 log2 (I2 & Ew2 & Eq2) Er2. destruct (purge_remove_frame ok a s2) as (Hw & Hq & Hr). rewrite Hr, Er2.
       split; [|done]. split_and!; [by eapply inv_purge_remove|congruence..]. }
  destruct (for_each (purge_remove ok) (ps_remove_queue s1) s1) as [s2 e2]; cbn [fst snd] in *. by rewrite app_assoc.
Qed.

(** *** All steps *)

Lemma inv_step l s s' e log : inv s log -> step l s = Some (s', e) -> inv s' (log ++ e).
Proof.
  intros I E. destruct l as [r pl sa sn|a ptr|a|c r|c|c|ok| |ok]; cbn [step] in E.
  - injection E as <- <-. by apply inv_insert.
  - case_decide; [|done]. injection E as <- <-. by apply inv_remove_begin.
  - case_decide; [|done]. injection E as <- <-. rewrite app_nil_r. by apply inv_push.
  - destruct (ps_reading s !! c); [done|]. injection E as <- <-. rewrite app_nil_r. by apply inv_pending_begin.
  - by eapply inv_pending_end.
  - unfold pending_fails in E. destruct (ps_reading s !! c); [|done]. injection E as <- <-. rewrite app_nil_r.
    by apply inv_pending_fails.
  - by eapply inv_thread_step.
  - injection E as <- <-. rewrite app_nil_r. by apply inv_close.
  - destruct (ps_worker s) eqn:Ew; try done. injection E as E.
    destruct (inv_purge ok s log I Ew (i_over _ _ I Ew)) as [X _]. by rewrite E in X.
Qed.

Lemma inv_run ls s s' log e : inv s log -> run ls s = Some (s', e) -> inv s' (log ++ e).
Proof.
  revert s log e; induction ls as [|l ls IH]; intros s log e I E; cbn in E.
  - injection E as <- <-. by rewrite app_nil_r.
  - destruct (step l s) as [[s1 e1]|] eqn:Es; [|done]. destruct (run ls s1) as [[s2 e2]|] eqn:Er; [|done].
    injection E as <- <-. rewrite app_assoc. eapply IH; [by eapply inv_step|done].
Qed.

End safety.

(** ** What is promised *)
Section promises.
Context {T P : Type} `{PacketTableLaws T} `{PayloadLaw P}.

#[local] Abbreviation storage := (storage T P).
#[local] Abbreviation stored_packet := (stored_packet P).

#[local] Abbreviation event := (event P).

Definition in_table (db : T) (a : Z) : Prop := tbl_lookup a db <> None.

Lemma inv_reached ls db (s : storage) log : (forall a x, tbl_lookup a db = Some x -> 0 < a) ->
  run ls (open_storage db) = Some (s, log) -> inv (in_table db) s log.
Proof.
  intros Hpos E. apply (inv_run (in_table db) ls (open_storage db) s [] log); [|done].
  apply inv_open. intros a x Ha. split; [by eapply Hpos|]. unfold in_table. congruence.
Qed.


(** C23: When the sender of a packet has been notified, the packet was
    acknowledged by its receiver or has its row in the table, and still has it
    at any later time until it is acknowledged. *)
Theorem notified_packets_are_durable ls db s log p :
  (forall a x, tbl_lookup a db = Some x -> 0 < a) ->
  run ls (open_storage db) = Some (s, log) -> Notified p ∈ log ->
  Acked (qp_ack p) ∈ log \/
  exists bs, tbl_lookup (qp_ack p) (ps_db s) = Some (qp_receiver p, bs) /\ pl_des bs = Some (qp_packet p).
Proof.
  intros Hpos E Hn. pose proof (inv_reached _ _ _ _ Hpos E) as I.
  destruct (i_notified _ _ _ I p (or_introl Hn)) as [Hi [|Hs]]; [by left|].
  destruct (i_stored _ _ _ I p Hs) as [_ [|Hr]]; [by left|right].
  destruct (row (qp_ack p) s) as [x|] eqn:Er; [|done]. destruct (i_row_of _ _ _ I p x Hi Er) as (bs & -> & Hb).
  exists bs. split; [exact Er|by apply pl_round].
Qed.

(** *** What is lost, and why *)

Lemma for_each_close {A} (f : A -> storage -> storage * list event) :
  (forall x s, ps_close (fst (f x s)) = ps_close s) -> forall l s, ps_close (fst (for_each f l s)) = ps_close s.
Proof.
  intros Hf l; induction l as [|x l IH]; intros s; cbn; [done|]. pose proof (Hf x s) as E.
  destruct (f x s) as [s1 e1]; cbn in *. pose proof (IH s1) as E2. destruct (for_each f l s1) as [s2 e2]; cbn in *. congruence.
Qed.

Lemma purge_close ok (s : storage) : ps_close (fst (purge_queues ok s)) = ps_close s.
Proof.
  unfold purge_queues.
  pose proof (for_each_close (purge_write ok) (fun p s => proj1 (proj2 (purge_write_frame ok p s))) (ps_queue s) s) as E1.
  destruct (for_each (purge_write ok) (ps_queue s) s) as [s1 e1]; cbn [fst] in *.
  assert (forall a (s0 : storage), ps_close (fst (purge_remove ok a s0)) = ps_close s0) as Hr
    by (intros a s2; unfold purge_remove, remove_from_database; by destruct (ok a)).
  pose proof (for_each_close (purge_remove ok) Hr (ps_remove_queue s1) s1) as E2.
  destruct (for_each (purge_remove ok) (ps_remove_queue s1) s1) as [s2 e2]; cbn [fst] in *. congruence.
Qed.

(** Whether step [l] may lose what [e] reports lost while the store is open. *)
Definition excused (l : label P) (e : event) : Prop :=
  match e with
  | Dropped p => l = LThread false \/ pl_ser (qp_packet p) = None
  | DeleteLost _ => l = LThread false
  | _ => True
  end.

Lemma thread_excused old ok s s' e log : inv old s log -> thread_step ok s = Some (s', e) -> ps_close s' = false ->
  ps_close s = false /\ Forall (excused (LThread ok)) e.
Proof.
  unfold thread_step. intros I E Hc. destruct (ps_worker s) as [h| |[p|] r|p r|p r|h r|] eqn:Ew; [| | | | | | |done].
  - injection E as <- <-. by split.
  - destruct (may_run s); [|done]. injection E as E. rewrite next_packet_take in E.
    assert (ps_close (take s) = ps_close s) as Et by (unfold take; by destruct (head (ps_queue s))).
    destruct (ps_close s) eqn:Ec; injection E as <- <-; [cbn [ps_close set_worker] in Hc; congruence|by split].
  - case_decide; injection E as <- <-; by split.
  - injection E as <- <-. by split.
  - destruct (write_to_database ok p (ps_db s)) as [db|] eqn:Wr; injection E as <- <-; (split; [exact Hc|]);
      (apply Forall_cons; split; [|by apply Forall_nil]); [done|].
    destruct ok; [right|by left]. cbn in Wr. destruct (pl_ser (qp_packet p)) as [bs|]; [|done]. exfalso.
    destruct (tbl_insert_ok (qp_ack p) (qp_receiver p) bs (ps_db s)) as (t & Et & _); [|congruence].
    apply (i_no_row _ _ _ I p). unfold to_write. rewrite Ew. by left.
  - injection E as <- <-. split; [exact Hc|]. by repeat constructor.
  - unfold remove_from_database in E. destruct (r =? 0), ok; injection E as <- <-; (split; [exact Hc|]); by repeat constructor.
Qed.

Lemma step_excused old l s s' e log : inv old s log -> step l s = Some (s', e) -> ps_close s' = false ->
  ps_close s = false /\ Forall (excused l) e.
Proof.
  intros I E Hc. destruct l as [r pl sa sn|a ptr|a|c r|c|c|ok| |ok]; cbn [step] in E.
  - injection E as <- <-. split; [exact Hc|by repeat constructor].
  - case_decide; [|done]. injection E as <- <-. split; [|by repeat constructor].
    unfold remove_begin in Hc. destruct (if ptr then _ else _); [|done]. by case_decide.
  - case_decide; [|done]. injection E as <- <-. by split.
  - destruct (ps_reading s !! c); [done|]. injection E as <- <-. by split.
  - unfold pending_end in E. destruct (ps_reading s !! c) as [[r mem]|]; [|done]. injection E as <- <-.
    split; [exact Hc|by repeat constructor].
  - unfold pending_fails in E. destruct (ps_reading s !! c); [|done]. injection E as <- <-. by split.
  - by eapply thread_excused.
  - injection E as <- <-. done.
  - destruct (ps_worker s) eqn:Ew; try done. injection E as E. exfalso.
    pose proof (purge_close ok s) as Hp. rewrite E in Hp. cbn in Hp. pose proof (i_over _ _ _ I Ew). congruence.
Qed.

(** What an open store has lost, it lost to a failing database, or it could
    not be serialised. *)
Lemma run_excused old ls s s' e log : inv old s log -> run ls s = Some (s', e) -> ps_close s' = false ->
  ps_close s = false /\ forall x, x ∈ e -> exists l, l ∈ ls /\ excused l x.
Proof.
  revert s e log; induction ls as [|l ls IH]; intros s e log I E Hc; cbn in E.
  - injection E as <- <-. split; [done|]. by intros x ?%elem_of_nil.
  - destruct (step l s) as [[s1 e1]|] eqn:Es; [|done]. destruct (run ls s1) as [[s2 e2]|] eqn:Er; [|done]. injection E as -> <-.
    destruct (IH s1 e2 _ (inv_step _ _ _ _ _ _ I Es) Er Hc) as [Hc1 Hx].
    destruct (step_excused _ _ _ _ _ _ I Es Hc1) as [Hc0 He]. split; [done|]. rewrite Forall_forall in He.
    intros x [Hin|Hin]%elem_of_app; [exists l; split; [by left|auto]|].
    destruct (Hx x Hin) as (l' & ? & ?). exists l'. split; [by right|done].
Qed.

(** *** Rows of an earlier run *)

(** A row of [db] stays until it is acknowledged; no new packet has its number. *)
Definition old_rows (db : T) (s : storage) (log : list event) : Prop :=
  tbl_max db <= ps_sequence s /\
  (forall p, Inserted p ∈ log -> tbl_max db < qp_ack p) /\
  forall a x, tbl_lookup a db = Some x -> row a s = Some x \/ row a s = None /\ Acked a ∈ log.

Lemma old_rows_log db s s' log e : old_rows db s log -> ps_db s' = ps_db s -> ps_sequence s' = ps_sequence s ->
  (forall p, Inserted p ∉ e) -> old_rows db s' (log ++ e).
Proof.
  intros (K1 & K2 & K3) Ed Es He. unfold old_rows, row. rewrite Ed, Es. split_and!; [done| |].
  - intros p [Hp|Hp]%elem_of_app; [auto|by destruct (He p)].
  - intros a x Hx. destruct (K3 a x Hx) as [|[]]; [by left|right; split; [done|set_solver]].
Qed.

Lemma old_rows_written old db p r bs s db' log : inv old s log -> old_rows db s log -> p ∈ to_write s ->
  tbl_insert (qp_ack p) r bs (ps_db s) = Some db' -> Inserted p ∈ log -> old_rows db (set_db db' s) log.
Proof.
  intros I (K1 & K2 & K3) Hp Ei Hin. split_and!; [done|done|]. intros a x Hx.
  unfold row. cbn [ps_db set_db]. rewrite (tbl_insert_lookup _ _ _ _ _ (i_no_row _ _ _ I p Hp) Ei). case_decide as D; [|by apply K3].
  subst a. pose proof (K2 p Hin). pose proof (tbl_max_ok _ _ _ Hx). lia.
Qed.

Lemma old_rows_deleted db a s log : old_rows db s log -> Acked a ∈ log -> old_rows db (set_db (tbl_delete a (ps_db s)) s) log.
Proof.
  intros (K1 & K2 & K3) Ha. split_and!; [done|done|]. intros b x Hx. unfold row. cbn [ps_db set_db].
  rewrite tbl_delete_ok. case_decide as D; [subst; by right|by apply K3].
Qed.

Lemma thread_old_rows old db ok s s' e log : inv old s log -> old_rows db s log ->
  thread_step ok s = Some (s', e) -> old_rows db s' (log ++ e).
Proof.
  unfold thread_step. intros I O E. destruct (ps_worker s) as [h| |[p|] r|p r|p r|h r|] eqn:Ew; [| | | | | | |done].
  - injection E as <- <-. apply (old_rows_log _ s); [done..|]. by intros p ?%elem_of_nil.
  - destruct (may_run s); [|done]. injection E as E. rewrite next_packet_take in E.
    assert (ps_db (take s) = ps_db s /\ ps_sequence (take s) = ps_sequence s) as [Ed Es]
      by (unfold take; by destruct (head (ps_queue s))).
    destruct (ps_close s); injection E as <- <-; (apply (old_rows_log _ s); [done..|]); intros p; set_solver.
  - case_decide; injection E as <- <-; (apply (old_rows_log _ s); [done..|]); by intros q ?%elem_of_nil.
  - injection E as <- <-. apply (old_rows_log _ s); [done..|]. by intros p ?%elem_of_nil.
  - destruct (write_to_database ok p (ps_db s)) as [db'|] eqn:Wr; injection E as <- <-.
    + apply (old_rows_log _ (set_db db' s)); [|done..|set_solver]. destruct ok; [|done]. cbn in Wr.
      destruct (pl_ser (qp_packet p)) as [bs|]; [|done].
      eapply old_rows_written; [exact I|done| |exact Wr|]; [unfold to_write; rewrite Ew; by left|].
      apply (i_inserted _ _ _ I). rewrite Ew. by right.
    + apply (old_rows_log _ s); [done..|set_solver].
  - injection E as <- <-. apply (old_rows_log _ s); [done..|set_solver].
  - unfold remove_from_database in E. destruct (Z.eqb_spec r 0) as [->|Hr], ok; injection E as <- <-;
      try (apply (old_rows_log _ s); [done..|set_solver]).
    apply (old_rows_log _ (set_db (tbl_delete r (ps_db s)) s)); [|done..|set_solver].
    apply old_rows_deleted; [done|]. apply (i_deletes _ _ _ I). unfold deletes. rewrite Ew. apply elem_of_app. left. by apply elem_of_nonzero.
Qed.

Lemma purge_write_old_rows old db ok p q s log : inv old s log -> old_rows db s log -> ps_queue s = p :: q ->
  old_rows db (fst (purge_write ok p s)) (log ++ snd (purge_write ok p s)).
Proof.
  intros I O Eq. unfold purge_write. cbn [ps_flags set_queue].
  assert (p ∈ to_write s) as Hp by (unfold to_write, unwritten; rewrite Eq; set_solver).
  case_decide; [apply (old_rows_log _ s); [done..|set_solver]|].
  destruct (write_to_database _ _ _) as [db'|] eqn:Wr; cbn [fst snd].
  - apply (old_rows_log _ (set_db db' s)); [|done..|set_solver]. destruct (ok (qp_ack p)); [|done]. cbn in Wr.
    destruct (pl_ser (qp_packet p)) as [bs|]; [|done].
    eapply old_rows_written; [exact I|done|done|exact Wr|]. apply (i_inserted _ _ _ I). left. rewrite Eq. by left.
  - apply (old_rows_log _ s); [done..|set_solver].
Qed.

Lemma purge_remove_old_rows old db ok a q s log : inv old s log -> old_rows db s log -> ps_remove_queue s = a :: q ->
  old_rows db (fst (purge_remove ok a s)) (log ++ snd (purge_remove ok a s)).
Proof.
  intros I O Eq. unfold purge_remove, remove_from_database.
  destruct (ok a); cbn [fst snd]; [|apply (old_rows_log _ s); [done..|set_solver]].
  apply (old_rows_log _ (set_db (tbl_delete a (ps_db s)) s)); [|done..|set_solver].
  apply old_rows_deleted; [done|]. apply (i_deletes _ _ _ I). unfold deletes. rewrite Eq. set_solver.
Qed.

Lemma purge_old_rows old db ok s log : inv old s log -> old_rows db s log -> ps_worker s = WDone -> ps_close s = true ->
  old_rows db (fst (purge_queues ok s)) (log ++ snd (purge_queues ok s)).
Proof.
  intros I O Ew Ec. unfold purge_queues.
  set (R := fun s log => (inv old s log /\ old_rows db s log) /\ ps_worker s = WDone /\ ps_close s = true).
  set (R2 := fun s log => (inv old s log /\ old_rows db s log) /\ ps_worker s = WDone).
  assert (R s log) as HR by done.
  apply (for_each_queue (purge_write ok) ps_queue R) with (l := ps_queue s) in HR as [((I1 & O1) & Ew1 & Ec1) _]; [| |done].
  2: { intros p l s1 log1 ((I1 & O1) & Ew1 & Ec1) Eq1. destruct (purge_write_frame ok p s1) as (Hw & Hc & Hq). rewrite Hq, Eq1.
       split; [|done]. split_and!; [by eapply inv_purge_write|by eapply purge_write_old_rows|congruence..]. }
  destruct (for_each (purge_write ok) (ps_queue s) s) as [s1 e1]; cbn [fst snd] in *.
  assert (R2 s1 (log ++ e1)) as HR by done.
  apply (for_each_queue (purge_remove ok) ps_remove_queue R2) with (l := ps_remove_queue s1) in HR as [((_ & O2) & _) _]; [| |done].
  2: { intros a l s2 log2 ((I2 & O2) & Ew2) Er2. destruct (purge_remove_frame ok a s2) as (Hw & Hq & Hr). rewrite Hr, Er2.
       split; [|done]. split_and!; [by eapply inv_purge_remove|by eapply purge_remove_old_rows|congruence]. }
  destruct (for_each (purge_remove ok) (ps_remove_queue s1) s1) as [s2 e2]; cbn [fst snd] in *. by rewrite app_assoc.
Qed.

Lemma step_old_rows old db l s s' e log : inv old s log -> old_rows db s log -> step l s = Some (s', e) -> old_rows db s' (log ++ e).
Proof.
  intros I O E. destruct l as [r pl sa sn|a ptr|a|c r|c|c|ok| |ok]; cbn [step] in E.
  - injection E as <- <-. destruct O as (K1 & K2 & K3). split_and!; [cbn; lia| |].
    + intros p [Hp|[= ->]%list_elem_of_singleton]%elem_of_app; [auto|cbn; lia].
    + intros a x Hx. destruct (K3 a x Hx) as [|[]]; [by left|right; split; [done|set_solver]].
  - case_decide; [|done]. injection E as <- <-. apply (old_rows_log _ s); [done| | |set_solver];
      unfold remove_begin; (destruct (if ptr then _ else _); [|done]); by case_decide.
  - case_decide; [|done]. injection E as <- <-. apply (old_rows_log _ s); [done..|set_solver].
  - destruct (ps_reading s !! c); [done|]. injection E as <- <-. apply (old_rows_log _ s); [done..|set_solver].
  - unfold pending_end in E. destruct (ps_reading s !! c) as [[r mem]|]; [|done]. injection E as <- <-.
    apply (old_rows_log _ s); [done..|set_solver].
  - unfold pending_fails in E. destruct (ps_reading s !! c); [|done]. injection E as <- <-.
    apply (old_rows_log _ s); [done..|set_solver].
  - by eapply thread_old_rows.
  - injection E as <- <-. apply (old_rows_log _ s); [done..|set_solver].
  - destruct (ps_worker s) eqn:Ew; try done. injection E as E.
    pose proof (purge_old_rows old db ok s log I O Ew (i_over _ _ _ I Ew)) as X. by rewrite E in X.
Qed.

Lemma run_old_rows old db ls s s' e log : inv old s log -> old_rows db s log -> run ls s = Some (s', e) -> old_rows db s' (log ++ e).
Proof.
  revert s log e; induction ls as [|l ls IH]; intros s log e I O E; cbn in E.
  - injection E as <- <-. by rewrite app_nil_r.
  - destruct (step l s) as [[s1 e1]|] eqn:Es; [|done]. destruct (run ls s1) as [[s2 e2]|] eqn:Er; [|done].
    injection E as <- <-. rewrite app_assoc. eapply IH; [by eapply inv_step|by eapply step_old_rows|done].
Qed.

Lemma old_rows_open db : old_rows db (open_storage db) [].
Proof. split_and!; [done|by intros p ?%elem_of_nil|]. intros a x Hx. by left. Qed.

Lemma old_rows_reached ls db s log : (forall a x, tbl_lookup a db = Some x -> 0 < a) ->
  run ls (open_storage db) = Some (s, log) -> old_rows db s log.
Proof.
  intros Hpos E. apply (run_old_rows (in_table db) db ls (open_storage db) s log []); [|apply old_rows_open|done].
  by apply (inv_reached [] db).
Qed.

Lemma dropped_excused ls db s log p : (forall a x, tbl_lookup a db = Some x -> 0 < a) ->
  run ls (open_storage db) = Some (s, log) -> Dropped p ∈ log ->
  ps_close s = true \/ LThread false ∈ ls \/ pl_ser (qp_packet p) = None.
Proof.
  intros Hpos E Hd. destruct (ps_close s) eqn:Ec; [by left|right].
  destruct (run_excused (in_table db) ls _ _ _ [] (inv_reached [] db _ [] Hpos eq_refl) E Ec) as [_ X].
  destruct (X _ Hd) as (l & Hl & [-> |]); [by left|by right].
Qed.

(** *** Pending packets *)

#[local] Existing Instances ack_le ack_le_dec.

#[local] Instance ack_total : Total (⊑@{stored_packet}).
Proof. intros x y. unfold sqsubseteq, ack_le. lia. Qed.
#[local] Instance ack_trans : Transitive (⊑@{stored_packet}).
Proof. intros x y z. unfold sqsubseteq, ack_le. lia. Qed.

Definition ack_lt (x y : stored_packet) : Prop := sp_ack x < sp_ack y.

Lemma unique_sub (l : list stored_packet) x : x ∈ unique l -> x ∈ l.
Proof.
  induction l as [|y l IH]; cbn; [done|]. destruct (unique l) as [|z rest]; [set_solver|].
  destruct (sp_ack y =? sp_ack z); set_solver.
Qed.

Lemma unique_covers (l : list stored_packet) x : x ∈ l -> exists y, y ∈ unique l /\ sp_ack y = sp_ack x.
Proof.
  induction l as [|z l IH]; cbn; [by intros ?%elem_of_nil|]. rewrite elem_of_cons. intros [->|Hx].
  - exists z. split; [|done]. destruct (unique l) as [|w rest]; [by left|]. destruct (sp_ack z =? sp_ack w); by left.
  - destruct (IH Hx) as (y & Hy & E). destruct (unique l) as [|w rest]; [by apply elem_of_nil in Hy|].
    destruct (Z.eqb_spec (sp_ack z) (sp_ack w)) as [Ew|].
    + apply elem_of_cons in Hy as [->|Hy]; [exists z|exists y]; split; try done; [by left|congruence|by right].
    + exists y. split; [by right|done].
Qed.

Lemma unique_sorted l : StronglySorted (⊑) l -> StronglySorted ack_lt (unique l).
Proof.
  induction 1 as [|x l Hs IH Hx]; cbn; [constructor|].
  assert (forall y, y ∈ unique l -> sp_ack x <= sp_ack y) as Hle.
  { intros y Hy%unique_sub. rewrite Forall_forall in Hx. exact (Hx y Hy). }
  destruct (unique l) as [|w rest]; [by repeat constructor|].
  apply StronglySorted_inv in IH as [IH Hw]. rewrite Forall_forall in Hw.
  destruct (Z.eqb_spec (sp_ack x) (sp_ack w)) as [Ew|Hne].
  - constructor; [done|]. apply Forall_forall. intros y Hy. unfold ack_lt. rewrite Ew. by apply Hw.
  - assert (sp_ack x < sp_ack w) by (assert (sp_ack x <= sp_ack w) by (apply Hle; by left); lia).
    constructor; [constructor; [done|by apply Forall_forall]|]. apply Forall_forall. intros y [->|Hy]%elem_of_cons; [done|].
    specialize (Hw y Hy). unfold ack_lt in *. lia.
Qed.

Lemma merge_pending_sorted mem db : StronglySorted ack_lt (merge_pending mem db).
Proof. apply unique_sorted, StronglySorted_merge_sort; apply _. Qed.

Lemma elem_of_merge_pending (mem db : list stored_packet) x : x ∈ merge_pending mem db -> x ∈ mem \/ x ∈ db.
Proof. intros Hx%unique_sub. rewrite merge_sort_Permutation in Hx. set_solver. Qed.

Lemma merge_pending_covers (mem db : list stored_packet) x : x ∈ mem \/ x ∈ db -> exists y, y ∈ merge_pending mem db /\ sp_ack y = sp_ack x.
Proof. intros Hx. apply unique_covers. rewrite merge_sort_Permutation. set_solver. Qed.

(** Every entry a call finds is a packet inserted for the receiver. *)
Lemma pending_entry old s log c r mem x : inv old s log ->
  ps_reading s !! c = Some (r, mem) -> x ∈ mem \/ x ∈ pending_in_database r (ps_db s) ->
  forall p, Inserted p ∈ log -> qp_ack p = sp_ack x -> qp_receiver p = r /\ qp_packet p = sp_packet x.
Proof.
  intros I Hr Hx p Hp Ea. destruct Hx as [Hx|Hx].
  - destruct (i_reading _ _ _ I _ _ _ _ Hr Hx) as (q & Hq & <- & ->). by rewrite (i_unique _ _ _ I p q Hp Hq Ea).
  - apply elem_of_pending_in_database in Hx as (bs & Hrow & Hd & _). rewrite <- Ea in Hrow.
    destruct (i_row_of _ _ _ I p _ Hp Hrow) as (bs' & [= -> ->] & Hs). apply pl_round in Hs. split; congruence.
Qed.

Lemma pending_from_queue old s log p : inv old s log -> p ∈ ps_queue s ->
  StoredPacket (qp_ack p) true (qp_packet p) ∈ pending_in_memory (qp_receiver p) s.
Proof.
  intros I Hq. apply elem_of_pending_in_memory. exists p. split_and!; [by apply (i_index _ _ _ I)| |done].
  destruct (lock_packet (qp_ack p) s) as [q|] eqn:El; [|by apply lock_packet_none in El as [El _]].
  apply lock_packet_some in El as [Ea Hin]. f_equal. apply (i_unique _ _ _ I); [by apply (i_inserted _ _ _ I)| |done].
  apply (i_inserted _ _ _ I). by left.
Qed.

(** A packet inserted before a call began, not acknowledged when the table was
    read, is found — unless the thread had it in hand, or dropped it. *)
Lemma pending_new old s1 s3 log1 log2 c p : inv old s1 log1 -> inv old s3 (log1 ++ log2) ->
  ps_reading s3 !! c = Some (qp_receiver p, pending_in_memory (qp_receiver p) s1) ->
  Inserted p ∈ log1 -> Acked (qp_ack p) ∉ log1 ++ log2 ->
  (exists ptr, StoredPacket (qp_ack p) ptr (qp_packet p)
    ∈ merge_pending (pending_in_memory (qp_receiver p) s1) (pending_in_database (qp_receiver p) (ps_db s3))) \/
  p ∈ writing (ps_worker s1) ++ got (ps_worker s1) \/ Dropped p ∈ log1.
Proof.
  intros I1 I3 Ei Hp Ha.
  assert (Inserted p ∈ log1 ++ log2) as Hp3 by (apply elem_of_app; by left).
  assert ((exists x, (x ∈ pending_in_memory (qp_receiver p) s1 \/ x ∈ pending_in_database (qp_receiver p) (ps_db s3)) /\ sp_ack x = qp_ack p) \/
    p ∈ writing (ps_worker s1) ++ got (ps_worker s1) \/ Dropped p ∈ log1) as [(x & Hx & Ex)|]; [|left|by right].
  { rewrite elem_of_app in Ha. destruct (i_account _ _ _ I1 p Hp) as [|[|[Hq|Hs]]]; [tauto|tauto| |].
    - unfold to_write, unwritten in Hq. rewrite !elem_of_app in Hq. rewrite elem_of_app.
      destruct Hq as [|[|Hq]]; [tauto|tauto|left].
      eexists. split; [left; by apply (pending_from_queue old s1 log1)|done].
    - left. destruct (i_stored _ _ _ I3 p) as [_ [X|X]]; [apply elem_of_app; by left|rewrite elem_of_app in X; tauto|].
      destruct (row (qp_ack p) s3) as [x|] eqn:Ex; [|done]. destruct (i_row_of _ _ _ I3 p x Hp3 Ex) as (bs & -> & Hb).
      exists (StoredPacket (qp_ack p) false (qp_packet p)). split; [right|done].
      apply elem_of_pending_in_database. exists bs. split_and!; [exact Ex|by apply pl_round|done]. }
  destruct (merge_pending_covers _ _ x Hx) as (y & Hy & Ey). exists (sp_ptr y).
  destruct (pending_entry old s3 (log1 ++ log2) c (qp_receiver p) _ y I3 Ei (elem_of_merge_pending _ _ _ Hy) p Hp3) as [_ ->];
    [congruence|]. rewrite <- Ex, <- Ey. by destruct y.
Qed.

(** So is a row of an earlier run. *)
Lemma pending_old db s log c r mem a bs pk : inv (in_table db) s log -> old_rows db s log ->
  ps_reading s !! c = Some (r, mem) ->
  tbl_lookup a db = Some (r, bs) -> pl_des bs = Some pk -> Acked a ∉ log ->
  exists ptr, StoredPacket a ptr pk ∈ merge_pending mem (pending_in_database r (ps_db s)).
Proof.
  intros I (_ & O2 & O3) Ei Ha Hd Hn. destruct (O3 a _ Ha) as [Hr|[_ X]]; [|done].
  assert (StoredPacket a false pk ∈ pending_in_database r (ps_db s)) as Hx by (apply elem_of_pending_in_database; by exists bs).
  destruct (merge_pending_covers mem _ _ (or_intror Hx)) as (y & Hy & Ey). exists (sp_ptr y). cbn in Ey.
  enough (sp_packet y = pk) as <- by (rewrite <- Ey; by destruct y).
  apply elem_of_merge_pending in Hy as [Hy|Hy].
  - destruct (i_reading _ _ _ I _ _ _ _ Ei Hy) as (p & Hp & _ & ->). cbn in *.
    pose proof (O2 p Hp). pose proof (tbl_max_ok _ _ _ Ha). lia.
  - apply elem_of_pending_in_database in Hy as (bs' & Hr' & Hd' & _). rewrite Ey in Hr'. unfold row in Hr. congruence.
Qed.

(** And nothing else is. *)
Lemma pending_sound db s log c r mem x : inv (in_table db) s log -> old_rows db s log ->
  ps_reading s !! c = Some (r, mem) -> x ∈ merge_pending mem (pending_in_database r (ps_db s)) ->
  (exists p, Inserted p ∈ log /\ qp_receiver p = r /\ qp_ack p = sp_ack x /\ qp_packet p = sp_packet x) \/
  exists bs, tbl_lookup (sp_ack x) db = Some (r, bs) /\ pl_des bs = Some (sp_packet x).
Proof.
  intros I (_ & _ & O3) Ei Hx%elem_of_merge_pending. destruct Hx as [Hx|Hx].
  - destruct (i_reading _ _ _ I _ _ _ _ Ei Hx) as (p & Hp & Hr & ->). left. by exists p.
  - apply elem_of_pending_in_database in Hx as (bs & Hr & Hd & _).
    destruct (i_row_from _ _ _ I _ _ Hr) as [Ho|(p & Hp & Ea)].
    + right. unfold in_table in Ho. destruct (tbl_lookup (sp_ack x) db) as [y|] eqn:Ey; [|done].
      unfold row in *. destruct (O3 _ _ Ey) as [E|[E _]]; rewrite Hr in E; simplify_eq. by exists bs.
    + left. rewrite <- Ea in Hr. destruct (i_row_of _ _ _ I p _ Hp Hr) as (bs' & [= -> ->] & Hs). apply pl_round in Hs.
      exists p. split_and!; [done|done|done|congruence].
Qed.

(** C24: A call of get_pending_packets gives packets in the order of their
    acknowledgement numbers, without duplicates.  Among them is every packet for
    the receiver that is not acknowledged when the table is read, whether it was
    inserted before the call began or has its row from an earlier run — but for
    the one the database thread had taken off the queue and not yet written when
    the call began, and for those the thread dropped, which it does only when
    the database fails, when the packet cannot be serialised, or when close was
    called.  Everything given is a packet that was inserted for this receiver,
    in this run or, as the row tells, before it. *)
Theorem pending_packets_complete ls1 ls2 db s1 s2 s3 s4 log1 log2 r c result :
  (forall a x, tbl_lookup a db = Some x -> 0 < a) ->
  run ls1 (open_storage db) = Some (s1, log1) ->
  step (LPending c r) s1 = Some (s2, []) -> run ls2 s2 = Some (s3, log2) ->
  ps_reading s3 !! c = Some (r, pending_in_memory r s1) ->
  step (LSelect c) s3 = Some (s4, [Pending c r result]) ->
  StronglySorted ack_lt result /\
  (forall p, Inserted p ∈ log1 -> qp_receiver p = r -> Acked (qp_ack p) ∉ log1 ++ log2 ->
    (exists ptr, StoredPacket (qp_ack p) ptr (qp_packet p) ∈ result) \/
    p ∈ writing (ps_worker s1) ++ got (ps_worker s1) \/
    Dropped p ∈ log1 /\ (ps_close s1 = true \/ LThread false ∈ ls1 \/ pl_ser (qp_packet p) = None)) /\
  (forall a bs packet, tbl_lookup a db = Some (r, bs) -> pl_des bs = Some packet -> Acked a ∉ log1 ++ log2 ->
    exists ptr, StoredPacket a ptr packet ∈ result) /\
  (forall x, x ∈ result ->
    (exists p, Inserted p ∈ log1 ++ log2 /\ qp_receiver p = r /\ qp_ack p = sp_ack x /\ qp_packet p = sp_packet x) \/
    exists bs, tbl_lookup (sp_ack x) db = Some (r, bs) /\ pl_des bs = Some (sp_packet x)).
Proof.
  intros Hpos E1 Er E2 Ei Es.
  pose proof (inv_reached _ _ _ _ Hpos E1) as I1. pose proof (old_rows_reached _ _ _ _ Hpos E1) as O1.
  assert (inv (in_table db) s2 log1) as I2 by (pose proof (inv_step _ _ _ _ _ _ I1 Er) as X; by rewrite app_nil_r in X).
  assert (old_rows db s2 log1) as O2 by (pose proof (step_old_rows _ _ _ _ _ _ _ I1 O1 Er) as X; by rewrite app_nil_r in X).
  pose proof (inv_run _ _ _ _ _ _ I2 E2) as I3. pose proof (run_old_rows _ _ _ _ _ _ _ I2 O2 E2) as O3.
  cbn in Es. unfold pending_end in Es. rewrite Ei in Es. injection Es as _ <-.
  split_and!; [apply merge_pending_sorted| | |].
  - intros p Hp <- Ha. destruct (pending_new _ _ _ _ _ _ _ I1 I3 Ei Hp Ha) as [|[|Hd]]; [by left|by right; left|right; right].
    split; [done|]. by eapply dropped_excused.
  - intros a bs packet. by eapply pending_old.
  - intros x. by eapply pending_sound.
Qed.

(** *** The thread catches up *)

Definition phase (w : worker P) : nat :=
  match w with WGot _ _ => 5 | WWrite _ _ => 4 | WNotify _ _ => 3 | WRemove _ _ => 2 | WLoop _ => 1 | WWait | WDone => 0 end.

Definition work (s : storage) : nat := 6 * (length (ps_queue s) + length (ps_remove_queue s)) + phase (ps_worker s).

Lemma thread_works (s : storage) : ps_close s = false -> ps_worker s <> WDone ->
  ps_worker s = WWait /\ ps_queue s = [] /\ ps_remove_queue s = [] \/
  exists s' e, thread_step true s = Some (s', e) /\ (work s' < work s)%nat /\ ps_close s' = false /\
    ps_worker s' <> WDone /\ ps_pushing s' = ps_pushing s.
Proof.
  intros Hc Hw. unfold thread_step, work. destruct (ps_worker s) as [h| |[p|] r|p r|p r|h r|] eqn:Ew; [| | | | | | |done].
  - right. eexists _, _. split; [done|]. cbn. split; [lia|done].
  - destruct (ps_queue s) as [|p q] eqn:Eq, (ps_remove_queue s) as [|a rq] eqn:Er; [by left|right..];
      (assert (may_run s = true) as -> by (unfold may_run; by rewrite Eq, Er, Hc));
      eexists _, _; (split; [by rewrite next_packet_take, Hc|]); unfold take; rewrite Eq, Er; cbn; (split; [lia|done]).
  - right. case_decide; eexists _, _; (split; [done|]); cbn; (split; [lia|done]).
  - right. eexists _, _. split; [done|]. cbn. split; [lia|done].
  - right. destruct (write_to_database true p (ps_db s)); eexists _, _; (split; [done|]); cbn; (split; [lia|done]).
  - right. eexists _, _. split; [done|]. cbn. split; [lia|done].
  - right. unfold remove_from_database. destruct (r =? 0); eexists _, _; (split; [done|]); cbn; (split; [lia|done]).
Qed.

Lemma thread_drains (s : storage) : ps_close s = false -> ps_worker s <> WDone ->
  exists n s' e, run (replicate n (LThread true)) s = Some (s', e) /\ ps_worker s' = WWait /\ ps_queue s' = [] /\
    ps_remove_queue s' = [] /\ ps_close s' = false /\ ps_pushing s' = ps_pushing s.
Proof.
  remember (work s) as m eqn:Em. revert s Em. induction (Nat.lt_wf_0 m) as [m _ IH]. intros s -> Hc Hw.
  destruct (thread_works s Hc Hw) as [(E1 & E2 & E3)|(s1 & e1 & E1 & Hlt & Hc1 & Hw1 & Hp1)].
  - by exists 0%nat, s, [].
  - destruct (IH (work s1) Hlt s1 eq_refl Hc1 Hw1) as (n & s2 & e2 & E2 & K2 & K3 & K4 & K5 & K6).
    exists (S n), s2, (e1 ++ e2). cbn. rewrite E1, E2. split_and!; congruence.
Qed.

(** C25: Whatever happened before, an open store whose acknowledgements have all
    reached the queue catches up when its thread runs and the database works:
    the thread comes to its wait with both queues empty; the sender of every
    packet has been notified, unless the packet cannot be serialised or an
    earlier call of the database failed for it; and no acknowledged packet is
    left in the table, unless an earlier deletion of it failed.  In a run in which
    the database never failed nothing is dropped. *)
Theorem store_catches_up ls db s log :
  (forall a x, tbl_lookup a db = Some x -> 0 < a) ->
  run ls (open_storage db) = Some (s, log) -> ps_close s = false -> ps_pushing s = [] ->
  exists n s' e, run (replicate n (LThread true)) s = Some (s', e) /\
    ps_worker s' = WWait /\ ps_queue s' = [] /\ ps_remove_queue s' = [] /\
    (forall p, Inserted p ∈ log ->
      Notified p ∈ log ++ e \/ pl_ser (qp_packet p) = None \/ Dropped p ∈ log /\ LThread false ∈ ls) /\
    (forall a, Acked a ∈ log -> tbl_lookup a (ps_db s') = None \/ DeleteLost a ∈ log /\ LThread false ∈ ls).
Proof.
  intros Hpos E Hc Hp. pose proof (inv_reached _ _ _ _ Hpos E) as I.
  destruct (run_excused (in_table db) ls _ _ _ [] (inv_reached [] db _ [] Hpos eq_refl) E Hc) as [_ Hlog].
  destruct (thread_drains s Hc) as (n & s' & e & En & Ew & Eq & Er & Ec & Ep).
  { intros Hw. apply (i_over _ _ _ I) in Hw. congruence. }
  destruct (run_excused _ _ _ _ _ _ I En Ec) as [_ He].
  pose proof (inv_run _ _ _ _ _ _ I En) as I'. exists n, s', e. split_and!; [done..| |].
  - intros p Hi. destruct (i_heard _ _ _ I' p) as [|[[Hd|Hd]%elem_of_app|X]]; [apply elem_of_app; by left|by left|..].
    + right. destruct (Hlog _ Hd) as (l & Hl & [-> |]); [by right|by left].
    + right. left. destruct (He _ Hd) as (l & Hl%elem_of_replicate & [-> |]); [by destruct Hl|done].
    + exfalso. unfold to_write, unwritten in X. rewrite Ew, Eq in X. cbn in X. rewrite !elem_of_nil in X.
      destruct X as [[]|[[]|X]]. congruence.
  - intros a Ha. destruct (row a s') as [x|] eqn:Ex; [right|by left].
    destruct (i_no_leak _ _ _ I' a) as [X|[Hd|Hd]%elem_of_app]; [apply elem_of_app; by left|left; congruence| | |].
    + exfalso. unfold deletes in X. rewrite Ew, Er, Ep, Hp in X. by apply elem_of_nil in X.
    + destruct (Hlog _ Hd) as (l & Hl & ->). by split.
    + destruct (He _ Hd) as (l & Hl%elem_of_replicate & ->). by destruct Hl.
Qed.
End promises.

(** ** A table, and runs of the store *)
Module Sample.

Abbreviation table := (gmap Z (octets * octets)).

#[export] Instance table_ops : PacketTable table := {
  tbl_lookup a t := t !! a;
  tbl_insert a r p t := match t !! a with Some _ => None | None => Some (<[a := (r, p)]> t) end;
  tbl_delete a t := delete a t;
  tbl_select r t := omap (fun '(a, (r', p)) => if decide (r' = r) then Some (a, p) else None) (map_to_list t);
  tbl_max t := foldr Z.max 0 (fst <$> map_to_list t)
}.

Lemma foldr_max (l : list Z) : (forall a, a ∈ l -> a <= foldr Z.max 0 l) /\ (foldr Z.max 0 l = 0 \/ foldr Z.max 0 l ∈ l).
Proof.
  induction l as [|x l [IH1 IH2]]; cbn; [split; [by intros a ?%elem_of_nil|by left]|]. split.
  - intros a [->|Ha%IH1]%elem_of_cons; lia.
  - rewrite elem_of_cons. destruct (Z.max_spec x (foldr Z.max 0 l)) as [[? ->]|[? ->]]; tauto.
Qed.

#[export] Instance table_laws : PacketTableLaws table.
Proof.
  constructor; cbn.
  - intros a r p t E. rewrite E. eexists; split; [done|]. intros b. case_decide as D; [subst; by rewrite lookup_insert_eq|].
    by rewrite lookup_insert_ne.
  - intros a t b. case_decide; [subst; by rewrite lookup_delete_eq|by rewrite lookup_delete_ne].
  - intros r t a p. rewrite <- list_elem_of_In, list_elem_of_omap. split.
    + intros ([b [r' q]] & Hin & E). case_decide; simplify_eq. by apply elem_of_map_to_list.
    + intros E. exists (a, (r, p)). split; [by apply elem_of_map_to_list|by rewrite decide_True].
  - intros t a x E. apply foldr_max. apply list_elem_of_fmap. exists (a, x). split; [done|by apply elem_of_map_to_list].
  - intros t. destruct (foldr_max (fst <$> map_to_list t)) as [_ [->|X]]; [by left|right].
    apply list_elem_of_fmap in X as ([a x] & Ea & X%elem_of_map_to_list). exists x. cbn in *. by rewrite Ea.
Qed.

(** Payloads are octets; one of nine octets cannot be serialised. *)
#[export] Instance payload_ops : Payload octets := { pl_ser p := if zlen p =? 9 then None else Some p; pl_des bs := Some bs }.
#[export] Instance payload_law : PayloadLaw octets.
Proof. constructor. cbn. intros p bs. destruct (zlen p =? 9); congruence. Qed.

Definition start : storage table octets := open_storage ∅.
Definition packet (a : Z) (bs : octets) : queued_packet octets := Queued [7] bs a 40 [8].
Definition new (bs : octets) : label octets := LInsert [7] bs 40 [8].
Definition round (n : nat) : list (label octets) := replicate n (LThread true).

End Sample.
Import Sample.

(** A packet the thread has taken is in neither place a call looks at. *)
Example pending_gap : option_map snd (run (new [1] :: round 2 ++ [LPending 0 [7]; LSelect 0]) start)
  = Some [Inserted (packet 1 [1]); Pending 0 [7] []].
Proof. vm_compute. reflexivity. Qed.

(** A packet the thread takes after [close] was called is not purged, and an
    acknowledgement it takes is not carried out. *)
Example close_loses_packet : option_map snd (run ([new [1]; LClose] ++ round 1 ++ [LPurge (fun _ => true); LPending 0 [7]; LSelect 0]) start)
  = Some [Inserted (packet 1 [1]); Dropped (packet 1 [1]); Pending 0 [7] []].
Proof. vm_compute. reflexivity. Qed.

Example close_loses_acknowledgement :
  option_map snd (run (new [1] :: round 6 ++ [LAck 1 true; LPush 1; LClose] ++ round 1 ++ [LPurge (fun _ => true); LPending 0 [7]; LSelect 0]) start)
  = Some [Inserted (packet 1 [1]); Stored (packet 1 [1]); Notified (packet 1 [1]); Acked 1; DeleteLost 1; Pending 0 [7] [StoredPacket 1 false [1]]].
Proof. vm_compute. reflexivity. Qed.

Lemma empty_positive : forall a x, tbl_lookup a (∅ : table) = Some x -> 0 < a.
Proof. intros a x E. cbn in E. by rewrite lookup_empty in E. Qed.

Lemma notified_packets_are_durable_witness : exists s log,
  run (new [1] :: round 5) start = Some (s, log) /\ Notified (packet 1 [1]) ∈ log /\
  (Acked 1 ∈ log \/ exists bs, tbl_lookup 1 (ps_db s) = Some ([7], bs) /\ pl_des bs = Some [1]).
Proof.
  eexists _, _. split; [vm_compute; reflexivity|]. split; [vm_compute; repeat constructor|].
  refine (notified_packets_are_durable (new [1] :: round 5) ∅ _ _ (packet 1 [1]) empty_positive _ _).
  - vm_compute. reflexivity.
  - vm_compute. repeat constructor.
Defined.

(** A row of an earlier run, a packet in the table and one queued; the thread
    writes it while the call reads. *)
Definition earlier : table := {[3 := ([7], [9])]}.

Lemma earlier_positive : forall a x, tbl_lookup a earlier = Some x -> 0 < a.
Proof. intros a x E. cbn in E. unfold earlier in E. apply lookup_singleton_Some in E as [<- _]. lia. Qed.

Lemma pending_packets_complete_witness : exists s1 s2 s3 s4 log1 log2 result,
  run (new [1] :: round 5 ++ [new [2]]) (open_storage earlier) = Some (s1, log1) /\ step (LPending 0 [7]) s1 = Some (s2, []) /\
  run (round 4) s2 = Some (s3, log2) /\ step (LSelect 0) s3 = Some (s4, [Pending 0 [7] result]) /\
  length result = 3%nat /\
  StronglySorted ack_lt result /\
  (forall p, Inserted p ∈ log1 -> qp_receiver p = [7] -> Acked (qp_ack p) ∉ log1 ++ log2 ->
    (exists ptr, StoredPacket (qp_ack p) ptr (qp_packet p) ∈ result) \/
    p ∈ writing (ps_worker s1) ++ got (ps_worker s1) \/
    Dropped p ∈ log1 /\ (ps_close s1 = true \/ LThread false ∈ new [1] :: round 5 ++ [new [2]] \/ pl_ser (qp_packet p) = None)) /\
  (forall a bs packet, tbl_lookup a earlier = Some ([7], bs) -> pl_des bs = Some packet -> Acked a ∉ log1 ++ log2 ->
    exists ptr, StoredPacket a ptr packet ∈ result) /\
  (forall x, x ∈ result ->
    (exists p, Inserted p ∈ log1 ++ log2 /\ qp_receiver p = [7] /\ qp_ack p = sp_ack x /\ qp_packet p = sp_packet x) \/
    exists bs, tbl_lookup (sp_ack x) earlier = Some ([7], bs) /\ pl_des bs = Some (sp_packet x)).
Proof.
  eexists _, _, _, _, _, _, _. split; [vm_compute; reflexivity|]. split; [vm_compute; reflexivity|].
  split; [vm_compute; reflexivity|]. split; [vm_compute; reflexivity|]. split; [reflexivity|].
  eapply (pending_packets_complete (new [1] :: round 5 ++ [new [2]]) (round 4) earlier _ _ _ _ _ _ [7] 0 _ earlier_positive);
    vm_compute; reflexivity.
Defined.

(** Acknowledged in the table, acknowledged in the queue, and not acknowledged. *)
Definition busy : list (label octets) :=
  new [1] :: round 6 ++ [new [2]; new [3]; LAck 2 true; LAck 1 true; LPush 1].

Lemma store_catches_up_witness : exists s log, run busy start = Some (s, log) /\ ps_close s = false /\ ps_pushing s = [] /\
  exists n s' e, run (replicate n (LThread true)) s = Some (s', e) /\
    ps_worker s' = WWait /\ ps_queue s' = [] /\ ps_remove_queue s' = [] /\
    (forall p, Inserted p ∈ log ->
      Notified p ∈ log ++ e \/ pl_ser (qp_packet p) = None \/ Dropped p ∈ log /\ LThread false ∈ busy) /\
    (forall a, Acked a ∈ log -> tbl_lookup a (ps_db s') = None \/ DeleteLost a ∈ log /\ LThread false ∈ busy).
Proof.
  eexists _, _. split; [vm_compute; reflexivity|]. split; [reflexivity|]. split; [reflexivity|].
  refine (store_catches_up busy ∅ _ _ empty_positive _ _ _); vm_compute; reflexivity.
Defined.
