(* ===== verification/PacketTransport.v ===== *)
(** Packet transport: the clients, the relay server and the links between them
    ([infrastructure/packet_transport]).

    A step of the world is what one thread does between two points where
    another may run: a client's handler of a received packet, one of the two
    halves of [send_packet], one stage of a server connection's handler, one
    step of the store.  The links deliver in order and may break at any time;
    what was under way is then lost.  The packets are the values that
    [serialise_choice] carries.  The connections are the authenticated ones of
    [Connection.v]: the server's end knows the client's key. *)

From stdpp Require Import base list numbers strings gmap.
From Stdlib Require Import ZArith Lia.
From S2P Require Import Prelude Errors PacketStorage.
Open Scope Z_scope.

Definition current_version : Z := 1.

Section transport.
Context {T P : Type} `{PacketTable T} `{Payload P} `{ForeignCategories}.

(** Who signed a payload. *)
Context (issuer : P -> octets).

(** The row identifiers the client's database gives to new rows. *)
Context (next_out : gmap Z (octets * P) -> Z) (next_in : gmap Z P -> Z).

Inductive packet : Type :=
| PHello (version ack : Z) (err : net_error)
| PTransport (receiver : octets) (packet : P) (ack : Z)
| PAck (ack : Z)
| PError (ack : Z) (err : net_error).

(** What is left to do of the handler a connection's strand is running. *)
Inductive task : Type :=
| TNone
| TRegister
| TReading
| TSelect
| TSend (packets : list (stored_packet P))
| TForward (receiver : octets) (packet : P) (ack : Z).

(** The server's end of a link, with the link: [sc_in] towards the server,
    [sc_out] towards the client; [sc_alive] until the object is destroyed,
    [sc_up] until it is closed, [sc_client] while the client's end is open. *)
Record sconn : Type := SConn {
  sc_id : octets;
  sc_good : bool;
  sc_alive : bool;
  sc_up : bool;
  sc_ack_map : gmap Z bool;
  sc_task : task;
  sc_in : list packet;
  sc_out : list packet;
  sc_client : bool;
  sc_broken : bool
}.

Definition set_sc_id (v : octets) (x : sconn) : sconn :=
  SConn v (sc_good x) (sc_alive x) (sc_up x) (sc_ack_map x) (sc_task x) (sc_in x) (sc_out x) (sc_client x)
    (sc_broken x).
Definition set_sc_good (v : bool) (x : sconn) : sconn :=
  SConn (sc_id x) v (sc_alive x) (sc_up x) (sc_ack_map x) (sc_task x) (sc_in x) (sc_out x) (sc_client x) (sc_broken x).
Definition set_sc_alive (v : bool) (x : sconn) : sconn :=
  SConn (sc_id x) (sc_good x) v (sc_up x) (sc_ack_map x) (sc_task x) (sc_in x) (sc_out x) (sc_client x) (sc_broken x).
Definition set_sc_up (v : bool) (x : sconn) : sconn :=
  SConn (sc_id x) (sc_good x) (sc_alive x) v (sc_ack_map x) (sc_task x) (sc_in x) (sc_out x) (sc_client x)
    (sc_broken x).
Definition set_sc_ack_map (v : gmap Z bool) (x : sconn) : sconn :=
  SConn (sc_id x) (sc_good x) (sc_alive x) (sc_up x) v (sc_task x) (sc_in x) (sc_out x) (sc_client x) (sc_broken x).
Definition set_sc_task (v : task) (x : sconn) : sconn :=
  SConn (sc_id x) (sc_good x) (sc_alive x) (sc_up x) (sc_ack_map x) v (sc_in x) (sc_out x) (sc_client x) (sc_broken x).
Definition set_sc_in (v : list packet) (x : sconn) : sconn :=
  SConn (sc_id x) (sc_good x) (sc_alive x) (sc_up x) (sc_ack_map x) (sc_task x) v (sc_out x) (sc_client x)
    (sc_broken x).
Definition set_sc_out (v : list packet) (x : sconn) : sconn :=
  SConn (sc_id x) (sc_good x) (sc_alive x) (sc_up x) (sc_ack_map x) (sc_task x) (sc_in x) v (sc_client x)
    (sc_broken x).
Definition set_sc_client (v : bool) (x : sconn) : sconn :=
  SConn (sc_id x) (sc_good x) (sc_alive x) (sc_up x) (sc_ack_map x) (sc_task x) (sc_in x) (sc_out x) v (sc_broken x).
Definition set_sc_broken (v : bool) (x : sconn) : sconn :=
  SConn (sc_id x) (sc_good x) (sc_alive x) (sc_up x) (sc_ack_map x) (sc_task x) (sc_in x) (sc_out x) (sc_client x) v.
(** [packets_to_out], [packets_to_in]; [cl_sending]: calls of [send_packet]
    between the table and the connection. *)
Record client : Type := Client {
  cl_out : gmap Z (octets * P);
  cl_in : gmap Z P;
  cl_link : option nat;
  cl_ready : bool;
  cl_hello_done : bool;
  cl_sending : list (Z * (octets * P))
}.

Definition set_cl_out (v : gmap Z (octets * P)) (x : client) : client :=
  Client v (cl_in x) (cl_link x) (cl_ready x) (cl_hello_done x) (cl_sending x).
Definition set_cl_in (v : gmap Z P) (x : client) : client :=
  Client (cl_out x) v (cl_link x) (cl_ready x) (cl_hello_done x) (cl_sending x).
Definition set_cl_link (v : option nat) (x : client) : client :=
  Client (cl_out x) (cl_in x) v (cl_ready x) (cl_hello_done x) (cl_sending x).
Definition set_cl_ready (v : bool) (x : client) : client :=
  Client (cl_out x) (cl_in x) (cl_link x) v (cl_hello_done x) (cl_sending x).
Definition set_cl_hello_done (v : bool) (x : client) : client :=
  Client (cl_out x) (cl_in x) (cl_link x) (cl_ready x) v (cl_sending x).
Definition set_cl_sending (v : list (Z * (octets * P))) (x : client) : client :=
  Client (cl_out x) (cl_in x) (cl_link x) (cl_ready x) (cl_hello_done x) v.
(** For the record: [send_packet] put a packet into the table, a packet was put
    into a client's table and handed to its user, a packet left the table
    because the server acknowledged it, or refused it with an error the sender's
    user is told. *)
Inductive wevent : Type :=
| Sent (sender : octets) (key : Z) (receiver : octets) (packet : P)
| Delivered (receiver : octets) (packet : P)
| Confirmed (sender : octets) (key : Z)
| Refused (sender : octets) (key : Z) (err : error).

(** [w_conns]: the server's map of connections; [w_origin]: the connection a
    queued packet's notify function holds on to. *)
Record world : Type := World {
  w_store : storage T P;
  w_slog : list (event P);
  w_conns : gmap octets nat;
  w_sconns : gmap nat sconn;
  w_origin : gmap Z nat;
  w_clients : gmap octets client;
  w_log : list wevent
}.

Definition set_w_store (v : storage T P) (x : world) : world :=
  World v (w_slog x) (w_conns x) (w_sconns x) (w_origin x) (w_clients x) (w_log x).
Definition set_w_slog (v : list (event P)) (x : world) : world :=
  World (w_store x) v (w_conns x) (w_sconns x) (w_origin x) (w_clients x) (w_log x).
Definition set_w_conns (v : gmap octets nat) (x : world) : world :=
  World (w_store x) (w_slog x) v (w_sconns x) (w_origin x) (w_clients x) (w_log x).
Definition set_w_sconns (v : gmap nat sconn) (x : world) : world :=
  World (w_store x) (w_slog x) (w_conns x) v (w_origin x) (w_clients x) (w_log x).
Definition set_w_origin (v : gmap Z nat) (x : world) : world :=
  World (w_store x) (w_slog x) (w_conns x) (w_sconns x) v (w_clients x) (w_log x).
Definition set_w_clients (v : gmap octets client) (x : world) : world :=
  World (w_store x) (w_slog x) (w_conns x) (w_sconns x) (w_origin x) v (w_log x).
Definition set_w_log (v : list wevent) (x : world) : world :=
  World (w_store x) (w_slog x) (w_conns x) (w_sconns x) (w_origin x) (w_clients x) v.
Definition start_world (db : T) : world := World (open_storage db) [] ∅ ∅ ∅ ∅ [].

Definition new_client : client := Client ∅ ∅ None false false [].
Definition client_of (c : octets) (w : world) : client := default new_client (w_clients w !! c).
Definition put_client (c : octets) (x : client) (w : world) : world := set_w_clients (<[c := x]> (w_clients w)) w.
Definition put_conn (l : nat) (x : sconn) (w : world) : world := set_w_sconns (<[l := x]> (w_sconns w)) w.
Definition note (e : wevent) (w : world) : world := set_w_log (w_log w ++ [e]) w.
Definition put_store (s : storage T P) (e : list (event P)) (w : world) : world :=
  set_w_store s (set_w_slog (w_slog w ++ e) w).

(** ** The server *)

(** [encrypted_connection::send] at the server. *)
Definition post (p : packet) (x : sconn) : sconn :=
  if sc_up x && sc_client x && negb (sc_broken x) then set_sc_out (sc_out x ++ [p]) x else x.

Definition post_to (l : nat) (p : packet) (w : world) : world :=
  match w_sconns w !! l with Some x => put_conn l (post p x) w | None => w end.

(** [weak_ptr<connection>::lock] *)
Definition lock_conn (l : nat) (w : world) : option sconn :=
  match w_sconns w !! l with Some x => if sc_alive x then Some x else None | None => None end.

Definition do_ack (sender : octets) (origin : nat) (ack : Z) (w : world) : world :=
  match lock_conn origin w with
  | Some _ => post_to origin (PAck ack) w
  | None =>
      match w_conns w !! sender with
      | Some l => match lock_conn l w with Some _ => post_to l (PAck ack) w | None => w end
      | None => w
      end
  end.

(** The notify functions the store called. *)
Definition notify (e : event P) (w : world) : world :=
  match e with
  | Notified p =>
      match w_origin w !! qp_ack p with
      | Some l => do_ack (qp_sender p) l (qp_sender_ack p) w
      | None => w
      end
  | _ => w
  end.

Definition store_step (sl : label P) (w : world) : option world :=
  match step sl (w_store w) with
  | Some (s, e) => Some (foldl (fun w e => notify e w) (put_store s e w) e)
  | None => None
  end.

(** [close] of the encrypted connection: nothing is received or sent any more. *)
Definition shut (x : sconn) : sconn := set_sc_up false (set_sc_in [] x).

(** [std::map::insert]: an entry that exists stays. *)
Definition add_handle (m : gmap Z bool) (x : stored_packet P) : gmap Z bool :=
  match m !! sp_ack x with Some _ => m | None => <[sp_ack x := sp_ptr x]> m end.

(** [connection::on_connect]: the hello goes back, then the server's part. *)
Definition conn_on_connect (v a : Z) (e : net_error) (x : sconn) : sconn := set_sc_task TRegister (post (PHello v a e) x).

(** [connection::handle]; [fault]: what [packet_storage::insert] throws. *)
Definition conn_handle (l : nat) (x : sconn) (p : packet) (fault : option error) (w : world) : world :=
  match p with
  | PTransport rec pl a =>
      if decide (issuer pl = sc_id x)
      then match fault with
           | Some e => if is_error e then put_conn l (post (PError a (net_error_of e)) x) w else put_conn l x w
           | None =>
               let '(s, q) := insert rec pl a (sc_id x) (w_store w) in
               let w := put_store s [Inserted q] w in
               let w := set_w_origin (<[qp_ack q := l]> (w_origin w)) w in
               put_conn l (set_sc_task (TForward rec pl (qp_ack q)) x) w
           end
      else put_conn l x w
  | PAck a =>
      match sc_ack_map x !! a with
      | Some ptr => put_conn l x (put_store (remove_begin a ptr (w_store w)) [Acked a] w)
      | None => put_conn l x w
      end
  | PHello _ _ _ | PError _ _ => put_conn l x w
  end.

(** [packet_server_client::operator()] *)
Definition server_handle (l : nat) (x : sconn) (p : packet) (fault : option error) (w : world) : world :=
  match p with
  | PHello v a e => put_conn l (conn_on_connect v a e x) w
  | _ => if sc_good x then conn_handle l x p fault w else put_conn l (shut x) w
  end.

Definition server_receive (l : nat) (fault : option error) (w : world) : option world :=
  match w_sconns w !! l with
  | Some x =>
      match sc_up x, sc_task x, sc_in x with
      | true, TNone, p :: rest => Some (server_handle l (set_sc_in rest x) p fault w)
      | _, _, _ => None
      end
  | None => None
  end.

(** [connection::send] of the pending packets: first the handles are kept, then
    the packets go out one by one. *)
Definition keep_pending (packets : list (stored_packet P)) (x : sconn) : sconn :=
  set_sc_task (TSend packets) (set_sc_ack_map (foldl add_handle (sc_ack_map x) packets) x).

Definition send_pending (y : stored_packet P) (ys : list (stored_packet P)) (x : sconn) : sconn :=
  set_sc_task (TSend ys) (post (PTransport (sc_id x) (sp_packet y) (sp_ack y)) x).

(** [connection::send] of one packet *)
Definition send_one (pl : P) (a : Z) (x : sconn) : sconn :=
  post (PTransport (sc_id x) pl a) (set_sc_ack_map (add_handle (sc_ack_map x) (StoredPacket a true pl)) x).

Definition hello_done (x : sconn) : sconn := set_sc_good true (set_sc_task TNone x).

(** [packet_server::impl::transport_packet], the part for receivers online. *)
Definition forward (rec : octets) (pl : P) (a : Z) (w : world) : world :=
  match w_conns w !! rec with
  | Some r =>
      match lock_conn r w with
      | Some y => put_conn r (send_one pl a y) w
      | None => w
      end
  | None => w
  end.

Definition set_task (l : nat) (t : task) (w : world) : world :=
  match w_sconns w !! l with Some x => put_conn l (set_sc_task t x) w | None => w end.

(** The rest of a handler: [packet_server::impl::on_connect], and the forwarding. *)
Definition server_task (l : nat) (w : world) : option world :=
  match w_sconns w !! l with
  | Some x =>
      match sc_task x with
      | TNone => None
      | TRegister => Some (set_task l TReading (set_w_conns (<[sc_id x := l]> (w_conns w)) w))
      | TReading => option_map (set_task l TSelect) (store_step (LPending l (sc_id x)) w)
      | TSelect =>
          match step (LSelect l) (w_store w) with
          | Some (s, e) =>
              let packets := match e with [Pending _ _ packets] => packets | _ => [] end in
              Some (put_conn l (keep_pending packets x) (put_store s e w))
          | None => None
          end
      | TSend [] => Some (put_conn l (hello_done x) w)
      | TSend (y :: ys) => Some (put_conn l (send_pending y ys x) w)
      | TForward rec pl a => Some (set_task l TNone (forward rec pl a w))
      end
  | None => None
  end.

(** The read of the pending packets throws: [on_received] closes the connection. *)
Definition select_fails (l : nat) (w : world) : option world :=
  match w_sconns w !! l with
  | Some x =>
      match sc_task x, step (LSelectFails l) (w_store w) with
      | TSelect, Some (s, e) => Some (put_conn l (shut (set_sc_task TNone x)) (put_store s e w))
      | _, _ => None
      end
  | None => None
  end.

(** ** The client *)

(** [encrypted_connection::send] at the client. *)
Definition client_post (l : nat) (p : packet) (w : world) : world :=
  match w_sconns w !! l with
  | Some x => if sc_up x && sc_client x && negb (sc_broken x) then put_conn l (set_sc_in (sc_in x ++ [p]) x) w else w
  | None => w
  end.

(** The client's end of its link is gone. *)
Definition hang_up (l : nat) (w : world) : world :=
  match w_sconns w !! l with Some x => put_conn l (set_sc_client false (set_sc_out [] x)) w | None => w end.

Definition client_shutdown (c : octets) (w : world) : world :=
  match cl_link (client_of c w) with
  | Some l => hang_up l (put_client c (set_cl_link None (set_cl_ready false (client_of c w))) w)
  | None => w
  end.

(** [send_packet], up to the table: [data] is enveloped and signed before. *)
Definition send_begin (c rec : octets) (pl : P) (w : world) : world :=
  let x := client_of c w in
  let key := next_out (cl_out x) in
  let x := set_cl_out (<[key := (rec, pl)]> (cl_out x)) x in
  note (Sent c key rec pl) (put_client c (set_cl_sending ((key, (rec, pl)) :: cl_sending x) x) w).

(** and from there on *)
Definition send_end (c : octets) (call : nat) (w : world) : option world :=
  let x := client_of c w in
  match cl_sending x !! call with
  | Some (key, (rec, pl)) =>
      let w := put_client c (set_cl_sending (delete call (cl_sending x)) x) w in
      match cl_link x with
      | Some l => Some (if cl_hello_done x then client_post l (PTransport rec pl key) w else w)
      | None => Some w
      end
  | None => None
  end.

(** [on_connected]; the connection counts as connected before it runs. *)
Definition client_connected (c : octets) (w : world) : option world :=
  let x := client_of c w in
  match cl_link x with
  | Some l =>
      if cl_ready x then None
      else Some (client_post l (PHello current_version 0 no_net_error)
                   (put_client c (set_cl_ready true (set_cl_hello_done false x)) w))
  | None => None
  end.

Definition client_handle (c : octets) (l : nat) (p : packet) (w : world) : world :=
  let x := client_of c w in
  match p with
  | PHello _ _ e =>
      if is_net_error e then client_shutdown c w
      else foldl (fun w '(key, (rec, pl)) => client_post l (PTransport rec pl key) w)
             (put_client c (set_cl_hello_done true x) w) (map_to_list (cl_out x))
  | PError a e => note (Refused c a (protocol_error e)) (put_client c (set_cl_out (delete a (cl_out x)) x) w)
  | PTransport _ pl a =>
      client_post l (PAck a)
        (note (Delivered c pl) (put_client c (set_cl_in (<[next_in (cl_in x) := pl]> (cl_in x)) x) w))
  | PAck a => note (Confirmed c a) (put_client c (set_cl_out (delete a (cl_out x)) x) w)
  end.

Definition client_receive (c : octets) (w : world) : option world :=
  match cl_link (client_of c w), cl_ready (client_of c w) with
  | Some l, true =>
      match w_sconns w !! l with
      | Some x => match sc_out x with
                  | p :: rest => Some (client_handle c l p (put_conn l (set_sc_out rest x) w))
                  | [] => None
                  end
      | None => None
      end
  | _, _ => None
  end.

(** [emit_pending_packets]: what the user has not marked as seen. *)
Definition emit_pending_packets (c : octets) (w : world) : list P := snd <$> map_to_list (cl_in (client_of c w)).

(** ** Steps *)

Inductive wlabel : Type :=
| WSend (sender receiver : octets) (packet : P)
| WSendEnd (sender : octets) (call : nat)
| WConnect (c : octets) (l : nat)
| WConnected (c : octets)
| WClient (c : octets)                      (** a packet arrives at the client *)
| WClientDown (c : octets)
| WMarkSeen (c : octets) (key : Z)
| WServer (l : nat) (fault : option error)  (** a packet arrives at the server *)
| WTask (l : nat)
| WSelectFails (l : nat)
| WServerDown (l : nat)
| WExpire (l : nat)
| WBreak (l : nat)
| WStore (sl : label P).

(** The store's steps that are not a connection's. *)
Definition own_step (sl : label P) : bool :=
  match sl with LThread _ | LPush _ | LClose | LPurge _ => true | _ => false end.

Definition connect (c : octets) (l : nat) (w : world) : option world :=
  match cl_link (client_of c w), w_sconns w !! l with
  | None, None =>
      Some (put_conn l (SConn c false true true ∅ TNone [] [] true false)
              (put_client c (set_cl_link (Some l) (set_cl_ready false (client_of c w))) w))
  | _, _ => None
  end.

Definition update_conn (l : nat) (allowed : sconn -> bool) (f : sconn -> sconn) (w : world) : option world :=
  match w_sconns w !! l with Some x => if allowed x then Some (put_conn l (f x) w) else None | None => None end.

Definition idle_conn (x : sconn) : bool := negb (sc_up x) && match sc_task x with TNone => true | _ => false end.

Definition wstep (wl : wlabel) (w : world) : option world :=
  match wl with
  | WSend c rec pl => Some (send_begin c rec pl w)
  | WSendEnd c i => send_end c i w
  | WConnect c l => connect c l w
  | WConnected c => client_connected c w
  | WClient c => client_receive c w
  | WClientDown c => Some (client_shutdown c w)
  | WMarkSeen c key =>
      Some (put_client c (set_cl_in (delete key (cl_in (client_of c w))) (client_of c w)) w)
  | WServer l fault => server_receive l fault w
  | WTask l => server_task l w
  | WSelectFails l => select_fails l w
  | WServerDown l => update_conn l (fun _ => true) shut w
  | WExpire l => update_conn l idle_conn (set_sc_alive false) w
  | WBreak l => update_conn l (fun _ => true) (fun x => set_sc_broken true (set_sc_in [] (set_sc_out [] x))) w
  | WStore sl => if own_step sl then store_step sl w else None
  end.

Fixpoint wrun (ls : list wlabel) (w : world) : option world :=
  match ls with
  | [] => Some w
  | l :: ls => match wstep l w with Some w => wrun ls w | None => None end
  end.
End transport.
Arguments packet P : clear implicits.
Arguments task P : clear implicits.
Arguments sconn P : clear implicits.
Arguments client P : clear implicits.
Arguments wevent P : clear implicits.
Arguments world T P : clear implicits.
Arguments wlabel P : clear implicits.
