(* ===== verification/PacketTransportSafety.v ===== *)
(** What the packet transport promises its users: a packet is never lost on the
    way, and it reaches nobody but its receiver. *)

From stdpp Require Import base list numbers strings gmap.
From Stdlib Require Import ZArith Lia.
From S2P Require Import Prelude Errors PacketStorage PacketStorageSafety PacketTransport.
Open Scope Z_scope.

(** ** What the store's own steps leave alone *)
Section store_frame.
Context {T P : Type} `{PacketTable T} `{Payload P}.

Definition store_kept (s s' : storage T P) : Prop := ps_handles s' = ps_handles s /\ ps_reading s' = ps_reading s.
Definition not_a_caller's (e : event P) : Prop := match e with Inserted _ | Acked _ => False | _ => True end.

Definition quiet_act (s : storage T P) (r : storage T P * list (event P)) : Prop :=
  store_kept s (fst r) /\ Forall not_a_caller's (snd r).

Lemma quiet_for_each {A} (f : A -> storage T P -> storage T P * list (event P)) l s :
  (forall x s, quiet_act s (f x s)) -> quiet_act s (for_each f l s).
Proof.
  intros Hf. revert s; induction l as [|x l IH]; intros s; cbn; [by repeat split|].
  specialize (Hf x s). destruct (f x s) as [s1 e1]. specialize (IH s1). destruct (for_each f l s1) as [s2 e2].
  destruct Hf as [[E1 E2] F1], IH as [[E3 E4] F2]; cbn in *. repeat split; cbn; [congruence..|by apply Forall_app].
Qed.

Lemma quiet_next_packet s : quiet_act s (next_packet s).
Proof.
  unfold next_packet, quiet_act, store_kept. destruct (head (ps_queue s)); cbn; destruct (ps_close s); cbn;
    destruct (default 0 (head (ps_remove_queue s)) =? 0); cbn; repeat constructor.
Qed.

Lemma quiet_remove_from_database ok a s : quiet_act s (remove_from_database ok a s).
Proof. unfold remove_from_database. destruct ok; repeat constructor. Qed.

Lemma quiet_purge_write ok p s : quiet_act s (purge_write ok p s).
Proof.
  unfold purge_write. case_decide; [by repeat constructor|].
  destruct (write_to_database (ok (qp_ack p)) p _); repeat constructor.
Qed.

Lemma quiet_purge ok s : quiet_act s (purge_queues ok s).
Proof.
  unfold purge_queues. pose proof (quiet_for_each (purge_write ok) (ps_queue s) s (quiet_purge_write ok)) as Hw.
  destruct (for_each (purge_write ok) (ps_queue s) s) as [s1 e1].
  assert (forall a s, quiet_act s (purge_remove ok a s)) as Hp.
  { intros a s'. apply (quiet_remove_from_database (ok a) a (set_remove_queue (tail (ps_remove_queue s')) s')). }
  pose proof (quiet_for_each (purge_remove ok) (ps_remove_queue s1) s1 Hp) as Hr.
  destruct (for_each (purge_remove ok) (ps_remove_queue s1) s1) as [s2 e2].
  destruct Hw as [[E1 E2] F1], Hr as [[E3 E4] F2].
  repeat split; cbn in *; [congruence..|by apply Forall_app].
Qed.

Lemma own_step_quiet sl s r : own_step sl = true -> step sl s = Some r -> quiet_act s r.
Proof.
  intros Ho E. destruct sl as [| |a| | | |ok| |ok]; try done; cbn in E.
  - case_decide; [|done]. injection E as <-. by repeat constructor.
  - unfold thread_step in E. destruct (ps_worker s) as [h| |[p|] r'|p r'|p r'|h r'|]; try done; try (injection E as <-; by repeat constructor).
    + destruct (may_run s); [|done]. injection E as <-. apply quiet_next_packet.
    + case_decide; injection E as <-; by repeat constructor.
    + destruct (write_to_database ok p (ps_db s)); injection E as <-; by repeat constructor.
    + injection E as <-. destruct (r' =? 0); [by repeat constructor|].
      apply (quiet_remove_from_database ok r' (set_worker (WLoop h) s)).
  - injection E as <-. by repeat constructor.
  - destruct (ps_worker s); try done. injection E as <-. apply quiet_purge.
Qed.
End store_frame.

(** ** The invariant *)
Section safety.
Context {T P : Type} `{PacketTableLaws T} `{PayloadLaw P} `{ForeignCategories}.
Context (issuer : P -> octets).
Context (next_out : gmap Z (octets * P) -> Z) (next_in : gmap Z P -> Z).

#[local] Abbreviation world := (world T P).
#[local] Abbreviation sconn := (sconn P).

(** What is known of a payload under an acknowledgement number: it was put into
    the store for that receiver. *)
Definition known (slog : list (event P)) (receiver : octets) (a : Z) (pl : P) : Prop :=
  exists q, Inserted q ∈ slog /\ qp_ack q = a /\ qp_receiver q = receiver /\ qp_packet q = pl.

Definition reached (slog : list (event P)) (log : list (wevent P)) (a : Z) : Prop :=
  exists q, Inserted q ∈ slog /\ qp_ack q = a /\ Delivered (qp_receiver q) (qp_packet q) ∈ log.

Definition told (slog : list (event P)) (sender : octets) (key : Z) : Prop :=
  exists q, Notified q ∈ slog /\ qp_sender q = sender /\ qp_sender_ack q = key.

Definition to_server_ok (slog : list (event P)) (log : list (wevent P)) (id : octets) (p : packet P) : Prop :=
  match p with
  | PTransport rec pl a => Sent id a rec pl ∈ log
  | PAck a => reached slog log a
  | PHello _ _ _ | PError _ _ => True
  end.

Definition to_client_ok (slog : list (event P)) (id : octets) (p : packet P) : Prop :=
  match p with
  | PTransport _ pl a => known slog id a pl
  | PAck k => told slog id k
  | PHello _ _ _ | PError _ _ => True
  end.

Definition task_ok (s : storage T P) (slog : list (event P)) (id : octets) (l : nat) (t : task P) : Prop :=
  match t with
  | TSelect => forall r mem, ps_reading s !! l = Some (r, mem) -> r = id
  | TSend ps => forall x, x ∈ ps -> known slog id (sp_ack x) (sp_packet x)
  | TForward rec pl a => known slog rec a pl /\ (a, true) ∈ ps_handles s
  | TNone | TRegister | TReading => True
  end.

Record conn_ok (s : storage T P) (slog : list (event P)) (log : list (wevent P)) (l : nat) (x : sconn) : Prop := {
  c_in p : p ∈ sc_in x -> to_server_ok slog log (sc_id x) p;
  c_out p : p ∈ sc_out x -> to_client_ok slog (sc_id x) p;
  c_ack_map a ptr : sc_ack_map x !! a = Some ptr -> (a, ptr) ∈ ps_handles s /\ exists pl, known slog (sc_id x) a pl;
  c_task : task_ok s slog (sc_id x) l (sc_task x)
}.

(** Connections keep their key. *)
Definition has_id (w : world) (l : nat) (id : octets) : Prop := exists x, w_sconns w !! l = Some x /\ sc_id x = id.

Record client_ok (w : world) (c : octets) (x : client P) : Prop := {
  k_out k rec pl : cl_out x !! k = Some (rec, pl) -> Sent c k rec pl ∈ w_log w;
  k_sending k rec pl : (k, (rec, pl)) ∈ cl_sending x -> Sent c k rec pl ∈ w_log w;
  k_link l : cl_link x = Some l -> has_id w l c;
  k_kept k rec pl : Sent c k rec pl ∈ w_log w ->
    (exists rp, cl_out x !! k = Some rp) \/ Confirmed c k ∈ w_log w \/ exists e, Refused c k e ∈ w_log w
}.

Record winv (w : world) : Prop := {
  v_store : inv (fun _ => False) (w_store w) (w_slog w);
  v_conn l x : w_sconns w !! l = Some x -> conn_ok (w_store w) (w_slog w) (w_log w) l x;
  v_client c : client_ok w c (client_of c w);
  v_inserted q : Inserted q ∈ w_slog w ->
    Sent (qp_sender q) (qp_sender_ack q) (qp_receiver q) (qp_packet q) ∈ w_log w /\ issuer (qp_packet q) = qp_sender q;
  v_conns id l : w_conns w !! id = Some l -> has_id w l id;
  v_origin q l : Inserted q ∈ w_slog w -> w_origin w !! qp_ack q = Some l -> has_id w l (qp_sender q);
  v_acked a : Acked a ∈ w_slog w -> reached (w_slog w) (w_log w) a;
  v_confirmed c k : Confirmed c k ∈ w_log w -> told (w_slog w) c k;
  v_delivered c pl : Delivered c pl ∈ w_log w -> exists k, Sent (issuer pl) k c pl ∈ w_log w
}.

(** ** Building blocks *)

Lemma conn_ok_mono s s' slog slog' log log' l x : conn_ok s slog log l x ->
  slog ⊆ slog' -> log ⊆ log' -> ps_handles s ⊆ ps_handles s' ->
  (sc_task x = TSelect -> forall r mem, ps_reading s' !! l = Some (r, mem) -> r = sc_id x) ->
  conn_ok s' slog' log' l x.
Proof.
  intros [Hi Ho Ha Ht] Hs Hl Hh Hr.
  assert (forall id a pl, known slog id a pl -> known slog' id a pl) as Hk by (intros id a pl (q & Hq & ?); exists q; auto).
  constructor.
  - intros p Hp. specialize (Hi p Hp). destruct p; cbn in *; auto. destruct Hi as (q & Hq & Ea & Hd). exists q. auto.
  - intros p Hp. specialize (Ho p Hp). destruct p; cbn in *; auto. destruct Ho as (q & Hq & Ea). exists q. auto.
  - intros a ptr Hm. destruct (Ha a ptr Hm) as [Hin (pl & Hkn)]. split; [auto|]. exists pl. auto.
  - destruct (sc_task x); cbn in *; try exact (Hr eq_refl); auto. destruct Ht. auto.
Qed.

Lemma conn_ok_post s slog log l x p : conn_ok s slog log l x -> to_client_ok slog (sc_id x) p -> conn_ok s slog log l (post p x).
Proof.
  intros [Hi Ho Ha Ht] Hp. unfold post. destruct (sc_up x && sc_client x && negb (sc_broken x)); [|by constructor].
  constructor; cbn; auto. intros p' [Hp'|Hp']%elem_of_app; [auto|]. apply list_elem_of_singleton in Hp'. by subst.
Qed.

Lemma post_id (x : sconn) p : sc_id (post p x) = sc_id x.
Proof. unfold post. by destruct (sc_up x && sc_client x && negb (sc_broken x)). Qed.

Lemma has_id_unique (w : world) l id id' : has_id w l id -> has_id w l id' -> id = id'.
Proof. intros (x & E & <-) (y & E' & <-). congruence. Qed.

(** Everything but the connections is the same, and those keep their keys. *)
Record same_but_conns (w w' : world) : Prop := {
  sb_store : w_store w' = w_store w;
  sb_slog : w_slog w' = w_slog w;
  sb_log : w_log w' = w_log w;
  sb_clients : w_clients w' = w_clients w;
  sb_conns : w_conns w' = w_conns w;
  sb_origin : w_origin w' = w_origin w;
  sb_ids l id : has_id w l id -> has_id w' l id
}.

#[local] Instance same_but_conns_preorder : PreOrder same_but_conns.
Proof.
  split.
  - intros w. by constructor.
  - intros w1 w2 w3 [] []. constructor; try congruence. auto.
Qed.

Lemma put_conn_same l x y (w : world) : w_sconns w !! l = Some y -> sc_id x = sc_id y -> same_but_conns w (put_conn l x w).
Proof.
  intros Ey Eid. constructor; try done. intros l' id (z & Ez & <-). unfold has_id. cbn.
  destruct (decide (l' = l)) as [->|]; [|rewrite lookup_insert_ne by done; eauto].
  rewrite lookup_insert_eq. exists x. split; congruence.
Qed.

Lemma client_ok_same w w' c x : client_ok w c x -> same_but_conns w w' -> client_ok w' c x.
Proof. intros [] []. constructor; try (by setoid_rewrite sb_log0); auto. Qed.

Lemma client_ok_ext w w' c x : w_log w' = w_log w -> w_sconns w' = w_sconns w -> client_ok w c x -> client_ok w' c x.
Proof. intros El Es [Ho Hs Hl Hk]. constructor; rewrite ?El; unfold has_id; rewrite ?Es; auto. Qed.

Lemma winv_put_conn l x y w : winv w -> w_sconns w !! l = Some y -> sc_id x = sc_id y ->
  conn_ok (w_store w) (w_slog w) (w_log w) l x -> winv (put_conn l x w).
Proof.
  intros V Ey Eid Hx. pose proof (put_conn_same l x y w Ey Eid) as Hs. destruct V. constructor; try done.
  - intros l' z Ez. cbn in Ez. apply lookup_insert_Some in Ez as [[<- <-]|[_ Ez]]; [done|]. by apply v_conn0.
  - intros c. eapply client_ok_same; [apply v_client0|done].
  - intros id l' Ec. apply Hs. by apply v_conns0.
  - intros q l' Hq Eo. apply Hs. by apply v_origin0.
Qed.

Lemma post_to_same l p (w : world) : same_but_conns w (post_to l p w).
Proof.
  unfold post_to. destruct (w_sconns w !! l) as [x|] eqn:E; [|reflexivity]. eapply put_conn_same; [done|apply post_id].
Qed.

Lemma winv_post_to l p w : winv w -> (forall id, has_id w l id -> to_client_ok (w_slog w) id p) -> winv (post_to l p w).
Proof.
  intros V Hp. unfold post_to. destruct (w_sconns w !! l) as [x|] eqn:E; [|done].
  eapply winv_put_conn; [done|done|apply post_id|]. apply conn_ok_post; [by apply V|]. apply Hp. by exists x.
Qed.

Lemma client_post_same l p (w : world) : same_but_conns w (client_post l p w).
Proof.
  unfold client_post. destruct (w_sconns w !! l) as [x|] eqn:E; [|reflexivity].
  destruct (sc_up x && sc_client x && negb (sc_broken x)); [|reflexivity]. by eapply put_conn_same.
Qed.

Lemma winv_client_post l p w : winv w -> (forall id, has_id w l id -> to_server_ok (w_slog w) (w_log w) id p) ->
  winv (client_post l p w).
Proof.
  intros V Hp. unfold client_post. destruct (w_sconns w !! l) as [x|] eqn:E; [|done].
  destruct (sc_up x && sc_client x && negb (sc_broken x)); [|done].
  eapply winv_put_conn; [done|done|done|]. destruct (v_conn _ V l x E) as [Hi Ho Ha Ht]. constructor; cbn; auto.
  intros p' [Hp'|Hp']%elem_of_app; [auto|]. apply list_elem_of_singleton in Hp'. subst. apply Hp. by exists x.
Qed.

Lemma client_of_put c x c' (w : world) : client_of c' (put_client c x w) = if decide (c' = c) then x else client_of c' w.
Proof.
  unfold client_of. cbn. case_decide as D; [subst; by rewrite lookup_insert_eq|by rewrite lookup_insert_ne].
Qed.

Lemma winv_put_client c x w : winv w -> client_ok w c x -> winv (put_client c x w).
Proof.
  intros V Hx. destruct V. constructor; try done.
  intros c'. rewrite client_of_put. case_decide; [subst|]; [destruct Hx; by constructor|destruct (v_client0 c'); by constructor].
Qed.

(** *** The store *)

Lemma winv_put_store s e w : winv w -> inv (fun _ => False) s (w_slog w ++ e) ->
  ps_handles (w_store w) ⊆ ps_handles s ->
  (forall l x, w_sconns w !! l = Some x -> sc_task x = TSelect -> forall r mem, ps_reading s !! l = Some (r, mem) -> r = sc_id x) ->
  (forall q, Inserted q ∉ e) -> (forall a, Acked a ∈ e -> reached (w_slog w) (w_log w) a) ->
  winv (put_store s e w).
Proof.
  intros V I Hh Hr Hi Ha.
  assert (w_slog w ⊆ w_slog w ++ e) as Hsub by (intros x Hx; apply elem_of_app; by left).
  assert (forall q, Inserted q ∈ w_slog w ++ e -> Inserted q ∈ w_slog w) as Hins.
  { intros q [?|?]%elem_of_app; [done|]. by destruct (Hi q). }
  assert (forall a, reached (w_slog w) (w_log w) a -> reached (w_slog w ++ e) (w_log w) a) as Hre.
  { intros a (q & Hq & ?). exists q. auto. }
  destruct V. constructor; cbn; try done.
  - intros l x Ex. eapply conn_ok_mono; [by apply v_conn0|done..|]. by apply Hr.
  - intros c. destruct (v_client0 c). by constructor.
  - auto.
  - intros q l Hq. apply v_origin0. auto.
  - intros a [Hx|Hx]%elem_of_app; auto.
  - intros c k Hc. destruct (v_confirmed0 c k Hc) as (q & Hq & ?). exists q. auto.
Qed.

Lemma notify_same e (w : world) : same_but_conns w (notify e w).
Proof.
  assert (forall l (w : world) k, same_but_conns w match lock_conn l w with Some _ => post_to l (PAck k) w | None => w end) as Hl.
  { intros l w' k. destruct (lock_conn l w'); [apply post_to_same|reflexivity]. }
  destruct e as [| | |p| | |]; try reflexivity. cbn. destruct (w_origin w !! qp_ack p) as [l|]; [|reflexivity]. unfold do_ack.
  destruct (lock_conn l w); [apply post_to_same|]. destruct (w_conns w !! qp_sender p); [apply Hl|reflexivity].
Qed.

Lemma winv_notify e w : winv w -> (forall p, e = Notified p -> Inserted p ∈ w_slog w /\ Notified p ∈ w_slog w) ->
  winv (notify e w).
Proof.
  intros V Hn. destruct e as [| | |p| | |]; try done. destruct (Hn p eq_refl) as [Hi Hno]. cbn.
  destruct (w_origin w !! qp_ack p) as [l|] eqn:Eo; [|done].
  assert (forall l', has_id w l' (qp_sender p) -> winv (post_to l' (PAck (qp_sender_ack p)) w)) as Hpost.
  { intros l' Hid. apply winv_post_to; [done|]. intros id Hid'. exists p. split_and!; [done| |done]. by eapply has_id_unique. }
  unfold do_ack. destruct (lock_conn l w); [by apply Hpost, (v_origin _ V)|].
  destruct (w_conns w !! qp_sender p) as [l'|] eqn:Ec; [|done]. destruct (lock_conn l' w); [by apply Hpost, (v_conns _ V)|done].
Qed.

Lemma winv_notify_all es w : winv w -> (forall p, Notified p ∈ es -> Inserted p ∈ w_slog w /\ Notified p ∈ w_slog w) ->
  winv (foldl (fun w e => notify e w) w es) /\ same_but_conns w (foldl (fun w e => notify e w) w es).
Proof.
  revert w. induction es as [|e es IH]; intros w V Hn; cbn; [done|].
  pose proof (notify_same e w) as Hs. destruct (IH (notify e w)) as [V' Hs'].
  - apply winv_notify; [done|]. intros p ->. apply Hn. by left.
  - intros p Hp. rewrite (sb_slog _ _ Hs). apply Hn. by right.
  - split; [done|]. by etrans.
Qed.

(** A step of the store that is not an insertion or an acknowledgement. *)
Lemma winv_store_step sl w w' : winv w -> store_step sl w = Some w' ->
  (forall s e, step sl (w_store w) = Some (s, e) -> Forall not_a_caller's e /\ ps_handles (w_store w) ⊆ ps_handles s /\
     (forall l x, w_sconns w !! l = Some x -> sc_task x = TSelect -> forall r mem, ps_reading s !! l = Some (r, mem) -> r = sc_id x)) ->
  winv w' /\ exists s e, step sl (w_store w) = Some (s, e) /\ same_but_conns (put_store s e w) w'.
Proof.
  intros V E Hq. unfold store_step in E. destruct (step sl (w_store w)) as [[s e]|] eqn:Es; [|done]. injection E as <-.
  destruct (Hq s e eq_refl) as (Hf & Hh & Hr). rewrite Forall_forall in Hf.
  pose proof (inv_step _ _ _ _ _ _ (v_store w V) Es) as I.
  assert (winv (put_store s e w)) as V'.
  { apply winv_put_store; try done; intros x Hx; by apply Hf in Hx. }
  destruct (winv_notify_all e (put_store s e w) V') as [V'' Hs]; [|split; [done|eauto]].
  intros p Hp. assert (Notified p ∈ w_slog w ++ e) as Hn by (apply elem_of_app; by right). split; [|done].
  apply (i_notified _ _ _ I). by left.
Qed.

Lemma winv_own_step sl w w' : winv w -> own_step sl = true -> store_step sl w = Some w' -> winv w'.
Proof.
  intros V Ho E. eapply (winv_store_step sl w w') in E as [V' _]; [done..|].
  intros s e Es. destruct (own_step_quiet sl _ _ Ho Es) as [[Eh Er] Hf]; cbn in *.
  split_and!; [done|by rewrite Eh|]. intros l x Ex Et r mem. rewrite Er. pose proof (c_task _ _ _ _ _ (v_conn _ V l x Ex)) as Ht.
  rewrite Et in Ht. apply Ht.
Qed.

(** *** The server *)

Lemma conn_ok_task s slog log l x t : conn_ok s slog log l x -> task_ok s slog (sc_id x) l t ->
  conn_ok s slog log l (set_sc_task t x).
Proof. intros [] Ht. by constructor. Qed.

Lemma conn_ok_shut s slog log l x : conn_ok s slog log l x -> conn_ok s slog log l (shut x).
Proof. intros []. constructor; try done. intros p Hp. by apply elem_of_nil in Hp. Qed.

Lemma winv_set_task l t w : winv w -> (forall id, has_id w l id -> task_ok (w_store w) (w_slog w) id l t) ->
  winv (set_task l t w).
Proof.
  intros V Ht. unfold set_task. destruct (w_sconns w !! l) as [x|] eqn:E; [|done].
  eapply winv_put_conn; [done..|]. apply conn_ok_task; [by apply V|]. apply Ht. by exists x.
Qed.

Lemma winv_insert l rec pl a id w : winv w -> has_id w l id -> Sent id a rec pl ∈ w_log w -> issuer pl = id ->
  let '(s, q) := insert rec pl a id (w_store w) in
  let w' := set_w_origin (<[qp_ack q := l]> (w_origin w)) (put_store s [Inserted q] w) in
  winv w' /\ Inserted q ∈ w_slog w' /\ (qp_ack q, true) ∈ ps_handles s /\ w_slog w ⊆ w_slog w'.
Proof.
  intros V Hid Hs Hiss. pose proof (inv_insert (fun _ => False) rec pl a id _ _ (v_store w V)) as I.
  destruct (insert rec pl a id (w_store w)) as [s q] eqn:E. injection E as Es Eq. cbn [fst snd] in I.
  assert (qp_receiver q = rec /\ qp_packet q = pl /\ qp_sender q = id /\ qp_sender_ack q = a) as (Er & Ep & Ese & Ea) by (by subst q).
  assert (ps_handles s = (qp_ack q, true) :: ps_handles (w_store w) /\ ps_reading s = ps_reading (w_store w)) as [Eh Erd] by (by subst s q).
  assert (forall q', Inserted q' ∈ w_slog w -> qp_ack q' <> qp_ack q) as Hfresh.
  { intros q' Hq'. apply (i_range _ _ _ (v_store w V)) in Hq'. rewrite <- Eq. cbn. lia. }
  clear Es Eq. cbn zeta. split_and!; [|cbn; set_solver|rewrite Eh; by left|cbn; set_solver].
  assert (w_slog w ⊆ w_slog w ++ [Inserted q]) as Hsub by set_solver.
  destruct V. constructor; cbn; try done.
  - intros l' x Ex. eapply conn_ok_mono; [by apply v_conn0|done|done|rewrite Eh; set_solver|].
    intros Et r mem. rewrite Erd. pose proof (c_task _ _ _ _ _ (v_conn0 l' x Ex)) as Ht. rewrite Et in Ht. apply Ht.
  - intros c. destruct (v_client0 c). by constructor.
  - intros q' [Hq'|Hq']%elem_of_app; [by apply v_inserted0|]. apply list_elem_of_singleton in Hq' as [= ->].
    by rewrite Ese, Ea, Er, Ep.
  - intros q' l' [Hq'|Hq']%elem_of_app Eo.
    + rewrite lookup_insert_ne in Eo by (intros X; by apply (Hfresh q')). by apply (v_origin0 q' l').
    + apply list_elem_of_singleton in Hq' as [= ->]. rewrite lookup_insert_eq in Eo. injection Eo as <-. by rewrite Ese.
  - intros a' [Hx|Hx]%elem_of_app; [|by apply list_elem_of_singleton in Hx].
    destruct (v_acked0 a' Hx) as (q' & ? & ?). exists q'. auto.
  - intros c k Hc. destruct (v_confirmed0 c k Hc) as (q' & ? & ?). exists q'. auto.
Qed.

Lemma winv_server_handle l x y p fault w : winv w -> w_sconns w !! l = Some y -> sc_id x = sc_id y ->
  conn_ok (w_store w) (w_slog w) (w_log w) l x -> to_server_ok (w_slog w) (w_log w) (sc_id x) p ->
  winv (server_handle issuer l x p fault w).
Proof.
  intros V Ey Eid Hx Hp.
  assert (forall x', sc_id x' = sc_id x -> conn_ok (w_store w) (w_slog w) (w_log w) l x' -> winv (put_conn l x' w)) as Hput.
  { intros x' E Hx'. eapply winv_put_conn; [done|done|congruence|done]. }
  assert (winv (if sc_good x then conn_handle issuer l x p fault w else put_conn l (shut x) w)) as Hgood.
  2: { destruct p; cbn [server_handle]; try (by apply Hgood). apply Hput; [apply post_id|]. apply conn_ok_task; [|done]. by apply conn_ok_post. }
  destruct (sc_good x); [|by apply Hput, conn_ok_shut].
  destruct p as [v a e|rec pl a|a|a e]; cbn [conn_handle]; [by apply Hput| | |by apply Hput].
  - case_decide as Hi; [|by apply Hput].
    destruct fault as [e|]; [destruct (is_error e); [|by apply Hput]; apply Hput; [apply post_id|by apply conn_ok_post]|].
    pose proof (winv_insert l rec pl a (sc_id x) w V) as Hins.
    destruct (insert rec pl a (sc_id x) (w_store w)) as [s q] eqn:Ei. destruct Hins as (V' & Hq & Hh & Hsub).
    { exists y. split; congruence. }
    { exact Hp. }
    { done. }
    assert (ps_handles (w_store w) ⊆ ps_handles s /\ ps_reading s = ps_reading (w_store w) /\ qp_receiver q = rec /\ qp_packet q = pl)
      as (Hsub' & Erd & Er & Ep).
    { injection Ei as <- <-. cbn. split_and!; [set_solver|done..]. }
    eapply winv_put_conn; [exact V'|exact Ey|done|]. apply conn_ok_task.
    + eapply conn_ok_mono; [done..|]. cbn. rewrite Erd. intros Et. pose proof (c_task _ _ _ _ _ Hx) as Ht. by rewrite Et in Ht.
    + cbn. split; [|done]. by exists q.
  - destruct (sc_ack_map x !! a) as [ptr|] eqn:Em; [|by apply Hput].
    destruct (c_ack_map _ _ _ _ _ Hx a ptr Em) as [Hh _].
    assert (ps_handles (remove_begin a ptr (w_store w)) = ps_handles (w_store w) /\
            ps_reading (remove_begin a ptr (w_store w)) = ps_reading (w_store w)) as [Eh Er].
    { unfold remove_begin. destruct ptr; [destruct (lock_packet a (w_store w))|]; try case_decide; done. }
    assert (winv (put_store (remove_begin a ptr (w_store w)) [Acked a] w)) as V'.
    { apply winv_put_store; [done|by apply inv_remove_begin; [apply (v_store w V)|]|by rewrite Eh| | |].
      - intros l' x' Ex' Et r mem. rewrite Er. pose proof (c_task _ _ _ _ _ (v_conn w V l' x' Ex')) as Ht. rewrite Et in Ht. apply Ht.
      - intros q Hq. by apply list_elem_of_singleton in Hq.
      - intros a' Ha'. by apply list_elem_of_singleton in Ha' as [= ->]. }
    eapply winv_put_conn; [exact V'|exact Ey|done|].
    eapply conn_ok_mono; [done| |done|by cbn; rewrite Eh|]; cbn; [set_solver|].
    rewrite Er. intros Et. pose proof (c_task _ _ _ _ _ Hx) as Ht. by rewrite Et in Ht.
Qed.

Lemma winv_server_receive l fault w w' : winv w -> server_receive issuer l fault w = Some w' -> winv w'.
Proof.
  intros V E. unfold server_receive in E. destruct (w_sconns w !! l) as [x|] eqn:Ex; [|done].
  destruct (sc_up x), (sc_task x) eqn:Et; try done. destruct (sc_in x) as [|p rest] eqn:Ei; [done|]. injection E as <-.
  destruct (v_conn w V l x Ex) as [Hi Ho Ha Ht]. rewrite Ei in Hi.
  eapply winv_server_handle; [done|exact Ex|done| |apply Hi; by left].
  constructor; cbn; auto. intros p' Hp'. apply Hi. by right.
Qed.

Lemma add_handles_lookup (ps : list (stored_packet P)) m a ptr : foldl add_handle m ps !! a = Some ptr ->
  m !! a = Some ptr \/ exists x, x ∈ ps /\ sp_ack x = a /\ sp_ptr x = ptr.
Proof.
  revert m. induction ps as [|y ps IH]; intros m E; cbn in E; [by left|].
  apply IH in E as [E|(x & Hx & ?)]; [|right; exists x; split; [by right|done]].
  unfold add_handle in E. destruct (m !! sp_ack y) eqn:Ey; [by left|].
  apply lookup_insert_Some in E as [[<- <-]|[_ E]]; [right; exists y; split; [by left|done]|by left].
Qed.

(** What a call of get_pending_packets found. *)
Lemma pending_known s slog l r mem x : inv (fun _ => False) s slog -> ps_reading s !! l = Some (r, mem) ->
  x ∈ mem \/ x ∈ pending_in_database r (ps_db s) -> known slog r (sp_ack x) (sp_packet x).
Proof.
  intros I Er Hx.
  assert (exists q, Inserted q ∈ slog /\ qp_ack q = sp_ack x) as (q & Hq & Ea).
  { destruct Hx as [Hx|Hx].
    - destruct (i_reading _ _ _ I _ _ _ _ Er Hx) as (q & Hq & _ & ->). eauto.
    - apply elem_of_pending_in_database in Hx as (bs & Hrow & _). by destruct (i_row_from _ _ _ I _ _ Hrow). }
  exists q. destruct (pending_entry _ _ _ _ _ _ _ I Er Hx q Hq Ea). done.
Qed.

Lemma winv_pending_begin l x w w' : winv w -> w_sconns w !! l = Some x -> sc_task x = TReading ->
  store_step (LPending l (sc_id x)) w = Some w' ->
  winv (set_task l TSelect w').
Proof.
  intros V Ex Et E. eapply winv_store_step in E as [V' (s & e & Es & Hs)]; [|done|].
  - apply winv_set_task; [done|]. intros id Hid r mem. rewrite (sb_store _ _ Hs). cbn.
    cbn in Es. destruct (ps_reading (w_store w) !! l); [done|]. injection Es as <- <-. cbn. rewrite lookup_insert_eq.
    intros [= <- _]. eapply has_id_unique; [|exact Hid]. apply (sb_ids _ _ Hs). by exists x.
  - intros s e Es. cbn in Es. destruct (ps_reading (w_store w) !! l); [done|]. injection Es as <- <-.
    split_and!; [constructor|done|]. intros l' x' Ex' Et' r mem. cbn.
    rewrite lookup_insert_ne by (intros ->; congruence).
    pose proof (c_task _ _ _ _ _ (v_conn w V l' x' Ex')) as Ht. rewrite Et' in Ht. apply Ht.
Qed.

Lemma winv_pending_end l x s e w : winv w -> w_sconns w !! l = Some x -> sc_task x = TSelect ->
  step (LSelect l) (w_store w) = Some (s, e) ->
  winv (put_conn l (keep_pending (match e with [Pending _ _ packets] => packets | _ => [] end) x) (put_store s e w)).
Proof.
  intros V Ex Et Es. pose proof (inv_step _ _ _ _ _ _ (v_store w V) Es) as I.
  pose proof (v_conn w V l x Ex) as Hx. pose proof (c_task _ _ _ _ _ Hx) as Ht. rewrite Et in Ht. cbn in Ht.
  cbn in Es. unfold pending_end in Es. destruct (ps_reading (w_store w) !! l) as [[r mem]|] eqn:Er; [|done].
  specialize (Ht r mem eq_refl) as ->.
  set (db := pending_in_database (sc_id x) (ps_db (w_store w))) in *. injection Es as <- <-.
  set (s := set_handles _ _) in *. set (e := [Pending l (sc_id x) (merge_pending mem db)]) in *.
  assert (ps_handles (w_store w) ⊆ ps_handles s) as Hh by (cbn; set_solver).
  assert (forall y, y ∈ merge_pending mem db -> known (w_slog w) (sc_id x) (sp_ack y) (sp_packet y) /\ (sp_ack y, sp_ptr y) ∈ ps_handles s) as Hy.
  { intros y Hy%elem_of_merge_pending. split; [eapply pending_known; [apply V|done|done]|].
    cbn. apply elem_of_app. left. apply list_elem_of_fmap. exists y. split; [done|]. by apply elem_of_app. }
  assert (forall id a pl, known (w_slog w) id a pl -> known (w_slog w ++ e) id a pl) as Hk.
  { intros id a pl (q & Hq & ?). exists q. split; [apply elem_of_app; by left|done]. }
  assert (winv (put_store s e w)) as V'.
  { apply winv_put_store; [done|done|done| | |].
    - intros l' x' Ex' Et' r' mem'. cbn. intros [_ Hr]%lookup_delete_Some.
      pose proof (c_task _ _ _ _ _ (v_conn w V l' x' Ex')) as Ht. rewrite Et' in Ht. by apply (Ht r' mem').
    - intros q Hq. by apply list_elem_of_singleton in Hq.
    - intros a Ha. by apply list_elem_of_singleton in Ha. }
  eapply winv_put_conn; [exact V'|exact Ex|done|].
  pose proof (v_conn _ V' l x Ex) as [Hi Ho Ha _]. constructor; cbn; auto.
  - intros a ptr Hm. apply add_handles_lookup in Hm as [Hm|(y & Hin & <- & <-)]; [by apply Ha|].
    destruct (Hy y Hin). split; [done|]. eexists. by apply Hk.
  - intros y Hin. apply Hk, Hy, Hin.
Qed.

Lemma winv_forward rec pl a w : winv w -> known (w_slog w) rec a pl -> (a, true) ∈ ps_handles (w_store w) ->
  winv (forward rec pl a w).
Proof.
  intros V Hk Hh. unfold forward. destruct (w_conns w !! rec) as [r|] eqn:Ec; [|done].
  unfold lock_conn. destruct (w_sconns w !! r) as [y|] eqn:Ey; [|done]. destruct (sc_alive y); [|done].
  destruct (v_conns w V rec r Ec) as (y' & Ey' & Eid). rewrite Ey in Ey'. injection Ey' as <-.
  unfold send_one. eapply winv_put_conn; [done|exact Ey|by rewrite post_id|].
  apply conn_ok_post; [|by cbn; rewrite Eid]. destruct (v_conn w V r y Ey) as [Hi Ho Ha Ht]. constructor; cbn; auto.
  intros b ptr Hm. unfold add_handle in Hm. cbn in Hm. destruct (sc_ack_map y !! a) eqn:Em; [by apply Ha|].
  apply lookup_insert_Some in Hm as [[<- <-]|[_ Hm]]; [|by apply Ha]. split; [done|]. exists pl. by rewrite Eid.
Qed.

Lemma winv_server_task l w w' : winv w -> server_task l w = Some w' -> winv w'.
Proof.
  intros V E. unfold server_task in E. destruct (w_sconns w !! l) as [x|] eqn:Ex; [|done].
  pose proof (v_conn w V l x Ex) as Hx. pose proof (c_task _ _ _ _ _ Hx) as Ht.
  destruct (sc_task x) as [| | | |ps|rec pl a] eqn:Et; [done|..].
  - injection E as <-. apply winv_set_task; [|done].
    assert (has_id w l (sc_id x)) as Hid by (by exists x).
    destruct V. constructor; try done; cbn.
    + intros c. destruct (v_client0 c). by constructor.
    + intros id l' Hc. apply lookup_insert_Some in Hc as [[<- <-]|[_ Hc]]; [done|by apply v_conns0].
  - destruct (store_step (LPending l (sc_id x)) w) as [w1|] eqn:Es; [|done]. injection E as <-.
    by apply (winv_pending_begin l x w).
  - destruct (step (LSelect l) (w_store w)) as [[s e]|] eqn:Es; [|done]. injection E as <-. by eapply winv_pending_end.
  - destruct ps as [|y ys]; injection E as <-.
    + eapply winv_put_conn; [done|exact Ex|done|]. destruct Hx. by constructor.
    + unfold send_pending. eapply winv_put_conn; [done|exact Ex|by cbn; rewrite post_id|]. apply conn_ok_task.
      * apply conn_ok_post; [done|]. apply Ht. by left.
      * rewrite post_id. intros z Hz. apply Ht. by right.
  - injection E as <-. apply winv_set_task; [|done]. destruct Ht. by apply winv_forward.
Qed.

Lemma winv_select_fails l w w' : winv w -> select_fails l w = Some w' -> winv w'.
Proof.
  intros V E. unfold select_fails in E. destruct (w_sconns w !! l) as [x|] eqn:Ex; [|done].
  destruct (sc_task x) eqn:Et; try done. destruct (step (LSelectFails l) (w_store w)) as [[s e]|] eqn:Es; [|done].
  injection E as <-. pose proof (inv_step _ _ _ _ _ _ (v_store w V) Es) as I. pose proof (v_conn w V l x Ex) as Hx.
  cbn in Es. unfold pending_fails in Es. destruct (ps_reading (w_store w) !! l); [|done]. injection Es as <- <-.
  assert (winv (put_store (set_reading (delete l (ps_reading (w_store w))) (w_store w)) [] w)) as V'.
  { apply winv_put_store; [done|done|done| |by intros q ?%elem_of_nil|by intros a ?%elem_of_nil].
    intros l' x' Ex' Et' r mem. cbn. intros [_ Hr]%lookup_delete_Some.
    pose proof (c_task _ _ _ _ _ (v_conn w V l' x' Ex')) as Ht. rewrite Et' in Ht. by apply (Ht r mem). }
  eapply winv_put_conn; [exact V'|exact Ex|done|]. apply conn_ok_shut, conn_ok_task; [by apply V'|done].
Qed.

(** *** The client *)

Definition note_ok (w : world) (e : wevent P) : Prop :=
  match e with
  | Sent _ _ _ _ => False
  | Delivered c pl => exists k, Sent (issuer pl) k c pl ∈ w_log w
  | Confirmed c k => told (w_slog w) c k
  | Refused _ _ _ => True
  end.

Lemma winv_note e w : winv w -> note_ok w e -> winv (note e w).
Proof.
  intros V He.
  assert (w_log w ⊆ w_log w ++ [e]) as Hsub by (intros x Hx; apply elem_of_app; by left).
  assert (forall c k rec pl, Sent c k rec pl ∈ w_log w ++ [e] -> Sent c k rec pl ∈ w_log w) as Hsent.
  { intros c k rec pl [Hx|Hx]%elem_of_app; [done|]. apply list_elem_of_singleton in Hx. by subst e. }
  destruct V. constructor; cbn; try done.
  - intros l x Ex. eapply conn_ok_mono; [by apply v_conn0|done..|]. intros Et r mem.
    pose proof (c_task _ _ _ _ _ (v_conn0 l x Ex)) as Ht. rewrite Et in Ht. apply Ht.
  - intros c. destruct (v_client0 c) as [Ho Hs Hl Hk]. constructor; cbn; [naive_solver|naive_solver|done|].
    intros k rec pl Hx%Hsent. destruct (Hk k rec pl Hx) as [|[|[err ?]]]; eauto 6.
  - intros q Hq. destruct (v_inserted0 q Hq). auto.
  - intros a Ha. destruct (v_acked0 a Ha) as (q & ? & ? & ?). exists q. auto.
  - intros c k [Hx|Hx]%elem_of_app; [by apply v_confirmed0|]. apply list_elem_of_singleton in Hx. by subst e.
  - intros c pl [Hx|Hx]%elem_of_app.
    + destruct (v_delivered0 c pl Hx) as [k Hk]. eauto.
    + apply list_elem_of_singleton in Hx. subst e. destruct He as [k Hk]. eauto.
Qed.

Lemma note_same e (w : world) : w_slog (note e w) = w_slog w /\ w_clients (note e w) = w_clients w /\
  w_sconns (note e w) = w_sconns w.
Proof. done. Qed.

(** A row leaves the table when its packet was confirmed or refused. *)
Lemma winv_done c k e w : winv w -> note_ok w e -> e = Confirmed c k \/ (exists err, e = Refused c k err) ->
  winv (note e (put_client c (set_cl_out (delete k (cl_out (client_of c w))) (client_of c w)) w)).
Proof.
  intros V He Hor. pose proof (winv_note e w V He) as V'.
  change (winv (put_client c (set_cl_out (delete k (cl_out (client_of c w))) (client_of c w)) (note e w))).
  apply winv_put_client; [done|]. destruct (v_client _ V' c) as [Ho Hs Hl Hk]. constructor; cbn in *; auto.
  - intros k' rec pl [_ Hx]%lookup_delete_Some. by apply Ho.
  - intros k' rec pl Hx. destruct (decide (k' = k)) as [->|Hne].
    + right. destruct Hor as [-> |[err ->]]; [left; set_solver|right; exists err; set_solver].
    + rewrite lookup_delete_ne by done. by apply Hk in Hx.
Qed.

Lemma winv_hang_up l w : winv w -> winv (hang_up l w).
Proof.
  intros V. unfold hang_up. destruct (w_sconns w !! l) as [x|] eqn:E; [|done].
  eapply winv_put_conn; [done|exact E|done|]. destruct (v_conn _ V l x E). constructor; cbn; auto.
  intros p Hp. by apply elem_of_nil in Hp.
Qed.

Lemma winv_client_shutdown c w : winv w -> winv (client_shutdown c w).
Proof.
  intros V. unfold client_shutdown. destruct (cl_link (client_of c w)) as [l|]; [|done].
  apply winv_hang_up, winv_put_client; [done|]. by destruct (v_client _ V c).
Qed.

Lemma client_post_keeps l p (w : world) : w_log (client_post l p w) = w_log w.
Proof. apply (sb_log _ _ (client_post_same l p w)). Qed.

Lemma winv_resend l c w (rows : list (Z * (octets * P))) : winv w -> has_id w l c ->
  (forall k rec pl, (k, (rec, pl)) ∈ rows -> Sent c k rec pl ∈ w_log w) ->
  winv (foldl (fun w '(key, (rec, pl)) => client_post l (PTransport rec pl key) w) w rows).
Proof.
  revert w. induction rows as [|[k [rec pl]] rows IH]; intros w V Hid Hr; cbn; [done|].
  pose proof (client_post_same l (PTransport rec pl k) w) as Hs. apply IH.
  - apply winv_client_post; [done|]. intros id Hid'. rewrite (has_id_unique _ _ _ _ Hid' Hid). apply Hr. by left.
  - by apply Hs.
  - intros k' rec' pl' Hin. rewrite (sb_log _ _ Hs). apply Hr. by right.
Qed.

Lemma winv_client_handle c l p w : winv w -> has_id w l c -> to_client_ok (w_slog w) c p ->
  cl_link (client_of c w) = Some l -> winv (client_handle next_in c l p w).
Proof.
  intros V Hid Hp El. destruct p as [v a e|rec pl a|a|a e]; cbn [client_handle].
  - destruct (is_net_error e); [by apply winv_client_shutdown|].
    apply (winv_resend l c); [apply winv_put_client; [done|by destruct (v_client _ V c)]|done|].
    intros k rec pl Hin%elem_of_map_to_list. by apply (k_out _ _ _ (v_client _ V c)).
  - destruct Hp as (q & Hq & Ea & Er & Ep). destruct (v_inserted _ V q Hq) as [Hs Hiss].
    assert (winv (note (Delivered c pl) (put_client c (set_cl_in (<[next_in (cl_in (client_of c w)) := pl]> (cl_in (client_of c w))) (client_of c w)) w))) as V'.
    { apply winv_note; [apply winv_put_client; [done|by destruct (v_client _ V c)]|].
      exists (qp_sender_ack q). cbn. rewrite <- Hiss, Er, Ep in Hs. exact Hs. }
    apply winv_client_post; [exact V'|]. intros id _. exists q. split_and!; [done..|]. cbn. rewrite Er, Ep. set_solver.
  - apply winv_done; [done|exact Hp|by left].
  - apply winv_done; [done|done|right; eauto].
Qed.

Lemma winv_client_receive c w w' : winv w -> client_receive next_in c w = Some w' -> winv w'.
Proof.
  intros V E. unfold client_receive in E. destruct (cl_link (client_of c w)) as [l|] eqn:El; [|done].
  destruct (cl_ready (client_of c w)); [|done]. destruct (w_sconns w !! l) as [x|] eqn:Ex; [|done].
  destruct (sc_out x) as [|p rest] eqn:Eo; [done|]. injection E as <-.
  destruct (k_link _ _ _ (v_client _ V c) l El) as (x' & Ex' & Eid). rewrite Ex in Ex'. injection Ex' as <-.
  destruct (v_conn _ V l x Ex) as [Hi Ho Ha Ht]. rewrite Eo in Ho.
  assert (winv (put_conn l (set_sc_out rest x) w)) as V'.
  { eapply winv_put_conn; [done|exact Ex|done|]. constructor; cbn; auto. intros p' Hp'. apply Ho. by right. }
  apply winv_client_handle; [done| |rewrite <- Eid; apply Ho; by left|done].
  eexists. split; [apply lookup_insert_eq|done].
Qed.

(** The identifiers the client's database gives are not in use. *)
Context (next_out_fresh : forall rows, rows !! next_out rows = None).

Lemma winv_send_begin c rec pl w : winv w -> winv (send_begin next_out c rec pl w).
Proof.
  intros V. unfold send_begin. set (x := client_of c w). set (k := next_out (cl_out x)).
  assert (cl_out x !! k = None) as Hfresh by apply next_out_fresh.
  assert (w_log w ⊆ w_log w ++ [Sent c k rec pl]) as Hsub by set_solver.
  assert (forall e, (forall c k rec pl, e <> Sent c k rec pl) -> e ∈ w_log w ++ [Sent c k rec pl] -> e ∈ w_log w) as Hold.
  { intros e He [|Hx]%elem_of_app; [done|]. apply list_elem_of_singleton in Hx. by apply He in Hx. }
  pose proof (v_client _ V) as Hc. destruct V. constructor; cbn; try done.
  - intros l y Ey. eapply conn_ok_mono; [by apply v_conn0|done..|]. intros Et r mem.
    pose proof (c_task _ _ _ _ _ (v_conn0 l y Ey)) as Ht. rewrite Et in Ht. apply Ht.
  - intros c'. apply (client_ok_ext (note (Sent c k rec pl) w)); [done..|]. unfold note.
    change (client_of c' (set_w_log _ ?v)) with (client_of c' v). rewrite client_of_put. destruct (Hc c') as [Ho Hs Hl Hk]. case_decide as D; [subst c'|]; constructor; cbn; auto.
    + intros k' rec' pl' [[<- [= <- <-]]|[_ Hx]]%lookup_insert_Some; [set_solver|]. by apply Hsub, Ho.
    + intros k' rec' pl' [[= -> -> ->]|Hx]%elem_of_cons; [set_solver|]. by apply Hsub, Hs.
    + intros k' rec' pl' [Hx|Hx]%elem_of_app.
      * destruct (Hk k' rec' pl' Hx) as [[rp Hrp]|[|[err ?]]]; eauto 6. left. destruct (decide (k' = k)) as [->|]; [by fold x in Hrp; rewrite Hfresh in Hrp|].
        exists rp. by rewrite lookup_insert_ne.
      * apply list_elem_of_singleton in Hx as [= -> -> ->]. left. eexists. apply lookup_insert_eq.
    + intros k' rec' pl' Hx. destruct (Hk k' rec' pl') as [|[|[err ?]]]; eauto 6.
      apply elem_of_app in Hx as [|Hx]; [done|]. by apply list_elem_of_singleton in Hx as [= -> -> ->].
  - intros q Hq. destruct (v_inserted0 q Hq). auto.
  - intros a Ha. destruct (v_acked0 a Ha) as (q & ? & ? & ?). exists q. auto.
  - intros c' k' Hx. apply v_confirmed0, Hold; [done|exact Hx].
  - intros c' pl' Hx. apply Hold in Hx; [|done]. destruct (v_delivered0 _ _ Hx) as [k' Hk']. eauto.
Qed.

Lemma winv_send_end c i w w' : winv w -> send_end c i w = Some w' -> winv w'.
Proof.
  intros V E. unfold send_end in E. destruct (cl_sending (client_of c w) !! i) as [[k [rec pl]]|] eqn:Ei; [|done].
  destruct (v_client _ V c) as [Ho Hs Hl Hk].
  assert (winv (put_client c (set_cl_sending (delete i (cl_sending (client_of c w))) (client_of c w)) w)) as V'.
  { apply winv_put_client; [done|]. constructor; cbn; auto. intros k' rec' pl' Hx%list_elem_of_delete_inv. by apply Hs. }
  apply list_elem_of_lookup_2 in Ei. apply Hs in Ei.
  destruct (cl_link (client_of c w)) as [l|] eqn:El; injection E as <-; [|done].
  destruct (cl_hello_done (client_of c w)); [|done]. apply winv_client_post; [exact V'|].
  intros id Hid. rewrite (has_id_unique _ _ _ _ Hid (Hl l eq_refl)). exact Ei.
Qed.

Lemma winv_connected c w w' : winv w -> client_connected c w = Some w' -> winv w'.
Proof.
  intros V E. unfold client_connected in E. destruct (cl_link (client_of c w)) as [l|] eqn:El; [|done].
  destruct (cl_ready (client_of c w)); [done|]. injection E as <-. apply winv_client_post; [|done].
  apply winv_put_client; [done|]. destruct (v_client _ V c). by constructor.
Qed.

Lemma winv_connect c l w w' : winv w -> connect c l w = Some w' -> winv w'.
Proof.
  intros V E. unfold connect in E. destruct (cl_link (client_of c w)) eqn:El; [done|].
  destruct (w_sconns w !! l) eqn:Ec; [done|]. injection E as <-.
  set (x := SConn c false true true ∅ TNone [] [] true false).
  assert (forall l' id, has_id w l' id -> has_id (put_conn l x w) l' id) as Hid.
  { intros l' id (y & Ey & <-). exists y. cbn. rewrite lookup_insert_ne by (intros ->; congruence). done. }
  pose proof (v_client _ V) as Hc. destruct V. constructor; try done.
  - intros l' y Ey. cbn in Ey. apply lookup_insert_Some in Ey as [[<- <-]|[_ Ey]]; [|by apply v_conn0].
    constructor; try done; intros p Hp; by apply elem_of_nil in Hp.
  - intros c'. apply (client_ok_ext (put_conn l x w)); [done..|].
    change (client_of c' (put_conn _ _ ?v)) with (client_of c' v). rewrite client_of_put. destruct (Hc c') as [Ho Hs Hl Hk]. case_decide as D; [subst c'|]; constructor; cbn; auto.
    intros l' [= <-]. exists x. split; [apply lookup_insert_eq|done].
  - intros id l' Hx. apply Hid. by apply v_conns0.
  - intros q l' Hq Hx. apply Hid. by apply v_origin0.
Qed.

Lemma winv_update_conn l allowed f w w' : winv w -> update_conn l allowed f w = Some w' ->
  (forall x, sc_id (f x) = sc_id x) ->
  (forall x, conn_ok (w_store w) (w_slog w) (w_log w) l x -> conn_ok (w_store w) (w_slog w) (w_log w) l (f x)) -> winv w'.
Proof.
  intros V E Hid Hf. unfold update_conn in E. destruct (w_sconns w !! l) as [x|] eqn:Ex; [|done].
  destruct (allowed x); [|done]. injection E as <-. eapply winv_put_conn; [done|exact Ex|apply Hid|]. apply Hf. by apply V.
Qed.

Lemma winv_step wl w w' : winv w -> wstep issuer next_out next_in wl w = Some w' -> winv w'.
Proof.
  intros V E. destruct wl as [c rec pl|c i|c l|c|c|c|c key|l fault|l|l|l|l|l|sl]; cbn in E.
  - injection E as <-. by apply winv_send_begin.
  - by eapply winv_send_end.
  - by eapply winv_connect.
  - by eapply winv_connected.
  - by eapply winv_client_receive.
  - injection E as <-. by apply winv_client_shutdown.
  - injection E as <-. apply winv_put_client; [done|]. destruct (v_client _ V c). by constructor.
  - by eapply winv_server_receive.
  - by eapply winv_server_task.
  - by eapply winv_select_fails.
  - eapply winv_update_conn; [done|exact E|done|]. intros x. apply conn_ok_shut.
  - eapply winv_update_conn; [done|exact E|done|]. intros x []. by constructor.
  - eapply winv_update_conn; [done|exact E|done|]. intros x []. constructor; cbn; auto; intros p Hp; by apply elem_of_nil in Hp.
  - destruct (own_step sl) eqn:Eo; [|done]. by eapply winv_own_step.
Qed.

Lemma winv_run ls w w' : winv w -> wrun issuer next_out next_in ls w = Some w' -> winv w'.
Proof.
  revert w. induction ls as [|l ls IH]; intros w V E; cbn in E; [by injection E as <-|].
  destruct (wstep issuer next_out next_in l w) as [w1|] eqn:Es; [|done]. eapply IH; [by eapply winv_step|done].
Qed.

Lemma winv_start db : (forall a, tbl_lookup a db = None) -> winv (start_world db).
Proof.
  intros Hdb. constructor; cbn; try (intros; set_solver).
  - apply inv_open. intros a x Ha. by rewrite Hdb in Ha.
  - intros c. unfold client_of. cbn. rewrite lookup_empty. constructor; cbn; try set_solver.
Qed.

(** ** What is promised *)

(** C3: A packet given to [send_packet] is never lost while links break, clients
    come and go, and the server's threads interleave: it waits in the sender's
    table, was refused with an error the sender is told, was handed to the
    receiver, or is in the server's table - provided its key was not given to
    another packet. *)
Theorem packets_are_never_lost ls db w c k rec pl :
  (forall a, tbl_lookup a db = None) ->
  wrun issuer next_out next_in ls (start_world db) = Some w ->
  Sent c k rec pl ∈ w_log w -> (forall rec' pl', Sent c k rec' pl' ∈ w_log w -> rec' = rec /\ pl' = pl) ->
  cl_out (client_of c w) !! k = Some (rec, pl) \/ (exists e, Refused c k e ∈ w_log w) \/ Delivered rec pl ∈ w_log w \/
  exists a bs, tbl_lookup a (ps_db (w_store w)) = Some (rec, bs) /\ pl_des bs = Some pl.
Proof.
  intros Hdb E Hs Hone. pose proof (winv_run _ _ _ (winv_start db Hdb) E) as V.
  destruct (k_kept _ _ _ (v_client _ V c) k rec pl Hs) as [[[rec' pl'] Hr]|[Hc|]]; [left| |by auto].
  { rewrite Hr. by destruct (Hone rec' pl' (k_out _ _ _ (v_client _ V c) k rec' pl' Hr)) as [-> ->]. }
  right; right. destruct (v_confirmed _ V c k Hc) as (q & Hq & <- & <-). pose proof (v_store _ V) as I.
  destruct (i_notified _ _ _ I q (or_introl Hq)) as [Hi Hor].
  destruct (v_inserted _ V q Hi) as [Hq' _]. destruct (Hone _ _ Hq') as [Er Ep].
  assert (Acked (qp_ack q) ∈ w_slog w \/ row (qp_ack q) (w_store w) <> None) as [Ha|Hrow].
  { destruct Hor as [|Hst]; [by left|]. by destruct (i_stored _ _ _ I q Hst). }
  - left. destruct (v_acked _ V _ Ha) as (q' & Hi' & Ea & Hd). rewrite <- Er, <- Ep.
    by rewrite (i_unique _ _ _ I q' q Hi' Hi Ea) in Hd.
  - right. destruct (row (qp_ack q) (w_store w)) as [x|] eqn:Ex; [|done].
    destruct (i_row_of _ _ _ I q x Hi Ex) as (bs & -> & Hb). exists (qp_ack q), bs. rewrite <- Er, <- Ep.
    split; [exact Ex|by apply pl_round].
Qed.

(** C4: A client is handed only payloads that the signer of the payload sent to
    that very client. *)
Theorem packets_reach_only_their_receiver ls db w c pl :
  (forall a, tbl_lookup a db = None) ->
  wrun issuer next_out next_in ls (start_world db) = Some w ->
  Delivered c pl ∈ w_log w -> exists k, Sent (issuer pl) k c pl ∈ w_log w.
Proof. intros Hdb E. apply (v_delivered _ (winv_run _ _ _ (winv_start db Hdb) E)). Qed.
End safety.

(** ** Runs *)
Module SampleTransport.
Import SampleCategories Sample.

(** A payload is octets, the first of which names the signer. *)
Definition issuer (pl : octets) : octets := firstn 1 pl.

(** SQLite gives a new row of an [INTEGER PRIMARY KEY] table one more than the
    largest key in use. *)
Definition next_key {A} (rows : gmap Z A) : Z := foldr Z.max 0 (fst <$> map_to_list rows) + 1.

Lemma next_key_fresh {A} (rows : gmap Z A) : rows !! next_key rows = None.
Proof.
  destruct (rows !! next_key rows) as [x|] eqn:E; [|done]. exfalso.
  destruct (foldr_max (fst <$> map_to_list rows)) as [Hm _].
  assert (next_key rows <= foldr Z.max 0 (fst <$> map_to_list rows)); [|unfold next_key in *; lia].
  apply Hm, list_elem_of_fmap. exists (next_key rows, x). split; [done|by apply elem_of_map_to_list].
Qed.

Definition sample_run (ls : list (wlabel octets)) : option (world table octets) :=
  wrun issuer next_key next_key ls (start_world ∅).

Definition alice : octets := [1].
Definition bob : octets := [2].

(** A client connects and both hellos are exchanged. *)
Definition login (c : octets) (l : nat) : list (wlabel octets) :=
  [WConnect c l; WConnected c; WServer l None; WTask l; WTask l; WTask l; WTask l; WClient c].
Definition send (c rec pl : octets) : list (wlabel octets) := [WSend c rec pl; WSendEnd c 0].
Definition thread (n : nat) : list (wlabel octets) := replicate n (WStore (LThread true)).
Definition gone (c : octets) (l : nat) : list (wlabel octets) := [WBreak l; WClientDown c; WServerDown l; WExpire l].

(** Both online: the packet is forwarded, the store's thread confirms it, and
    the acknowledgement of the receiver empties the table. *)
Definition exchange : list (wlabel octets) :=
  login alice 0 ++ login bob 1 ++ send alice bob [1; 5] ++ [WServer 0 None; WTask 0; WClient bob] ++ thread 4
  ++ [WClient alice; WServer 1 None; WStore (LPush 1)] ++ thread 6.

Example exchange_log : option_map (fun w => (w_log w, map_to_list (ps_db (w_store w)))) (sample_run exchange)
  = Some ([Sent alice 1 bob [1; 5]; Delivered bob [1; 5]; Confirmed alice 1], []).
Proof. vm_compute. reflexivity. Qed.

(** The receiver is offline: the packet waits in the server's table until he
    comes. *)
Example stored_and_forwarded :
  option_map (@w_log _ _) (sample_run (login alice 0 ++ send alice bob [1; 5] ++ [WServer 0 None; WTask 0] ++ thread 4 ++ [WClient alice]
    ++ [WConnect bob 1; WConnected bob; WServer 1 None; WTask 1; WTask 1; WTask 1; WTask 1; WTask 1; WClient bob; WClient bob]))
  = Some [Sent alice 1 bob [1; 5]; Confirmed alice 1; Delivered bob [1; 5]].
Proof. vm_compute. reflexivity. Qed.

(** A packet sent between the reconnect and [on_connected] overtakes the hello,
    since [hello_done] is still the one of the last connection; the server then
    closes the link. *)
Example stale_hello_done :
  option_map (fun w => sc_up <$> (w_sconns w !! 1%nat)) (sample_run (login alice 0 ++ gone alice 0
    ++ [WConnect alice 1] ++ send alice bob [1; 5] ++ [WConnected alice; WServer 1 None]))
  = Some (Some false).
Proof. vm_compute. reflexivity. Qed.

(** A key is given again after its row was removed.  The first packet is sent
    twice, since its confirmation did not arrive before the link broke; the
    second confirmation then removes the next packet, which has the same key. *)
Definition key_reused : list (wlabel octets) :=
  login alice 0 ++ send alice bob [1; 5] ++ [WServer 0 None; WTask 0] ++ gone alice 0
  ++ login alice 1 ++ [WServer 1 None; WTask 1] ++ thread 4 ++ [WClient alice]
  ++ send alice bob [1; 6] ++ thread 6 ++ [WClient alice; WBreak 1].

Example reused_key_loses_packet :
  option_map (fun w => (w_log w, map_to_list (cl_out (client_of alice w)), map_to_list (ps_db (w_store w)))) (sample_run key_reused)
  = Some ([Sent alice 1 bob [1; 5]; Confirmed alice 1; Sent alice 1 bob [1; 6]; Confirmed alice 1], [],
          [(2, (bob, [1; 5])); (1, (bob, [1; 5]))]).
Proof. vm_compute. reflexivity. Qed.
End SampleTransport.
Import SampleCategories Sample SampleTransport.

(** The sender's row is gone, the receiver has not come yet. *)
Lemma packets_are_never_lost_witness : exists w,
  sample_run (login alice 0 ++ send alice bob [1; 5] ++ [WServer 0 None; WTask 0] ++ thread 4 ++ [WClient alice]) = Some w /\
  Sent alice 1 bob [1; 5] ∈ w_log w /\ cl_out (client_of alice w) !! 1 = None /\
  (cl_out (client_of alice w) !! 1 = Some (bob, [1; 5]) \/ (exists e, Refused alice 1 e ∈ w_log w) \/ Delivered bob [1; 5] ∈ w_log w \/
   exists a bs, tbl_lookup a (ps_db (w_store w)) = Some (bob, bs) /\ pl_des bs = Some [1; 5]).
Proof.
  eexists. split; [vm_compute; reflexivity|]. split; [vm_compute; repeat constructor|]. split; [vm_compute; reflexivity|].
  eapply (packets_are_never_lost issuer next_key next_key next_key_fresh
    (login alice 0 ++ send alice bob [1; 5] ++ [WServer 0 None; WTask 0] ++ thread 4 ++ [WClient alice]) ∅).
  - intros a. apply lookup_empty.
  - vm_compute. reflexivity.
  - vm_compute. repeat constructor.
  - intros rec' pl' Hx. vm_compute in Hx. apply elem_of_cons in Hx as [[= -> ->]|Hx]; [done|].
    apply elem_of_cons in Hx as [Hx|Hx]; [discriminate Hx|by apply elem_of_nil in Hx].
Defined.

Lemma packets_reach_only_their_receiver_witness : exists w,
  sample_run exchange = Some w /\ Delivered bob [1; 5] ∈ w_log w /\ exists k, Sent (issuer [1; 5]) k bob [1; 5] ∈ w_log w.
Proof.
  eexists. split; [vm_compute; reflexivity|]. split; [vm_compute; repeat constructor|].
  eapply (packets_reach_only_their_receiver issuer next_key next_key next_key_fresh exchange ∅).
  - intros a. apply lookup_empty.
  - vm_compute. reflexivity.
  - vm_compute. repeat constructor.
Defined.
