(* ===== verification/LineEditor.v ===== *)
(** The line editor of the console: [console/input_handler.cpp].

    A line is longer than its window: [str_pos_] is where the window begins,
    [cursor_pos_] the cursor inside it.  An access outside of the string or of
    the history has no result here.  [iswprint] depends on the locale and is an
    argument. *)

From stdpp Require Import base list numbers.
From Stdlib Require Import ZArith Lia.
From S2P Require Import Prelude.
Open Scope Z_scope.

(** ** Data *)

(** The keys that the editor knows; any other does nothing. *)
Inductive input_key : Type :=
| no_key | backspace | left_arrow | right_arrow | up_arrow | down_arrow | del | home | end_key | insert_key | other_key.

Record input : Type := Input { in_ch : option Z; in_key : input_key }.

Record input_handler : Type := InputHandler {
  ih_max_size : Z;
  ih_str : list Z;
  ih_str_pos : Z;
  ih_cursor_pos : Z;
  ih_insert_mode : bool;
  ih_history : list (list Z);
  ih_history_pos : option Z;
  ih_temp_str : list Z
}.

Record visible_change : Type := VisibleChange { vc_pos : Z; vc_str : list Z; vc_cursor_pos : Z }.

Definition no_change : visible_change := VisibleChange 0 [] 0.

Definition set_str (v : list Z) (h : input_handler) : input_handler :=
  InputHandler (ih_max_size h) v (ih_str_pos h) (ih_cursor_pos h) (ih_insert_mode h) (ih_history h) (ih_history_pos h) (ih_temp_str h).
Definition set_pos (sp cp : Z) (h : input_handler) : input_handler :=
  InputHandler (ih_max_size h) (ih_str h) sp cp (ih_insert_mode h) (ih_history h) (ih_history_pos h) (ih_temp_str h).
Definition set_recall (p : option Z) (temp : list Z) (h : input_handler) : input_handler :=
  InputHandler (ih_max_size h) (ih_str h) (ih_str_pos h) (ih_cursor_pos h) (ih_insert_mode h) (ih_history h) p temp.
Definition toggle_insert (h : input_handler) : input_handler :=
  InputHandler (ih_max_size h) (ih_str h) (ih_str_pos h) (ih_cursor_pos h) (negb (ih_insert_mode h)) (ih_history h) (ih_history_pos h)
    (ih_temp_str h).

(** ** The string *)

Definition erase_at (i : Z) (l : list Z) : option (list Z) :=
  if (0 <=? i) && (i <? zlen l) then Some (ztake i l ++ zdrop (i + 1) l) else None.
Definition insert_at (i : Z) (c : Z) (l : list Z) : option (list Z) :=
  if (0 <=? i) && (i <=? zlen l) then Some (ztake i l ++ c :: zdrop i l) else None.
Definition write_at (i : Z) (c : Z) (l : list Z) : option (list Z) :=
  if (0 <=? i) && (i <? zlen l) then Some (ztake i l ++ c :: zdrop (i + 1) l) else None.
Definition substr (i n : Z) (l : list Z) : option (list Z) :=
  if (0 <=? i) && (i + n <=? zlen l) then Some (ztake n (zdrop i l)) else None.

(** ** The editor *)

Definition new_handler (max_size : Z) (text : list Z) : input_handler :=
  InputHandler max_size text
    (if max_size <=? zlen text then zlen text - max_size + 1 else zlen text)
    (if max_size <=? zlen text then wrap 64 (max_size - 1) else zlen text)
    true [] None [].

Definition visible_string (h : input_handler) : option (list Z) :=
  let rest := wrap 64 (zlen (ih_str h) - ih_str_pos h) in
  substr (ih_str_pos h) (if rest <? ih_max_size h then rest else ih_max_size h) (ih_str h).

(** The end of the line, in the last column when the line is longer. *)
Definition to_end (h : input_handler) : input_handler :=
  let size := zlen (ih_str h) in
  if ih_max_size h <=? size then set_pos (size - ih_max_size h + 1) (wrap 64 (ih_max_size h - 1)) h else set_pos 0 size h.

(** [visible_change{0, visible_string(), cursor_pos_}] *)
Definition redraw (h : input_handler) : option (input_handler * visible_change) :=
  v ← visible_string h; mret (h, VisibleChange 0 v (ih_cursor_pos h)).

Definition set_string (s : list Z) (h : input_handler) : option (input_handler * visible_change) := redraw (to_end (set_str s h)).

Definition type_char (c : Z) (h : input_handler) : option (input_handler * visible_change) :=
  let i := ih_str_pos h + ih_cursor_pos h in
  str ← (if zlen (ih_str h) <=? i then Some (ih_str h ++ [c])
         else if ih_insert_mode h then insert_at i c (ih_str h) else write_at i c (ih_str h));
  let h := set_str str h in
  let cursor := ih_cursor_pos h + 1 in
  if ih_max_size h <=? cursor then redraw (set_pos (ih_str_pos h + 1) (wrap 64 (ih_max_size h - 1)) h)
  else
    let h := set_pos (ih_str_pos h) cursor h in
    s ← substr (ih_str_pos h + cursor - 1) 1 (ih_str h);
    mret (h, VisibleChange (cursor - 1) s cursor).

Definition press_backspace (h : input_handler) : option (input_handler * visible_change) :=
  if 0 <? ih_cursor_pos h then
    let cursor := ih_cursor_pos h - 1 in
    str ← erase_at (ih_str_pos h + cursor) (ih_str h);
    let h := set_pos (ih_str_pos h) cursor (set_str str h) in
    v ← visible_string h;
    s ← substr cursor (zlen v - cursor) v;
    mret (h, VisibleChange cursor s cursor)
  else if 0 <? ih_str_pos h then
    let sp := ih_str_pos h - 1 in
    str ← erase_at sp (ih_str h);
    redraw (set_pos sp (ih_cursor_pos h) (set_str str h))
  else mret (h, no_change).

Definition move_cursor (cursor : Z) (h : input_handler) : option (input_handler * visible_change) :=
  mret (set_pos (ih_str_pos h) cursor h, VisibleChange 0 [] cursor).

Definition press_left (h : input_handler) : option (input_handler * visible_change) :=
  if 0 <? ih_cursor_pos h then move_cursor (ih_cursor_pos h - 1) h
  else if 0 <? ih_str_pos h then redraw (set_pos (ih_str_pos h - 1) (ih_cursor_pos h) h)
  else mret (h, no_change).

Definition press_right (h : input_handler) : option (input_handler * visible_change) :=
  if ih_str_pos h + ih_cursor_pos h <? zlen (ih_str h) then
    if ih_cursor_pos h + 1 <? ih_max_size h then move_cursor (ih_cursor_pos h + 1) h
    else redraw (set_pos (ih_str_pos h + 1) (ih_cursor_pos h) h)
  else mret (h, no_change).

Definition history_at (i : Z) (h : input_handler) : option (list Z) := if 0 <=? i then ih_history h !! Z.to_nat i else None.

Definition press_up (h : input_handler) : option (input_handler * visible_change) :=
  match ih_history_pos h with
  | Some p =>
      if 0 <? p then s ← history_at (p - 1) h; set_string s (set_recall (Some (p - 1)) (ih_temp_str h) h)
      else mret (h, no_change)
  | None =>
      if 0 <? zlen (ih_history h) then
        let p := zlen (ih_history h) - 1 in
        s ← history_at p h; set_string s (set_recall (Some p) (ih_str h) h)
      else mret (h, no_change)
  end.

Definition press_down (h : input_handler) : option (input_handler * visible_change) :=
  match ih_history_pos h with
  | Some p =>
      if zlen (ih_history h) <=? p + 1 then
        '(h', ch) ← set_string (ih_temp_str h) (set_recall None (ih_temp_str h) h);
        mret (set_recall None [] h', ch)
      else s ← history_at (p + 1) h; set_string s (set_recall (Some (p + 1)) (ih_temp_str h) h)
  | None => mret (h, no_change)
  end.

Definition press_del (h : input_handler) : option (input_handler * visible_change) :=
  let i := ih_str_pos h + ih_cursor_pos h in
  if i <? zlen (ih_str h) then str ← erase_at i (ih_str h); mret (set_str str h, no_change) else mret (h, no_change).

Definition press (k : input_key) (h : input_handler) : option (input_handler * visible_change) :=
  match k with
  | backspace => press_backspace h
  | left_arrow => press_left h
  | right_arrow => press_right h
  | up_arrow => press_up h
  | down_arrow => press_down h
  | del => press_del h
  | home => mret (set_pos 0 0 h, no_change)
  | end_key => mret (to_end h, no_change)
  | insert_key => mret (toggle_insert h, no_change)
  | no_key | other_key => mret (h, no_change)
  end.

Section process.
Context (iswprint : Z -> bool).

Definition process (i : input) (h : input_handler) : option (input_handler * visible_change) :=
  match in_ch i with
  | Some c => if iswprint c then type_char c h else press (in_key i) h
  | None => press (in_key i) h
  end.
End process.

Definition clear (h : input_handler) : input_handler := set_recall (ih_history_pos h) [] (set_pos 0 0 (set_str [] h)).

Definition commit (h : input_handler) : input_handler :=
  clear (InputHandler (ih_max_size h) (ih_str h) (ih_str_pos h) (ih_cursor_pos h) (ih_insert_mode h) (ih_history h ++ [ih_str h])
    (ih_history_pos h) (ih_temp_str h)).

(** What the user of an editor does; [input_line] feeds keys and commits. *)
Inductive action : Type :=
| Process (i : input)
| SetString (s : list Z)
| Commit
| Clear.

Section run.
Context (iswprint : Z -> bool).

Definition act (a : action) (h : input_handler) : option input_handler :=
  match a with
  | Process i => r ← process iswprint i h; mret (fst r)
  | SetString s => r ← set_string s h; mret (fst r)
  | Commit => Some (commit h)
  | Clear => Some (clear h)
  end.

Fixpoint acts (l : list action) (h : input_handler) : option input_handler :=
  match l with [] => Some h | a :: l => h' ← act a h; acts l h' end.
End run.

(** ** A line without a window *)

(** The text before and after the cursor; the lines committed; the one that is
    shown instead, and what had been typed. *)
Record line : Type := Line {
  l_before : list Z;
  l_after : list Z;
  l_insert : bool;
  l_history : list (list Z);
  l_recall : option nat;
  l_saved : list Z
}.

Definition l_text (l : line) : list Z := l_before l ++ l_after l.
Definition l_set (b a : list Z) (l : line) : line := Line b a (l_insert l) (l_history l) (l_recall l) (l_saved l).
Definition l_show (s : list Z) (r : option nat) (saved : list Z) (l : line) : line := Line s [] (l_insert l) (l_history l) r saved.

Definition line_type (c : Z) (l : line) : line :=
  l_set (l_before l ++ [c]) (if l_insert l then l_after l else tail (l_after l)) l.

Definition line_press (k : input_key) (l : line) : line :=
  match k with
  | backspace => l_set (removelast (l_before l)) (l_after l) l
  | left_arrow =>
      match list.last (l_before l) with Some c => l_set (removelast (l_before l)) (c :: l_after l) l | None => l end
  | right_arrow => match l_after l with c :: a => l_set (l_before l ++ [c]) a l | [] => l end
  | del => l_set (l_before l) (tail (l_after l)) l
  | home => l_set [] (l_text l) l
  | end_key => l_set (l_text l) [] l
  | insert_key => Line (l_before l) (l_after l) (negb (l_insert l)) (l_history l) (l_recall l) (l_saved l)
  | up_arrow =>
      match l_recall l with
      | Some (S p) => match l_history l !! p with Some s => l_show s (Some p) (l_saved l) l | None => l end
      | Some O => l
      | None => match list.last (l_history l) with
                | Some s => l_show s (Some (pred (length (l_history l)))) (l_text l) l
                | None => l
                end
      end
  | down_arrow =>
      match l_recall l with
      | Some p => match l_history l !! S p with
                  | Some s => l_show s (Some (S p)) (l_saved l) l
                  | None => l_show (l_saved l) None [] l
                  end
      | None => l
      end
  | no_key | other_key => l
  end.

Definition line_clear (l : line) : line := Line [] [] (l_insert l) (l_history l) (l_recall l) [].

Definition line_act (iswprint : Z -> bool) (a : action) (l : line) : line :=
  match a with
  | Process i =>
      match in_ch i with
      | Some c => if iswprint c then line_type c l else line_press (in_key i) l
      | None => line_press (in_key i) l
      end
  | SetString s => l_set s [] l
  | Commit => line_clear (Line (l_before l) (l_after l) (l_insert l) (l_history l ++ [l_text l]) (l_recall l) (l_saved l))
  | Clear => line_clear l
  end.

(** ** The invariant *)

Definition cursor (h : input_handler) : Z := ih_str_pos h + ih_cursor_pos h.

(** The editor shows a part of its string with the cursor in it; no string is
    longer than [n]. *)
Record editor_ok (n : Z) (h : input_handler) : Prop := {
  e_bound : n < 2 ^ 64;
  e_size : 0 < ih_max_size h < 2 ^ 64;
  e_length : zlen (ih_str h) <= n;
  e_pos : 0 <= ih_str_pos h;
  e_column : 0 <= ih_cursor_pos h < ih_max_size h;
  e_cursor : cursor h <= zlen (ih_str h);
  e_history s : s ∈ ih_history h -> zlen s <= n;
  e_recall p : ih_history_pos h = Some p -> 0 <= p < zlen (ih_history h);
  e_temp : zlen (ih_temp_str h) <= n
}.

(** The line an editor shows a part of. *)
Definition line_of (h : input_handler) : line :=
  Line (ztake (cursor h) (ih_str h)) (zdrop (cursor h) (ih_str h)) (ih_insert_mode h) (ih_history h)
    (Z.to_nat <$> ih_history_pos h) (ih_temp_str h).

Lemma line_of_text h : l_text (line_of h) = ih_str h.
Proof. apply ztake_zdrop. Qed.

Lemma editor_ok_grows n h : n + 1 < 2 ^ 64 -> editor_ok n h -> editor_ok (n + 1) h.
Proof. intros Hn []. constructor; auto; try lia. intros s Hs. specialize (e_history0 s Hs). lia. Qed.

(** What is visible: the window's part of the string. *)
Lemma visible_ok n h : editor_ok n h -> visible_string h = Some (ztake (ih_max_size h) (zdrop (ih_str_pos h) (ih_str h))).
Proof.
  intros []. unfold visible_string, substr, cursor in *. rewrite wrap_small by lia.
  destruct (Z.ltb_spec (zlen (ih_str h) - ih_str_pos h) (ih_max_size h)).
  - rewrite (proj2 (Z.leb_le 0 _)), (proj2 (Z.leb_le _ (zlen (ih_str h)))) by lia. cbn. f_equal.
    rewrite !ztake_ge by (rewrite zlen_zdrop; lia). done.
  - by rewrite (proj2 (Z.leb_le 0 _)), (proj2 (Z.leb_le _ (zlen (ih_str h)))) by lia.
Qed.

Lemma redraw_ok n h : editor_ok n h -> exists ch, redraw h = Some (h, ch).
Proof. intros Hh. unfold redraw. rewrite (visible_ok n h Hh). cbn. eauto. Qed.

(** A step of the editor that stays well and is a step of the line. *)
Definition goes (n : Z) (m : option (input_handler * visible_change)) (l : line) : Prop :=
  exists h ch, m = Some (h, ch) /\ editor_ok n h /\ line_of h = l.

Lemma goes_here n h ch l : editor_ok n h -> line_of h = l -> goes n (Some (h, ch)) l.
Proof. intros. by exists h, ch. Qed.

Lemma goes_redraw n h l : editor_ok n h -> line_of h = l -> goes n (redraw h) l.
Proof. intros Hh Hl. destruct (redraw_ok n h Hh) as [ch ->]. by apply goes_here. Qed.

(** The string of [b] and [a], seen from a cursor between them. *)
Definition line_with (b a : list Z) (h : input_handler) : line :=
  Line b a (ih_insert_mode h) (ih_history h) (Z.to_nat <$> ih_history_pos h) (ih_temp_str h).

Lemma line_at h sp cp b a : ih_str h = b ++ a -> sp + cp = zlen b -> line_of (set_pos sp cp h) = line_with b a h.
Proof. intros Es Ec. unfold line_of, line_with, cursor. cbn. by rewrite Ec, Es, ztake_app, zdrop_app. Qed.

(** An editor that is well except for its cursor. *)
Record text_ok (n : Z) (h : input_handler) : Prop := {
  t_bound : n < 2 ^ 64;
  t_size : 0 < ih_max_size h < 2 ^ 64;
  t_length : zlen (ih_str h) <= n;
  t_history s : s ∈ ih_history h -> zlen s <= n;
  t_recall p : ih_history_pos h = Some p -> 0 <= p < zlen (ih_history h);
  t_temp : zlen (ih_temp_str h) <= n
}.

Lemma editor_text_ok n h : editor_ok n h -> text_ok n h.
Proof. intros []. by constructor. Qed.

Lemma editor_at n h sp cp : text_ok n h -> 0 <= sp -> 0 <= cp < ih_max_size h -> sp + cp <= zlen (ih_str h) -> editor_ok n (set_pos sp cp h).
Proof. intros [] ? ? ?. by constructor. Qed.

Lemma to_end_ok n h : text_ok n h ->
  editor_ok n (to_end h) /\ line_of (to_end h) = line_with (ih_str h) [] h.
Proof.
  intros Ht. pose proof (zlen_nonneg (ih_str h)). destruct (t_size n h Ht). unfold to_end. destruct (Z.leb_spec (ih_max_size h) (zlen (ih_str h))).
  - rewrite wrap_small by lia. split; [apply editor_at; (done || lia)|]. apply line_at; [by rewrite app_nil_r|lia].
  - split; [apply editor_at; (done || lia)|]. apply line_at; [by rewrite app_nil_r|lia].
Qed.

Lemma set_string_goes n s h : text_ok n h -> zlen s <= n ->
  goes n (set_string s h) (line_with s [] h).
Proof.
  intros [] Hs. unfold set_string. destruct (to_end_ok n (set_str s h)) as [Hh Hl]; [by constructor|]. by apply goes_redraw.
Qed.

(** ** Lists at a position *)

Lemma erase_middle (b : list Z) c a : erase_at (zlen b) (b ++ c :: a) = Some (b ++ a).
Proof.
  unfold erase_at. rewrite zlen_app, zlen_cons. pose proof (zlen_nonneg b). pose proof (zlen_nonneg a).
  rewrite (proj2 (Z.leb_le 0 _)), (proj2 (Z.ltb_lt (zlen b) _)) by lia. cbn. rewrite ztake_app.
  replace (zlen b + 1) with (zlen (b ++ [c])) by (by rewrite zlen_app). replace (b ++ c :: a) with ((b ++ [c]) ++ a) by (by rewrite <- app_assoc).
  by rewrite zdrop_app.
Qed.

Lemma insert_middle (b : list Z) c a : insert_at (zlen b) c (b ++ a) = Some (b ++ c :: a).
Proof.
  unfold insert_at. rewrite zlen_app. pose proof (zlen_nonneg b). pose proof (zlen_nonneg a).
  rewrite (proj2 (Z.leb_le 0 _)), (proj2 (Z.leb_le (zlen b) _)) by lia. cbn. by rewrite ztake_app, zdrop_app.
Qed.

Lemma write_middle (b : list Z) c d a : write_at (zlen b) c (b ++ d :: a) = Some (b ++ c :: a).
Proof.
  unfold write_at. rewrite zlen_app, zlen_cons. pose proof (zlen_nonneg b). pose proof (zlen_nonneg a).
  rewrite (proj2 (Z.leb_le 0 _)), (proj2 (Z.ltb_lt (zlen b) _)) by lia. cbn. rewrite ztake_app.
  replace (zlen b + 1) with (zlen (b ++ [d])) by (by rewrite zlen_app). replace (b ++ d :: a) with ((b ++ [d]) ++ a) by (by rewrite <- app_assoc).
  by rewrite zdrop_app.
Qed.

Lemma substr_some i n (l : list Z) : 0 <= i -> i + n <= zlen l -> exists s, substr i n l = Some s.
Proof. intros. unfold substr. rewrite (proj2 (Z.leb_le 0 _)), (proj2 (Z.leb_le _ (zlen l))) by lia. eauto. Qed.

(** The two sides of the cursor. *)
Lemma sides n h : editor_ok n h -> exists b a, ih_str h = b ++ a /\ ih_str_pos h + ih_cursor_pos h = zlen b /\ line_of h = line_with b a h.
Proof.
  intros []. unfold cursor in *. exists (ztake (cursor h) (ih_str h)), (zdrop (cursor h) (ih_str h)).
  split_and!; [by rewrite ztake_zdrop|unfold cursor; rewrite zlen_ztake; lia|done].
Qed.

(** ** Each key *)

Section keys.
Context (n : Z) (h : input_handler) (Hh : editor_ok n h).
Context (b a : list Z) (Es : ih_str h = b ++ a) (Ec : ih_str_pos h + ih_cursor_pos h = zlen b).

Lemma text_sizes : 0 <= zlen b /\ 0 <= zlen a /\ zlen (ih_str h) = zlen b + zlen a.
Proof. rewrite Es, zlen_app. pose proof (zlen_nonneg b). pose proof (zlen_nonneg a). lia. Qed.

(** Where the cursor goes with a new string. *)
Lemma goes_to m b' a' sp cp ch : text_ok m (set_str (b' ++ a') h) -> 0 <= sp -> 0 <= cp < ih_max_size h -> sp + cp = zlen b' ->
  goes m (Some (set_pos sp cp (set_str (b' ++ a') h), ch)) (line_with b' a' h) /\
  goes m (redraw (set_pos sp cp (set_str (b' ++ a') h))) (line_with b' a' h).
Proof.
  intros Ht Hsp Hcp E.
  assert (editor_ok m (set_pos sp cp (set_str (b' ++ a') h))) as Ho.
  { apply editor_at; cbn; [done|done|done|rewrite zlen_app; pose proof (zlen_nonneg a'); lia]. }
  assert (line_of (set_pos sp cp (set_str (b' ++ a') h)) = line_with b' a' h) as Hl by (by apply (line_at (set_str (b' ++ a') h))).
  split; [by apply goes_here|by apply goes_redraw].
Qed.

(** The same string. *)
Lemma goes_along b' a' sp cp ch : b' ++ a' = b ++ a -> 0 <= sp -> 0 <= cp < ih_max_size h -> sp + cp = zlen b' ->
  goes n (Some (set_pos sp cp h, ch)) (line_with b' a' h) /\ goes n (redraw (set_pos sp cp h)) (line_with b' a' h).
Proof.
  intros E. rewrite <- E in Es. replace (set_pos sp cp h) with (set_pos sp cp (set_str (b' ++ a') h)); [apply goes_to|].
  - rewrite <- Es. destruct Hh. by constructor.
  - rewrite <- Es. by destruct h.
Qed.

Lemma text_changed m v : n <= m < 2 ^ 64 -> zlen v <= m -> text_ok m (set_str v h).
Proof.
  intros Hm Hv. destruct Hh. constructor; cbn; auto; try lia. intros s Hs. specialize (e_history0 s Hs). lia.
Qed.

Lemma typed_text c : exists a', a' = (if ih_insert_mode h then a else tail a) /\ zlen a' <= zlen a /\
  (if zlen (ih_str h) <=? zlen b then Some (ih_str h ++ [c])
   else if ih_insert_mode h then insert_at (zlen b) c (ih_str h) else write_at (zlen b) c (ih_str h)) = Some ((b ++ [c]) ++ a').
Proof.
  eexists. split; [reflexivity|]. destruct text_sizes as (T1 & T2 & T3). rewrite T3, Es. destruct a as [|d a'].
  - rewrite (proj2 (Z.leb_le _ (zlen b))) by (rewrite zlen_nil; lia). rewrite app_nil_r.
    destruct (ih_insert_mode h); cbn; by rewrite app_nil_r.
  - pose proof (zlen_nonneg a'). rewrite (proj2 (Z.leb_gt _ (zlen b))) by (rewrite zlen_cons; lia).
    destruct (ih_insert_mode h); cbn [tail]; (split; [rewrite ?zlen_cons; lia|]).
    + by rewrite insert_middle, <- app_assoc.
    + by rewrite write_middle, <- app_assoc.
Qed.

Lemma type_char_goes c : n + 1 < 2 ^ 64 -> goes (n + 1) (type_char c h) (line_type c (line_with b a h)).
Proof.
  intros Hn. destruct (typed_text c) as (a' & Ea & Hz & E). unfold type_char. rewrite Ec, E. cbn [mbind option_bind].
  destruct text_sizes as (T1 & T2 & T3). pose proof (e_length n h Hh). destruct (e_column n h Hh). destruct (e_size n h Hh). pose proof (e_pos n h Hh).
  assert (zlen (b ++ [c]) = zlen b + 1) as Hb by (by rewrite zlen_app).
  assert (text_ok (n + 1) (set_str ((b ++ [c]) ++ a') h)) as Ht by (apply text_changed; [lia|rewrite zlen_app; lia]).
  change (ih_cursor_pos (set_str ?v h)) with (ih_cursor_pos h). change (ih_max_size (set_str ?v h)) with (ih_max_size h).
  change (ih_str_pos (set_str ?v h)) with (ih_str_pos h).
  assert (line_type c (line_with b a h) = line_with (b ++ [c]) a' h) as -> by (by rewrite Ea).
  destruct (Z.leb_spec (ih_max_size h) (ih_cursor_pos h + 1)).
  - rewrite wrap_small by lia. apply goes_to; [exact no_change|done|lia..].
  - cbn [ih_str ih_str_pos set_pos set_str].
    destruct (substr_some (ih_str_pos h + (ih_cursor_pos h + 1) - 1) 1 ((b ++ [c]) ++ a')) as [s ->]; [lia| |].
    { rewrite zlen_app. pose proof (zlen_nonneg a'). lia. }
    apply goes_to; [done|lia..].
Qed.

Lemma stays ch : goes n (Some (h, ch)) (line_with b a h).
Proof.
  replace h with (set_pos (ih_str_pos h) (ih_cursor_pos h) h) at 1 by (by destruct h).
  destruct Hh. by apply goes_along; [|destruct Hh..].
Qed.

(** The cursor's side of the text that a column to its left leaves. *)
Lemma before_last_char : 0 < ih_cursor_pos h \/ 0 < ih_str_pos h -> exists b' c, b = b' ++ [c] /\ zlen b = zlen b' + 1.
Proof.
  intros Hp. destruct Hh. destruct b as [|c b' _] using rev_ind; [rewrite zlen_nil in Ec; lia|]. exists b', c. by rewrite zlen_app.
Qed.

Lemma backspace_goes : goes n (press_backspace h) (line_press backspace (line_with b a h)).
Proof.
  pose proof (e_length n h Hh). destruct (e_column n h Hh). pose proof (e_pos n h Hh). pose proof (e_bound n h Hh). unfold press_backspace.
  assert (forall b' c, b = b' ++ [c] -> line_press backspace (line_with b a h) = line_with b' a h) as Hline.
  { intros b' c ->. unfold line_press, l_set. cbn. by rewrite removelast_last. }
  assert (forall b' c, b = b' ++ [c] -> erase_at (zlen b') (ih_str h) = Some (b' ++ a) /\ text_ok n (set_str (b' ++ a) h)) as Hera.
  { intros b' c E. destruct text_sizes as (_ & _ & Hs). rewrite E, zlen_app in Hs. change (zlen [c]) with 1 in Hs.
    split; [rewrite Es, E, <- app_assoc; apply erase_middle|]. apply text_changed; [lia|]. rewrite zlen_app. lia. }
  destruct (Z.ltb_spec 0 (ih_cursor_pos h)).
  - destruct before_last_char as (b' & c & E & Hb); [by left|]. destruct (Hera b' c E) as [Eer Ht]. rewrite (Hline b' c E).
    replace (ih_str_pos h + (ih_cursor_pos h - 1)) with (zlen b') by lia. rewrite Eer. cbn [mbind option_bind].
    change (ih_str_pos (set_str ?v h)) with (ih_str_pos h).
    destruct (goes_to n b' a (ih_str_pos h) (ih_cursor_pos h - 1) no_change Ht) as [(h' & ch' & [= <- <-] & Ho & Hl) _]; [lia..|].
    rewrite (visible_ok n _ Ho). cbn [mbind option_bind ih_max_size ih_str_pos ih_str set_pos set_str].
    destruct (substr_some (ih_cursor_pos h - 1) (zlen (ztake (ih_max_size h) (zdrop (ih_str_pos h) (b' ++ a))) - (ih_cursor_pos h - 1))
      (ztake (ih_max_size h) (zdrop (ih_str_pos h) (b' ++ a)))) as [s ->]; [lia|lia|]. by apply goes_here.
  - destruct (Z.ltb_spec 0 (ih_str_pos h)).
    + destruct before_last_char as (b' & c & E & Hb); [by right|]. destruct (Hera b' c E) as [Eer Ht]. rewrite (Hline b' c E).
      replace (ih_str_pos h - 1) with (zlen b') by lia. rewrite Eer. cbn [mbind option_bind].
      apply goes_to; [exact no_change|done|lia..].
    + assert (b = []) as Eb by (apply zlen_zero; lia). replace (line_press backspace (line_with b a h)) with (line_with b a h) by (by rewrite Eb). apply stays.
Qed.

Lemma left_goes : goes n (press_left h) (line_press left_arrow (line_with b a h)).
Proof.
  destruct (e_column n h Hh). pose proof (e_pos n h Hh). unfold press_left, move_cursor.
  assert (forall b' c, b = b' ++ [c] -> line_press left_arrow (line_with b a h) = line_with b' (c :: a) h) as Hline.
  { intros b' c ->. unfold line_press, l_set. cbn. by rewrite last_snoc, removelast_last. }
  assert (forall b' c, b = b' ++ [c] -> b' ++ c :: a = b ++ a) as Hsame by (intros b' c ->; by rewrite <- app_assoc).
  destruct (Z.ltb_spec 0 (ih_cursor_pos h)).
  - destruct before_last_char as (b' & c & E & Hb); [by left|]. rewrite (Hline b' c E). apply goes_along; [by apply Hsame|lia..].
  - destruct (Z.ltb_spec 0 (ih_str_pos h)).
    + destruct before_last_char as (b' & c & E & Hb); [by right|]. rewrite (Hline b' c E).
      apply goes_along; [exact no_change|by apply Hsame|lia..].
    + assert (b = []) as Eb by (apply zlen_zero; lia). replace (line_press left_arrow (line_with b a h)) with (line_with b a h) by (by rewrite Eb). apply stays.
Qed.

Lemma after_first_char : 0 < zlen a -> exists c a', a = c :: a'.
Proof. intros Ha. destruct a as [|c a']; [change (0 < 0) in Ha; lia|eauto]. Qed.

Lemma right_goes : goes n (press_right h) (line_press right_arrow (line_with b a h)).
Proof.
  destruct (e_column n h Hh). pose proof (e_pos n h Hh). unfold press_right, move_cursor. destruct text_sizes as (T1 & T2 & T3).
  destruct (Z.ltb_spec (ih_str_pos h + ih_cursor_pos h) (zlen (ih_str h))).
  - destruct after_first_char as (c & a' & Ea); [lia|].
    assert ((b ++ [c]) ++ a' = b ++ a) as Hsame by (by rewrite <- app_assoc, Ea).
    assert (zlen (b ++ [c]) = zlen b + 1) by (by rewrite zlen_app). replace (line_press right_arrow (line_with b a h)) with (line_with (b ++ [c]) a' h) by (by rewrite Ea).
    destruct (Z.ltb_spec (ih_cursor_pos h + 1) (ih_max_size h)).
    + apply goes_along; [congruence|lia..].
    + apply goes_along; [exact no_change|congruence|lia..].
  - assert (a = []) as Ea by (apply zlen_zero; lia). replace (line_press right_arrow (line_with b a h)) with (line_with b a h) by (by rewrite Ea). apply stays.
Qed.

Lemma del_goes : goes n (press_del h) (line_press del (line_with b a h)).
Proof.
  destruct (e_column n h Hh). pose proof (e_pos n h Hh). unfold press_del. destruct text_sizes as (T1 & T2 & T3). pose proof (e_length n h Hh).
  pose proof (e_bound n h Hh). destruct (Z.ltb_spec (ih_str_pos h + ih_cursor_pos h) (zlen (ih_str h))).
  - destruct after_first_char as (c & a' & Ea); [lia|].
    replace (erase_at _ _) with (Some (b ++ a')) by (rewrite Ec, Es, Ea; by rewrite erase_middle). cbn [mbind option_bind].
    replace (line_press del (line_with b a h)) with (line_with b a' h) by (by rewrite Ea).
    replace (set_str (b ++ a') h) with (set_pos (ih_str_pos h) (ih_cursor_pos h) (set_str (b ++ a') h)) by (by destruct h).
    apply goes_to; [|lia..]. apply text_changed; [lia|]. rewrite Ea, zlen_cons in T3. rewrite zlen_app. lia.
  - assert (a = []) as Ea by (apply zlen_zero; lia). replace (line_press del (line_with b a h)) with (line_with b a h) by (by rewrite Ea). apply stays.
Qed.
End keys.

(** The history is read inside its bounds. *)
Section recall.
Context (n : Z) (h : input_handler) (Hh : editor_ok n h).

Lemma history_read p : 0 <= p < zlen (ih_history h) -> exists s, history_at p h = Some s /\ ih_history h !! Z.to_nat p = Some s /\ zlen s <= n.
Proof.
  intros Hp. destruct (lookup_lt_is_Some_2 (ih_history h) (Z.to_nat p)) as [s Es]; [unfold zlen in Hp; lia|].
  exists s. unfold history_at. rewrite (proj2 (Z.leb_le 0 p)) by lia. split_and!; [done|done|].
  apply (e_history n h Hh). by eapply list_elem_of_lookup_2.
Qed.

Lemma recall_ok p temp : (forall q, p = Some q -> 0 <= q < zlen (ih_history h)) -> zlen temp <= n -> text_ok n (set_recall p temp h).
Proof. intros Hp Ht. destruct Hh. by constructor. Qed.

Lemma up_goes : goes n (press_up h) (line_press up_arrow (line_of h)).
Proof.
  pose proof (e_recall n h Hh) as Hr. pose proof (e_temp n h Hh). unfold press_up, line_press. cbn [l_recall line_of].
  destruct (ih_history_pos h) as [p|] eqn:Ep; cbn [fmap option_fmap option_map].
  - specialize (Hr p eq_refl). destruct (Z.ltb_spec 0 p).
    + destruct (history_read (p - 1)) as (s & -> & Hs & Hz); [lia|]. replace (Z.to_nat p) with (S (Z.to_nat (p - 1))) by lia. cbn [l_history line_of].
      rewrite Hs.
      cbn [mbind option_bind]. apply (set_string_goes n s (set_recall (Some (p - 1)) (ih_temp_str h) h)); [|done].
      apply recall_ok; [|done]. intros q [= <-]. lia.
    + replace (Z.to_nat p) with 0%nat by lia. by apply goes_here.
  - rewrite last_lookup. cbn [l_history line_of]. destruct (Z.ltb_spec 0 (zlen (ih_history h))).
    + destruct (history_read (zlen (ih_history h) - 1)) as (s & -> & Hs & Hz); [lia|].
      replace (Z.to_nat (zlen (ih_history h) - 1)) with (pred (length (ih_history h))) in Hs by (unfold zlen; lia). rewrite Hs.
      cbn [mbind option_bind]. rewrite line_of_text.
      destruct (set_string_goes n s (set_recall (Some (zlen (ih_history h) - 1)) (ih_str h) h)) as (h' & ch & E & Ho & Hl); [|done|].
      * apply recall_ok; [|apply Hh]. intros q [= <-]. lia.
      * exists h', ch. split_and!; [done|done|]. rewrite Hl. unfold line_with, l_show. cbn. f_equal. f_equal. unfold zlen. lia.
    + rewrite (zlen_zero (ih_history h)) by (pose proof (zlen_nonneg (ih_history h)); lia). by apply goes_here.
Qed.

Lemma down_goes : goes n (press_down h) (line_press down_arrow (line_of h)).
Proof.
  pose proof (e_recall n h Hh) as Hr. pose proof (e_temp n h Hh). pose proof (e_bound n h Hh). unfold press_down, line_press. cbn [l_recall line_of].
  destruct (ih_history_pos h) as [p|] eqn:Ep; cbn [fmap option_fmap option_map]; [|by apply goes_here].
  specialize (Hr p eq_refl). destruct (Z.leb_spec (zlen (ih_history h)) (p + 1)).
  - rewrite lookup_ge_None_2 by (cbn; unfold zlen in *; lia).
    destruct (set_string_goes n (ih_temp_str h) (set_recall None (ih_temp_str h) h)) as (h' & ch & -> & Ho & Hl); [by apply recall_ok|done|].
    cbn [mbind option_bind]. apply goes_here; [destruct Ho; constructor; cbn; auto; try done|].
    + rewrite zlen_nil. pose proof (zlen_nonneg (ih_temp_str h)). lia.
    + unfold line_of, line_with, l_show, cursor in *. cbn in *. injection Hl as E1 E2 E3 E4 _. by rewrite E1, E2, E3, E4.
  - destruct (history_read (p + 1)) as (s & -> & Hs & Hz); [lia|].
    replace (Z.to_nat (p + 1)) with (S (Z.to_nat p)) in Hs by lia. cbn [l_history line_of]. rewrite Hs. cbn [mbind option_bind].
    destruct (set_string_goes n s (set_recall (Some (p + 1)) (ih_temp_str h) h)) as (h' & ch & E & Ho & Hl); [|done|].
    + apply recall_ok; [|done]. intros q [= <-]. lia.
    + exists h', ch. split_and!; [done|done|]. rewrite Hl. unfold line_with, l_show. cbn. f_equal. f_equal. lia.
Qed.

Lemma press_goes k : goes n (press k h) (line_press k (line_of h)).
Proof.
  destruct (sides n h Hh) as (b & a & Es & Ec & El). destruct (e_size n h Hh). pose proof (zlen_nonneg b). pose proof (zlen_nonneg a).
  destruct k; cbn [press].
  - by apply goes_here.
  - rewrite El. by apply backspace_goes.
  - rewrite El. by apply left_goes.
  - rewrite El. by apply right_goes.
  - by apply up_goes.
  - by apply down_goes.
  - rewrite El. by apply del_goes.
  - cbn [line_press]. rewrite line_of_text. apply goes_here; [apply editor_at; [by apply editor_text_ok|lia|lia|rewrite Es, zlen_app; lia]|].
    by apply (line_at h).
  - cbn [line_press]. rewrite line_of_text. destruct (to_end_ok n h) as [Ho Hl]; [by apply editor_text_ok|]. by apply goes_here.
  - apply goes_here; [destruct Hh; by constructor|done].
  - by apply goes_here.
Qed.
End recall.

(** ** Runs *)

Definition new_line : line := Line [] [] true [] None [].

Lemma new_editor m n : 0 < m < 2 ^ 64 -> 0 <= n < 2 ^ 64 -> editor_ok n (new_handler m []) /\ line_of (new_handler m []) = new_line.
Proof.
  intros Hm Hn. unfold new_handler. change (zlen []) with 0. rewrite (proj2 (Z.leb_gt m 0)) by lia.
  split; [|done]. constructor; cbn; try done; unfold cursor, zlen; cbn; try lia. by intros s ?%elem_of_nil.
Qed.

(** A text that is set is not longer than [n]. *)
Definition action_ok (n : Z) (a : action) : Prop := match a with SetString s => zlen s <= n | _ => True end.

Lemma act_goes (iswprint : Z -> bool) n a h : n + 1 < 2 ^ 64 -> action_ok n a -> editor_ok n h ->
  exists h', act iswprint a h = Some h' /\ editor_ok (n + 1) h' /\ line_of h' = line_act iswprint a (line_of h).
Proof.
  intros Hn Ha Hh. assert (forall m l, goes (n + 1) m l -> exists h', (r ← m; mret (fst r)) = Some h' /\ editor_ok (n + 1) h' /\ line_of h' = l) as Hgo.
  { intros m l (h' & ch & -> & Ho & Hl). by exists h'. }
  pose proof (editor_ok_grows n h Hn Hh) as Hh1.
  assert (0 <= n) by (pose proof (e_length n h Hh); pose proof (zlen_nonneg (ih_str h)); lia).
  destruct a as [[c k]|s| |]; cbn [act line_act in_ch in_key].
  - apply Hgo. unfold process. cbn [in_ch in_key]. destruct c as [c|]; [destruct (iswprint c)|]; [|by apply press_goes..].
    destruct (sides n h Hh) as (b & a & Es & Ec & ->). by apply type_char_goes.
  - apply Hgo. apply (set_string_goes (n + 1) s h); [by apply editor_text_ok|]. cbn in Ha. lia.
  - eexists. split; [reflexivity|]. unfold commit, clear. destruct Hh1. split; [|by rewrite <- (line_of_text h)].
    constructor; cbn; change (zlen []) with 0; try done; try lia.
    + intros s [?|E%list_elem_of_singleton]%elem_of_app; [auto|subst; lia].
    + intros p Hp. specialize (e_recall0 p Hp). rewrite zlen_app. change (zlen [_]) with 1. lia.
  - eexists. split; [reflexivity|]. destruct Hh1. split; [|done]. constructor; cbn; change (zlen []) with 0; try done; lia.
Qed.

Lemma acts_go (iswprint : Z -> bool) l : forall n h, 0 <= n -> n + zlen l < 2 ^ 64 -> Forall (action_ok n) l -> editor_ok n h ->
  exists h', acts iswprint l h = Some h' /\ editor_ok (n + zlen l) h' /\ line_of h' = fold_left (fun x a => line_act iswprint a x) l (line_of h).
Proof.
  induction l as [|a l IH]; intros n h Hn Hb Hl Hh; [exists h; by rewrite Z.add_0_r|].
  rewrite zlen_cons in Hb. pose proof (zlen_nonneg l). apply list.Forall_cons in Hl as [Ha Hl].
  destruct (act_goes iswprint n a h) as (h1 & E1 & Hh1 & El1); [lia|done|done|].
  destruct (IH (n + 1) h1) as (h' & E' & Hh' & El'); [lia|lia| |done|].
  { eapply Forall_impl; [|exact Hl]. intros []; cbn; lia. }
  exists h'. cbn. rewrite E1. cbn. split_and!; [done| |by rewrite El', El1]. rewrite zlen_cons. by replace (n + (zlen l + 1)) with (n + 1 + zlen l) by lia.
Qed.

(** The window keeps its width. *)
Lemma redraw_width h h' ch : redraw h = Some (h', ch) -> ih_max_size h' = ih_max_size h.
Proof. unfold redraw. destruct (visible_string h); [by intros [= <- _]|done]. Qed.

Lemma set_string_width s h h' ch : set_string s h = Some (h', ch) -> ih_max_size h' = ih_max_size h.
Proof. unfold set_string. intros ->%redraw_width. unfold to_end. by case_match. Qed.

Lemma process_width iswprint i h h' ch : process iswprint i h = Some (h', ch) -> ih_max_size h' = ih_max_size h.
Proof.
  assert (forall c, type_char c h = Some (h', ch) -> ih_max_size h' = ih_max_size h) as Ht.
  { intros c. unfold type_char. destruct (if _ <=? _ then _ else _) as [s|]; [|done]. cbn [mbind option_bind].
    case_match; [by intros ->%redraw_width|]. destruct (substr _ _ _); [by intros [= <- _]|done]. }
  assert (forall k, press k h = Some (h', ch) -> ih_max_size h' = ih_max_size h) as Hp.
  { intros []; cbn [press]; unfold press_backspace, press_left, press_right, press_up, press_down, press_del, move_cursor, mbind, option_bind,
      mret, option_ret; repeat case_match; intros E; simplify_eq; try done; try (by apply redraw_width in E); try (by apply set_string_width in E).
    - match goal with E : set_string _ _ = _ |- _ => by apply set_string_width in E end.
    - unfold to_end. by case_match. }
  unfold process. destruct (in_ch i) as [c|]; [destruct (iswprint c)|]; [apply Ht|apply Hp..].
Qed.

Lemma acts_width iswprint l h h' : acts iswprint l h = Some h' -> ih_max_size h' = ih_max_size h.
Proof.
  revert h. induction l as [|a l IH]; intros h E; cbn in E; [by injection E as <-|].
  destruct (act iswprint a h) as [h1|] eqn:E1; [|done]. rewrite (IH h1 E).
  destruct a as [i|s| |]; cbn in E1; [| |by injection E1 as <-..].
  - destruct (process iswprint i h) as [[h2 ch]|] eqn:E2; [|done]. injection E1 as <-. by eapply process_width.
  - destruct (set_string s h) as [[h2 ch]|] eqn:E2; [|done]. injection E1 as <-. by eapply set_string_width.
Qed.

(** ** Properties *)

(** C34: The editor behaves like a line of text with a cursor and a history, whatever
    its keys, calls and the locale: it reads and writes inside of its strings and
    its history only, and shows the part of the text at [str_pos_], with the
    cursor in it. *)
Theorem editor_is_a_line (iswprint : Z -> bool) m n l (Hm : 0 < m < 2 ^ 64) (Hn : 0 <= n) (Hb : n + zlen l < 2 ^ 64) (Hl : Forall (action_ok n) l) :
  exists h, acts iswprint l (new_handler m []) = Some h /\
    let x := fold_left (fun x a => line_act iswprint a x) l new_line in
    line_of h = x /\ ih_str h = l_text x /\
    visible_string h = Some (ztake m (zdrop (ih_str_pos h) (l_text x))) /\
    zlen (l_before x) = ih_str_pos h + ih_cursor_pos h /\ 0 <= ih_cursor_pos h < m.
Proof.
  destruct (new_editor m n Hm) as [Hh El]; [pose proof (zlen_nonneg l); lia|].
  destruct (acts_go iswprint l n (new_handler m []) Hn Hb Hl Hh) as (h & E & Ho & Eh). rewrite El in Eh.
  pose proof (acts_width _ _ _ _ E) as Ew. cbn in Ew. exists h. split; [done|]. cbn zeta. rewrite <- Eh, line_of_text, <- Ew.
  split_and!; [done|done|by apply (visible_ok _ h Ho)|destruct Ho; cbn [l_before line_of]; unfold cursor in *; rewrite zlen_ztake by lia; done|apply Ho..].
Qed.

Module EditorSample.
Definition any (c : Z) : bool := true.
Definition key (k : input_key) : action := Process (Input None k).
Definition typed (s : list Z) : list action := map (fun c => Process (Input (Some c) no_key)) s.

(** A text given to the constructor that fits into the window is not shown, and
    the first key reads behind its end. *)
Example constructed_with_text :
  visible_string (new_handler 10 [97; 98]) = Some [] /\ act any (key backspace) (new_handler 10 [97; 98]) = None.
Proof. vm_compute. split; reflexivity. Qed.

(** A line that was recalled and committed: the history is not left, and the
    arrow up recalls nothing any more. *)
Example recall_stuck :
  ih_str <$> acts any (typed [97] ++ [Commit; key up_arrow; Commit; key up_arrow]) (new_handler 10 []) = Some [].
Proof. vm_compute. reflexivity. Qed.

(** A character inserted in the middle moves the rest of the line, but is
    reported as the only change. *)
Example insertion_reported :
  (h ← acts any (typed [97; 98] ++ [key home]) (new_handler 10 []);
   '(h', ch) ← process any (Input (Some 99) no_key) h;
   v ← visible_string h'; mret (v, ch)) = Some ([99; 97; 98], VisibleChange 0 [99] 1).
Proof. vm_compute. reflexivity. Qed.
End EditorSample.
Import EditorSample.

Lemma editor_is_a_line_witness :
  exists h, acts any (typed [97; 98; 99; 100; 101] ++ [key left_arrow; key backspace; Commit; key up_arrow]) (new_handler 4 []) = Some h /\
    ih_str h = [97; 98; 99; 101].
Proof.
  destruct (editor_is_a_line any 4 0 (typed [97; 98; 99; 100; 101] ++ [key left_arrow; key backspace; Commit; key up_arrow])) as (h & E & _ & Es & _).
  - split; reflexivity.
  - reflexivity.
  - reflexivity.
  - repeat constructor.
  - exists h. split; [exact E|]. rewrite Es. vm_compute. reflexivity.
Defined.
