(* ===== verification/Wav.v ===== *)
(** WAV files: [audio/util/riff_format.hpp] and [audio/util/detail/wav.cpp].

    The file is read from a [std::istream]: the octets, the position, whether
    the stream is good and how many octets the last read got.  Seeking behind the
    end fails on a stream in memory and succeeds on a file: an argument. *)

From stdpp Require Import base list numbers strings.
From Stdlib Require Import ZArith Lia ZifyBool.
From S2P Require Import Prelude ByteOrder.
Open Scope Z_scope.

(** ** RIFF structures *)

Record chunk_header : Type := ChunkHeader { ck_id : octets; ck_size : Z }.

Record riff_header : Type := RiffHeader { rh_header : chunk_header; rh_format : octets }.

Record riff_fmt_data : Type := RiffFmtData {
  audio_format_tag : Z;
  channels : Z;
  sample_rate : Z;
  byte_rate : Z;
  block_align : Z;
  bits_per_sample : Z
}.

Definition riff_tag : octets := [82; 73; 70; 70].    (** RIFF *)
Definition wave_tag : octets := [87; 65; 86; 69].    (** WAVE *)
Definition fmt_tag : octets := [102; 109; 116; 32].  (** "fmt " *)
Definition data_tag : octets := [100; 97; 116; 97].  (** data *)

(** [chunk_header::size] and the other sizes *)
Definition chunk_header_size : Z := 8.
Definition riff_header_size : Z := chunk_header_size + 4.
Definition riff_fmt_data_size : Z := 16.
Definition riff_fmt_size : Z := chunk_header_size + riff_fmt_data_size.
Definition riff_data_size : Z := chunk_header_size.

Abbreviation writer := (sexn endian_export out_of_range unit).
Abbreviation reader A := (sexn endian_import out_of_range A).

Definition chunk_header_write (h : chunk_header) : writer := put_array little u8 (ck_id h) ;; put little u32 (ck_size h).
Definition chunk_header_read : reader chunk_header :=
  i ← get_array little u8 4; s ← get little u32; mret (ChunkHeader i s).

(** [riff_header(size)] *)
Definition new_riff_header (size : Z) : riff_header := RiffHeader (ChunkHeader riff_tag (wrap 32 (4 + wrap 32 size))) wave_tag.
Definition riff_header_write (h : riff_header) : writer := put_subtype (chunk_header_write (rh_header h)) ;; put_array little u8 (rh_format h).
Definition riff_header_read : reader riff_header :=
  h ← get_subtype chunk_header_read; f ← get_array little u8 4; mret (RiffHeader h f).

Definition riff_fmt_data_write (d : riff_fmt_data) : writer :=
  put little u16 (audio_format_tag d) ;; put little u16 (channels d) ;; put little u32 (sample_rate d) ;;
  put little u32 (byte_rate d) ;; put little u16 (block_align d) ;; put little u16 (bits_per_sample d).
Definition riff_fmt_data_read : reader riff_fmt_data :=
  f ← get little u16; c ← get little u16; s ← get little u32; b ← get little u32; a ← get little u16; n ← get little u16;
  mret (RiffFmtData f c s b a n).

(** [riff_fmt]: the header has the size of the data. *)
Definition riff_fmt_write (d : riff_fmt_data) : writer :=
  put_subtype (chunk_header_write (ChunkHeader fmt_tag (riff_fmt_size - chunk_header_size))) ;; put_subtype (riff_fmt_data_write d).

(** [riff_data] *)
Definition riff_data_write (data : octets) : writer :=
  put_subtype (chunk_header_write (ChunkHeader data_tag (wrap 32 (zlen data)))) ;; put_array little u8 data.

(** ** The stream *)

Record istream : Type := IStream { is_data : octets; is_pos : Z; is_good : bool; is_gcount : Z }.

Definition open_stream (data : octets) : istream := IStream data 0 true 0.

(** What is left. *)
Definition is_rest (s : istream) : octets := zdrop (is_pos s) (is_data s).

(** [read]: the octets, or none when there are not enough. *)
Definition read (size : Z) (s : istream) : octets * istream :=
  if is_good s then
    if size <=? zlen (is_rest s)
    then (ztake size (is_rest s), IStream (is_data s) (is_pos s + size) true size)
    else ([], IStream (is_data s) (is_pos s + zlen (is_rest s)) false (zlen (is_rest s)))
  else ([], IStream (is_data s) (is_pos s) false 0).

(** ** The file *)

Inductive wav_exn : Type :=
| invalid_format (what : string)
| range_error (e : out_of_range).

Record wav : Type := Wav { wv_data : octets; wv_header : riff_header; wv_format : option riff_fmt_data }.

Definition new_wav (d : octets) : wav := Wav d (new_riff_header 0) None.

Definition set_data (d : octets) (w : wav) : wav := Wav d (wv_header w) (wv_format w).
Definition set_header (h : riff_header) (w : wav) : wav := Wav (wv_data w) h (wv_format w).
Definition set_format (f : option riff_fmt_data) (w : wav) : wav := Wav (wv_data w) (wv_header w) f.

(** [x.read(buf.data(), buf.size())] *)
Definition parsed {A} (r : reader A) (buf : octets) : result wav_exn A :=
  match r (new_import buf (zlen buf)) with (Ok a, _) => Ok a | (Throw e, _) => Throw (range_error e) end.

Definition wav_format_pcm : Z := 1.
Definition wav_format_float : Z := 3.
Definition max_sample_rate : Z := 768000.
Definition max_data_chunk_size : Z := 256 * 1024 * 1024.
Definition max_fmt_chunk_size : Z := 1024.
Definition max_supported_channels : Z := 16.

Definition frame_size (f : riff_fmt_data) : Z := wrap 64 (channels f * (bits_per_sample f / 8)).

Definition validate_wav_format (f : riff_fmt_data) (data_size : Z) : result wav_exn unit :=
  if negb (audio_format_tag f =? wav_format_pcm) && negb (audio_format_tag f =? wav_format_float)
  then Throw (invalid_format "unsupported WAV format; only PCM and IEEE float are supported")
  else if (channels f <? 1) || (max_supported_channels <? channels f) then Throw (invalid_format "unsupported channel count")
  else if (sample_rate f <? 1) || (max_sample_rate <? sample_rate f) then Throw (invalid_format "unsupported sample rate")
  else if (audio_format_tag f =? wav_format_float) && negb (bits_per_sample f =? 32)
  then Throw (invalid_format "IEEE float WAV must be 32 bits per sample")
  else if negb (audio_format_tag f =? wav_format_float) && negb (bits_per_sample f =? 8) && negb (bits_per_sample f =? 16) &&
          negb (bits_per_sample f =? 24)
  then Throw (invalid_format "only 8, 16 or 24 bit PCM is supported")
  else if (frame_size f =? 0) || negb (data_size mod frame_size f =? 0)
  then Throw (invalid_format "WAV data size is not a multiple of the frame size")
  else Ok tt.

Abbreviation loading A := (sexn (wav * istream) wav_exn A).

Definition do_read (size : Z) : loading octets := fun '(w, s) => let '(buf, s') := read size s in (Ok buf, (w, s')).
Definition on_wav (f : wav -> wav) : loading unit := fun '(w, s) => (Ok tt, (f w, s)).
Definition lift {A} (r : result wav_exn A) : loading A := fun st => (r, st).
Definition the_stream : loading istream := fun '(w, s) => (Ok s, (w, s)).

Section load.
Context (seeks_past_end : bool).

(** [seekg(n, cur)]; a stream that is not good stays where it is. *)
Definition seek (n : Z) : loading unit := fun '(w, s) =>
  (Ok tt, (w, if is_good s then
                if (is_pos s + n <=? zlen (is_data s)) || seeks_past_end
                then IStream (is_data s) (is_pos s + n) true (is_gcount s)
                else IStream (is_data s) (is_pos s) false (is_gcount s)
              else s)).

Definition load_format_chunk (size : Z) : loading unit :=
  if size <? riff_fmt_data_size then throw (invalid_format "truncated fmt chunk")
  else if max_fmt_chunk_size <? size then throw (invalid_format "fmt chunk size out of bounds")
  else
    buf ← do_read size;
    if negb (zlen buf =? size) then throw (invalid_format "truncated fmt chunk")
    else fmt ← lift (parsed riff_fmt_data_read buf); on_wav (set_format (Some fmt)).

Definition load_data_chunk (size : Z) : loading unit :=
  if max_data_chunk_size <? size then throw (invalid_format "data chunk size out of bounds")
  else
    buf ← do_read size;
    on_wav (set_data buf) ;;
    if negb (zlen buf =? size) then throw (invalid_format "invalid data chunk; size does not match") else mret tt.

(** The chunk after its header, and the octet that pads it. *)
Definition load_body (h : chunk_header) : loading unit :=
  (if bool_decide (ck_id h = fmt_tag) then load_format_chunk (ck_size h)
   else if bool_decide (ck_id h = data_tag) then load_data_chunk (ck_size h)
   else seek (ck_size h)) ;;
  if negb (ck_size h mod 2 =? 0) then seek 1 else mret tt.

Definition load_chunk : loading unit :=
  buf ← do_read chunk_header_size;
  s ← the_stream;
  if (zlen buf =? 0) && negb (is_gcount s =? 0) then throw (invalid_format "truncated chunk header")
  else if negb (zlen buf =? 0) then
    h ← lift (parsed chunk_header_read buf);
    load_body h
  else mret tt.

(** [for(;in;)]; [None]: more than [fuel] chunks. *)
Fixpoint load_chunks (fuel : nat) (st : wav * istream) : option (result wav_exn unit * (wav * istream)) :=
  if is_good (snd st) then
    match fuel with
    | O => None
    | S fuel => match load_chunk st with
                | (Ok _, st') => load_chunks fuel st'
                | (Throw e, st') => Some (Throw e, st')
                end
    end
  else Some (Ok tt, st).

Definition read_header : loading unit :=
  buf ← do_read riff_header_size;
  if negb (zlen buf =? riff_header_size) then throw (invalid_format "truncated RIFF header")
  else
    h ← lift (parsed riff_header_read buf);
    on_wav (set_header h) ;;
    if negb (bool_decide (ck_id (rh_header h) = riff_tag)) then throw (invalid_format "not a RIFF file")
    else if negb (bool_decide (rh_format h = wave_tag)) then throw (invalid_format "not a RIFF WAVE file")
    else mret tt.

Definition load_start : loading unit := on_wav (set_data []) ;; read_header.

Definition load_finish (w : wav) : result wav_exn unit :=
  match wv_format w with
  | None => Throw (invalid_format "format chunk not found")
  | Some f => if zlen (wv_data w) =? 0 then Throw (invalid_format "data chunk not found")
              else validate_wav_format f (zlen (wv_data w))
  end.

(** A chunk that leaves the stream good has eight octets at least. *)
Definition load (data : octets) (w : wav) : option (result wav_exn unit * wav) :=
  match load_start (w, open_stream data) with
  | (Throw e, (w', _)) => Some (Throw e, w')
  | (Ok _, st) =>
      match load_chunks (S (length data)) st with
      | None => None
      | Some (Throw e, (w', _)) => Some (Throw e, w')
      | Some (Ok _, (w', _)) => Some (load_finish w', w')
      end
  end.
End load.

(** ** Formats *)

Inductive sample_type : Type := char_t | uchar_t | short_t | float_t | int24_t.

#[export] Instance sample_type_eq_dec : EqDecision sample_type.
Proof. solve_decision. Defined.

Record audio_format : Type := AudioFormat {
  af_type : sample_type;
  af_channels : Z;
  af_bits_per_sample : Z;
  af_samples_per_second : Z;
  af_endian : endian
}.

Definition wav_format (w : wav) : result wav_exn audio_format :=
  match wv_format w with
  | None => Throw (invalid_format "format chunk not found")
  | Some f =>
      Ok (AudioFormat
        (if audio_format_tag f =? 3 then float_t else if bits_per_sample f =? 8 then uchar_t
         else if bits_per_sample f =? 24 then int24_t else short_t)
        (channels f) (bits_per_sample f) (sample_rate f) little)
  end.

(** The fields [save] fills in, in the widths of the file. *)
Definition fmt_of (f : audio_format) : riff_fmt_data :=
  RiffFmtData (if decide (af_type f = float_t) then 3 else 1) (wrap 16 (af_channels f)) (wrap 32 (af_samples_per_second f))
    (wrap 32 (wrap 32 (af_samples_per_second f * af_channels f) * af_bits_per_sample f) / 8)
    (wrap 16 (wrap 32 (af_channels f * af_bits_per_sample f) / 8)) (wrap 16 (af_bits_per_sample f)).

(** [out]: the octets written to it. *)
Definition save (f : audio_format) (w : wav) : result wav_exn octets :=
  match af_endian f with
  | big => Throw (invalid_format "unsupported endian type")
  | little =>
      match af_type f with
      | char_t | int24_t => Throw (invalid_format "wav only supports uchar_t, short_t and float_t sample types")
      | _ =>
          let n := riff_header_size + riff_fmt_size + riff_data_size + zlen (wv_data w) in
          match (put_subtype (riff_header_write (new_riff_header (riff_fmt_size + riff_data_size + zlen (wv_data w)))) ;;
                 put_subtype (riff_fmt_write (fmt_of f)) ;;
                 put_subtype (riff_data_write (wv_data w))) (new_export (repeat 0 (Z.to_nat n)) n) with
          | (Ok _, e) => Ok (ex_buf e)
          | (Throw x, _) => Throw (range_error x)
          end
      end
  end.

(** ** Writers and readers of known octets *)

Definition writes (w : writer) (bs : octets) : Prop := forall pre old post, zlen old = zlen bs ->
  w (EndianExport (pre ++ old ++ post) (zlen (pre ++ old ++ post)) (zlen pre)) =
  (Ok tt, EndianExport (pre ++ bs ++ post) (zlen (pre ++ old ++ post)) (zlen pre + zlen bs)).

Definition reads {A} (r : reader A) (bs : octets) (a : A) : Prop := forall pre post,
  r (EndianImport (pre ++ bs ++ post) (zlen (pre ++ bs ++ post)) (zlen pre)) =
  (Ok a, EndianImport (pre ++ bs ++ post) (zlen (pre ++ bs ++ post)) (zlen pre + zlen bs)).

Lemma exports_put t v : writes (put little t v) (to_endian little t v).
Proof.
  intros pre old post E. pose proof (zlen_nonneg post). rewrite put_ok by (cbn; rewrite zlen_to_endian in E; rewrite !zlen_app; lia).
  cbn [ex_buf ex_pos ex_size]. rewrite <- (zlen_to_endian little t v). f_equal. f_equal. unfold write_at. rewrite ztake_app. f_equal. f_equal.
  by rewrite <- E, <- zlen_app, app_assoc, zdrop_app.
Qed.

Lemma exports_nil : writes (mret tt) [].
Proof. intros pre old post E. apply zlen_zero in E as ->. cbn. by rewrite Z.add_0_r. Qed.

Lemma exports_then w1 w2 b1 b2 : writes w1 b1 -> writes w2 b2 -> writes (w1 ;; w2) (b1 ++ b2).
Proof.
  intros H1 H2 pre old post E. rewrite zlen_app in E. pose proof (zlen_nonneg b1). pose proof (zlen_nonneg b2).
  rewrite <- (ztake_zdrop (zlen b1) old), <- !app_assoc.
  assert (zlen (ztake (zlen b1) old) = zlen b1) as E1 by (apply zlen_ztake; lia).
  assert (zlen (zdrop (zlen b1) old) = zlen b2) as E2 by (rewrite zlen_zdrop; lia).
  rewrite (bind_ok _ _ _ _ _ (H1 pre _ (zdrop (zlen b1) old ++ post) E1)). specialize (H2 (pre ++ b1) _ post E2).
  rewrite <- !app_assoc, !zlen_app in H2. rewrite !zlen_app in *. rewrite E1.
  replace (zlen pre + (zlen b1 + (zlen (zdrop (zlen b1) old) + zlen post))) with
    (zlen pre + (zlen b1 + (zlen (zdrop (zlen b1) old) + zlen post))) by lia.
  rewrite H2. f_equal. f_equal; lia.
Qed.

Lemma exports_subtype w bs : writes w bs -> writes (put_subtype w) bs.
Proof.
  intros H pre old post E. unfold put_subtype, new_export. cbn [ex_buf ex_pos ex_size].
  rewrite zdrop_app, ztake_app. specialize (H [] old post E). cbn in H. change (zlen []) with 0 in H.
  replace (zlen (pre ++ old ++ post) - zlen pre) with (zlen (old ++ post)) by (rewrite (zlen_app pre); lia).
  rewrite H. by cbn.
Qed.

(** An octet is itself in any order. *)
Lemma octet_to_endian b : is_octet b -> to_endian little u8 b = [b].
Proof.
  unfold is_octet, to_endian. intros Hb. cbn. unfold wrap. change (2 ^ it_bits u8) with 256. rewrite Z.mod_small by lia.
  by rewrite land_255, Z.mod_small.
Qed.

Lemma octet_from_endian b : is_octet b -> from_endian little u8 [b] = b.
Proof. intros Hb. rewrite <- (octet_to_endian b Hb). apply from_to_endian; [cbn; lia|]. exact Hb. Qed.

Lemma exports_octets l : Forall is_octet l -> writes (put_array little u8 l) l.
Proof.
  induction 1 as [|b l Hb Hl IH]; [apply exports_nil|]. cbn [put_array]. change (b :: l) with ([b] ++ l).
  apply exports_then; [|done]. rewrite <- (octet_to_endian b Hb). apply exports_put.
Qed.

Lemma imports_get t v : (0 < it_size t)%nat -> in_range t v -> reads (get little t) (to_endian little t v) v.
Proof.
  intros Ht Hv pre post. unfold get. cbn [im_buf im_pos im_size]. pose proof (zlen_nonneg post).
  rewrite (proj2 (Z.ltb_ge _ _)) by (rewrite !zlen_app, zlen_to_endian; lia). rewrite zdrop_app.
  rewrite <- (zlen_to_endian little t v), ztake_app. by rewrite from_to_endian.
Qed.

Lemma imports_ret {A} (a : A) : reads (mret a) [] a.
Proof. intros pre post. cbn. by rewrite Z.add_0_r. Qed.

Lemma imports_bind {A B} (r : reader A) (k : A -> reader B) b1 b2 a v : reads r b1 a -> reads (k a) b2 v -> reads (x ← r; k x) (b1 ++ b2) v.
Proof.
  intros H1 H2 pre post. rewrite <- !app_assoc. rewrite (bind_ok _ _ _ _ _ (H1 pre (b2 ++ post))). specialize (H2 (pre ++ b1) post).
  rewrite <- !app_assoc, (zlen_app pre b1) in H2. rewrite H2. f_equal. f_equal. rewrite (zlen_app b1). lia.
Qed.

Lemma imports_subtype {A} (r : reader A) bs a : reads r bs a -> reads (get_subtype r) bs a.
Proof.
  intros H pre post. unfold get_subtype, new_import. cbn [im_buf im_pos im_size]. rewrite zdrop_app.
  replace (zlen (pre ++ bs ++ post) - zlen pre) with (zlen (bs ++ post)) by (rewrite (zlen_app pre); lia).
  specialize (H [] post). cbn in H. change (zlen []) with 0 in H. by rewrite H.
Qed.

Lemma imports_octets l : Forall is_octet l -> reads (get_array little u8 (length l)) l l.
Proof.
  induction 1 as [|b l Hb Hl IH]; [apply imports_ret|]. cbn [get_array length]. change (b :: l) with ([b] ++ l) at 1.
  apply (imports_bind _ _ [b] l b); [rewrite <- (octet_to_endian b Hb) at 1; apply imports_get; [cbn; lia|exact Hb]|].
  rewrite <- (app_nil_r l) at 2. by eapply imports_bind; [apply IH|apply imports_ret].
Qed.

Lemma parsed_ok {A} (r : reader A) bs a : reads r bs a -> parsed r bs = Ok a.
Proof.
  intros H. unfold parsed, new_import. specialize (H [] []). rewrite app_nil_r in H. cbn in H. change (zlen []) with 0 in H. by rewrite H.
Qed.

(** ** The octets of the structures *)

Definition chunk_octets (h : chunk_header) : octets := ck_id h ++ to_endian little u32 (ck_size h).
Definition fmt_octets (d : riff_fmt_data) : octets :=
  to_endian little u16 (audio_format_tag d) ++ to_endian little u16 (channels d) ++ to_endian little u32 (sample_rate d) ++
  to_endian little u32 (byte_rate d) ++ to_endian little u16 (block_align d) ++ to_endian little u16 (bits_per_sample d).

Definition chunk_ok (h : chunk_header) : Prop := Forall is_octet (ck_id h) /\ length (ck_id h) = 4%nat /\ 0 <= ck_size h < 2 ^ 32.
Definition fmt_ok (d : riff_fmt_data) : Prop :=
  in_range u16 (audio_format_tag d) /\ in_range u16 (channels d) /\ in_range u32 (sample_rate d) /\ in_range u32 (byte_rate d) /\
  in_range u16 (block_align d) /\ in_range u16 (bits_per_sample d).

Lemma chunk_writes h : chunk_ok h -> writes (chunk_header_write h) (chunk_octets h).
Proof. intros (Hi & _ & _). apply exports_then; [by apply exports_octets|apply exports_put]. Qed.

Lemma chunk_reads h : chunk_ok h -> reads chunk_header_read (chunk_octets h) h.
Proof.
  intros (Hi & Hl & Hs). unfold chunk_header_read, chunk_octets. rewrite <- Hl.
  eapply imports_bind; [by apply imports_octets|]. rewrite <- (app_nil_r (to_endian _ _ _)).
  eapply imports_bind; [apply imports_get; [cbn; lia|exact Hs]|]. destruct h. apply imports_ret.
Qed.

Lemma fmt_writes d : writes (riff_fmt_data_write d) (fmt_octets d).
Proof. repeat (apply exports_then; [apply exports_put|]). apply exports_put. Qed.

Lemma fmt_reads d : fmt_ok d -> reads riff_fmt_data_read (fmt_octets d) d.
Proof.
  intros (H1 & H2 & H3 & H4 & H5 & H6). unfold riff_fmt_data_read, fmt_octets. rewrite <- (app_nil_r (to_endian _ _ (bits_per_sample d))).
  repeat (eapply imports_bind; [apply imports_get; [cbn; lia|done]|]). destruct d. apply imports_ret.
Qed.

Definition riff_octets (h : riff_header) : octets := chunk_octets (rh_header h) ++ rh_format h.

Lemma riff_writes h : chunk_ok (rh_header h) -> Forall is_octet (rh_format h) -> writes (riff_header_write h) (riff_octets h).
Proof. intros Hh Hf. apply exports_then; [by apply exports_subtype, chunk_writes|by apply exports_octets]. Qed.

Lemma riff_reads h : chunk_ok (rh_header h) -> Forall is_octet (rh_format h) -> length (rh_format h) = 4%nat ->
  reads riff_header_read (riff_octets h) h.
Proof.
  intros Hh Hf Hl. unfold riff_header_read, riff_octets. eapply imports_bind; [by apply imports_subtype, chunk_reads|].
  rewrite <- Hl. rewrite <- (app_nil_r (rh_format h)) at 2. eapply imports_bind; [by apply imports_octets|]. destruct h. apply imports_ret.
Qed.

(** ** [save] *)

Definition data_chunk_octets (data : octets) : octets := chunk_octets (ChunkHeader data_tag (wrap 32 (zlen data))) ++ data.
Definition fmt_chunk_octets (d : riff_fmt_data) : octets := chunk_octets (ChunkHeader fmt_tag 16) ++ fmt_octets d.

(** The file that [save] writes. *)
Definition file_octets (d : riff_fmt_data) (data : octets) : octets :=
  riff_octets (new_riff_header (riff_fmt_size + riff_data_size + zlen data)) ++ fmt_chunk_octets d ++ data_chunk_octets data.

Lemma tag_octets t : t ∈ [riff_tag; wave_tag; fmt_tag; data_tag] -> Forall is_octet t /\ length t = 4%nat.
Proof.
  rewrite !elem_of_cons, elem_of_nil. intros [->|[->|[->|[->|[]]]]]; (split; [|reflexivity]); repeat constructor; ground.
Qed.

Lemma chunk_tag_ok t n : t ∈ [riff_tag; wave_tag; fmt_tag; data_tag] -> 0 <= n < 2 ^ 32 -> chunk_ok (ChunkHeader t n).
Proof. intros Ht Hn. destruct (tag_octets t Ht). unfold chunk_ok. auto. Qed.

Lemma wrap32_bound n : 0 <= wrap 32 n < 2 ^ 32.
Proof. apply Z.mod_pos_bound. lia. Qed.

Ltac tag := rewrite !elem_of_cons; tauto.

Lemma riff_ok n : chunk_ok (rh_header (new_riff_header n)) /\ Forall is_octet (rh_format (new_riff_header n)) /\ length (rh_format (new_riff_header n)) = 4%nat.
Proof. split; [apply chunk_tag_ok; [tag|apply wrap32_bound]|apply (tag_octets wave_tag); tag]. Qed.

Lemma zlen_chunk h : length (ck_id h) = 4%nat -> zlen (chunk_octets h) = 8.
Proof. intros Hl. unfold chunk_octets. rewrite zlen_app, zlen_to_endian. unfold zlen. rewrite Hl. done. Qed.

Lemma zlen_fmt d : zlen (fmt_octets d) = 16.
Proof. unfold fmt_octets. by rewrite !zlen_app, !zlen_to_endian. Qed.

Lemma zlen_file d data : zlen (file_octets d data) = riff_header_size + riff_fmt_size + riff_data_size + zlen data.
Proof.
  unfold file_octets, fmt_chunk_octets, data_chunk_octets, riff_octets. rewrite !zlen_app, !zlen_chunk, zlen_fmt by done.
  change (zlen (rh_format _)) with 4. unfold riff_header_size, riff_fmt_size, riff_data_size, riff_fmt_data_size, chunk_header_size. lia.
Qed.

Lemma file_writes d data : Forall is_octet data ->
  writes (put_subtype (riff_header_write (new_riff_header (riff_fmt_size + riff_data_size + zlen data))) ;;
          put_subtype (riff_fmt_write d) ;; put_subtype (riff_data_write data)) (file_octets d data).
Proof.
  intros Hd. destruct (riff_ok (riff_fmt_size + riff_data_size + zlen data)) as (H1 & H2 & _).
  apply exports_then; [by apply exports_subtype, riff_writes|].
  apply exports_then; apply exports_subtype; apply exports_then.
  - apply exports_subtype, chunk_writes, chunk_tag_ok; [tag|done].
  - apply exports_subtype, fmt_writes.
  - apply exports_subtype, chunk_writes, chunk_tag_ok; [tag|apply wrap32_bound].
  - by apply exports_octets.
Qed.

Definition writable (f : audio_format) : Prop := af_endian f = little /\ af_type f ∈ [uchar_t; short_t; float_t].

Lemma save_ok f w : writable f -> Forall is_octet (wv_data w) -> save f w = Ok (file_octets (fmt_of f) (wv_data w)).
Proof.
  intros [He Ht] Hd. unfold save. rewrite He. set (n := riff_header_size + riff_fmt_size + riff_data_size + zlen (wv_data w)).
  assert (0 <= n) as Hn by (unfold n, riff_header_size, riff_fmt_size, riff_data_size, riff_fmt_data_size, chunk_header_size;
    pose proof (zlen_nonneg (wv_data w)); lia).
  pose proof (file_writes (fmt_of f) (wv_data w) Hd [] (repeat 0 (Z.to_nat n)) []) as E.
  assert (zlen (repeat 0 (Z.to_nat n)) = n) as Hr by (rewrite zlen_repeat; lia).
  rewrite zlen_file, Hr in E. specialize (E eq_refl). rewrite !app_nil_r in E. cbn [app] in E. rewrite Hr in E. change (zlen []) with 0 in E.
  unfold new_export. rewrite E. rewrite !elem_of_cons, elem_of_nil in Ht. by destruct Ht as [->|[->|[->|[]]]].
Qed.

(** ** The stream *)

(** A good stream with these octets before it. *)
Definition at_rest (s : istream) (rest : octets) : Prop := is_good s = true /\ 0 <= is_pos s /\ is_rest s = rest.

Lemma read_some s bs rest : at_rest s (bs ++ rest) -> exists s', read (zlen bs) s = (bs, s') /\ at_rest s' rest /\ is_data s' = is_data s /\
  is_gcount s' = zlen bs /\ is_pos s' = is_pos s + zlen bs.
Proof.
  intros (Hg & Hp & Hr). unfold read. rewrite Hg, Hr, zlen_app. pose proof (zlen_nonneg rest). pose proof (zlen_nonneg bs).
  rewrite (proj2 (Z.leb_le _ _)) by lia. rewrite ztake_app. eexists. split; [reflexivity|]. split_and!; try done.
  split_and!; cbn; [done|lia|]. unfold is_rest in *. cbn. by rewrite <- zdrop_zdrop, Hr, zdrop_app by lia.
Qed.

Lemma read_past_end s rest n : at_rest s rest -> zlen rest < n ->
  read n s = ([], IStream (is_data s) (is_pos s + zlen rest) false (zlen rest)).
Proof. intros (Hg & Hp & Hr) Hn. unfold read. rewrite Hg, Hr. by rewrite (proj2 (Z.leb_gt _ _)) by lia. Qed.

Section loading.
Context (seeks_past_end : bool).
#[local] Arguments parsed : simpl never.
#[local] Arguments read : simpl never.
#[local] Arguments chunk_header_read : simpl never.
#[local] Arguments riff_header_read : simpl never.
#[local] Arguments riff_fmt_data_read : simpl never.
#[local] Arguments load_body : simpl never.
#[local] Arguments fmt_octets : simpl never.
#[local] Arguments chunk_octets : simpl never.
#[local] Arguments riff_octets : simpl never.

#[local] Abbreviation load_body := (load_body seeks_past_end).
#[local] Abbreviation load_chunk := (load_chunk seeks_past_end).
#[local] Abbreviation load_chunks := (load_chunks seeks_past_end).
#[local] Abbreviation load := (load seeks_past_end).

Lemma do_read_some w s bs rest : at_rest s (bs ++ rest) -> exists s', do_read (zlen bs) (w, s) = (Ok bs, (w, s')) /\ at_rest s' rest /\
  is_gcount s' = zlen bs.
Proof. intros Hs. destruct (read_some s bs rest Hs) as (s' & E & Hr & _ & Hg & _). exists s'. cbn. by rewrite E. Qed.

Lemma load_chunk_at w s h rest : chunk_ok h -> at_rest s (chunk_octets h ++ rest) ->
  exists s1, at_rest s1 rest /\ load_chunk (w, s) = load_body h (w, s1).
Proof.
  intros Hh Hs. destruct (do_read_some w s (chunk_octets h) rest Hs) as (s1 & E & H1 & Hg). exists s1. split; [done|].
  pose proof (zlen_chunk h (proj1 (proj2 Hh))) as Hz. rewrite Hz in *. unfold Wav.load_chunk. change chunk_header_size with 8.
  rewrite (bind_ok _ _ _ _ _ E). unfold the_stream, mbind, sexn_bind. rewrite Hg, Hz. cbn. unfold lift.
  by rewrite (parsed_ok _ _ h (chunk_reads h Hh)).
Qed.

Lemma load_fmt w s d rest : fmt_ok d -> at_rest s (fmt_octets d ++ rest) ->
  exists s1, at_rest s1 rest /\ load_body (ChunkHeader fmt_tag 16) (w, s) = (Ok tt, (set_format (Some d) w, s1)).
Proof.
  intros Hd Hs. destruct (do_read_some w s (fmt_octets d) rest Hs) as (s1 & E & H1 & Hg). exists s1. split; [done|].
  pose proof (zlen_fmt d) as Hz. rewrite Hz in *. unfold Wav.load_body, load_format_chunk. cbn [ck_id ck_size].
  rewrite bool_decide_eq_true_2 by done. change (16 <? riff_fmt_data_size) with false. change (max_fmt_chunk_size <? 16) with false. cbn iota.
  unfold mbind, sexn_bind. unfold do_read in *. destruct (read 16 s) as [buf s']. injection E as -> ->. rewrite Hz. cbn.
  unfold lift. by rewrite (parsed_ok _ _ d (fmt_reads d Hd)).
Qed.

Lemma load_data w s data rest : zlen data <= max_data_chunk_size -> at_rest s (data ++ rest) -> exists s1,
  load_body (ChunkHeader data_tag (zlen data)) (w, s) = (Ok tt, (set_data data w, s1)) /\ (rest = [] -> at_rest s1 [] \/ is_good s1 = false).
Proof.
  intros Hm Hs. destruct (do_read_some w s data rest Hs) as (s1 & E & H1 & Hg).
  unfold Wav.load_body, load_data_chunk. cbn [ck_id ck_size]. rewrite bool_decide_eq_false_2, bool_decide_eq_true_2 by done.
  rewrite (proj2 (Z.ltb_ge _ _)) by lia. unfold mbind, sexn_bind. unfold do_read in *. destruct (read (zlen data) s) as [buf s'].
  injection E as -> ->. cbn. rewrite Z.eqb_refl. cbn. destruct (negb (zlen data mod 2 =? 0)); [|eexists; split; [reflexivity|intros ->; by left]].
  unfold seek. eexists. split; [reflexivity|]. intros ->. destruct H1 as (-> & Hp & Hr). destruct (_ || _); [left|by right].
  split_and!; cbn; [done|lia|]. unfold is_rest in *. cbn. by rewrite <- zdrop_zdrop, Hr by lia.
Qed.

Lemma load_chunks_end fuel w s : at_rest s [] \/ is_good s = false -> exists s', load_chunks (S fuel) (w, s) = Some (Ok tt, (w, s')).
Proof.
  intros [Hs|Hs]; cbn [Wav.load_chunks snd]; [|rewrite Hs; eauto]. rewrite (proj1 Hs). unfold Wav.load_chunk, mbind, sexn_bind, do_read.
  rewrite (read_past_end s [] chunk_header_size Hs) by done. cbn. destruct fuel; cbn; eauto.
Qed.

Lemma load_chunks_next k w s st : at_rest s (is_rest s) -> load_chunk (w, s) = (Ok tt, st) -> load_chunks (S k) (w, s) = load_chunks k st.
Proof. intros [Hg _] E. cbn [Wav.load_chunks snd]. by rewrite Hg, E. Qed.

Lemma at_rest_here s rest : at_rest s rest -> at_rest s (is_rest s).
Proof. by intros (? & ? & _). Qed.

(** What [save] wrote is loaded. *)
Lemma load_file w d data : fmt_ok d -> 0 < zlen data <= max_data_chunk_size -> Forall is_octet data ->
  exists h, load (file_octets d data) w = Some (validate_wav_format d (zlen data), Wav data h (Some d)).
Proof.
  intros Hd [H0 Hm] Hdata. set (r := new_riff_header (riff_fmt_size + riff_data_size + zlen data)). exists r.
  assert (wrap 32 (zlen data) = zlen data) as Hw by (apply Z.mod_small; unfold max_data_chunk_size in Hm; lia).
  assert (at_rest (open_stream (file_octets d data)) (riff_octets r ++ fmt_chunk_octets d ++ data_chunk_octets data)) as Hs by done.
  destruct (riff_ok (riff_fmt_size + riff_data_size + zlen data)) as (R1 & R2 & R3). fold r in R1, R2, R3.
  destruct (do_read_some (set_data [] w) _ _ _ Hs) as (s1 & E1 & H1 & _).
  assert (zlen (riff_octets r) = 12) as Hz by (unfold riff_octets; rewrite zlen_app, zlen_chunk by done; done).
  assert (load_start (w, open_stream (file_octets d data)) = (Ok tt, (set_header r (set_data [] w), s1))) as Estart.
  { unfold load_start, read_header, mbind, sexn_bind. cbn [on_wav]. change riff_header_size with 12. rewrite <- Hz at 1. rewrite E1, Hz.
    cbn. unfold lift. by rewrite (parsed_ok _ _ r (riff_reads r R1 R2 R3)). }
  unfold Wav.load. rewrite Estart. destruct (length (file_octets d data)) as [|[|n]] eqn:El.
  1, 2: pose proof (zlen_file d data) as Hf; unfold zlen in Hf at 1; rewrite El in Hf;
    unfold riff_header_size, riff_fmt_size, riff_data_size, riff_fmt_data_size, chunk_header_size in Hf; lia.
  unfold fmt_chunk_octets in H1. rewrite <- app_assoc in H1.
  assert (chunk_ok (ChunkHeader fmt_tag 16)) as Hc1 by (apply chunk_tag_ok; [tag|done]).
  assert (chunk_ok (ChunkHeader data_tag (zlen data))) as Hc2 by (apply chunk_tag_ok; [tag|unfold max_data_chunk_size in Hm; lia]).
  destruct (load_chunk_at (set_header r (set_data [] w)) s1 _ _ Hc1 H1) as (s2 & H2 & E2).
  destruct (load_fmt (set_header r (set_data [] w)) s2 d _ Hd H2) as (s3 & H3 & E3). rewrite E3 in E2.
  unfold data_chunk_octets in H3. rewrite Hw in H3.
  destruct (load_chunk_at (set_format (Some d) (set_header r (set_data [] w))) s3 _ _ Hc2 H3) as (s4 & H4 & E4).
  rewrite <- (app_nil_r data) in H4 at 1.
  destruct (load_data (set_format (Some d) (set_header r (set_data [] w))) s4 data [] Hm H4) as (s5 & E5 & H5). rewrite E5 in E4.
  rewrite (load_chunks_next _ _ _ _ (at_rest_here _ _ H1) E2), (load_chunks_next _ _ _ _ (at_rest_here _ _ H3) E4).
  destruct (load_chunks_end n (set_data data (set_format (Some d) (set_header r (set_data [] w)))) s5 (H5 eq_refl)) as (s6 & ->).
  unfold load_finish. cbn [wv_format wv_data set_data set_format set_header]. by rewrite (proj2 (Z.eqb_neq _ 0)) by lia.
Qed.

(** ** What a load does to the stream and the data *)

(** The data are a part of the file, within the limit. *)
Definition from_file (file data : octets) : Prop :=
  zlen data <= max_data_chunk_size /\ exists pre post, file = pre ++ data ++ post.

(** The stream goes forward in the same file. *)
Definition onward (st st' : wav * istream) : Prop :=
  is_data (snd st') = is_data (snd st) /\ is_pos (snd st) <= is_pos (snd st') /\ (is_good (snd st') = true -> is_good (snd st) = true) /\
  (from_file (is_data (snd st)) (wv_data (fst st)) -> from_file (is_data (snd st)) (wv_data (fst st'))).

Definition goes_forward {A} (m : loading A) : Prop := forall st, 0 <= is_pos (snd st) -> onward st (snd (m st)).

Lemma onward_refl st : onward st st.
Proof. by split_and!. Qed.

Lemma onward_trans st1 st2 st3 : onward st1 st2 -> onward st2 st3 -> onward st1 st3.
Proof.
  intros (E1 & P1 & G1 & F1) (E2 & P2 & G2 & F2). rewrite E1 in *. split_and!; [congruence|lia|auto|auto].
Qed.

Lemma forward_bind {A B} (m : loading A) (k : A -> loading B) : goes_forward m -> (forall a, goes_forward (k a)) -> goes_forward (x ← m; k x).
Proof.
  intros Hm Hk st Hp. specialize (Hm st Hp). unfold mbind, sexn_bind. destruct (m st) as [[a|e] st1]; [|done]. cbn in Hm.
  eapply onward_trans; [exact Hm|]. apply Hk. destruct Hm as (_ & ? & _). lia.
Qed.

(** ... knowing what the first part gave. *)
Lemma forward_bind_lift {A B} (r : result wav_exn A) (k : A -> loading B) : (forall a, r = Ok a -> goes_forward (k a)) -> goes_forward (x ← lift r; k x).
Proof. intros Hk st Hp. unfold mbind, sexn_bind, lift. destruct r as [a|e]; [by apply Hk|apply onward_refl]. Qed.

Lemma forward_throw {A} e : goes_forward (throw e : loading A).
Proof. intros st _. apply onward_refl. Qed.

Lemma forward_ret {A} (a : A) : goes_forward (mret a).
Proof. intros st _. apply onward_refl. Qed.

Lemma forward_on_wav f : (forall w, wv_data (f w) = wv_data w) -> goes_forward (on_wav f).
Proof. intros Hf [w s] _. split_and!; cbn; try done. by rewrite Hf. Qed.

Lemma forward_stream : goes_forward the_stream.
Proof. intros [w s] _. apply onward_refl. Qed.

Lemma read_onward n s : 0 <= n -> 0 <= is_pos s ->
  is_data (snd (read n s)) = is_data s /\ is_pos s <= is_pos (snd (read n s)) /\ (is_good (snd (read n s)) = true -> is_good s = true).
Proof.
  intros Hn Hp. unfold read. pose proof (zlen_nonneg (is_rest s)). destruct (is_good s); [|cbn; split_and!; (done || lia)].
  case_match; cbn; split_and!; (done || lia).
Qed.

Lemma forward_read n : 0 <= n -> goes_forward (do_read n).
Proof.
  intros Hn [w s] Hp. cbn in Hp. destruct (read_onward n s Hn Hp) as (E & P & G). unfold do_read. destruct (read n s) as [buf s']. by split_and!.
Qed.

Lemma forward_seek n : 0 <= n -> goes_forward (seek seeks_past_end n).
Proof.
  intros Hn [w s] Hp. unfold seek. destruct (is_good s) eqn:Eg; [|apply onward_refl].
  destruct (_ || _); split_and!; cbn; (done || lia).
Qed.

Lemma parsed_chunk_size buf h : parsed chunk_header_read buf = Ok h -> 0 <= ck_size h.
Proof.
  unfold parsed, chunk_header_read. unfold mbind, sexn_bind. destruct (get_array _ _ _ _) as [[i|e] s1]; [|done].
  unfold get. destruct (im_size s1 <? _); [done|]. cbn -[from_endian]. intros [= <-]. cbn [ck_size]. unfold from_endian, cast. cbn [it_signed u32].
  unfold wrap. by apply Z.mod_pos_bound.
Qed.

Lemma forward_format_chunk n : 0 <= n -> goes_forward (load_format_chunk n).
Proof.
  intros Hn. unfold load_format_chunk. case_match; [apply forward_throw|]. case_match; [apply forward_throw|].
  apply forward_bind; [by apply forward_read|]. intros buf. case_match; [apply forward_throw|].
  apply forward_bind_lift. intros f _. by apply forward_on_wav.
Qed.

Lemma from_file_empty file : from_file file [].
Proof. split; [done|]. by exists [], file. Qed.

Lemma from_file_read n s : 0 <= n <= max_data_chunk_size -> 0 <= is_pos s -> from_file (is_data s) (fst (read n s)).
Proof.
  intros Hn Hp. unfold read. destruct (is_good s); [|apply from_file_empty].
  destruct (Z.leb_spec n (zlen (is_rest s))); [|apply from_file_empty]. cbn. split; [rewrite zlen_ztake; lia|].
  exists (ztake (is_pos s) (is_data s)), (zdrop n (is_rest s)). rewrite (ztake_zdrop n (is_rest s)). symmetry. apply ztake_zdrop.
Qed.

Lemma forward_data_chunk n : 0 <= n -> goes_forward (load_data_chunk n).
Proof.
  intros Hn. unfold load_data_chunk. destruct (Z.ltb_spec max_data_chunk_size n); [apply forward_throw|].
  intros [w s] Hp. cbn in Hp. destruct (read_onward n s Hn Hp) as (E & P & G). pose proof (from_file_read n s (conj Hn H) Hp) as Hf.
  unfold mbind, sexn_bind, do_read. destruct (read n s) as [buf s']. cbn in *. destruct (negb _); by split_and!.
Qed.

Lemma forward_body h : 0 <= ck_size h -> goes_forward (load_body h).
Proof.
  intros Hs. apply forward_bind.
  - case_match; [by apply forward_format_chunk|]. case_match; [by apply forward_data_chunk|by apply forward_seek].
  - intros []. case_match; [by apply forward_seek|apply forward_ret].
Qed.

Lemma forward_header : goes_forward read_header.
Proof.
  apply forward_bind; [by apply forward_read|]. intros buf. case_match; [apply forward_throw|].
  apply forward_bind_lift. intros h _. apply forward_bind; [by apply forward_on_wav|]. intros _.
  repeat (case_match; [apply forward_throw|]). apply forward_ret.
Qed.

Lemma read_good n s : is_good (snd (read n s)) = true -> 0 <= n ->
  n <= zlen (is_rest s) /\ is_pos (snd (read n s)) = is_pos s + n /\ zlen (fst (read n s)) = n.
Proof.
  unfold read. intros Hg Hn. destruct (is_good s); [|done]. destruct (Z.leb_spec n (zlen (is_rest s))); [|done].
  cbn. split_and!; [done|done|]. by apply zlen_ztake.
Qed.

Lemma rest_shrinks s s' : is_data s' = is_data s -> 0 <= is_pos s -> is_pos s + 8 <= is_pos s' -> 8 <= zlen (is_rest s) ->
  (length (is_rest s') < length (is_rest s))%nat.
Proof. unfold is_rest, zlen, zdrop. intros -> ? ?. rewrite !length_drop. lia. Qed.

(** A chunk after which the stream is good has moved it. *)
Lemma load_chunk_onward st : 0 <= is_pos (snd st) -> onward st (snd (load_chunk st)) /\
  (is_good (snd (snd (load_chunk st))) = true -> (length (is_rest (snd (snd (load_chunk st)))) < length (is_rest (snd st)))%nat).
Proof.
  destruct st as [w s]. cbn [snd]. intros Hp.
  pose proof (forward_read chunk_header_size ltac:(done) (w, s) Hp) as Hr. pose proof (read_good chunk_header_size s) as Hgood.
  assert (forall st', onward (w, snd (read chunk_header_size s)) st' ->
    onward (w, s) st' /\ (is_good (snd st') = true -> (length (is_rest (snd st')) < length (is_rest s))%nat)) as Hgo.
  { intros st' Ho. unfold do_read in Hr. destruct (read chunk_header_size s) as [buf s1]. cbn [snd fst] in *.
    split; [by eapply onward_trans|]. destruct Ho as (E1 & P1 & G1 & _), Hr as (E & P & G & _). cbn [snd] in *.
    intros Hg. destruct (Hgood (G1 Hg)) as (H1 & H2 & _); [done|]. unfold chunk_header_size in *. apply rest_shrinks; [congruence|lia..]. }
  destruct Hr as (_ & P & _). unfold Wav.load_chunk, mbind, sexn_bind, do_read, the_stream. unfold do_read in P.
  destruct (read chunk_header_size s) as [buf s1]. cbn [snd] in *.
  destruct (_ && _); [apply Hgo, onward_refl|]. destruct (negb (zlen buf =? 0)); [|apply Hgo, onward_refl].
  unfold lift. destruct (parsed chunk_header_read buf) as [h|e] eqn:Eh; [|apply Hgo, onward_refl].
  apply Hgo, forward_body; [by eapply parsed_chunk_size|cbn; lia].
Qed.

Lemma load_chunks_total fuel : forall st, 0 <= is_pos (snd st) -> (length (is_rest (snd st)) < fuel)%nat ->
  exists r st', load_chunks fuel st = Some (r, st') /\ onward st st'.
Proof.
  induction fuel as [|fuel IH]; intros st Hp Hf; [lia|]. cbn [Wav.load_chunks].
  destruct (is_good (snd st)) eqn:Eg; [|by exists (Ok tt), st; split; [|apply onward_refl]].
  destruct (load_chunk_onward st Hp) as [Ho Hs]. destruct (load_chunk st) as [[[]|e] st1]; cbn [snd] in *; [|by exists (Throw e), st1].
  pose proof Ho as (_ & P & _).
  destruct (is_good (snd st1)) eqn:Eg1.
  - destruct (IH st1) as (r & st2 & E2 & H2); [lia|specialize (Hs eq_refl); lia|]. exists r, st2. split; [done|by eapply onward_trans].
  - exists (Ok tt), st1. split; [|done]. destruct fuel; cbn [Wav.load_chunks]; by rewrite Eg1.
Qed.

(** A load ends, and what it leaves in [data_] is a part of the file. *)
Lemma load_total file w : exists r w', load file w = Some (r, w') /\
  (r = Ok tt -> from_file file (wv_data w') /\ load_finish w' = Ok tt).
Proof.
  unfold Wav.load. pose proof (forward_header (set_data [] w, open_stream file) ltac:(done)) as H0.
  change (load_start (w, open_stream file)) with (read_header (set_data [] w, open_stream file)).
  destruct (read_header (set_data [] w, open_stream file)) as [[[]|e] st1]; cbn [snd] in *; [|destruct st1; by exists (Throw e), w0].
  destruct H0 as (E & P & _ & Hf0). specialize (Hf0 (from_file_empty file)). cbn in E, P.
  destruct (load_chunks_total (S (length file)) st1) as (r & [w2 s2] & -> & (E2 & _ & _ & F2)); [done| |].
  { unfold is_rest, zdrop. rewrite E, length_drop. lia. }
  rewrite E in F2. specialize (F2 Hf0). destruct r as [[]|e]; [|by exists (Throw e), w2].
  exists (load_finish w2), w2. split; [done|]. by intros ->.
Qed.
End loading.

(** ** Properties *)

(** What the decoder of the frames relies on. *)
Definition decodable (f : riff_fmt_data) (data_size : Z) : Prop :=
  ((audio_format_tag f = wav_format_float /\ bits_per_sample f = 32) \/
   (audio_format_tag f = wav_format_pcm /\ bits_per_sample f ∈ [8; 16; 24])) /\
  1 <= channels f <= max_supported_channels /\ 1 <= sample_rate f <= max_sample_rate /\
  data_size mod (channels f * (bits_per_sample f / 8)) = 0.

Lemma validate_iff f n : validate_wav_format f n = Ok tt <-> decodable f n.
Proof.
  assert (1 <= channels f <= 16 -> bits_per_sample f ∈ [8; 16; 24; 32] -> frame_size f = channels f * (bits_per_sample f / 8) /\ 0 < frame_size f) as Hfs.
  { intros Hc Hb. assert (1 <= bits_per_sample f / 8 <= 4) as H8.
    { rewrite !elem_of_cons, elem_of_nil in Hb. destruct Hb as [->|[->|[->|[->|[]]]]]; by vm_compute. }
    unfold frame_size, wrap. rewrite Z.mod_small; nia. }
  unfold validate_wav_format, decodable, max_supported_channels, max_sample_rate, wav_format_pcm, wav_format_float.
  rewrite !elem_of_cons, !elem_of_nil in *. split.
  - repeat match goal with |- context [if ?b then _ else _] => destruct b eqn:? end; try done. intros _.
    destruct Hfs as [Ef Hf]; [lia|lia|]. rewrite <- Ef. lia.
  - intros Hd. destruct Hfs as [Ef Hf]; [lia|lia|]. rewrite <- Ef in Hd.
    repeat match goal with |- context [if ?b then _ else _] => replace b with false by lia end. done.
Qed.

(** A format [save] writes and the decoder reads, for data of this size. *)
Definition format_ok (f : audio_format) (data_size : Z) : Prop :=
  af_endian f = little /\
  (af_type f, af_bits_per_sample f) ∈ [(uchar_t, 8); (short_t, 16); (float_t, 32)] /\
  1 <= af_channels f <= max_supported_channels /\ 1 <= af_samples_per_second f <= max_sample_rate /\
  data_size mod (af_channels f * (af_bits_per_sample f / 8)) = 0.

Lemma eighth_range z : 0 <= wrap 32 z / 8 < 2 ^ 32.
Proof. pose proof (wrap32_bound z). split; [apply Z.div_pos|apply Z.div_lt_upper_bound]; lia. Qed.

Lemma fmt_of_ok f : fmt_ok (fmt_of f).
Proof.
  assert (forall z, in_range u16 (wrap 16 z)) as H16 by (intros z; apply Z.mod_pos_bound; done).
  split_and!; cbn [audio_format_tag channels sample_rate byte_rate block_align bits_per_sample fmt_of]; try apply H16.
  - by case_decide; ground.
  - apply wrap32_bound.
  - apply eighth_range.
Qed.

(** The kinds of samples of [fmt_of]. *)
Lemma fmt_of_bits f n : format_ok f n -> wrap 16 (af_bits_per_sample f) = af_bits_per_sample f /\
  wrap 16 (af_channels f) = af_channels f /\ wrap 32 (af_samples_per_second f) = af_samples_per_second f.
Proof.
  intros (_ & Ht & Hc & Hs & _). unfold max_supported_channels, max_sample_rate in *.
  rewrite !elem_of_cons, elem_of_nil in Ht. split_and!; apply Z.mod_small; [|lia..].
  destruct Ht as [[= _ ->]|[[= _ ->]|[[= _ ->]|[]]]]; done.
Qed.

Lemma fmt_of_decodable f n : format_ok f n -> decodable (fmt_of f) n.
Proof.
  intros Hf. destruct (fmt_of_bits f n Hf) as (Eb & Ec & Es). destruct Hf as (_ & Ht & Hc & Hs & Hn).
  unfold decodable. cbn [audio_format_tag channels sample_rate bits_per_sample fmt_of]. rewrite Eb, Ec, Es. split_and!; try done; try lia.
  rewrite !elem_of_cons, !elem_of_nil in *. destruct Ht as [[= -> ->]|[[= -> ->]|[[= -> ->]|[]]]]; [right|right|left]; (split; [reflexivity|]); tauto.
Qed.

(** C35: A file that [save] wrote loads with the same data and the same format,
    whatever was in the object before. *)
Theorem wav_round_trip (seeks_past_end : bool) f w w0 (Hf : format_ok f (zlen (wv_data w)))
  (Hd : 0 < zlen (wv_data w) <= max_data_chunk_size) (Ho : Forall is_octet (wv_data w)) :
  exists file w', save f w = Ok file /\ load seeks_past_end file w0 = Some (Ok tt, w') /\ wv_data w' = wv_data w /\ wav_format w' = Ok f.
Proof.
  assert (writable f) as Hw.
  { destruct Hf as (He & Ht & _). split; [done|]. rewrite !elem_of_cons, !elem_of_nil in *. destruct Ht as [[= -> _]|[[= -> _]|[[= -> _]|[]]]]; tauto. }
  destruct (load_file seeks_past_end w0 (fmt_of f) (wv_data w) (fmt_of_ok f) Hd Ho) as (h & E).
  rewrite (proj2 (validate_iff _ _) (fmt_of_decodable _ _ Hf)) in E.
  exists (file_octets (fmt_of f) (wv_data w)), (Wav (wv_data w) h (Some (fmt_of f))). split_and!; [by apply save_ok|done|done|].
  destruct (fmt_of_bits _ _ Hf) as (Eb & Ec & Es). destruct Hf as (He & Ht & _). unfold wav_format.
  cbn [wv_format audio_format_tag channels sample_rate bits_per_sample fmt_of]. rewrite Eb, Ec, Es. destruct f as [t c b s e]. cbn in *. subst e.
  f_equal. f_equal. rewrite !elem_of_cons, elem_of_nil in Ht. by destruct Ht as [[= -> ->]|[[= -> ->]|[[= -> ->]|[]]]].
Qed.

(** Any file either is refused or gives what the decoder of its frames relies on:
    a format it handles and data of whole frames, which are a part of the file
    and no more than the limit; loading ends. *)
Theorem loaded_files_decode (seeks_past_end : bool) file w :
  (exists e w', load seeks_past_end file w = Some (Throw e, w')) \/
  (exists f w', load seeks_past_end file w = Some (Ok tt, w') /\ wv_format w' = Some f /\ decodable f (zlen (wv_data w')) /\
     0 < zlen (wv_data w') <= max_data_chunk_size /\ exists pre post, file = pre ++ wv_data w' ++ post).
Proof.
  destruct (load_total seeks_past_end file w) as ([[]|e] & w' & E & Hok); [right|left; eauto].
  destruct (Hok eq_refl) as [[Hm Hpart] Hfin]. unfold load_finish in Hfin. destruct (wv_format w') as [f|] eqn:Ef; [|done].
  destruct (Z.eqb_spec (zlen (wv_data w')) 0); [done|]. exists f, w'.
  split_and!; [done|done|by apply validate_iff|pose proof (zlen_nonneg (wv_data w')); lia|done|done].
Qed.

Module WavSample.
Definition pcm16 : audio_format := AudioFormat short_t 1 16 24000 little.

(** A second file without a format chunk is taken in the format of the first. *)
Definition without_format (data : octets) : octets := riff_octets (new_riff_header (riff_data_size + zlen data)) ++ data_chunk_octets data.

Example stale_format :
  match save pcm16 (new_wav [1; 2; 3; 4]) with
  | Ok file =>
      match load false file (new_wav []) with
      | Some (Ok _, w) =>
          fst <$> load false (without_format [5; 6]) w = Some (Ok tt) /\
          fst <$> load false (without_format [5; 6]) (new_wav []) = Some (Throw (invalid_format "format chunk not found"))
      | _ => False
      end
  | Throw _ => False
  end.
Proof. vm_compute. split; reflexivity. Qed.

(** Data of an odd size are written without the octet that pads the chunk. *)
Example odd_data_unpadded :
  match save (AudioFormat uchar_t 1 8 8000 little) (new_wav [7]) with Ok file => zlen file = 45 | Throw _ => False end.
Proof. vm_compute. reflexivity. Qed.
End WavSample.

Lemma wav_round_trip_witness : exists file w', save WavSample.pcm16 (new_wav [1; 2; 3; 4]) = Ok file /\
  load false file (new_wav [9]) = Some (Ok tt, w') /\ wv_data w' = [1; 2; 3; 4] /\ wav_format w' = Ok WavSample.pcm16.
Proof.
  apply (wav_round_trip false WavSample.pcm16 (new_wav [1; 2; 3; 4]) (new_wav [9])).
  - repeat split; try done. right. left.
  - done.
  - repeat constructor; ground.
Defined.
