(* ===== verification/Futures.v ===== *)
(** Futures: [util/future.hpp].

    A promise and its future share a state.  A coroutine that awaits the future
    leaves its handle in the state under the mutex, unless the result is there;
    the thread that completes the promise takes the handle under the mutex and
    resumes it after that.  A step is one critical section, or the resumption. *)

From stdpp Require Import base list.
From Stdlib Require Import ZArith Lia.
From S2P Require Import Prelude.

Section futures.
Context {T : Type}.

(** [future_state]: the result of its [std::promise] and [std::future], the
    coroutine that waits, whether it is ready. *)
Record future_state : Type := FutureState {
  fs_result : option T;
  fs_continuation : option nat;
  fs_ready : bool
}.

(** The state, the coroutines that completing threads are about to resume, and
    those that went on, with what they got. *)
Record world : Type := World {
  w_state : future_state;
  w_resuming : list nat;
  w_resumed : list (nat * T)
}.

Definition new_world : world := World (FutureState None None false) [] [].

(** [get]: no result yet blocks. *)
Definition get (s : future_state) : option T := fs_result s.

Definition await_ready (s : future_state) : bool := false.

(** [await_suspend]: whether the coroutine is suspended. *)
Definition await_suspend (c : nat) (s : future_state) : bool * future_state :=
  if fs_ready s then (false, s) else (true, FutureState (fs_result s) (Some c) (fs_ready s)).

(** The critical section of [complete]: later completions are ignored. *)
Definition complete (v : T) (s : future_state) : option nat * future_state :=
  if fs_ready s then (None, s) else (fs_continuation s, FutureState (Some v) None true).

(** [await_resume], when the coroutine goes on. *)
Definition go_on (c : nat) (w : world) : option world :=
  match get (w_state w) with
  | Some v => Some (World (w_state w) (w_resuming w) (w_resumed w ++ [(c, v)]))
  | None => None
  end.

Inductive label : Type :=
| Await (c : nat)          (** [co_await] *)
| Complete (v : T)         (** [set_value] or [set_exception] *)
| Resume (i : nat).        (** a completing thread resumes the handle it took *)

Definition step (a : label) (w : world) : option world :=
  match a with
  | Await c =>
      if await_ready (w_state w) then go_on c w
      else
        let '(suspended, s) := await_suspend c (w_state w) in
        let w := World s (w_resuming w) (w_resumed w) in
        if suspended then Some w else go_on c w
  | Complete v =>
      let '(c, s) := complete v (w_state w) in
      Some (World s (w_resuming w ++ option_list c) (w_resumed w))
  | Resume i =>
      match w_resuming w !! i with
      | Some c => go_on c (World (w_state w) (delete i (w_resuming w)) (w_resumed w))
      | None => None
      end
  end.

Fixpoint run (ls : list label) (w : world) : option world :=
  match ls with
  | [] => Some w
  | a :: ls => match step a w with Some w => run ls w | None => None end
  end.

(** ** What was asked and what came *)

Definition awaits (ls : list label) : list nat := omap (fun a => match a with Await c => Some c | _ => None end) ls.

Fixpoint first_completion (ls : list label) : option T :=
  match ls with
  | [] => None
  | Complete v :: _ => Some v
  | _ :: ls => first_completion ls
  end.

Lemma first_completion_snoc ls a : first_completion (ls ++ [a]) =
  match first_completion ls with Some v => Some v | None => match a with Complete v => Some v | _ => None end end.
Proof. induction ls as [|[c|v|i] ls IH]; [by destruct a|done..]. Qed.

Lemma run_snoc ls a w : run (ls ++ [a]) w = match run ls w with Some w => step a w | None => None end.
Proof. revert w. induction ls as [|b ls IH]; intros w; cbn; [by destruct (step a w)|]. by destruct (step b w). Qed.

(** Where the one coroutine that awaits is. *)
Definition waiting (result : option T) (cs : list nat) (w : world) : Prop :=
  match cs with
  | [] => fs_continuation (w_state w) = None /\ w_resuming w = [] /\ w_resumed w = []
  | [c] =>
      (result = None /\ fs_continuation (w_state w) = Some c /\ w_resuming w = [] /\ w_resumed w = []) \/
      (exists v, result = Some v /\ fs_continuation (w_state w) = None /\
         ((w_resuming w = [c] /\ w_resumed w = []) \/ (w_resuming w = [] /\ w_resumed w = [(c, v)])))
  | _ => True
  end.

Record future_ok (ls : list label) (w : world) : Prop := {
  f_result : fs_result (w_state w) = first_completion ls;
  f_ready : fs_ready (w_state w) = match first_completion ls with Some _ => true | None => false end;
  f_waiting : waiting (first_completion ls) (awaits ls) w
}.

Lemma awaits_snoc ls a : awaits (ls ++ [a]) = awaits ls ++ (match a with Await c => [c] | _ => [] end).
Proof. unfold awaits. rewrite omap_app. by destruct a. Qed.

Lemma future_ok_await ls c w w' : (length (awaits ls) < 1)%nat -> future_ok ls w -> step (Await c) w = Some w' -> future_ok (ls ++ [Await c]) w'.
Proof.
  intros Hl [Hr Hd Hw]. destruct (awaits ls) as [|] eqn:Ea; [|cbn in Hl; lia]. cbn in Hw. destruct Hw as (Hc & Hn & Hg).
  unfold step, await_ready, await_suspend, go_on, get. rewrite Hd. destruct (first_completion ls) as [v|] eqn:Ef; cbn; rewrite ?Hr; intros [= <-].
  - constructor; rewrite first_completion_snoc, Ef; cbn; try done. rewrite awaits_snoc, Ea. cbn. right. exists v.
    rewrite Hg, Hn, Hc. split_and!; try done. by right.
  - constructor; rewrite first_completion_snoc, Ef; cbn; try done. rewrite awaits_snoc, Ea. cbn. left. done.
Qed.

Lemma future_ok_complete ls v w w' : (length (awaits ls) <= 1)%nat -> future_ok ls w -> step (Complete v) w = Some w' ->
  future_ok (ls ++ [Complete v]) w'.
Proof.
  intros Hl [Hr Hd Hw]. unfold step, complete. rewrite Hd. destruct (first_completion ls) as [v0|] eqn:Ef; cbn; intros [= <-].
  - constructor; rewrite first_completion_snoc, Ef; cbn; try done. rewrite awaits_snoc, app_nil_r.
    unfold waiting in *. cbn. by rewrite app_nil_r.
  - constructor; rewrite first_completion_snoc, Ef; cbn; try done. rewrite awaits_snoc, app_nil_r.
    destruct (awaits ls) as [|c [|c' cs]]; cbn in *; [| |lia].
    + destruct Hw as (Hc & Hn & Hg). rewrite Hc, Hn. done.
    + destruct Hw as [(_ & Hc & Hn & Hg)|(? & ? & _)]; [|done]. right. exists v. rewrite Hc, Hn, Hg. split_and!; try done. by left.
Qed.

Lemma future_ok_resume ls i w w' : (length (awaits ls) <= 1)%nat -> future_ok ls w -> step (Resume i) w = Some w' ->
  future_ok (ls ++ [Resume i]) w'.
Proof.
  intros Hl [Hr Hd Hw]. unfold step, go_on, get. cbn.
  destruct (w_resuming w !! i) as [c'|] eqn:Ei; [|done].
  destruct (awaits ls) as [|c [|c2 cs]] eqn:Ea; cbn in *; [destruct Hw as (_ & Hn & _); by rewrite Hn in Ei| |lia].
  destruct Hw as [(_ & _ & Hn & _)|(v & Ef & Hc & [[Hn Hg]|[Hn Hg]])]; [by rewrite Hn in Ei| |by rewrite Hn in Ei].
  rewrite Hr, Ef, Hn, Hg in *. destruct i as [|i]; [|done]. cbn in Ei. injection Ei as ->. intros [= <-].
  constructor; rewrite first_completion_snoc, Ef; cbn; try done. rewrite awaits_snoc, Ea. cbn. right. exists v. rewrite Hc. split_and!; try done. by right.
Qed.

Lemma future_ok_run ls w : (length (awaits ls) <= 1)%nat -> run ls new_world = Some w -> future_ok ls w.
Proof.
  revert w. induction ls as [|a ls IH] using rev_ind; intros w Hl E; [injection E as <-; by constructor|].
  rewrite run_snoc in E. destruct (run ls new_world) as [w1|]; [|done].
  rewrite awaits_snoc, length_app in Hl. specialize (IH w1 ltac:(lia) eq_refl). destruct a as [c|v|i]; cbn [length] in Hl.
  - apply (future_ok_await ls c w1); [lia|done|done].
  - apply (future_ok_complete ls v w1); [lia|done|done].
  - apply (future_ok_resume ls i w1); [lia|done|done].
Qed.
End futures.
Arguments label T : clear implicits.
Arguments world T : clear implicits.

(** ** Properties *)

(** A coroutine that awaits a future, as the only one, goes on once at most,
    with the first completion's value; and when the future was completed and
    no thread is about to resume it, it has gone on, however the threads
    interleave. *)
Theorem awaiting_coroutine_resumes_once {T} (ls : list (label T)) w c (Hc : awaits ls = [c]) (E : run ls new_world = Some w) :
  (w_resumed w = [] \/ exists v, w_resumed w = [(c, v)] /\ first_completion ls = Some v) /\
  (forall v, first_completion ls = Some v -> w_resuming w = [] -> w_resumed w = [(c, v)]).
Proof.
  destruct (future_ok_run ls w) as [_ _ Hw]; [rewrite Hc; cbn; lia|done|]. rewrite Hc in Hw. cbn in Hw.
  destruct Hw as [(Ef & _ & _ & Hg)|(v & Ef & _ & [[Hn Hg]|[Hn Hg]])]; rewrite Ef, Hg.
  - split; [by left|done].
  - split; [by left|]. intros v' _ Hn'. by rewrite Hn in Hn'.
  - split; [right; eauto|]. by intros v' [= <-].
Qed.

Module FutureSample.
(** Two coroutines on one future: the first is never resumed.  The comment at the
    class asks for one. *)
Example second_await_forgets_the_first :
  match run [Await 1; Await 2; Complete 7; Resume 0] (new_world (T := Z)) with
  | Some w => w_resumed w = [(2%nat, 7)] /\ w_resuming w = []
  | None => False
  end.
Proof. split; reflexivity. Qed.
End FutureSample.

Lemma awaiting_coroutine_resumes_once_witness :
  match run [Complete 5; Await 1; Complete 6] (new_world (T := Z)) with Some w => w_resumed w = [(1%nat, 5)] | None => False end.
Proof. by apply (awaiting_coroutine_resumes_once [Complete 5; Await 1; Complete 6] _ 1%nat). Defined.
