(* ===== verification/EventLoop.v ===== *)
(** The event loop: [event_system/event_loop.cpp], [event_handler.cpp].

    The loop has one thread that calls the handlers, and any thread calls its
    members.  Everything but a handler's call runs under the loop's mutex, so a
    step is one critical section: a member function, what the loop's thread does
    from taking the mutex to giving it up (to call a handler, to wait or to end),
    one look of a waiting [remove_receiver].  What a handler does is steps of
    its own.  A receiver is a number, the clock the argument of the steps that
    read it, and [time_point{}] is 0. *)

From stdpp Require Import base list numbers gmap.
From Stdlib Require Import ZArith Lia.
From S2P Require Import Prelude.
Open Scope Z_scope.

Section event_loop.
Context {event : Type}.

(** ** State *)

Abbreviation receiver := nat.

Record timer_holder : Type := TimerHolder { th_id : Z; th_next_trigger : Z; th_interval : Z; th_handler : receiver }.

(** What the handler is called with: a queued event, or [timer_event]. *)
Inductive delivery : Type := Queued (e : event) | Timer (id : Z).

(** The thread between two critical sections. *)
Inductive loop_thread : Type :=
| Starting
| Handling (r : receiver) (d : delivery)
| Waiting (until : option Z) (notified : bool)
| Finished.

Record event_loop : Type := EventLoop {
  el_events : list (receiver * event);
  el_active : option receiver;          (** [active_handler_] *)
  el_timers : list timer_holder;
  el_next_trigger : Z;
  el_last_handle : Z;
  el_quit : bool;
  el_disabled : gset receiver;          (** the receivers whose [active_] is false *)
  el_thread : loop_thread;
  el_removing : list receiver           (** the calls of [remove_receiver] that wait *)
}.

Definition new_loop : event_loop := EventLoop [] None [] 0 0 false ∅ Starting [].

Definition set_events (v : list (receiver * event)) (s : event_loop) : event_loop :=
  EventLoop v (el_active s) (el_timers s) (el_next_trigger s) (el_last_handle s) (el_quit s) (el_disabled s) (el_thread s) (el_removing s).
Definition set_active (v : option receiver) (s : event_loop) : event_loop :=
  EventLoop (el_events s) v (el_timers s) (el_next_trigger s) (el_last_handle s) (el_quit s) (el_disabled s) (el_thread s) (el_removing s).
Definition set_timers (v : list timer_holder) (s : event_loop) : event_loop :=
  EventLoop (el_events s) (el_active s) v (el_next_trigger s) (el_last_handle s) (el_quit s) (el_disabled s) (el_thread s) (el_removing s).
Definition set_next_trigger (v : Z) (s : event_loop) : event_loop :=
  EventLoop (el_events s) (el_active s) (el_timers s) v (el_last_handle s) (el_quit s) (el_disabled s) (el_thread s) (el_removing s).
Definition set_last_handle (v : Z) (s : event_loop) : event_loop :=
  EventLoop (el_events s) (el_active s) (el_timers s) (el_next_trigger s) v (el_quit s) (el_disabled s) (el_thread s) (el_removing s).
Definition set_quit (v : bool) (s : event_loop) : event_loop :=
  EventLoop (el_events s) (el_active s) (el_timers s) (el_next_trigger s) (el_last_handle s) v (el_disabled s) (el_thread s) (el_removing s).
Definition disable (r : receiver) (s : event_loop) : event_loop :=
  EventLoop (el_events s) (el_active s) (el_timers s) (el_next_trigger s) (el_last_handle s) (el_quit s) ({[r]} ∪ el_disabled s)
    (el_thread s) (el_removing s).
Definition set_thread (v : loop_thread) (s : event_loop) : event_loop :=
  EventLoop (el_events s) (el_active s) (el_timers s) (el_next_trigger s) (el_last_handle s) (el_quit s) (el_disabled s) v (el_removing s).
Definition set_removing (v : list receiver) (s : event_loop) : event_loop :=
  EventLoop (el_events s) (el_active s) (el_timers s) (el_next_trigger s) (el_last_handle s) (el_quit s) (el_disabled s) (el_thread s) v.

Definition is_active (r : receiver) (s : event_loop) : bool := negb (bool_decide (r ∈ el_disabled s)).

Definition nonempty {A} (l : list A) : bool := match l with [] => false | _ => true end.

(** [cond_.notify_one()]: nobody but the loop's thread waits. *)
Definition notify_one (s : event_loop) : event_loop :=
  match el_thread s with Waiting u _ => set_thread (Waiting u true) s | _ => s end.

(** ** Members *)

Definition emit (r : receiver) (e : event) (s : event_loop) : event_loop :=
  if negb (el_quit s) && is_active r s then
    let s := if nonempty (el_events s) then s else notify_one s in
    set_events (el_events s ++ [(r, e)]) s
  else s.

Definition update_next_trigger (t : Z) (s : event_loop) : event_loop :=
  if (el_next_trigger s =? 0) || (t <? el_next_trigger s) then set_next_trigger t s else s.

(** The handle, 0 when no timer was started. *)
Definition start_timer (r : receiver) (dur : Z) (single_shot : bool) (now : Z) (s : event_loop) : Z * event_loop :=
  if negb (el_quit s) && is_active r s then
    let ret := wrap 64 (el_last_handle s + 1) in
    let s := set_last_handle ret s in
    let trigger := now + dur in
    let s := set_timers (el_timers s ++ [TimerHolder ret trigger (if single_shot then 0 else dur) r]) s in
    let s := if negb (nonempty (el_events s)) && ((el_next_trigger s =? 0) || (trigger <? el_next_trigger s)) then notify_one s else s in
    (ret, update_next_trigger trigger s)
  else (0, s).

Fixpoint erase_timer (id : Z) (ts : list timer_holder) : option (list timer_holder) :=
  match ts with
  | [] => None
  | t :: ts => if th_id t =? id then Some ts else option_map (cons t) (erase_timer id ts)
  end.

Definition stop_timer (id : Z) (s : event_loop) : event_loop :=
  match erase_timer id (el_timers s) with
  | None => s
  | Some ts => let s := set_timers ts s in if nonempty ts then s else set_next_trigger 0 s
  end.

(** What a step tells: a handler is called, its call is over, [remove_receiver]
    returns. *)
Inductive output : Type := Called (r : receiver) (d : delivery) | Ended (r : receiver) (d : delivery) | Removed (r : receiver).

(** The first critical section of [remove_receiver]. *)
Definition remove_receiver (r : receiver) (in_loop_thread : bool) (s : event_loop) : event_loop * list output :=
  let s := disable r s in
  let s := set_events (filter (fun e => e.1 <> r) (el_events s)) s in
  let s := set_timers (filter (fun t => th_handler t <> r) (el_timers s)) s in
  if bool_decide (el_active s = Some r) && negb in_loop_thread then (set_removing (r :: el_removing s) s, [])
  else (s, [Removed r]).

(** One round of the loop in [remove_receiver]. *)
Definition look_again (i : nat) (s : event_loop) : option (event_loop * list output) :=
  match el_removing s !! i with
  | Some r => if bool_decide (el_active s = Some r) then Some (s, []) else Some (set_removing (delete i (el_removing s)) s, [Removed r])
  | None => None
  end.

(** ** The thread *)

(** [handle_event] up to the call. *)
Definition call_handler (r : receiver) (d : delivery) (s : event_loop) : event_loop * list output :=
  (set_thread (Handling r d) (set_active (Some r) s), [Called r d]).

(** The due timer: those before it, it, those after it. *)
Fixpoint due_timer (now : Z) (ts : list timer_holder) : option (list timer_holder * timer_holder * list timer_holder) :=
  match ts with
  | [] => None
  | t :: ts =>
      if now <? th_next_trigger t then
        match due_timer now ts with Some (before, d, after) => Some (t :: before, d, after) | None => None end
      else Some ([], t, ts)
  end.

Definition update_for (ts : list timer_holder) (s : event_loop) : event_loop :=
  fold_left (fun s t => update_next_trigger (th_next_trigger t) s) ts s.

(** [process_timers] up to the call; [None]: it returned false. *)
Definition process_timers (now : Z) (s : event_loop) : event_loop * option (event_loop * list output) :=
  if (el_next_trigger s =? 0) || (now <? el_next_trigger s) then (s, None)
  else
    let s := set_next_trigger 0 s in
    match due_timer now (el_timers s) with
    | None => (update_for (el_timers s) s, None)
    | Some (before, t, after) =>
        let s := update_for after (update_for before s) in
        let s :=
          if negb (th_interval t =? 0) then
            let t' := TimerHolder (th_id t) (now + th_interval t) (th_interval t) (th_handler t) in
            update_next_trigger (th_next_trigger t') (set_timers (before ++ t' :: after) s)
          else set_timers (before ++ after) s in
        (s, Some (call_handler (th_handler t) (Timer (th_id t)) s))
    end.

Definition wait (s : event_loop) : event_loop :=
  set_thread (Waiting (if el_next_trigger s =? 0 then None else Some (el_next_trigger s)) false) s.

(** [thread_entry] from the top of its loop, with the mutex held: when no handler
    is called, there is nothing more to do and it waits. *)
Definition loop_top (now : Z) (s : event_loop) : event_loop * list output :=
  if el_quit s then (set_thread Finished s, [])
  else
    match process_timers now s with
    | (_, Some called) => called
    | (s, None) =>
        match el_events s with
        | (r, e) :: events => call_handler r (Queued e) (set_events events s)
        | [] => (wait s, [])
        end
    end.

(** [handle_event] after the call, the return of [process_single_event], and on. *)
Definition handler_returned (r : receiver) (d : delivery) (now : Z) (s : event_loop) : event_loop * list output :=
  let s := set_active None s in
  let more := match d with Timer _ => true | Queued _ => false end || nonempty (el_events s) in
  let '(s, o) := if negb (el_quit s) && negb more then (wait s, []) else loop_top now s in
  (s, Ended r d :: o).

(** [stop] after the join. *)
Definition joined (s : event_loop) : event_loop := set_timers [] (set_events [] s).

(** ** Runs *)

Inductive label : Type :=
| Emit (r : receiver) (e : event)
| StartTimer (r : receiver) (dur : Z) (single_shot : bool) (now : Z)
| StopTimer (id : Z)
| RemoveReceiver (r : receiver) (in_loop_thread : bool)
| LookAgain (i : nat)
| Stop                 (** [quit_] and the notification *)
| Join                 (** the thread has ended *)
| Run (now : Z)        (** the thread starts, or its wait ends: notified, timed out or for no reason *)
| Return (now : Z).    (** the handler returns or throws *)

Definition step (a : label) (s : event_loop) : option (event_loop * list output) :=
  match a with
  | Emit r e => Some (emit r e s, [])
  | StartTimer r dur single_shot now => Some (snd (start_timer r dur single_shot now s), [])
  | StopTimer id => Some (stop_timer id s, [])
  | RemoveReceiver r in_loop =>
      match in_loop, el_thread s with
      | true, Handling _ _ | false, _ => Some (remove_receiver r in_loop s)
      | true, _ => None
      end
  | LookAgain i => look_again i s
  | Stop => Some (notify_one (set_quit true s), [])
  | Join => match el_thread s with Finished => Some (joined s, []) | _ => None end
  | Run now => match el_thread s with Starting | Waiting _ _ => Some (loop_top now s) | _ => None end
  | Return now => match el_thread s with Handling r d => Some (handler_returned r d now s) | _ => None end
  end.

Fixpoint run (ls : list label) (s : event_loop) : option (event_loop * list output) :=
  match ls with
  | [] => Some (s, [])
  | a :: ls =>
      match step a s with
      | Some (s, o) => match run ls s with Some (s, os) => Some (s, o ++ os) | None => None end
      | None => None
      end
  end.

(** ** The receivers and the thread *)

Definition running (s : event_loop) : option receiver := match el_thread s with Handling r _ => Some r | _ => None end.

(** Nothing is queued for a disabled receiver, and [active_handler_] is the one
    whose handler runs. *)
Record loop_ok (s : event_loop) : Prop := {
  lo_events : forall r e, (r, e) ∈ el_events s -> r ∉ el_disabled s;
  lo_timers : forall t, t ∈ el_timers s -> th_handler t ∉ el_disabled s;
  lo_active : el_active s = running s;
  lo_finished : el_thread s = Finished -> el_quit s = true
}.

Lemma is_active_true r s : is_active r s = true <-> r ∉ el_disabled s.
Proof. unfold is_active. by rewrite negb_true_iff, bool_decide_eq_false. Qed.

(** Notifying changes nothing but the flag of a waiting thread. *)
Lemma notify_one_cases s : notify_one s = s \/ exists u b, el_thread s = Waiting u b /\ notify_one s = set_thread (Waiting u true) s.
Proof. unfold notify_one. destruct (el_thread s); eauto 6. Qed.

Lemma loop_ok_notify s : loop_ok s -> loop_ok (notify_one s).
Proof.
  intros [H1 H2 H3 H4]. destruct (notify_one_cases s) as [->|(u & b & E & ->)]; [by constructor|].
  constructor; [done..| |done]. unfold running in *. cbn. by rewrite E in H3.
Qed.

Lemma loop_ok_next s n : loop_ok s -> loop_ok (set_next_trigger n s).
Proof. by intros []. Qed.

Lemma loop_ok_update t s : loop_ok s -> loop_ok (update_next_trigger t s).
Proof. intros H. unfold update_next_trigger. destruct (_ || _); [by apply loop_ok_next|done]. Qed.

Lemma loop_ok_update_for ts s : loop_ok s -> loop_ok (update_for ts s).
Proof. revert s. induction ts as [|t ts IH]; intros s H; [done|]. apply IH. by apply loop_ok_update. Qed.

Lemma loop_ok_timers ts s : loop_ok s -> (forall t, t ∈ ts -> th_handler t ∉ el_disabled s) -> loop_ok (set_timers ts s).
Proof. by intros [] H. Qed.

Lemma update_for_eq ts s : exists n, update_for ts s = set_next_trigger n s.
Proof.
  revert s. induction ts as [|t ts IH]; intros s; [exists (el_next_trigger s); by destruct s|]. change (update_for (t :: ts) s) with (update_for ts (update_next_trigger (th_next_trigger t) s)).
  destruct (IH (update_next_trigger (th_next_trigger t) s)) as [n E]. exists n. rewrite E. unfold update_next_trigger. by destruct (_ || _).
Qed.

Lemma due_timer_spec now ts before t after : due_timer now ts = Some (before, t, after) -> ts = before ++ t :: after /\ th_next_trigger t <= now.
Proof.
  revert before. induction ts as [|x ts IH]; intros before; cbn; [done|]. destruct (Z.ltb_spec now (th_next_trigger x)).
  - destruct (due_timer now ts) as [[[b d] a]|]; [|done]. intros [= <- -> ->]. destruct (IH b eq_refl) as [-> ?]. done.
  - by intros [= <- -> ->].
Qed.

Definition called (r : receiver) (d : delivery) (s : event_loop) : event_loop := set_thread (Handling r d) (set_active (Some r) s).

(** What a timer that fires leaves behind. *)
Definition rearmed (now : Z) (t : timer_holder) : list timer_holder :=
  if th_interval t =? 0 then [] else [TimerHolder (th_id t) (now + th_interval t) (th_interval t) (th_handler t)].

(** The ways on from the top of the loop. *)
Inductive goes_on (now : Z) (s : event_loop) : event_loop -> list output -> Prop :=
| on_quit : el_quit s = true -> goes_on now s (set_thread Finished s) []
| on_timer before t after n : el_quit s = false -> el_timers s = before ++ t :: after -> th_next_trigger t <= now ->
    goes_on now s (called (th_handler t) (Timer (th_id t)) (set_next_trigger n (set_timers (before ++ rearmed now t ++ after) s)))
      [Called (th_handler t) (Timer (th_id t))]
| on_event r e events n : el_quit s = false -> el_events s = (r, e) :: events ->
    goes_on now s (called r (Queued e) (set_events events (set_next_trigger n s))) [Called r (Queued e)]
| on_nothing n : el_quit s = false -> el_events s = [] -> goes_on now s (wait (set_next_trigger n s)) [].

Lemma fired_timer now s before t after : due_timer now (el_timers s) = Some (before, t, after) ->
  exists n, snd (process_timers now s) = Some (called (th_handler t) (Timer (th_id t))
    (set_next_trigger n (set_timers (before ++ rearmed now t ++ after) s)), [Called (th_handler t) (Timer (th_id t))]) \/
  process_timers now s = (s, None).
Proof.
  intros E. unfold process_timers. destruct (_ || _); [exists 0; by right|]. cbn [el_timers set_next_trigger]. rewrite E. cbn [snd].
  destruct (update_for_eq before (set_next_trigger 0 s)) as [n1 ->]. destruct (update_for_eq after (set_next_trigger n1 (set_next_trigger 0 s))) as [n2 ->].
  unfold rearmed. destruct (th_interval t =? 0); cbn [negb app].
  - exists n2. by left.
  - unfold update_next_trigger. destruct (_ || _); eexists; left; unfold call_handler, called; reflexivity.
Qed.

Lemma loop_top_goes now s : goes_on now s (fst (loop_top now s)) (snd (loop_top now s)).
Proof.
  unfold loop_top. destruct (el_quit s) eqn:Eq; [by apply on_quit|].
  assert (forall s0 n, s0 = set_next_trigger n s -> goes_on now s
    (fst (match el_events s0 with (r, e) :: events => call_handler r (Queued e) (set_events events s0) | [] => (wait s0, []) end))
    (snd (match el_events s0 with (r, e) :: events => call_handler r (Queued e) (set_events events s0) | [] => (wait s0, []) end))) as Hev.
  { intros s0 n ->. cbn [el_events set_next_trigger]. destruct (el_events s) as [|[r e] events] eqn:Ee; cbn [fst snd]; [by apply on_nothing|].
    by apply (on_event now s r e events n). }
  destruct (due_timer now (el_timers s)) as [[[before t] after]|] eqn:Ed.
  - destruct (due_timer_spec _ _ _ _ _ Ed) as [Et Hd]. destruct (fired_timer _ _ _ _ _ Ed) as [n [E|E]].
    + destruct (process_timers now s) as [s1 o]. cbn in E. subst o. by apply (on_timer now s before t after n).
    + rewrite E. apply (Hev s (el_next_trigger s)). by destruct s.
  - unfold process_timers. destruct (_ || _); [apply (Hev s (el_next_trigger s)); by destruct s|].
    cbn [el_timers set_next_trigger]. rewrite Ed. destruct (update_for_eq (el_timers s) (set_next_trigger 0 s)) as [n ->]. by apply (Hev _ n).
Qed.

(** ** The invariant *)

Lemma loop_ok_top now s s' o : (forall r e, (r, e) ∈ el_events s -> r ∉ el_disabled s) ->
  (forall t, t ∈ el_timers s -> th_handler t ∉ el_disabled s) -> el_active s = None -> goes_on now s s' o -> loop_ok s'.
Proof.
  intros H1 H2 Ha [Hq|before t after n Hq Et Hd|r e events n Hq Ee|n Hq Ee]; constructor; try done.
  - cbn. intros x Hx. rewrite Et in H2. unfold rearmed in Hx. rewrite !elem_of_app in Hx.
    assert (th_handler t ∉ el_disabled s) by (apply H2; set_solver). destruct (th_interval t =? 0); [|set_solver].
    apply H2. set_solver.
  - cbn. intros r' e' He. apply (H1 r' e'). rewrite Ee. by right.
Qed.

(** [emit] and [start_timer] on an accepting receiver. *)
Lemma emit_cases r e s : emit r e s = s \/
  el_quit s = false /\ (r ∉ el_disabled s) /\ exists s1, (s1 = s /\ el_events s <> [] \/ s1 = notify_one s) /\ emit r e s = set_events (el_events s ++ [(r, e)]) s1.
Proof.
  unfold emit. destruct (el_quit s); [by left|]. destruct (is_active r s) eqn:Ea; [|by left]. right. split; [done|].
  split; [by apply is_active_true|]. cbn [negb andb]. destruct (el_events s) as [|x l] eqn:El; cbn [nonempty].
  - exists (notify_one s). split; [by right|]. f_equal. destruct (notify_one_cases s) as [->|(u & b & _ & ->)]; cbn; by rewrite El.
  - exists s. split; [by left|]. by rewrite El.
Qed.

Lemma start_timer_cases r dur single now s : snd (start_timer r dur single now s) = s \/
  el_quit s = false /\ (r ∉ el_disabled s) /\ exists s1 h, el_timers s1 = el_timers s /\
    (s1 = s /\ (el_events s <> [] \/ el_next_trigger s <> 0 /\ el_next_trigger s <= now + dur) \/ s1 = notify_one s) /\
    snd (start_timer r dur single now s) = update_next_trigger (now + dur)
      (set_timers (el_timers s ++ [TimerHolder h (now + dur) (if single then 0 else dur) r]) (set_last_handle h s1)).
Proof.
  unfold start_timer. destruct (el_quit s); [by left|]. destruct (is_active r s) eqn:Ea; [|by left]. right. split; [done|].
  split; [by apply is_active_true|]. cbn [negb andb snd]. set (h := wrap 64 (el_last_handle s + 1)). cbn [el_timers set_last_handle el_events el_next_trigger set_timers].
  destruct (negb (nonempty (el_events s)) && _) eqn:En.
  - exists (notify_one s), h. destruct (notify_one_cases s) as [E|(u & b & Et & E)]; rewrite E.
    + split_and!; [done|by right|]. unfold notify_one in *. cbn [el_thread set_timers set_last_handle].
      destruct (el_thread s); try done. f_equal. by rewrite <- E.
    + split_and!; [done|by right|]. unfold notify_one. cbn [el_thread set_timers set_last_handle]. by rewrite Et.
  - exists s, h. split_and!; [done| |done]. left. split; [done|]. apply andb_false_iff in En as [En|En].
    + left. by destruct (el_events s).
    + right. apply orb_false_iff in En as [E0 E1]. apply Z.eqb_neq in E0. apply Z.ltb_ge in E1. done.
Qed.

Lemma loop_ok_emit r e s : loop_ok s -> loop_ok (emit r e s).
Proof.
  intros H. destruct (emit_cases r e s) as [->|(_ & Hr & s1 & Hs & ->)]; [done|].
  assert (loop_ok s1 /\ el_disabled s1 = el_disabled s) as [[H1 H2 H3 H4] Ed].
  { destruct Hs as [[-> _]| ->]; [done|]. split; [by apply loop_ok_notify|]. by destruct (notify_one_cases s) as [->|(u & b & _ & ->)]. }
  constructor; try done. cbn. rewrite Ed. destruct H as [H _ _ _]. intros r' e'. rewrite elem_of_app, list_elem_of_singleton.
  intros [He|[= -> ->]]; [by apply (H r' e')|done].
Qed.

Lemma loop_ok_start r dur single now s : loop_ok s -> loop_ok (snd (start_timer r dur single now s)).
Proof.
  intros H. destruct (start_timer_cases r dur single now s) as [->|(_ & Hr & s1 & h & _ & Hs & ->)]; [done|].
  assert (loop_ok s1 /\ el_disabled s1 = el_disabled s) as [[H1 H2 H3 H4] Ed].
  { destruct Hs as [[-> _]| ->]; [done|]. split; [by apply loop_ok_notify|]. by destruct (notify_one_cases s) as [->|(u & b & _ & ->)]. }
  apply loop_ok_update, loop_ok_timers; [by constructor|]. cbn. rewrite Ed. intros t. rewrite elem_of_app, list_elem_of_singleton.
  destruct H as [_ H _ _]. intros [Ht| ->]; [by apply H|done].
Qed.

Lemma erase_timer_sub id ts ts' : erase_timer id ts = Some ts' -> forall t, t ∈ ts' -> t ∈ ts.
Proof.
  revert ts'. induction ts as [|x ts IH]; intros ts'; cbn; [done|]. destruct (th_id x =? id); [intros [= <-]; by right|].
  destruct (erase_timer id ts) as [l|]; [|done]. cbn. intros [= <-] t. rewrite !elem_of_cons. intros [->|Ht]; [by left|right]. by apply (IH l).
Qed.

Lemma loop_ok_stop_timer id s : loop_ok s -> loop_ok (stop_timer id s).
Proof.
  intros H. unfold stop_timer. destruct (erase_timer id (el_timers s)) as [ts|] eqn:E; [|done].
  assert (loop_ok (set_timers ts s)) by (apply loop_ok_timers; [done|]; intros t Ht; apply H; by apply (erase_timer_sub id _ ts)).
  destruct (nonempty ts); [done|]. by apply loop_ok_next.
Qed.

Lemma loop_ok_remove r b s : loop_ok s -> loop_ok (fst (remove_receiver r b s)).
Proof.
  intros [H1 H2 H3 H4]. unfold remove_receiver.
  assert (loop_ok (set_timers (filter (fun t => th_handler t <> r) (el_timers s)) (set_events (filter (fun e => e.1 <> r) (el_events s)) (disable r s)))) as H.
  { constructor; try done; cbn.
    - intros r' e. rewrite list_elem_of_filter. intros [Hn He]. cbn in Hn. specialize (H1 r' e He). set_solver.
    - intros t. rewrite list_elem_of_filter. intros [Hn Ht]. specialize (H2 t Ht). set_solver. }
  destruct (_ && _); [|exact H]. by destruct H.
Qed.

Lemma loop_ok_step a s s' o : loop_ok s -> step a s = Some (s', o) -> loop_ok s'.
Proof.
  intros H. destruct a as [r e|r dur single now|id|r in_loop|i| | |now|now]; cbn -[loop_top remove_receiver start_timer]; intros E.
  - injection E as <- _. by apply loop_ok_emit.
  - injection E as <- _. by apply loop_ok_start.
  - injection E as <- _. by apply loop_ok_stop_timer.
  - assert (Some (remove_receiver r in_loop s) = Some (s', o)) as [= E'] by (destruct in_loop, (el_thread s); done).
    pose proof (loop_ok_remove r in_loop s H) as Hr. by rewrite E' in Hr.
  - unfold look_again in E. destruct (el_removing s !! i) as [r|]; [|done]. destruct (bool_decide _); injection E as <- _; [done|]. by destruct H.
  - injection E as <- _. apply loop_ok_notify. by destruct H.
  - destruct (el_thread s) eqn:Et; try done. injection E as <- _. destruct H. constructor; try done; cbn; intros; by rewrite ?elem_of_nil in *.
  - assert (running s = None /\ loop_top now s = (s', o)) as (Hr & E').
    { unfold running. destruct (el_thread s); try done; by injection E. }
    pose proof (loop_top_goes now s) as Hg. rewrite E' in Hg. destruct H as [H1 H2 H3 _].
    apply (loop_ok_top now s _ o); [done..|by rewrite H3|done].
  - destruct (el_thread s) as [|r d|u b|] eqn:Et; try done. injection E as E. unfold handler_returned in E.
    pose proof (loop_top_goes now (set_active None s)) as Hg. destruct (loop_top now (set_active None s)) as [s1 o1]. cbn [fst snd] in Hg.
    destruct H as [H1 H2 H3 H4]. destruct (_ && _); injection E as <- _; [by constructor|]. by apply (loop_ok_top now (set_active None s) _ o1).
Qed.

Lemma run_loop_snoc ls a s : run (ls ++ [a]) s =
  match run ls s with
  | Some (s, os) => match step a s with Some (s, o) => Some (s, os ++ o) | None => None end
  | None => None
  end.
Proof.
  revert s. induction ls as [|b ls IH]; intros s; cbn [run app].
  - destruct (step a s) as [[s' o]|]; [|done]. by rewrite app_nil_r.
  - destruct (step b s) as [[s1 o1]|]; [|done]. rewrite IH. destruct (run ls s1) as [[s2 o2]|]; [|done].
    destruct (step a s2) as [[s3 o3]|]; [|done]. by rewrite app_assoc.
Qed.

Lemma loop_ok_new : loop_ok new_loop.
Proof. constructor; cbn; try done; set_solver. Qed.

(** Rule induction over a run. *)
Lemma run_ind (P : list label -> event_loop -> list output -> Prop) :
  P [] new_loop [] ->
  (forall ls a s s' os o, P ls s os -> loop_ok s -> step a s = Some (s', o) -> P (ls ++ [a]) s' (os ++ o)) ->
  forall ls s os, run ls new_loop = Some (s, os) -> P ls s os /\ loop_ok s.
Proof.
  intros H0 Hs ls. induction ls as [|a ls IH] using rev_ind; intros s os; [intros [= <- <-]; split; [done|apply loop_ok_new]|].
  rewrite run_loop_snoc. destruct (run ls new_loop) as [[s1 os1]|]; [|done]. destruct (step a s1) as [[s' o]|] eqn:E; [|done].
  intros [= <- <-]. destruct (IH s1 os1 eq_refl) as [Hp Ho]. split; [by apply (Hs _ _ s1)|by apply (loop_ok_step a s1 _ o)].
Qed.

(** ** After a removal *)

Fixpoint after_removed (r : receiver) (os : list output) : list output :=
  match os with
  | [] => []
  | Removed r' :: os => if decide (r' = r) then os else after_removed r os
  | _ :: os => after_removed r os
  end.

Lemma after_no_removal r os : Removed r ∉ os -> after_removed r os = [].
Proof.
  induction os as [|[r' d|r' d|r'] os IH]; cbn; [done|..]; rewrite not_elem_of_cons; intros [Hn Hos]; [by apply IH..|].
  rewrite decide_False by congruence. by apply IH.
Qed.

Lemma after_one r o x : x ∉ after_removed r [o].
Proof. destruct o; cbn; try destruct (decide _); apply not_elem_of_nil. Qed.

(** ** What a step changes *)

Record step_changes (a : label) (s s' : event_loop) (o : list output) : Prop := {
  sc_disabled : el_disabled s ⊆ el_disabled s';
  sc_removing : forall r, r ∈ el_removing s' -> r ∈ el_removing s \/ r ∈ el_disabled s';
  sc_called : forall r d, Called r d ∈ o -> r ∉ el_disabled s;
  sc_ended : forall r d, Ended r d ∈ o -> running s = Some r;
  sc_removed : forall r, Removed r ∈ o -> (r ∈ el_removing s \/ r ∈ el_disabled s') /\ (running s' <> Some r \/ a = RemoveReceiver r true);
  sc_running : forall r, running s' = Some r -> running s = Some r \/ exists d, Called r d ∈ o;
  sc_last : forall r x, x ∉ after_removed r o
}.

Lemma changes_nothing a s s' : el_disabled s' = el_disabled s -> el_removing s' = el_removing s -> running s' = running s -> step_changes a s s' [].
Proof. intros E1 E2 E3. constructor; rewrite ?E1, ?E2, ?E3; cbn; set_solver. Qed.

Lemma notify_one_same s : el_disabled (notify_one s) = el_disabled s /\ el_removing (notify_one s) = el_removing s /\ running (notify_one s) = running s.
Proof. destruct (notify_one_cases s) as [->|(u & b & E & ->)]; [done|]. unfold running. cbn. by rewrite E. Qed.

Lemma update_trigger_same t s : el_disabled (update_next_trigger t s) = el_disabled s /\
  el_removing (update_next_trigger t s) = el_removing s /\ running (update_next_trigger t s) = running s.
Proof. unfold update_next_trigger. by destruct (_ || _). Qed.

Lemma goes_on_changes now s s' o : goes_on now s s' o -> el_disabled s' = el_disabled s /\ el_removing s' = el_removing s /\
  match o with
  | [] => running s' = None
  | [Called r d] => running s' = Some r /\ ((exists e, (r, e) ∈ el_events s) \/ exists t, t ∈ el_timers s /\ th_handler t = r)
  | _ => False
  end.
Proof.
  intros [Hq|before t after n Hq Et Hd|r e events n Hq Ee|n Hq Ee]; split_and!; try done.
  - right. exists t. rewrite Et. split; [set_solver|done].
  - left. exists e. rewrite Ee. by left.
Qed.

(** The output of the loop's thread, with what comes before it. *)
Lemma top_changes a now s0 s s' o pre : loop_ok s0 -> el_events s = el_events s0 -> el_timers s = el_timers s0 -> el_disabled s = el_disabled s0 ->
  el_removing s = el_removing s0 -> (forall x, x ∈ pre -> exists r d, x = Ended r d /\ running s0 = Some r) ->
  goes_on now s s' o -> step_changes a s0 s' (pre ++ o).
Proof.
  intros [H1 H2 H3 H4] E1 E2 E3 E4 Hp Hg. apply goes_on_changes in Hg as (G1 & G2 & G3). rewrite E3 in G1. rewrite E4 in G2.
  assert (forall x, x ∈ pre ++ o -> (exists r d, x = Ended r d /\ running s0 = Some r) \/ exists r d, x = Called r d /\ r ∉ el_disabled s0) as Ho.
  { intros x [Hx|Hx]%elem_of_app; [left; by apply Hp|right]. destruct o as [|[r d|r d|r] [|]]; try done; [by apply elem_of_nil in Hx|].
    apply list_elem_of_singleton in Hx as ->. exists r, d. split; [done|]. destruct G3 as [_ [[e He]|(t & Ht & <-)]].
    - rewrite E1 in He. by apply (H1 r e).
    - rewrite E2 in Ht. by apply H2. }
  constructor; rewrite ?G1, ?G2; try done; [by left|..].
  - intros r d [(? & ? & [=] & _)|(? & ? & [= <- <-] & ?)]%Ho. done.
  - intros r d [(? & ? & [= <- <-] & ?)|(? & ? & [=] & _)]%Ho. done.
  - intros r [(? & ? & [=] & _)|(? & ? & [=] & _)]%Ho.
  - intros r Hr. right. destruct o as [|[r' d|r' d|r'] [|]]; try done; [by rewrite G3 in Hr|]. destruct G3 as [G3 _]. rewrite G3 in Hr.
    injection Hr as ->. exists d. apply elem_of_app. right. by apply list_elem_of_singleton.
  - intros r x. rewrite after_no_removal; [apply not_elem_of_nil|]. by intros [(? & ? & [=] & _)|(? & ? & [=] & _)]%Ho.
Qed.

Lemma remove_changes r b s : loop_ok s -> (b = true -> running s <> None) ->
  step_changes (RemoveReceiver r b) s (fst (remove_receiver r b s)) (snd (remove_receiver r b s)).
Proof.
  intros [_ _ H3 _] _. unfold remove_receiver. cbn [el_active set_timers set_events disable]. rewrite H3.
  destruct (bool_decide_reflect (running s = Some r)) as [E|E]; destruct b; cbn [negb andb fst snd]; constructor; try (intros; first [apply after_one|apply not_elem_of_nil]); cbn; try done; set_solver.
Qed.

Lemma step_changes_ok a s s' o : loop_ok s -> step a s = Some (s', o) -> step_changes a s s' o.
Proof.
  intros H. destruct a as [r e|r dur single now|id|r in_loop|i| | |now|now]; cbn -[loop_top remove_receiver start_timer]; intros E.
  - injection E as <- <-. destruct (emit_cases r e s) as [->|(_ & _ & s1 & Hs & ->)]; [by apply changes_nothing|].
    destruct (notify_one_same s) as (N1 & N2 & N3). destruct Hs as [[-> _]| ->]; by apply changes_nothing.
  - injection E as <- <-. destruct (start_timer_cases r dur single now s) as [->|(_ & _ & s1 & h & _ & Hs & ->)]; [by apply changes_nothing|].
    match goal with |- step_changes _ _ (update_next_trigger ?t ?x) _ => destruct (update_trigger_same t x) as (U1 & U2 & U3) end.
    destruct (notify_one_same s) as (N1 & N2 & N3). destruct Hs as [[-> _]| ->]; apply changes_nothing; by rewrite ?U1, ?U2, ?U3.
  - injection E as <- <-. unfold stop_timer. destruct (erase_timer _ _) as [ts|]; [|by apply changes_nothing]. destruct (nonempty ts); by apply changes_nothing.
  - assert (Some (remove_receiver r in_loop s) = Some (s', o)) as [= E'] by (destruct in_loop, (el_thread s); done).
    pose proof (remove_changes r in_loop s H) as Hr. rewrite E' in Hr. apply Hr. intros ->. unfold running. by destruct (el_thread s).
  - unfold look_again in E. destruct (el_removing s !! i) as [r|] eqn:Ei; [|done]. apply list_elem_of_lookup_2 in Ei as Hin. destruct H as [_ _ H3 _].
    destruct (bool_decide_reflect (el_active s = Some r)) as [Ea|Ea]; injection E as <- <-; [by apply changes_nothing|].
    rewrite H3 in Ea. constructor; [|intros r' Hr|..|intros; apply after_one]; cbn; try done; try set_solver. left. by apply list_elem_of_delete_inv in Hr.
  - injection E as <- <-. destruct (notify_one_same (set_quit true s)) as (N1 & N2 & N3). by apply changes_nothing.
  - destruct (el_thread s) eqn:Et; try done. injection E as <- <-. by apply changes_nothing.
  - assert (loop_top now s = (s', o)) as E' by (destruct (el_thread s); try done; by injection E).
    pose proof (loop_top_goes now s) as Hg. rewrite E' in Hg. apply (top_changes (Run now) now s s s' o []); try done. by intros x ?%elem_of_nil.
  - destruct (el_thread s) as [|r d|u b|] eqn:Et; try done. injection E as E. unfold handler_returned in E.
    assert (running s = Some r) as Er by (unfold running; by rewrite Et).
    pose proof (loop_top_goes now (set_active None s)) as Hg. destruct (loop_top now (set_active None s)) as [s1 o1]. cbn [fst snd] in Hg.
    destruct (_ && _); injection E as <- <-.
    + constructor; try (intros; first [apply after_one|apply not_elem_of_nil]); cbn; try done; set_solver.
    + apply (top_changes (Return now) now s (set_active None s) s1 o1 [Ended r d]); try done. intros x ->%list_elem_of_singleton. eauto.
Qed.

Lemma after_removed_split r o1 o2 x : x ∈ o2 -> x ∈ after_removed r (o1 ++ Removed r :: o2).
Proof.
  intros Hx. induction o1 as [|[r' d|r' d|r'] o1 IH]; cbn; [by rewrite decide_True by done|done|done|].
  destruct (decide (r' = r)); [|done]. apply elem_of_app. right. by right.
Qed.

Lemma after_removed_app r a b x : x ∈ after_removed r (a ++ b) ->
  x ∈ after_removed r a \/ (Removed r ∈ a /\ x ∈ b) \/ x ∈ after_removed r b.
Proof.
  induction a as [|[r' d|r' d|r'] a IH]; cbn; [by right; right|..].
  1, 2: intros [?|[[? ?]|?]]%IH; [by left|right; left; split; [by right|done]|by right; right].
  destruct (decide (r' = r)) as [->|].
  - intros [?|?]%elem_of_app; [by left|right; left; split; [by left|done]].
  - intros [?|[[? ?]|?]]%IH; [by left|right; left; split; [by right|done]|by right; right].
Qed.

(** Nothing of a removed receiver comes, or is still going on. *)
Record silent (ls : list label) (s : event_loop) (os : list output) : Prop := {
  si_removing : forall r, r ∈ el_removing s -> r ∈ el_disabled s;
  si_removed : forall r, Removed r ∈ os -> r ∈ el_disabled s /\ (running s <> Some r \/ RemoveReceiver r true ∈ ls);
  si_called : forall r d, Called r d ∉ after_removed r os;
  si_ended : forall r d, RemoveReceiver r true ∉ ls -> Ended r d ∉ after_removed r os
}.

Lemma silent_step ls a s s' os o : silent ls s os -> loop_ok s -> step a s = Some (s', o) -> silent (ls ++ [a]) s' (os ++ o).
Proof.
  intros [R1 R2 R3 R4] H E. destruct (step_changes_ok a s s' o H E) as [C1 C2 C3 C4 C5 C6 C7]. constructor.
  - intros r [Hr|Hr]%C2; [by apply C1, R1|done].
  - intros r. rewrite elem_of_app. intros [Hr|Hr].
    + destruct (R2 r Hr) as [Hd Hq]. split; [by apply C1|]. destruct Hq as [Hq|Hq]; [|right; apply elem_of_app; by left].
      destruct (decide (running s' = Some r)) as [Hr'|]; [|by left]. destruct (C6 r Hr') as [?|[d Hc]]; [done|]. by apply C3 in Hc.
    + destruct (C5 r Hr) as [Hd Hq]. split; [destruct Hd as [Hd|Hd]; [by apply C1, R1|done]|].
      destruct Hq as [Hq|Hq]; [by left|right]. apply elem_of_app. right. subst a. by left.
  - intros r d [Hx|[[Hr Hx]|Hx]]%after_removed_app; [by apply (R3 r d)| |by apply (C7 r (Called r d))].
    apply C3 in Hx. by destruct (R2 r Hr).
  - intros r d Hn [Hx|[[Hr Hx]|Hx]]%after_removed_app; [| |by apply (C7 r (Ended r d))].
    + apply (R4 r d); [|done]. intros ?. apply Hn, elem_of_app. by left.
    + apply C4 in Hx. destruct (R2 r Hr) as [_ [?|Hin]]; [done|]. apply Hn, elem_of_app. by left.
Qed.

(** ** The order of a receiver's events *)

Definition handled (r : receiver) (os : list output) : list event :=
  omap (fun o => match o with Called r' (Queued e) => if decide (r' = r) then Some e else None | _ => None end) os.

Definition queued (r : receiver) (s : event_loop) : list event :=
  omap (fun p : receiver * event => if decide (p.1 = r) then Some p.2 else None) (el_events s).

Definition is_stop (a : label) : bool := match a with Stop => true | _ => false end.

(** What is emitted to a receiver before the loop is stopped. *)
Fixpoint emitted (r : receiver) (ls : list label) : list event :=
  match ls with
  | [] => []
  | Stop :: _ => []
  | Emit r' e :: ls => if decide (r' = r) then e :: emitted r ls else emitted r ls
  | _ :: ls => emitted r ls
  end.

Lemma emitted_snoc r ls a : emitted r (ls ++ [a]) =
  emitted r ls ++ (if existsb is_stop ls then [] else match a with Emit r' e => if decide (r' = r) then [e] else [] | _ => [] end).
Proof.
  induction ls as [|b ls IH]; [destruct a; cbn; try destruct (decide _); done|].
  destruct b; cbn; try apply IH; [|done]. destruct (decide _); cbn; by rewrite IH.
Qed.

Lemma handled_app r a b : handled r (a ++ b) = handled r a ++ handled r b.
Proof. apply omap_app. Qed.

(** A step that neither removes [r] nor clears the queue. *)
Definition spares (r : receiver) (a : label) : Prop := match a with RemoveReceiver r' _ => r' <> r | Join => False | _ => True end.

Lemma top_queue r now s s' o : goes_on now s s' o -> handled r o ++ queued r s' = queued r s.
Proof.
  intros [Hq|before t after n Hq Et Hd|r' e events n Hq Ee|n Hq Ee]; unfold queued; cbn; [done..| |done].
  rewrite Ee. cbn. by destruct (decide (r' = r)).
Qed.

Lemma queued_filter r r' (s : event_loop) : r' <> r ->
  omap (fun p : receiver * event => if decide (p.1 = r) then Some p.2 else None) (filter (fun e => e.1 <> r') (el_events s)) = queued r s.
Proof.
  intros Hn. unfold queued. induction (el_events s) as [|[x e] l IH]; [done|]. rewrite filter_cons. cbn [fst].
  destruct (decide (x <> r')) as [Hx|Hx]; cbn; rewrite IH; [done|]. rewrite decide_False; [done|]. intros ->. apply Hx. congruence.
Qed.

(** What a step does to the flag, the queue and who may emit. *)
Record step_queue (a : label) (s s' : event_loop) (o : list output) : Prop := {
  sq_quit : el_quit s' = el_quit s || is_stop a;
  sq_disabled : forall r, spares r a -> r ∉ el_disabled s -> r ∉ el_disabled s';
  sq_queue : forall r, spares r a -> r ∉ el_disabled s -> handled r o ++ queued r s' =
    queued r s ++ (if el_quit s then [] else match a with Emit r' e => if decide (r' = r) then [e] else [] | _ => [] end)
}.

Lemma queue_same a s s' : el_quit s' = el_quit s || is_stop a -> el_disabled s' = el_disabled s -> el_events s' = el_events s ->
  (forall r e, a <> Emit r e) -> step_queue a s s' [].
Proof.
  intros E1 E2 E3 Ha. constructor; [done|by rewrite E2|]. intros r _ _. unfold queued. rewrite E3. cbn.
  destruct a; try (by destruct (el_quit s); rewrite app_nil_r). by edestruct Ha.
Qed.

Lemma top_step_queue a now s0 s s' o pre : el_quit s = el_quit s0 -> el_disabled s = el_disabled s0 -> el_events s = el_events s0 ->
  (forall r, handled r pre = []) -> (a = Run now \/ a = Return now) -> goes_on now s s' o -> step_queue a s0 s' (pre ++ o).
Proof.
  intros E1 E2 E3 Hp Ha Hg. pose proof (goes_on_changes _ _ _ _ Hg) as (G1 & _ & _). rewrite E2 in G1. constructor.
  - rewrite <- E1. destruct Hg; destruct Ha; subst a; cbn; by rewrite orb_false_r.
  - by rewrite G1.
  - intros r _ _. rewrite handled_app, Hp. cbn [app]. rewrite (top_queue r now s s' o Hg). unfold queued. rewrite E3.
    destruct Ha; subst a; destruct (el_quit s0); by rewrite app_nil_r.
Qed.

Lemma notify_one_queue s : el_quit (notify_one s) = el_quit s /\ el_events (notify_one s) = el_events s /\ el_disabled (notify_one s) = el_disabled s.
Proof. by destruct (notify_one_cases s) as [->|(u & b & E & ->)]. Qed.

Lemma emit_queue r e s : step_queue (Emit r e) s (emit r e s) [].
Proof.
  unfold emit. destruct (el_quit s) eqn:Eq.
  { constructor; cbn; [by rewrite Eq|done|]. intros r' _ _. by rewrite Eq, app_nil_r. }
  destruct (is_active r s) eqn:Ea; cbn [negb andb].
  - assert (forall s1, el_quit s1 = el_quit s -> el_events s1 = el_events s -> el_disabled s1 = el_disabled s ->
      step_queue (Emit r e) s (set_events (el_events s1 ++ [(r, e)]) s1) []) as Hp.
    { intros s1 E1 E2 E3. constructor; cbn; [by rewrite E1, orb_false_r|by rewrite E3|]. intros r' _ _. unfold queued. cbn.
      rewrite E2, Eq, omap_app. f_equal. cbn. by destruct (decide (r = r')). }
    destruct (notify_one_queue s) as (N1 & N2 & N3). destruct (nonempty (el_events s)); by apply Hp.
  - constructor; cbn; [by rewrite orb_false_r|done|]. intros r' _ Hr. rewrite Eq. apply not_true_iff_false in Ea.
    rewrite decide_False by (intros ->; by apply Ea, is_active_true). by rewrite app_nil_r.
Qed.

Lemma step_queue_ok a s s' o : step a s = Some (s', o) -> a <> Join -> step_queue a s s' o.
Proof.
  destruct a as [r e|r dur single now|id|r in_loop|i| | |now|now]; cbn -[loop_top remove_receiver start_timer]; intros E Hj.
  - injection E as <- <-. apply emit_queue.
  - injection E as <- <-. destruct (start_timer_cases r dur single now s) as [->|(_ & _ & s1 & h & _ & Hs & ->)]; [by apply queue_same; rewrite ?orb_false_r|].
    unfold update_next_trigger. destruct (notify_one_queue s) as (N1 & N2 & N3).
    destruct Hs as [[-> _]| ->]; destruct (_ || _); apply queue_same; cbn; rewrite ?orb_false_r; done.
  - injection E as <- <-. unfold stop_timer. destruct (erase_timer _ _) as [ts|]; [destruct (nonempty ts)|]; by apply queue_same; cbn; rewrite ?orb_false_r.
  - assert (Some (remove_receiver r in_loop s) = Some (s', o)) as [= E'] by (destruct in_loop, (el_thread s); done).
    unfold remove_receiver in E'. destruct (_ && _); injection E' as <- <-; constructor; cbn; try (by rewrite orb_false_r); try set_solver.
    all: intros r' Hr _; unfold queued at 1; cbn; rewrite (queued_filter r' r s) by congruence; destruct (el_quit s); by rewrite app_nil_r.
  - unfold look_again in E. destruct (el_removing s !! i) as [r|]; [|done].
    destruct (bool_decide _); injection E as <- <-; [by apply queue_same; rewrite ?orb_false_r|].
    constructor; cbn; [by rewrite orb_false_r|done|]. intros r' _ _. destruct (el_quit s); by rewrite app_nil_r.
  - injection E as <- <-. destruct (notify_one_queue (set_quit true s)) as (N1 & N2 & N3). apply queue_same; [|done..]. rewrite N1. cbn. by rewrite orb_true_r.
  - done.
  - assert (loop_top now s = (s', o)) as E' by (destruct (el_thread s); try done; by injection E).
    pose proof (loop_top_goes now s) as Hg. rewrite E' in Hg. apply (top_step_queue (Run now) now s s s' o []); eauto.
  - destruct (el_thread s) as [|r d|u b|] eqn:Et; try done. injection E as E. unfold handler_returned in E.
    pose proof (loop_top_goes now (set_active None s)) as Hg. destruct (loop_top now (set_active None s)) as [s1 o1]. cbn [fst snd] in Hg.
    destruct (_ && _); injection E as <- <-.
    + constructor; cbn; [by rewrite orb_false_r|done|]. intros r' _ _. destruct (el_quit s); by rewrite app_nil_r.
    + apply (top_step_queue (Return now) now s (set_active None s) s1 o1 [Ended r d]); eauto.
Qed.

Record in_order (r : receiver) (ls : list label) (s : event_loop) (os : list output) : Prop := {
  io_quit : el_quit s = existsb is_stop ls;
  io_enabled : r ∉ el_disabled s;
  io_queue : handled r os ++ queued r s = emitted r ls
}.

Lemma in_order_run r ls s os : run ls new_loop = Some (s, os) -> Forall (spares r) ls -> in_order r ls s os.
Proof.
  revert s os. induction ls as [|a ls IH] using rev_ind; intros s os.
  { intros [= <- <-] _. constructor; cbn; [done|set_solver|done]. }
  rewrite run_loop_snoc, Forall_app. destruct (run ls new_loop) as [[s1 os1]|]; [|done]. destruct (step a s1) as [[s' o]|] eqn:E; [|done].
  intros [= <- <-] [Hl Ha]. apply Forall_cons in Ha as [Ha _]. destruct (IH s1 os1 eq_refl Hl) as [Q1 Q2 Q3].
  assert (a <> Join) as Hj by (intros ->; exact Ha). destruct (step_queue_ok a s1 s' o E Hj) as [S1 S2 S3]. constructor.
  - rewrite S1, Q1, existsb_app. cbn. by rewrite orb_false_r.
  - by apply S2.
  - rewrite handled_app, <- app_assoc, S3, emitted_snoc, app_assoc, Q3, Q1 by done. done.
Qed.

(** ** The thread does not sleep over work *)

(** The clock runs after its epoch and durations are not negative. *)
Definition clock_ok (a : label) : Prop :=
  match a with StartTimer _ dur _ now => 0 <= dur /\ 0 < now | Run now | Return now => 0 < now | _ => True end.

(** [next_trigger_] is no later than any timer. *)
Definition covers (n : Z) (ts : list timer_holder) : Prop :=
  0 <= n /\ forall t, t ∈ ts -> (0 < th_next_trigger t /\ 0 <= th_interval t) /\ n <> 0 /\ n <= th_next_trigger t.

Record awake (s : event_loop) : Prop := {
  aw_covers : covers (el_next_trigger s) (el_timers s);
  aw_waiting : forall u, el_thread s = Waiting u false -> el_quit s = false /\ el_events s = [] /\
    (el_next_trigger s <> 0 -> exists u0, u = Some u0 /\ u0 <= el_next_trigger s)
}.

Lemma covers_sub n ts ts' : covers n ts -> (forall t, t ∈ ts' -> t ∈ ts) -> covers n ts'.
Proof. intros [Hn H] Hs. split; [done|]. intros t Ht. by apply H, Hs. Qed.

Lemma update_covers s ts t : covers (el_next_trigger s) ts -> 0 < th_next_trigger t -> 0 <= th_interval t ->
  covers (el_next_trigger (update_next_trigger (th_next_trigger t) s)) (ts ++ [t]).
Proof.
  intros [Hn H] Ht Hi. unfold update_next_trigger. destruct (Z.eqb_spec (el_next_trigger s) 0) as [E|E]; cbn [orb].
  - split; [cbn; lia|]. cbn. intros x. rewrite elem_of_app, list_elem_of_singleton. intros [Hx| ->]; [by destruct (H x Hx) as (_ & ? & _)|lia].
  - destruct (Z.ltb_spec (th_next_trigger t) (el_next_trigger s)) as [Hl|Hl]; (split; [cbn; lia|]); cbn; intros x;
      rewrite elem_of_app, list_elem_of_singleton; (intros [Hx| ->]; [|lia]); specialize (H x Hx); lia.
Qed.

Lemma update_for_covers s ts ts' : covers (el_next_trigger s) ts -> (forall t, t ∈ ts' -> 0 < th_next_trigger t /\ 0 <= th_interval t) ->
  covers (el_next_trigger (update_for ts' s)) (ts ++ ts').
Proof.
  revert s ts. induction ts' as [|t ts' IH]; intros s ts H Ht; [by rewrite app_nil_r|].
  change (update_for (t :: ts') s) with (update_for ts' (update_next_trigger (th_next_trigger t) s)).
  rewrite (cons_middle t ts ts'), app_assoc. apply IH; [|set_solver]. apply update_covers; [done|apply Ht; by left..].
Qed.

Definition timed (s : event_loop) : Prop := covers (el_next_trigger s) (el_timers s).

Lemma process_timers_timed now s : timed s -> 0 < now ->
  match process_timers now s with (_, Some (s', _)) => timed s' | (s', None) => timed s' end.
Proof.
  intros [Hn H] Hnow. unfold process_timers. destruct (_ || _); [by split|]. cbn [el_timers set_next_trigger].
  assert (covers (el_next_trigger (set_next_trigger 0 s)) []) as H0 by (split; [done|]; intros t ?%elem_of_nil; done).
  destruct (due_timer now (el_timers s)) as [[[before t] after]|] eqn:Ed.
  - destruct (due_timer_spec _ _ _ _ _ Ed) as [Et Hd].
    assert (forall x, x ∈ el_timers s -> 0 < th_next_trigger x /\ 0 <= th_interval x) as Hp by (intros x Hx; apply (H x Hx)). rewrite Et in Hp.
    pose proof (update_for_covers _ _ before H0 ltac:(set_solver)) as Hb. pose proof (update_for_covers _ _ after Hb ltac:(set_solver)) as Ha.
    destruct (Hp t ltac:(set_solver)) as [_ Hi]. set (s2 := update_for after (update_for before (set_next_trigger 0 s))) in *.
    destruct (Z.eqb_spec (th_interval t) 0) as [E|E]; cbn [negb call_handler]; unfold timed.
    + exact Ha.
    + set (t' := TimerHolder (th_id t) (now + th_interval t) (th_interval t) (th_handler t)).
      pose proof (update_covers (set_timers (before ++ t' :: after) s2) (([] ++ before) ++ after) t' Ha ltac:(cbn; lia) ltac:(cbn; lia)) as Hc.
      cbn [el_next_trigger el_timers set_thread set_active] in *. unfold update_next_trigger in *.
      destruct (_ || _); (apply (covers_sub _ _ _ Hc); cbn; set_solver).
  - pose proof (update_for_covers (set_next_trigger 0 s) [] (el_timers s) H0 ltac:(intros t Ht; apply (H t Ht))) as Hc.
    unfold timed. destruct (update_for_eq (el_timers s) (set_next_trigger 0 s)) as [n E]. rewrite E in Hc |- *. exact Hc.
Qed.

Lemma wait_awake s : timed s -> el_quit s = false -> el_events s = [] -> awake (wait s).
Proof.
  intros Ht Hq He. constructor; [exact Ht|]. cbn. intros u [= <-]. split_and!; [done..|]. intros Hn. destruct (Z.eqb_spec (el_next_trigger s) 0); [done|].
  eexists. split; [done|lia].
Qed.

Lemma loop_top_awake now s : timed s -> 0 < now -> awake (fst (loop_top now s)).
Proof.
  intros Ht Hnow. pose proof (process_timers_timed now s Ht Hnow) as Hp. unfold loop_top. destruct (el_quit s) eqn:Eq; [by constructor|].
  destruct (due_timer now (el_timers s)) as [[[b t] a]|] eqn:Ed.
  - destruct (fired_timer now s b t a Ed) as [n [E|E]].
    + destruct (process_timers now s) as [s1 o1]. cbn in E. subst o1. by constructor.
    + rewrite E. destruct (el_events s) as [|[r e] ev] eqn:Ee; [by apply wait_awake|by constructor].
  - assert (exists n, process_timers now s = (set_next_trigger n s, None)) as [n E].
    { unfold process_timers. destruct (_ || _); [exists (el_next_trigger s); by destruct s|]. cbn [el_timers set_next_trigger]. rewrite Ed.
      destruct (update_for_eq (el_timers s) (set_next_trigger 0 s)) as [n ->]. by exists n. }
    rewrite E in Hp |- *. cbn [el_events set_next_trigger]. destruct (el_events s) as [|[r e] ev] eqn:Ee; [by apply wait_awake|by constructor].
Qed.

Lemma awake_waiting s : awake s -> forall u, el_thread s = Waiting u false -> el_events s = [].
Proof. intros [_ H] u Hu. by destruct (H u Hu) as (_ & ? & _). Qed.

Lemma notify_one_waiting s u : el_thread (notify_one s) = Waiting u false -> False.
Proof. unfold notify_one. destruct (el_thread s) eqn:E; cbn; by rewrite ?E. Qed.

Lemma notify_one_timed s : el_next_trigger (notify_one s) = el_next_trigger s /\ el_timers (notify_one s) = el_timers s.
Proof. by destruct (notify_one_cases s) as [->|(u & b & E & ->)]. Qed.

Lemma awake_start r dur single now s : 0 <= dur -> 0 < now -> awake s -> awake (snd (start_timer r dur single now s)).
Proof.
  intros Hd Hn Hw. destruct (start_timer_cases r dur single now s) as [->|(_ & _ & s1 & h & Et & Hs & ->)]; [done|].
  assert (el_next_trigger s1 = el_next_trigger s) as En.
  { destruct Hs as [[-> _]| ->]; [done|]. apply notify_one_timed. }
  set (t := TimerHolder h (now + dur) (if single then 0 else dur) r). constructor.
  - pose proof (update_covers (set_timers (el_timers s ++ [t]) (set_last_handle h s1)) (el_timers s) t) as Hc.
    cbn [el_next_trigger set_timers set_last_handle] in Hc. rewrite En in Hc.
    specialize (Hc (aw_covers s Hw) ltac:(cbn; lia) ltac:(cbn; destruct single; lia)). unfold update_next_trigger in *. by destruct (_ || _).
  - intros u Hu. assert (el_thread s1 = Waiting u false) as Hu1 by (unfold update_next_trigger in Hu; by destruct (_ || _)).
    destruct Hs as [[-> [He|[H0 Hl]]]| ->]; [by apply (awake_waiting s Hw) in Hu1| |by apply notify_one_waiting in Hu1].
    destruct (aw_waiting s Hw u Hu1) as (Hq & He & Hx). unfold update_next_trigger. cbn [el_next_trigger set_timers set_last_handle].
    destruct (Z.eqb_spec (el_next_trigger s) 0); [done|]. destruct (Z.ltb_spec (now + dur) (el_next_trigger s)); [lia|]. by split_and!.
Qed.

Lemma awake_stop_timer id s : awake s -> awake (stop_timer id s).
Proof.
  intros [[Hn Hc] Hw]. unfold stop_timer. destruct (erase_timer id (el_timers s)) as [ts|] eqn:E; [|by constructor].
  destruct ts as [|t l]; cbn [nonempty].
  - constructor; [split; [done|]; by intros x ?%elem_of_nil|]. intros u Hu. destruct (Hw u Hu) as (? & ? & _). by split_and!.
  - constructor; [|exact Hw]. split; [done|]. intros x Hx. apply Hc. by apply (erase_timer_sub id _ (t :: l)).
Qed.

Lemma awake_remove r b s : awake s -> awake (fst (remove_receiver r b s)).
Proof.
  intros [Hc Hw]. unfold remove_receiver.
  assert (awake (set_timers (filter (fun t => th_handler t <> r) (el_timers s)) (set_events (filter (fun e => e.1 <> r) (el_events s)) (disable r s)))) as H.
  { constructor; [apply (covers_sub _ _ _ Hc); intros t; cbn; by rewrite list_elem_of_filter; intros []|].
    intros u Hu. destruct (Hw u Hu) as (? & He & ?). cbn. rewrite He. by split_and!. }
  destruct (_ && _); [|exact H]. by destruct H.
Qed.

Lemma awake_step a s s' o : clock_ok a -> awake s -> step a s = Some (s', o) -> awake s'.
Proof.
  intros Ha H. destruct a as [r e|r dur single now|id|r in_loop|i| | |now|now]; cbn -[loop_top remove_receiver start_timer]; intros E.
  - injection E as <- _. destruct (emit_cases r e s) as [->|(_ & _ & s1 & Hs & ->)]; [done|].
    destruct (notify_one_timed s) as [N1 N2]. destruct Hs as [[-> He]| ->]; constructor; try apply H.
    + cbn. intros u Hu. by apply (awake_waiting s H) in Hu.
    + cbn. rewrite N1, N2. apply H.
    + cbn. by intros u ?%notify_one_waiting.
  - injection E as <- _. destruct Ha. by apply awake_start.
  - injection E as <- _. by apply awake_stop_timer.
  - assert (Some (remove_receiver r in_loop s) = Some (s', o)) as [= E'] by (destruct in_loop, (el_thread s); done).
    pose proof (awake_remove r in_loop s H) as Hr. by rewrite E' in Hr.
  - unfold look_again in E. destruct (el_removing s !! i) as [r|]; [|done]. destruct (bool_decide _); injection E as <- _; [done|]. by destruct H.
  - injection E as <- _. destruct (notify_one_timed (set_quit true s)) as [N1 N2]. constructor; [rewrite N1, N2; apply H|by intros u ?%notify_one_waiting].
  - destruct (el_thread s) eqn:Et; try done. injection E as <- _. constructor; cbn; [|by rewrite Et].
    split; [apply H|]. by intros t ?%elem_of_nil.
  - assert (loop_top now s = (s', o)) as E' by (destruct (el_thread s); try done; by injection E).
    pose proof (loop_top_awake now s (aw_covers s H) Ha) as Hl. by rewrite E' in Hl.
  - destruct (el_thread s) as [|r d|u b|] eqn:Et; try done. injection E as E. unfold handler_returned in E.
    pose proof (loop_top_awake now (set_active None s) (aw_covers s H) Ha) as Hl. destruct (loop_top now (set_active None s)) as [s1 o1]. cbn [fst] in Hl.
    destruct (negb (el_quit (set_active None s)) && _) eqn:Em; injection E as <- _; [|done].
    apply andb_prop in Em as [Eq%negb_true_iff Em%negb_true_iff]. apply orb_false_iff in Em as [_ Em].
    apply wait_awake; [apply H|done|]. cbn in Em |- *. by destruct (el_events s).
Qed.

Lemma awake_run ls s os : Forall clock_ok ls -> run ls new_loop = Some (s, os) -> awake s.
Proof.
  revert s os. induction ls as [|a ls IH] using rev_ind; intros s os.
  { intros _ [= <- <-]. constructor; [split; [done|]; by intros t ?%elem_of_nil|done]. }
  rewrite Forall_app, run_loop_snoc. intros [Hl Ha]. apply Forall_cons in Ha as [Ha _].
  destruct (run ls new_loop) as [[s1 os1]|]; [|done]. destruct (step a s1) as [[s' o]|] eqn:E; [|done]. intros [= <- _].
  by apply (awake_step a s1 s' o Ha (IH s1 os1 Hl eq_refl)).
Qed.

(** ** The thread gets through *)

Definition of_thread (a : label) : Prop := match a with Run _ | Return _ => True | _ => False end.

(** The events handed to handlers. *)
Definition dispatched (os : list output) : list (receiver * event) :=
  omap (fun o => match o with Called r (Queued e) => Some (r, e) | _ => None end) os.

Definition not_due (now : Z) (s : event_loop) : Prop := forall t, t ∈ el_timers s -> now < th_next_trigger t.

Lemma thread_step now s : loop_ok s -> el_thread s <> Finished -> exists a s1 s' o pre, of_thread a /\ step a s = Some (s', pre ++ o) /\
  dispatched pre = [] /\ (forall r d, Called r d ∉ pre) /\ el_quit s1 = el_quit s /\ el_events s1 = el_events s /\ el_timers s1 = el_timers s /\
  (goes_on now s1 s' o \/ el_quit s = false /\ el_events s = [] /\ s' = wait s1 /\ o = []).
Proof.
  intros H Hf. destruct (el_thread s) as [|r d|u b|] eqn:Et; [| | |done].
  - exists (Run now), s, (fst (loop_top now s)), (snd (loop_top now s)), []. cbn -[loop_top]. rewrite Et. split_and!; try done.
    + by destruct (loop_top now s).
    + intros; apply not_elem_of_nil.
    + left. apply loop_top_goes.
  - pose proof (loop_top_goes now (set_active None s)) as Hg. set (more := match d with Timer _ => true | Queued _ => false end || nonempty (el_events s)).
    assert (forall r' d', Called r' d' ∉ [Ended r d]) as Hc by (intros r' d'; by rewrite list_elem_of_singleton).
    destruct (negb (el_quit s) && negb more) eqn:Em.
    + exists (Return now), (set_active None s), (wait (set_active None s)), [], [Ended r d]. cbn -[loop_top]. rewrite Et. unfold handler_returned.
      cbn [el_quit el_events set_active]. fold more. rewrite Em. split_and!; try done.
      apply andb_prop in Em as [Eq%negb_true_iff Em%negb_true_iff]. right. split_and!; try done.
      apply orb_false_iff in Em as [_ Em]. by destruct (el_events s).
    + exists (Return now), (set_active None s), (fst (loop_top now (set_active None s))), (snd (loop_top now (set_active None s))), [Ended r d].
      cbn -[loop_top]. rewrite Et. unfold handler_returned. cbn [el_quit el_events set_active]. fold more. rewrite Em. split_and!; try done; [|by left].
      by destruct (loop_top now (set_active None s)).
  - exists (Run now), s, (fst (loop_top now s)), (snd (loop_top now s)), []. cbn -[loop_top]. rewrite Et. split_and!; try done.
    + by destruct (loop_top now s).
    + intros; apply not_elem_of_nil.
    + left. apply loop_top_goes.
Qed.

(** Stopped, the thread ends with the next step and calls nothing. *)
Lemma thread_ends (now : Z) s : loop_ok s -> el_quit s = true -> exists ls s' os, Forall of_thread ls /\ run ls s = Some (s', os) /\ el_thread s' = Finished.
Proof.
  intros H Hq. destruct (el_thread s) eqn:Et; [..|exists [], s, []; by split_and!].
  all: destruct (thread_step now s H ltac:(by rewrite Et)) as (a & s1 & s' & o & pre & Ha & E & _ & _ & E1 & _ & _ & Hg).
  all: exists [a], s', ((pre ++ o) ++ []); split_and!; [by constructor|cbn [run]; by rewrite E|].
  all: destruct Hg as [Hg|(? & _)]; [|congruence]; rewrite Hq in E1; by destruct Hg; [|congruence..].
Qed.

Lemma thread_takes_next now s : loop_ok s -> el_quit s = false -> not_due now s ->
  exists a s' o, of_thread a /\ step a s = Some (s', o) /\ el_quit s' = false /\ not_due now s' /\
    match el_events s with
    | [] => el_events s' = [] /\ dispatched o = [] /\ exists u, el_thread s' = Waiting u false
    | (r, e) :: events => el_events s' = events /\ dispatched o = [(r, e)] /\ el_thread s' = Handling r (Queued e)
    end.
Proof.
  intros H Hq Hd. destruct (thread_step now s H) as (a & s1 & s' & o & pre & Ha & E & Hp & _ & E1 & E2 & E3 & Hg).
  { intros Hf. apply (lo_finished s H) in Hf. congruence. }
  exists a, s', (pre ++ o). unfold not_due in *. split; [done|]. split; [exact E|].
  assert (dispatched (pre ++ o) = dispatched o) as -> by (unfold dispatched in *; by rewrite omap_app, Hp).
  destruct Hg as [[Hq'|before t after n _ Et Hdue|r e events n Hq' Ee|n Hq' Ee]|(_ & Ee & -> & ->)]; [congruence|..].
  - rewrite E3 in Et. specialize (Hd t ltac:(rewrite Et; set_solver)). lia.
  - rewrite E2 in Ee. rewrite Ee. cbn. rewrite E3, E1. by split_and!.
  - rewrite E2 in Ee. rewrite Ee. cbn. rewrite E2, E3, E1. split_and!; try done. eauto.
  - rewrite Ee. cbn. rewrite E2, E3, E1. split_and!; try done. eauto.
Qed.

Lemma loop_thread_drains now s : loop_ok s -> el_quit s = false -> not_due now s -> exists ls s' os, Forall of_thread ls /\
  run ls s = Some (s', os) /\ dispatched os = el_events s /\ el_events s' = [] /\ exists u, el_thread s' = Waiting u false.
Proof.
  remember (el_events s) as events eqn:Ee. revert s Ee. induction events as [|[r e] events IH]; intros s Ee H Hq Hd;
    destruct (thread_takes_next now s H Hq Hd) as (a & s1 & o & Ha & E & Hq1 & Hd1 & Hn); rewrite <- Ee in Hn; destruct Hn as (He1 & Ho & Ht).
  - exists [a], s1, (o ++ []). split_and!; [by constructor|cbn [run]; by rewrite E|by rewrite app_nil_r|done|done].
  - destruct (IH s1 (eq_sym He1) (loop_ok_step a s s1 o H E) Hq1 Hd1) as (ls & s' & os & Hl & Er & Hos & He' & Hu).
    exists (a :: ls), s', (o ++ os). split_and!; [by constructor|cbn [run]; by rewrite E, Er| |done|done].
    unfold dispatched in *. by rewrite omap_app, Ho, Hos.
Qed.

(** Nothing is called once the loop is stopped. *)
Lemma quit_step a s s' o : el_quit s = true -> step a s = Some (s', o) -> el_quit s' = true /\ forall r d, Called r d ∉ o.
Proof.
  intros Hq E. assert (a = Join \/ a <> Join) as [->|Hj] by (destruct a; auto).
  - cbn in E. destruct (el_thread s); try done. injection E as <- <-. split; [done|]. intros; apply not_elem_of_nil.
  - destruct (step_queue_ok a s s' o E Hj) as [Sq _ _]. split; [by rewrite Sq, Hq|]. intros r d.
    assert (forall now s1 s2 o1, el_quit s1 = true -> goes_on now s1 s2 o1 -> o1 = []) as Hg by (intros ? ? ? ? ? []; congruence).
    destruct a as [r' e|r' dur single now|id|r' in_loop|i| | |now|now]; cbn -[loop_top remove_receiver start_timer] in E;
      try (injection E as _ <-; apply not_elem_of_nil).
    + assert (Some (remove_receiver r' in_loop s) = Some (s', o)) as [= E'] by (destruct in_loop, (el_thread s); done).
      unfold remove_receiver in E'. destruct (_ && _); injection E' as _ <-; [apply not_elem_of_nil|by rewrite list_elem_of_singleton].
    + unfold look_again in E. destruct (el_removing s !! i); [|done].
      destruct (bool_decide _); injection E as _ <-; [apply not_elem_of_nil|by rewrite list_elem_of_singleton].
    + done.
    + assert (loop_top now s = (s', o)) as E' by (destruct (el_thread s); try done; by injection E).
      pose proof (Hg now s _ _ Hq (loop_top_goes now s)) as Ho. rewrite E' in Ho. cbn in Ho. subst o. apply not_elem_of_nil.
    + destruct (el_thread s) as [|r' d'|u b|]; try done. injection E as E. unfold handler_returned in E. cbn [el_quit set_active] in E. rewrite Hq in E.
      pose proof (Hg now (set_active None s) _ _ Hq (loop_top_goes now (set_active None s))) as Ho. cbn [negb andb] in E.
      destruct (loop_top now (set_active None s)) as [s1 o1]. cbn in Ho. subst o1. injection E as _ <-. by rewrite list_elem_of_singleton.
Qed.

Lemma quit_run ls s s' os : el_quit s = true -> run ls s = Some (s', os) -> forall r d, Called r d ∉ os.
Proof.
  revert s os. induction ls as [|a ls IH]; intros s os Hq; cbn [run]; [intros [= _ <-] r d; apply not_elem_of_nil|].
  destruct (step a s) as [[s1 o1]|] eqn:E; [|done]. destruct (run ls s1) as [[s2 o2]|] eqn:Er; [|done]. intros [= -> <-] r d.
  destruct (quit_step a s s1 o1 Hq E) as [Hq1 Ho]. rewrite elem_of_app. intros [?|Hr]; [by apply (Ho r d)|by apply (IH s1 o2 Hq1 Er r d)].
Qed.
End event_loop.
Arguments event_loop event : clear implicits.
Arguments label event : clear implicits.
Arguments output event : clear implicits.

(** ** Properties *)

(** Once [remove_receiver] has returned, the receiver is not called again; and
    when it was not called from a handler, no call of the receiver is still
    going on, so the object may be destroyed. *)
Theorem removed_receivers_silent {event} (ls : list (label event)) s o1 o2 r
  (E : run ls new_loop = Some (s, o1 ++ Removed r :: o2)) :
  (forall d, Called r d ∉ o2) /\ (RemoveReceiver r true ∉ ls -> running s <> Some r /\ forall d, Ended r d ∉ o2).
Proof.
  assert (silent ls s (o1 ++ Removed r :: o2)) as [S1 S2 S3 S4].
  { apply (run_ind (@silent event)); [| |done].
    - constructor; cbn; set_solver.
    - intros ls' a s1 s' os o Hs Hok Ea. by apply (silent_step ls' a s1). }
  split; [|intros Hn; split].
  - intros d Hd. apply (S3 r d). by apply after_removed_split.
  - destruct (S2 r) as [_ [?|?]]; [set_solver|done|done].
  - intros d Hd. apply (S4 r d Hn). by apply after_removed_split.
Qed.

(** A receiver that is not removed gets its events in the order they were
    emitted, each once: those it was called with and those still queued are the
    events emitted to it until the loop was stopped. *)
Theorem events_in_order {event} (ls : list (label event)) s os r (E : run ls new_loop = Some (s, os)) (Hs : Forall (spares r) ls) :
  handled r os ++ queued r s = emitted r ls.
Proof. by destruct (in_order_run r ls s os E Hs). Qed.

(** No wake-up is lost: when the thread waits and was not notified, the loop is
    not stopped, nothing is queued, and it waits no longer than the first timer. *)
Theorem no_lost_wakeup {event} (ls : list (label event)) s os u (Hc : Forall clock_ok ls) (E : run ls new_loop = Some (s, os))
  (Hw : el_thread s = Waiting u false) :
  el_quit s = false /\ el_events s = [] /\ forall t, t ∈ el_timers s -> exists u0, u = Some u0 /\ u0 <= th_next_trigger t.
Proof.
  destruct (awake_run ls s os Hc E) as [[Hn Hcov] Ha]. destruct (Ha u Hw) as (Hq & He & Hu). split_and!; [done..|].
  intros t Ht. destruct (Hcov t Ht) as (_ & H0 & Hl). destruct (Hu H0) as (u0 & -> & ?). exists u0. split; [done|lia].
Qed.

(** Left to itself, the thread calls the handlers of all queued events in order
    and waits, when no timer is due; and when the loop is stopped it ends, and
    nothing is called any more whatever else happens. *)
Theorem queue_drains {event} (ls : list (label event)) s os now (E : run ls new_loop = Some (s, os)) :
  if el_quit s then
    (exists ls' s' os', Forall of_thread ls' /\ run ls' s = Some (s', os') /\ el_thread s' = Finished) /\
    (forall ls' s' os', run ls' s = Some (s', os') -> forall r d, Called r d ∉ os')
  else
    not_due now s -> exists ls' s' os', Forall of_thread ls' /\ run ls' s = Some (s', os') /\ dispatched os' = el_events s /\
      el_events s' = [] /\ exists u, el_thread s' = Waiting u false.
Proof.
  assert (loop_ok s) as H by (by apply (run_ind (event := event) (fun _ _ _ => True) I (fun _ _ _ _ _ _ _ _ _ => I) ls s os E)).
  destruct (el_quit s) eqn:Eq.
  - split; [by apply (thread_ends now)|]. intros ls' s' os'. by apply quit_run.
  - by apply loop_thread_drains.
Qed.

(** ** On concrete runs *)

Module LoopSample.
Definition sample : list (label nat) :=
  [Emit 1%nat 10%nat; Run 5; Emit 1%nat 11%nat; Emit 2%nat 20%nat; RemoveReceiver 1%nat false; LookAgain 0; Return 6; LookAgain 0; Return 7].

(** The thread is in the first receiver's handler when another thread removes it:
    the removal waits, and the second event of the receiver is not delivered. *)
Example removal_waits : match run sample new_loop with
  | Some (s, os) => os = [Called 1%nat (Queued 10%nat); Ended 1%nat (Queued 10%nat); Called 2%nat (Queued 20%nat); Removed 1%nat; Ended 2%nat (Queued 20%nat)]
  | None => False end.
Proof. by vm_compute. Qed.

Definition timers : list (label nat) := [Run 1; StartTimer 1%nat 10 false 2; StartTimer 2%nat 3 true 2; Run 2; Run 5; Return 6].

(** A repeating timer of ten and a single one of three: the single one fires at
    five, the thread waits until twelve. *)
Example timers_fire : match run timers new_loop with
  | Some (s, os) => os = [Called 2%nat (Timer 2); Ended 2%nat (Timer 2)] /\ el_thread s = Waiting (Some 12) false
  | None => False end.
Proof. by vm_compute. Qed.

(** A repeating timer without a duration fires once, like a single-shot one. *)
Example zero_interval : match run [StartTimer 1%nat 0 false 4; Run 5; Return 6] (new_loop (event := nat)) with
  | Some (s, os) => os = [Called 1%nat (Timer 1); Ended 1%nat (Timer 1)] /\ el_timers s = []
  | None => False end.
Proof. by vm_compute. Qed.

(** A timer that is always due keeps a queued event waiting, as the note at
    [start_timer] says. *)
Example timer_starves : match run ([StartTimer 1%nat 1 false 1; Emit 2%nat 20%nat; Run 10] ++ [Return 20; Return 30; Return 40; Return 50]) new_loop with
  | Some (s, os) => dispatched os = [] /\ el_events s = [(2%nat, 20%nat)]
  | None => False end.
Proof. by vm_compute. Qed.
End LoopSample.
Import LoopSample.

Definition final (ls : list (label nat)) : event_loop nat * list (output nat) :=
  match run ls new_loop with Some r => r | None => (new_loop, []) end.

Lemma removed_receivers_silent_witness : running (fst (final sample)) <> Some 1%nat.
Proof.
  assert (run sample new_loop = Some (fst (final sample), [Called 1%nat (Queued 10%nat); Ended 1%nat (Queued 10%nat); Called 2%nat (Queued 20%nat)] ++
    Removed 1%nat :: [Ended 2%nat (Queued 20%nat)])) as E by (vm_compute; reflexivity).
  destruct (removed_receivers_silent sample _ _ _ _ E) as [_ H]. apply H. clear.
  unfold sample. rewrite !not_elem_of_cons. repeat split; try discriminate. apply not_elem_of_nil.
Defined.

Lemma events_in_order_witness : handled 2%nat (snd (final sample)) ++ queued 2%nat (fst (final sample)) = [20%nat].
Proof.
  assert (run sample new_loop = Some (fst (final sample), snd (final sample))) as E by (vm_compute; reflexivity).
  rewrite (events_in_order sample _ _ 2%nat E); [reflexivity|]. unfold sample. repeat constructor; discriminate.
Defined.

Lemma no_lost_wakeup_witness : el_events (fst (final timers)) = [].
Proof.
  assert (run timers new_loop = Some (fst (final timers), snd (final timers))) as E by (vm_compute; reflexivity).
  assert (el_thread (fst (final timers)) = Waiting (Some 12) false) as Hw by (vm_compute; reflexivity).
  apply (no_lost_wakeup timers _ _ (Some 12)) in E as (_ & He & _); [exact He| |exact Hw].
  unfold timers. repeat constructor; vm_compute; done.
Defined.

Definition two_events : list (label nat) := [Emit 1%nat 10%nat; Emit 2%nat 20%nat].

Lemma queue_drains_witness :
  exists ls' s' os', run ls' (fst (final two_events)) = Some (s', os') /\ dispatched os' = [(1%nat, 10%nat); (2%nat, 20%nat)].
Proof.
  assert (run two_events new_loop = Some (fst (final two_events), snd (final two_events))) as E by (vm_compute; reflexivity).
  destruct (queue_drains two_events _ _ 5 E) as (ls' & s' & os' & _ & Er & Ed & _); [by intros t ?%elem_of_nil|].
  exists ls', s', os'. exact (conj Er Ed).
Defined.
